(** * Policy rule normalisation and compliance evaluation

    A shallow embedding of the rule engine of [web/src/app/app.component.ts]:
    [normalizeParserResponse] with its inner [synthRuleCondition],
    [alignParsedCategoriesWithDataset], [evaluateRuleAgainstTx] and
    [applyPolicyToRows], together with the JavaScript primitives these
    functions call (string methods, the regular expressions written in the
    source, number conversions, JSON).

    Conventions of the embedding.
    - A JavaScript string is a sequence of code units; the embedding keeps
      the code units below 256, so a string is a [string] of [ascii].
    - A JavaScript number is an IEEE-754 double.  The embedding represents a
      finite number by a decimal numeral [Dec m e] (the value m * 10^e), the
      numeral that [String] prints for it; the order and equality of numbers
      are those of the numerals.  A numeral read from text stands for the
      double nearest to it.  This is exact, for reading, printing and
      comparing, on the numerals of at most 15 significant digits
      ([JSNumber.exact]): two of them never share a double, and each is the
      shortest text of its own.  Beyond them the embedding does not round
      where the code does, and the statements that read a number from text
      or print one are made for exact numerals.
    - Exceptions are results: a function that can throw returns [Throw]. *)

From Stdlib Require Import ZArith NArith Ascii String List Bool Lia DecimalString DecimalN.
From stdpp Require Import base option list gmap strings.

Set Warnings "-register-all".

Local Open Scope string_scope.
Local Open Scope Z_scope.

(** ** Strings *)

Module JSString.

Definition code (c : ascii) : N := N_of_ascii c.

(** The class [\s] and the characters removed by [trim]: TAB, LF, VT, FF, CR,
    SPACE and NBSP. *)
Definition is_space (c : ascii) : bool :=
  match code c with
  | 9 | 10 | 11 | 12 | 13 | 32 | 160 => true
  | _ => false
  end%N.

(** Line terminators, which [.] does not match. *)
Definition is_line_terminator (c : ascii) : bool :=
  match code c with
  | 10 | 13 => true
  | _ => false
  end%N.

Definition in_range (lo hi : N) (c : ascii) : bool :=
  ((lo <=? code c) && (code c <=? hi))%N.

(** [\d] *)
Definition is_digit (c : ascii) : bool := in_range 48 57 c.
Definition is_upper (c : ascii) : bool := in_range 65 90 c.
Definition is_lower (c : ascii) : bool := in_range 97 122 c.
(** [[a-zA-Z_]] *)
Definition is_ident_start (c : ascii) : bool :=
  is_upper c || is_lower c || Ascii.eqb c "_".
(** [[a-zA-Z0-9_]], which is also [\w] *)
Definition is_word (c : ascii) : bool := is_ident_start c || is_digit c.

(** [toLowerCase] on one code unit: A-Z and the Latin-1 capitals
    (all of 192..222 but the multiplication sign 215) move up by 32. *)
Definition lower_char (c : ascii) : ascii :=
  if is_upper c || (in_range 192 222 c && negb (code c =? 215)%N)
  then ascii_of_N (code c + 32) else c.

Fixpoint toLowerCase (s : string) : string :=
  match s with
  | EmptyString => EmptyString
  | String c r => String (lower_char c) (toLowerCase r)
  end.

(** A pattern letter under the flag [i]: the letters of the patterns in the
    source are ASCII, and only their two ASCII cases canonicalise alike. *)
Definition char_ci (p c : ascii) : bool :=
  Ascii.eqb c p || (is_upper c && Ascii.eqb (ascii_of_N (code c + 32)) p).

(** Match the literal [pat] case-insensitively at the head of [s]; the rest
    of [s] after it. *)
Fixpoint strip_prefix_ci (pat s : string) : option string :=
  match pat with
  | EmptyString => Some s
  | String p pat' =>
      match s with
      | String c r => if char_ci p c then strip_prefix_ci pat' r else None
      | EmptyString => None
      end
  end.

Fixpoint trimStart (s : string) : string :=
  match s with
  | String c r => if is_space c then trimStart r else s
  | EmptyString => EmptyString
  end.

Fixpoint trimEnd (s : string) : string :=
  match s with
  | String c r =>
      match trimEnd r with
      | EmptyString => if is_space c then EmptyString else String c EmptyString
      | r' => String c r'
      end
  | EmptyString => EmptyString
  end.

Definition trim (s : string) : string := trimEnd (trimStart s).

(** [s.includes(sub)] *)
Fixpoint includes (s sub : string) : bool :=
  String.prefix sub s ||
  match s with
  | String _ r => includes r sub
  | EmptyString => false
  end.

(** The maximal run of characters of a class at the head of [s], and what
    follows it. *)
Fixpoint span (p : ascii -> bool) (s : string) : string * string :=
  match s with
  | String c r =>
      if p c then let '(a, b) := span p r in (String c a, b) else (EmptyString, s)
  | EmptyString => (EmptyString, EmptyString)
  end.

Definition skip_spaces (s : string) : string := snd (span is_space s).

Fixpoint drop (n : nat) (s : string) : string :=
  match n, s with
  | S k, String _ r => drop k r
  | _, _ => s
  end.

Fixpoint last_char (s : string) : option ascii :=
  match s with
  | EmptyString => None
  | String c EmptyString => Some c
  | String _ r => last_char r
  end.

Fixpoint drop_last (s : string) : string :=
  match s with
  | EmptyString => EmptyString
  | String _ EmptyString => EmptyString
  | String c r => String c (drop_last r)
  end.

Fixpoint forallb_str (p : ascii -> bool) (s : string) : bool :=
  match s with
  | EmptyString => true
  | String c r => p c && forallb_str p r
  end.

(** [r] is what remains of [c] after some prefix. *)
Definition suffix_of (r c : string) : Prop := exists p, c = p ++ r.

Definition no_line_terminator (s : string) : bool :=
  forallb_str (fun x => negb (is_line_terminator x)) s.

Fixpoint repeat_char (c : ascii) (n : nat) : string :=
  match n with
  | O => EmptyString
  | S k => String c (repeat_char c k)
  end.

(** The class of the two quote characters, double (code 34) and single. *)
Definition is_quote (c : ascii) : bool :=
  match code c with
  | 34 | 39 => true
  | _ => false
  end%N.

Definition is_empty (s : string) : bool :=
  match s with EmptyString => true | _ => false end.

(** [parts.join(sep)] on strings *)
Fixpoint join (sep : string) (l : list string) : string :=
  match l with
  | [] => EmptyString
  | [x] => x
  | x :: r => x ++ sep ++ join sep r
  end.

(** *** [split] on a regular expression

    [String.prototype.split] with a pattern that has no capture group and
    never matches the empty string: scan from the left; where the pattern
    matches, close the current piece and resume after the match.  [sep]
    gives the length of the match at the head of its argument. *)
Fixpoint split_go (sep : string -> option nat) (skip : nat) (cur : string)
    (s : string) : list string :=
  match s with
  | EmptyString => [cur]
  | String c r =>
      match skip with
      | S k => split_go sep k cur r
      | O =>
          match sep s with
          | Some (S k) => cur :: split_go sep k EmptyString r
          | _ => split_go sep O (cur ++ String c EmptyString) r
          end
      end
  end.

Definition split_re (sep : string -> option nat) (s : string) : list string :=
  split_go sep O EmptyString s.

(** [\s+WORD\s+] with the flag [i], matched at the head of [s]: both runs of
    white space are greedy, and giving characters back cannot help, since
    the character after a maximal run is not a space. *)
Definition sep_word (word : string) (s : string) : option nat :=
  let '(w1, r1) := span is_space s in
  if is_empty w1 then None else
  match strip_prefix_ci word r1 with
  | Some r2 =>
      let '(w2, _) := span is_space r2 in
      if is_empty w2 then None
      else Some (String.length w1 + String.length word + String.length w2)%nat
  | None => None
  end.

End JSString.

Import JSString.

(** ** Numbers *)

Module JSNumber.

Inductive number :=
| NaN
| Inf (negative : bool)
| Dec (m e : Z).

Definition zero : number := Dec 0 0.

(** Order of two numerals, at their common exponent. *)
Definition dec_compare (m1 e1 m2 e2 : Z) : comparison :=
  let e := Z.min e1 e2 in
  Z.compare (m1 * 10 ^ (e1 - e)) (m2 * 10 ^ (e2 - e)).

Definition compare (a b : number) : option comparison :=
  match a, b with
  | NaN, _ | _, NaN => None
  | Inf s1, Inf s2 =>
      Some (if Bool.eqb s1 s2 then Eq else if s1 then Lt else Gt)
  | Inf s, Dec _ _ => Some (if s then Lt else Gt)
  | Dec _ _, Inf s => Some (if s then Gt else Lt)
  | Dec m1 e1, Dec m2 e2 => Some (dec_compare m1 e1 m2 e2)
  end.

(** [a === b], [a !== b], [a < b], [a <= b], [a > b], [a >= b] on numbers:
    every comparison with NaN is false but [!==]. *)
Definition eqb (a b : number) : bool :=
  match compare a b with Some Eq => true | _ => false end.
Definition neqb (a b : number) : bool := negb (eqb a b).
Definition ltb (a b : number) : bool :=
  match compare a b with Some Lt => true | _ => false end.
Definition leb (a b : number) : bool :=
  match compare a b with Some Lt | Some Eq => true | _ => false end.
Definition gtb (a b : number) : bool := ltb b a.
Definition geb (a b : number) : bool := leb b a.

Definition is_nan (a : number) : bool :=
  match a with NaN => true | _ => false end.

(** Falsy numbers: zero and NaN. *)
Definition truthy (a : number) : bool :=
  match a with
  | NaN => false
  | Inf _ => true
  | Dec m _ => negb (m =? 0)
  end.

Definition opp (a : number) : number :=
  match a with
  | NaN => NaN
  | Inf s => Inf (negb s)
  | Dec m e => Dec (- m) e
  end.

(** *** Text to number *)

(** The value of a run of decimal digits. *)
Definition digits_value (ds : string) : Z :=
  match NilEmpty.uint_of_string ds with
  | Some u => Z.of_N (N.of_uint u)
  | None => 0
  end.

Definition digit_in_radix (radix : N) (c : ascii) : option N :=
  let d :=
    if is_digit c then Some (code c - 48)%N
    else if in_range 97 102 c then Some (code c - 87)%N
    else if in_range 65 70 c then Some (code c - 55)%N
    else None in
  match d with
  | Some v => if (v <? radix)%N then Some v else None
  | None => None
  end.

Fixpoint radix_value (radix : N) (acc : N) (s : string) : option N :=
  match s with
  | EmptyString => Some acc
  | String c r =>
      match digit_in_radix radix c with
      | Some d => radix_value radix (acc * radix + d)%N r
      | None => None
      end
  end.

(** ExponentPart: [e] or [E], an optional sign, digits; nothing after. *)
Definition parse_exponent (s : string) : option Z :=
  match s with
  | EmptyString => Some 0
  | String c r =>
      if char_ci "e" c then
        let '(sign, r') :=
          match r with
          | String "+" r' => (1, r')
          | String "-" r' => (-1, r')
          | _ => (1, r)
          end in
        let '(ds, rest) := span is_digit r' in
        if is_empty ds || negb (is_empty rest) then None
        else Some (sign * digits_value ds)
      else None
  end.

(** StrUnsignedDecimalLiteral *)
Definition parse_unsigned_decimal (s : string) : number :=
  if String.eqb s "Infinity" then Inf false else
  let '(ip, r1) := span is_digit s in
  match r1 with
  | String "." r2 =>
      let '(fp, r3) := span is_digit r2 in
      if is_empty ip && is_empty fp then NaN else
      match parse_exponent r3 with
      | Some e => Dec (digits_value (ip ++ fp)) (e - Z.of_nat (String.length fp))
      | None => NaN
      end
  | _ =>
      if is_empty ip then NaN else
      match parse_exponent r1 with
      | Some e => Dec (digits_value ip) e
      | None => NaN
      end
  end.

(** [Number(s)] for a string [s] (StringToNumber): white space trimmed, the
    empty text is 0, then a binary, octal or hexadecimal integer or a signed
    decimal literal; anything else is NaN. *)
Definition of_string (s : string) : number :=
  match trim s with
  | EmptyString => zero
  | String "0" (String x (String c r) as body) =>
      let radix :=
        if char_ci "x" x then Some 16%N
        else if char_ci "o" x then Some 8%N
        else if char_ci "b" x then Some 2%N
        else None in
      match radix with
      | Some rd =>
          match radix_value rd 0 (String c r) with
          | Some v => Dec (Z.of_N v) 0
          | None => NaN
          end
      | None => parse_unsigned_decimal (String "0" body)
      end
  | String "+" r => parse_unsigned_decimal r
  | String "-" r => opp (parse_unsigned_decimal r)
  | t => parse_unsigned_decimal t
  end.

(** *** Number to text *)

Definition string_of_N (n : N) : string := NilEmpty.string_of_uint (N.to_uint n).

(** Split a digit string into its part without trailing zeros and the
    number of zeros removed. *)
Fixpoint strip_zeros (ds : string) : string * nat :=
  match ds with
  | EmptyString => (EmptyString, O)
  | String c r =>
      match strip_zeros r with
      | (EmptyString, z) =>
          if Ascii.eqb c "0" then (EmptyString, S z) else (String c EmptyString, z)
      | (r', z) => (String c r', z)
      end
  end.

Definition take (n : nat) (s : string) : string := String.substring 0 n s.

(** Number::toString of a positive numeral with digits [ds] (no trailing
    zero, [k] of them) and decimal exponent [n]: the value is
    0.ds * 10^n. *)
Definition positive_to_string (ds : string) (n : Z) : string :=
  let k := Z.of_nat (String.length ds) in
  if (k <=? n) && (n <=? 21) then
    ds ++ repeat_char "0" (Z.to_nat (n - k))
  else if (0 <? n) && (n <=? 21) then
    take (Z.to_nat n) ds ++ "." ++ drop (Z.to_nat n) ds
  else if (-6 <? n) && (n <=? 0) then
    "0." ++ repeat_char "0" (Z.to_nat (- n)) ++ ds
  else
    let e := n - 1 in
    let es := (if e <? 0 then "-" else "+") ++ string_of_N (Z.to_N (Z.abs e)) in
    match ds with
    | String d EmptyString => String d "e" ++ es
    | String d r => String d "." ++ r ++ "e" ++ es
    | EmptyString => EmptyString
    end.

(** [String(x)] for a number [x]. *)
Definition to_string (a : number) : string :=
  match a with
  | NaN => "NaN"
  | Inf s => if s then "-Infinity" else "Infinity"
  | Dec m e =>
      if m =? 0 then "0" else
      let '(ds, z) := strip_zeros (string_of_N (Z.to_N (Z.abs m))) in
      let body := positive_to_string ds (Z.of_nat (String.length ds) + Z.of_nat z + e) in
      if m <? 0 then "-" ++ body else body
  end.

(** *** The numerals on which the embedding is exact

    At most 15 significant digits, and a size within the normal range of
    the doubles: such a numeral is the shortest text that reads as the
    double nearest to it, and the order of two of them is the order of
    their doubles.  NaN and the infinities are themselves. *)
Definition exact (a : number) : bool :=
  match a with
  | Dec m e => (Z.abs m <? 10 ^ 15) && (-290 <=? e) && (e <=? 290)
  | _ => true
  end.

End JSNumber.

(** ** Exceptions *)

Inductive exn := TypeError | SyntaxError | RangeError.

Inductive result (A : Type) :=
| Ok (a : A)
| Throw (e : exn).
Arguments Ok {A} a.
Arguments Throw {A} e.

Global Instance result_ret : MRet result := fun A a => Ok a.
Global Instance result_bind : MBind result := fun A B k r =>
  match r with
  | Ok a => k a
  | Throw e => Throw e
  end.

(** ** JSON values held as immutable trees

    The values that [JSON.parse] and [Response.json] produce, for the code
    that only reads them.  An object is the list of its own properties in
    enumeration order.  [JNative k] is the built-in object that a plain
    object inherits under the name [k] from [Object.prototype]. *)

Module Json.

Inductive json :=
| JNull
| JBool (b : bool)
| JNum (n : JSNumber.number)
| JStr (s : string)
| JArr (elems : list json)
| JObj (props : list (string * json))
| JNative (name : string).

Definition props := list (string * json).

Fixpoint assoc {A : Type} (k : string) (l : list (string * A)) : option A :=
  match l with
  | [] => None
  | (k', v) :: r => if String.eqb k k' then Some v else assoc k r
  end.

(** The property names of [Object.prototype]. *)
Definition object_prototype_names : list string :=
  [ "constructor"; "__defineGetter__"; "__defineSetter__"; "hasOwnProperty";
    "__lookupGetter__"; "__lookupSetter__"; "isPrototypeOf";
    "propertyIsEnumerable"; "toString"; "valueOf"; "__proto__";
    "toLocaleString" ].

Definition inherited (k : string) : bool :=
  existsb (String.eqb k) object_prototype_names.

(** [o[k]] on a plain object: [None] is [undefined]. *)
Definition get_prop (o : props) (k : string) : option json :=
  match assoc k o with
  | Some v => Some v
  | None => if inherited k then Some (JNative k) else None
  end.

(** [o[k] = v] on a plain object: an own property keeps its place, a new
    one goes last. *)
Fixpoint set_prop (o : props) (k : string) (v : json) : props :=
  match o with
  | [] => [(k, v)]
  | (k', v') :: r =>
      if String.eqb k k' then (k', v) :: r else (k', v') :: set_prop r k v
  end.

(** [v.k] for any value [v] but [null] and [undefined], for a name [k] that
    is on no prototype: only plain objects have it. *)
Definition member (v : json) (k : string) : option json :=
  match v with
  | JObj o => get_prop o k
  | _ => None
  end.

Definition truthy (v : json) : bool :=
  match v with
  | JNull => false
  | JBool b => b
  | JNum n => JSNumber.truthy n
  | JStr s => negb (is_empty s)
  | JArr _ | JObj _ | JNative _ => true
  end.

Definition opt_truthy (v : option json) : bool :=
  match v with Some x => truthy x | None => false end.

(** What [String] gives for an inherited built-in. *)
Definition native_text (k : string) : string :=
  if String.eqb k "__proto__" then "[object Object]"
  else "function " ++ (if String.eqb k "constructor" then "Object" else k)
       ++ "() { [native code] }".

(** [String(v)] *)
Fixpoint to_string (v : json) : string :=
  match v with
  | JNull => "null"
  | JBool b => if b then "true" else "false"
  | JNum n => JSNumber.to_string n
  | JStr s => s
  | JArr l =>
      join "," (map (fun x => match x with JNull => EmptyString | _ => to_string x end) l)
  | JObj _ => "[object Object]"
  | JNative k => native_text k
  end.

(** [Number(v)] *)
Definition to_number (v : json) : JSNumber.number :=
  match v with
  | JNull => JSNumber.zero
  | JBool b => JSNumber.Dec (if b then 1 else 0) 0
  | JNum n => n
  | JStr s => JSNumber.of_string s
  | JArr _ => JSNumber.of_string (to_string v)
  | JObj _ | JNative _ => JSNumber.NaN
  end.

(** *** [JSON.stringify] *)

Definition dquote : string := String (ascii_of_N 34) EmptyString.

Definition hex_digit (n : N) : ascii :=
  ascii_of_N (if (n <? 10)%N then n + 48 else n + 87).

(** QuoteJSONString, one code unit: the quote and the backslash are
    escaped, control characters have a short escape or a [\u00XX] one. *)
Definition quote_char (c : ascii) : string :=
  match code c with
  | 34 => String "\" dquote
  | 92 => "\\"
  | 8 => "\b"
  | 12 => "\f"
  | 10 => "\n"
  | 13 => "\r"
  | 9 => "\t"
  | n => if (n <? 32)%N
         then "\u00" ++ String (hex_digit (n / 16)) (String (hex_digit (n mod 16)) EmptyString)
         else String c EmptyString
  end%N.

Fixpoint quote_body (s : string) : string :=
  match s with
  | EmptyString => EmptyString
  | String c r => quote_char c ++ quote_body r
  end.

Definition quote (s : string) : string := dquote ++ quote_body s ++ dquote.

(** A built-in that is a function; the other one, under [__proto__], is
    the object [Object.prototype]. *)
Definition native_is_function (k : string) : bool := negb (String.eqb k "__proto__").

(** SerializeJSONProperty: [None] is [undefined], which a function
    serialises to. *)
Fixpoint stringify (v : json) : option string :=
  match v with
  | JNull => Some "null"
  | JBool b => Some (if b then "true" else "false")
  | JNum n =>
      Some (match n with
            | JSNumber.Dec _ _ => JSNumber.to_string n
            | _ => "null"
            end)
  | JStr s => Some (quote s)
  | JArr l =>
      Some ("[" ++ join ","
              (map (fun x => match stringify x with Some t => t | None => "null" end) l)
            ++ "]")
  | JObj o =>
      Some ("{" ++ join ","
              (omap (fun kv => match stringify (snd kv) with
                               | Some t => Some (quote (fst kv) ++ ":" ++ t)
                               | None => None
                               end) o)
            ++ "}")
  | JNative k => if native_is_function k then None else Some "{}"
  end.

End Json.

Import Json.

(** ** Conversions that can throw *)

Module Coerce.

(** Whether [String(v)] and [Number(v)] return.  An object is converted
    through its [toString]; a parsed document can hold a property of that
    name only as data, which is not callable, and the conversion then throws
    a TypeError.  An array converts its elements, but for [null]. *)
Fixpoint convertible (v : json) : bool :=
  match v with
  | JObj o => negb (existsb (fun kv => String.eqb (fst kv) "toString") o)
  | JArr l => forallb convertible l
  | _ => true
  end.

(** [Number(v)]; [None] is [undefined]. *)
Definition number_of (v : option json) : result JSNumber.number :=
  match v with
  | None => Ok JSNumber.NaN
  | Some x => if convertible x then Ok (to_number x) else Throw TypeError
  end.

(** [String(v)]; [None] is [undefined]. *)
Definition string_of (v : option json) : result string :=
  match v with
  | None => Ok "undefined"
  | Some x => if convertible x then Ok (to_string x) else Throw TypeError
  end.

End Coerce.

(** ** The expression evaluator: [evaluateRuleAgainstTx] *)

Module Evaluator.

(** [clause.replace(/^\(|\)$/g, '')]: one opening parenthesis at the start
    and one closing parenthesis at the end are removed. *)
Definition strip_parens (s : string) : string :=
  let s1 := match s with String "(" r => r | _ => s end in
  match last_char s1 with
  | Some ")"%char => drop_last s1
  | _ => s1
  end.

(** An alternation of literals followed by the rest of a pattern [k]: the
    alternatives are tried in order and the first one after which [k]
    succeeds is taken. *)
Fixpoint alt {A : Type} (ops : list string) (s : string)
    (k : string -> string -> option A) : option A :=
  match ops with
  | [] => None
  | op :: ops' =>
      let here :=
        if String.prefix op s then k op (drop (String.length op) s) else None in
      match here with
      | Some a => Some a
      | None => alt ops' s k
      end
  end.

(** [(\d+(?:\.\d+)?)] at the head of [s]: the text matched and the rest.
    The fraction is taken when a digit follows the point. *)
Definition number_text (s : string) : option (string * string) :=
  let '(d1, r1) := span is_digit s in
  if is_empty d1 then None else
  match r1 with
  | String "." r2 =>
      let '(d2, r3) := span is_digit r2 in
      if is_empty d2 then Some (d1, r1) else Some (d1 ++ "." ++ d2, r3)
  | _ => Some (d1, r1)
  end.

(** [/^amount\s*(==|=|!=|<=|>=|<|>)\s*(\d+(?:\.\d+)?)$/i]: the captures
    [m[1]] and [m[2]]. *)
Definition match_amount (c : string) : option (string * string) :=
  match strip_prefix_ci "amount" c with
  | Some r1 =>
      alt ["=="; "="; "!="; "<="; ">="; "<"; ">"] (skip_spaces r1)
        (fun op r2 =>
           match number_text (skip_spaces r2) with
           | Some (num, EmptyString) => Some (op, num)
           | _ => None
           end)
  | None => None
  end.

(** The pattern [/^(IDENT)\s*(==|=|!=)\s*(Q)(ANY)\3$/i], where IDENT is
    [[a-zA-Z_]] followed by any number of [[a-zA-Z0-9_]], Q is one of the
    two quote characters and ANY is a greedy run of characters other than
    line terminators: the captures [m[1]], [m[2]] and [m[4]].  After the
    opening quote the text must end with the same quote, and ANY is
    everything in between. *)
Definition match_field (c : string) : option (string * string * string) :=
  match c with
  | String c0 r0 =>
      if is_ident_start c0 then
        let '(id, r1) := span is_word r0 in
        alt ["=="; "="; "!="] (skip_spaces r1)
          (fun op r2 =>
             match skip_spaces r2 with
             | String q r3 =>
                 if is_quote q
                    && match last_char r3 with
                       | Some q' => Ascii.eqb q' q
                       | None => false
                       end
                    && no_line_terminator (drop_last r3)
                 then Some (String c0 id, op, drop_last r3)
                 else None
             | EmptyString => None
             end)
      else None
  | EmptyString => None
  end.

(** [/amount\s*>\s*(\d+(?:\.\d+)?)/i] at the head of [s]: capture [m[1]]. *)
Definition loose_here (s : string) : option string :=
  match strip_prefix_ci "amount" s with
  | Some r1 =>
      match skip_spaces r1 with
      | String ">" r2 =>
          match number_text (skip_spaces r2) with
          | Some (num, _) => Some num
          | None => None
          end
      | _ => None
      end
  | None => None
  end.

(** The same pattern searched from the left: the first position where it
    matches. *)
Fixpoint match_loose (s : string) : option string :=
  match loose_here s with
  | Some num => Some num
  | None =>
      match s with
      | String _ r => match_loose r
      | EmptyString => None
      end
  end.

(** A transaction is a plain object, or [null]/[undefined] ([None]), on which
    a property read throws. *)
Definition tx_get (tx : option props) (k : string) : result (option json) :=
  match tx with
  | Some o => Ok (get_prop o k)
  | None => Throw TypeError
  end.

(** [Number(a || 0)] for the value [a] read from [tx.amount]: a truthy
    value is converted, which throws for an object that cannot be. *)
Definition amount_value (a : option json) : result JSNumber.number :=
  match a with
  | Some v => if truthy v then Coerce.number_of (Some v) else Ok JSNumber.zero
  | None => Ok JSNumber.zero
  end.

(** [String(v ?? '')] for the value [v] read from [tx[field]] *)
Definition field_text (v : option json) : result string :=
  match v with
  | Some JNull | None => Ok EmptyString
  | Some x => Coerce.string_of (Some x)
  end.

(** [Number(tx.amount || 0)] *)
Definition amount_of (tx : option props) : result JSNumber.number :=
  a ← tx_get tx "amount"; amount_value a.

(** [String(tx[field] ?? '')] *)
Definition field_of (tx : option props) (field : string) : result string :=
  v ← tx_get tx field; field_text v.

(** The outcome of one clause: the new value of [andOk], or no pattern
    matched. *)
Definition eval_clause (tx : option props) (andOk : bool) (clause : string)
    : result bool :=
  let c := trim (strip_parens clause) in
  match match_amount c with
  | Some (op, num) =>
      let val := JSNumber.of_string num in
      aval ← amount_of tx;
      Ok (if String.eqb op "==" || String.eqb op "=" then andOk && JSNumber.eqb aval val
          else if String.eqb op "!=" then andOk && JSNumber.neqb aval val
          else if String.eqb op "<" then andOk && JSNumber.ltb aval val
          else if String.eqb op "<=" then andOk && JSNumber.leb aval val
          else if String.eqb op ">" then andOk && JSNumber.gtb aval val
          else if String.eqb op ">=" then andOk && JSNumber.geb aval val
          else false)
  | None =>
      match match_field c with
      | Some (field, op, val) =>
          fval ← field_of tx field;
          Ok (if String.eqb op "==" || String.eqb op "=" then andOk && String.eqb fval val
              else if String.eqb op "!=" then andOk && negb (String.eqb fval val)
              else false)
      | None =>
          match match_loose c with
          | Some num =>
              aval ← amount_of tx;
              Ok (if negb (JSNumber.gtb aval (JSNumber.of_string num)) then false else andOk)
          | None => Ok false
          end
      end
  end.

(** The loop over the clauses of one OR-part: the value of [andOk] when the
    loop is left, by [break] as soon as it is false. *)
Fixpoint and_loop (tx : option props) (andOk : bool) (clauses : list string)
    : result bool :=
  match clauses with
  | [] => Ok andOk
  | clause :: rest =>
      ok ← eval_clause tx andOk clause;
      if negb ok then Ok false else and_loop tx ok rest
  end.

Definition andParts (orPart : string) : list string :=
  map trim (split_re (sep_word "and") orPart).

Definition orParts (s : string) : list string :=
  map trim (split_re (sep_word "or") s).

(** The loop over the OR-parts: [return true] at the first part whose
    clauses all hold, [return false] after the last. *)
Fixpoint or_loop (tx : option props) (parts : list string) : result bool :=
  match parts with
  | [] => Ok false
  | orPart :: rest =>
      andOk ← and_loop tx true (andParts orPart);
      if (andOk : bool) then Ok true else or_loop tx rest
  end.

(** [(rule && rule.condition) || ''] *)
Definition condition_of (rule : json) : json :=
  if truthy rule then
    match member rule "condition" with
    | Some c => if truthy c then c else JStr EmptyString
    | None => JStr EmptyString
    end
  else JStr EmptyString.

Definition evaluateRuleAgainstTx (rule : json) (tx : option props) : result bool :=
  let cond := condition_of rule in
  if negb (truthy cond) then Ok false else
  text ← Coerce.string_of (Some cond);
  let s := trim text in
  or_loop tx (orParts s).

(** A clause holds for the transaction object [o] when one of the three
    patterns recognises it and its comparison is true. *)
Definition clause_holds (o : props) (clause : string) : bool :=
  match eval_clause (Some o) true clause with
  | Ok b => b
  | Throw _ => false
  end.

(** [IDENT]: the texts that the first group of [match_field] accepts. *)
Definition is_identifier (s : string) : bool :=
  match s with
  | String c r => is_ident_start c && forallb_str is_word r
  | EmptyString => false
  end.

(** No pattern recognises the clause. *)
Definition unrecognized (clause : string) : Prop :=
  let c := trim (strip_parens clause) in
  match_amount c = None /\ match_field c = None /\ match_loose c = None.

(** Every property of the transaction holds a value that [String] and
    [Number] convert: no object with an own [toString], alone or in an
    array. *)
Definition readable (o : props) : bool :=
  forallb (fun kv => Coerce.convertible (snd kv)) o.

End Evaluator.


(** ** The compliance aggregator: [applyPolicyToRows] *)

Module Aggregator.

Import Evaluator.

(** [violated.join('; ')]: every element but [null] is converted to a
    string, which throws for an object that cannot be. *)
Definition joined (violated : list json) : result string :=
  texts ← mapM (fun x => match x with
                         | JNull => Ok EmptyString
                         | _ => Coerce.string_of (Some x)
                         end) violated;
  Ok (join "; " texts).

(** [{ compliant, violated_rules: violated, reason: violated.join('; ') }] *)
Definition verdict (violated : list json) : result json :=
  reason ← joined violated;
  Ok (JObj [ ("compliant", JBool (Nat.eqb (List.length violated) 0));
             ("violated_rules", JArr violated);
             ("reason", JStr reason) ]).

(** [rule.name || rule.violation_message || JSON.stringify(rule)] for a rule
    that is an object; [None] is [undefined]. *)
Definition violation_label (rule : json) : option json :=
  match member rule "name" with
  | Some n =>
      if truthy n then Some n else
      match member rule "violation_message" with
      | Some m => if truthy m then Some m else JStr <$> stringify rule
      | None => JStr <$> stringify rule
      end
  | None =>
      match member rule "violation_message" with
      | Some m => if truthy m then Some m else JStr <$> stringify rule
      | None => JStr <$> stringify rule
      end
  end.

(** The loop over the rules for one row: the list [violated].  A rule whose
    evaluation throws is skipped. *)
Fixpoint violated_rules (rules : list json) (r : props) : list json :=
  match rules with
  | [] => []
  | rule :: rest =>
      match evaluateRuleAgainstTx rule (Some r) with
      | Ok true =>
          match violation_label rule with
          | Some l => l :: violated_rules rest r
          | None => JNull :: violated_rules rest r  (* [undefined] pushed *)
          end
      | Ok false | Throw _ => violated_rules rest r
      end
  end.

(** [{ compliant: true, violated_rules: [], reason: '' }] *)
Definition compliant_verdict : json :=
  JObj [ ("compliant", JBool true); ("violated_rules", JArr []);
         ("reason", JStr EmptyString) ].

(** [this.rulesDoc()] is [null] ([None]) or a document;
    [{ ...r, policy: p }] is the row [r] with its property [policy] set.
    The join of the labels is outside the [try] of the loop: where it
    throws, the whole call throws. *)
Definition applyPolicyToRows (doc : option json) (rows : list props)
    : result (list props) :=
  let no_policy := Ok (map (fun r => set_prop r "policy" compliant_verdict) rows) in
  match doc with
  | Some d =>
      if truthy d then
        match member d "rules" with
        | Some (JArr rules) =>
            if Nat.eqb (List.length rules) 0 then no_policy
            else mapM (fun r => v ← verdict (violated_rules rules r);
                                Ok (set_prop r "policy" v)) rows
        | _ => no_policy
        end
      else no_policy
  | None => no_policy
  end.

(** There is no policy: the document is [null], or its rules array is
    empty. *)
Definition no_rules (doc : option json) : Prop :=
  doc = None \/ exists d, doc = Some d /\ member d "rules" = Some (JArr []).

End Aggregator.


(** ** [JSON.parse] *)

Module JSONParse.

(** JSON white space: space, TAB, LF, CR. *)
Definition is_json_space (c : ascii) : bool :=
  match code c with
  | 32 | 9 | 10 | 13 => true
  | _ => false
  end%N.

Definition skip_ws (s : string) : string := snd (span is_json_space s).

(** An array index as a property name: [0], or digits without a leading
    zero, up to 2^32 - 2. *)
Definition index_key (k : string) : option N :=
  match k with
  | EmptyString => None
  | String c r =>
      if forallb_str is_digit k && (negb (Ascii.eqb c "0") || is_empty r)
         && (String.length k <=? 10)%nat then
        let n := Z.to_N (JSNumber.digits_value k) in
        if (n <=? 4294967294)%N then Some n else None
      else None
  end.

(** Where a new index property goes: indices come first, in ascending
    order; other names keep creation order after them. *)
Fixpoint insert_index (n : N) (k : string) (v : json) (o : props) : props :=
  match o with
  | [] => [(k, v)]
  | (k', v') :: r =>
      match index_key k' with
      | Some n' =>
          if (n' <? n)%N then (k', v') :: insert_index n k v r
          else (k, v) :: o
      | None => (k, v) :: o
      end
  end.

(** CreateDataProperty on the object being built: a name seen again keeps
    its place and takes the new value. *)
Definition define_prop (o : props) (k : string) (v : json) : props :=
  match assoc k o with
  | Some _ => set_prop o k v
  | None =>
      match index_key k with
      | Some n => insert_index n k v o
      | None => (o ++ [(k, v)])%list
      end
  end.

Definition hex4 (a b c d : ascii) : option N :=
  match JSNumber.digit_in_radix 16 a, JSNumber.digit_in_radix 16 b,
        JSNumber.digit_in_radix 16 c, JSNumber.digit_in_radix 16 d with
  | Some x, Some y, Some z, Some w => Some (((x * 16 + y) * 16 + z) * 16 + w)%N
  | _, _, _, _ => None
  end.

(** The characters of a string literal after its opening quote, up to the
    closing quote: the text denoted and the rest of the input.  An escape
    [\uXXXX] above 255 is outside the embedding's strings and is rejected
    here. *)
Fixpoint parse_string_body (s : string) : option (string * string) :=
  match s with
  | EmptyString => None
  | String c r =>
      match code c with
      | 34%N => Some (EmptyString, r)
      | 92%N =>
          match r with
          | String e r' =>
              let simple (x : N) :=
                match parse_string_body r' with
                | Some (t, rest) => Some (String (ascii_of_N x) t, rest)
                | None => None
                end in
              match code e with
              | 34%N => simple 34%N
              | 92%N => simple 92%N
              | 47%N => simple 47%N
              | 98%N => simple 8%N
              | 102%N => simple 12%N
              | 110%N => simple 10%N
              | 114%N => simple 13%N
              | 116%N => simple 9%N
              | 117%N =>
                  match r' with
                  | String h1 (String h2 (String h3 (String h4 r''))) =>
                      match hex4 h1 h2 h3 h4 with
                      | Some n =>
                          if (n <? 256)%N then
                            match parse_string_body r'' with
                            | Some (t, rest) => Some (String (ascii_of_N n) t, rest)
                            | None => None
                            end
                          else None
                      | None => None
                      end
                  | _ => None
                  end
              | _ => None
              end
          | EmptyString => None
          end
      | n =>
          if (n <? 32)%N then None else
          match parse_string_body r with
          | Some (t, rest) => Some (String c t, rest)
          | None => None
          end
      end
  end.

(** A JSON number at the head of [s]: an optional minus, an integer part
    without a leading zero, an optional fraction, an optional exponent. *)
Definition parse_number (s : string) : option (JSNumber.number * string) :=
  let '(neg, s1) := match s with String "-" r => (true, r) | _ => (false, s) end in
  let '(ip, r1) := span is_digit s1 in
  match ip with
  | EmptyString => None
  | String d0 dr =>
      if Ascii.eqb d0 "0" && negb (is_empty dr) then None else
      let frac :=
        match r1 with
        | String "." r2 =>
            let '(fp, r3) := span is_digit r2 in
            if is_empty fp then None else Some (fp, r3)
        | _ => Some (EmptyString, r1)
        end in
      match frac with
      | None => None
      | Some (fp, r3) =>
          let ex :=
            match r3 with
            | String e r4 =>
                if char_ci "e" e then
                  let '(sign, r5) :=
                    match r4 with
                    | String "+" r' => (1, r')
                    | String "-" r' => (-1, r')
                    | _ => (1, r4)
                    end in
                  let '(ds, r6) := span is_digit r5 in
                  if is_empty ds then None else Some (sign * JSNumber.digits_value ds, r6)
                else Some (0, r3)
            | EmptyString => Some (0, r3)
            end in
          match ex with
          | None => None
          | Some (e, rest) =>
              let m := JSNumber.digits_value (ip ++ fp) in
              Some (JSNumber.Dec (if neg then - m else m)
                      (e - Z.of_nat (String.length fp)), rest)
          end
      end
  end.

Section Composite.

(** The parser of one value, with white space skipped before it. *)
Variable parse_value : string -> option (json * string).

(** The elements of an array after the first, up to the bracket. *)
Fixpoint parse_elements (fuel : nat) (acc : list json) (s : string)
    : option (json * string) :=
  match fuel with
  | O => None
  | S f =>
      match skip_ws s with
      | String "]" r => Some (JArr (rev acc), r)
      | String "," r =>
          match parse_value r with
          | Some (v, r') => parse_elements f (v :: acc) r'
          | None => None
          end
      | _ => None
      end
  end.

(** One member [name : value] at the head of [s], after white space. *)
Definition parse_member (s : string) : option (string * json * string) :=
  match skip_ws s with
  | String q r =>
      if (code q =? 34)%N then
        match parse_string_body r with
        | Some (k, r1) =>
            match skip_ws r1 with
            | String ":" r2 =>
                match parse_value r2 with
                | Some (v, r3) => Some (k, v, r3)
                | None => None
                end
            | _ => None
            end
        | None => None
        end
      else None
  | EmptyString => None
  end.

(** The members of an object after the first, up to the brace. *)
Fixpoint parse_members (fuel : nat) (acc : props) (s : string)
    : option (json * string) :=
  match fuel with
  | O => None
  | S f =>
      match skip_ws s with
      | String "}" r => Some (JObj acc, r)
      | String "," r =>
          match parse_member r with
          | Some (k, v, r') => parse_members f (define_prop acc k v) r'
          | None => None
          end
      | _ => None
      end
  end.

End Composite.

Fixpoint parse_value (fuel : nat) (s : string) : option (json * string) :=
  match fuel with
  | O => None
  | S f =>
      match skip_ws s with
      | EmptyString => None
      | String c r as t =>
          match code c with
          | 123%N =>
              match skip_ws r with
              | String "}" r' => Some (JObj [], r')
              | _ =>
                  match parse_member (parse_value f) r with
                  | Some (k, v, r') =>
                      parse_members (parse_value f) f (define_prop [] k v) r'
                  | None => None
                  end
              end
          | 91%N =>
              match skip_ws r with
              | String "]" r' => Some (JArr [], r')
              | _ =>
                  match parse_value f r with
                  | Some (v, r') => parse_elements (parse_value f) f [v] r'
                  | None => None
                  end
              end
          | 34%N =>
              match parse_string_body r with
              | Some (k, r') => Some (JStr k, r')
              | None => None
              end
          | _ =>
              if String.prefix "true" t then Some (JBool true, drop 4 t)
              else if String.prefix "false" t then Some (JBool false, drop 5 t)
              else if String.prefix "null" t then Some (JNull, drop 4 t)
              else
                match parse_number t with
                | Some (n, r') => Some (JNum n, r')
                | None => None
                end
          end
      end
  end.

(** [JSON.parse(s)]: one value, nothing after it but white space; [None] is
    the SyntaxError.  Every step of the parser consumes a character, so the
    length of the text bounds the recursion. *)
Definition parse (s : string) : option json :=
  match parse_value (S (String.length s)) s with
  | Some (v, rest) => if is_empty (skip_ws rest) then Some v else None
  | None => None
  end.

(** [s.match(/\{[\s\S]*\}/)]: from the first opening brace to the last
    closing brace after it. *)
Fixpoint upto_last_brace (s : string) : option string :=
  match s with
  | EmptyString => None
  | String c r =>
      match upto_last_brace r with
      | Some t => Some (String c t)
      | None => if Ascii.eqb c "}" then Some (String c EmptyString) else None
      end
  end.

Fixpoint match_braces (s : string) : option string :=
  match s with
  | EmptyString => None
  | String c r =>
      if Ascii.eqb c "{" then
        match upto_last_brace r with
        | Some t => Some (String c t)
        | None => match_braces r
        end
      else match_braces r
  end.

(** A text in which no escape [\u] names a code unit above 255: the two
    characters [\u], wherever they stand, are followed by [00].  On such a
    text [parse] is [JSON.parse], and [None] is its SyntaxError; a text with
    a wider escape denotes strings that the embedding does not hold. *)
Fixpoint narrow (s : string) : bool :=
  match s with
  | EmptyString => true
  | String _ r =>
      (if String.prefix "\u" s then String.prefix "\u00" s else true) && narrow r
  end.

(** A text in which the backquote stands for the double quote. *)
Fixpoint bq (s : string) : string :=
  match s with
  | EmptyString => EmptyString
  | String c r => String (if Ascii.eqb c "`" then ascii_of_N 34 else c) (bq r)
  end.

End JSONParse.


(** ** Values in a store

    [normalizeParserResponse] writes into objects that its argument shares
    with its result, so the objects it works on live in a store: a value is
    a primitive or a reference, and the store lists the objects allocated so
    far, a location being an index of the list. *)

Module Store.

Abbreviation loc := nat (only parsing).

Inductive value :=
| VUndef
| VNull
| VBool (b : bool)
| VNum (n : JSNumber.number)
| VStr (s : string)
| VRef (l : loc).

Inductive object :=
| Obj (fields : list (string * value))
| Arr (elems : list value).

Abbreviation heap := (list object) (only parsing).

(** Computations that read and write the store and may throw. *)
Definition M (A : Type) : Type := heap -> result A * heap.

Global Instance M_ret : MRet M := fun A a h => (Ok a, h).
Global Instance M_bind : MBind M := fun A B k m h =>
  match m h with
  | (Ok a, h') => k a h'
  | (Throw e, h') => (Throw e, h')
  end.

Definition throw {A : Type} (e : exn) : M A := fun h => (Throw e, h).

(** [try { m } catch { handler }] *)
Definition try_catch {A : Type} (m : M A) (handler : M A) : M A := fun h =>
  match m h with
  | (Ok a, h') => (Ok a, h')
  | (Throw _, h') => handler h'
  end.

Definition alloc (o : object) : M value := fun h =>
  (Ok (VRef (List.length h)), (h ++ [o])%list).

Definition truthy (v : value) : bool :=
  match v with
  | VUndef | VNull => false
  | VBool b => b
  | VNum n => JSNumber.truthy n
  | VStr s => negb (is_empty s)
  | VRef _ => true
  end.

(** [typeof v === 'object'] *)
Definition typeof_object (v : value) : bool :=
  match v with
  | VNull | VRef _ => true
  | _ => false
  end.

(** [Array.isArray(v)] and the elements of the array. *)
Definition array_elems (h : heap) (v : value) : option (list value) :=
  match v with
  | VRef l =>
      match h !! l with
      | Some (Arr elems) => Some elems
      | _ => None
      end
  | _ => None
  end.

Definition isArray (h : heap) (v : value) : bool :=
  match array_elems h v with Some _ => true | None => false end.

Definition object_fields (h : heap) (v : value) : option (list (string * value)) :=
  match v with
  | VRef l =>
      match h !! l with
      | Some (Obj fs) => Some fs
      | _ => None
      end
  | _ => None
  end.

(** [v.k] for one of the property names that the normaliser reads ([rules],
    [source], [extracted], [output], [text], [content], [condition],
    [threshold], [category]): no prototype defines them, so only a plain
    object can hold one; on [null] and [undefined] the read throws. *)
Definition get (h : heap) (v : value) (k : string) : result value :=
  match v with
  | VUndef | VNull => Throw TypeError
  | _ =>
      Ok (match object_fields h v with
          | Some fs => match assoc k fs with Some x => x | None => VUndef end
          | None => VUndef
          end)
  end.

Definition read (v : value) (k : string) : M value := fun h => (get h v k, h).

(** [k in v] for the names [name] and [condition]; [v] is an object by its
    [typeof], and [in] throws on [null]. *)
Definition has (h : heap) (v : value) (k : string) : result bool :=
  match v with
  | VRef _ =>
      Ok (match object_fields h v with
          | Some fs => match assoc k fs with Some _ => true | None => false end
          | None => false
          end)
  | _ => Throw TypeError
  end.

Fixpoint set_field (fs : list (string * value)) (k : string) (v : value)
    : list (string * value) :=
  match fs with
  | [] => [(k, v)]
  | (k', v') :: r =>
      if String.eqb k k' then (k', v) :: r else (k', v') :: set_field r k v
  end.

(** [target.k = v]: the object at the location is updated in place.  (The
    normaliser only assigns to plain objects.) *)
Definition write (target : value) (k : string) (v : value) : M unit := fun h =>
  match target with
  | VRef l =>
      match h !! l with
      | Some (Obj fs) => (Ok tt, <[l := Obj (set_field fs k v)]> h)
      | _ => (Ok tt, h)
      end
  | _ => (Ok tt, h)
  end.

(** [Object.keys(v)] with the values [v[k]]: the properties of an object,
    the indices and elements of an array. *)
Fixpoint indexed (i : N) (l : list value) : list (string * value) :=
  match l with
  | [] => []
  | x :: r => (JSNumber.string_of_N i, x) :: indexed (i + 1) r
  end.

Definition entries (h : heap) (v : value) : list (string * value) :=
  match v with
  | VRef l =>
      match h !! l with
      | Some (Obj fs) => fs
      | Some (Arr elems) => indexed 0 elems
      | None => []
      end
  | _ => []
  end.

(** [a === b] *)
Definition strict_eq (a b : value) : bool :=
  match a, b with
  | VUndef, VUndef | VNull, VNull => true
  | VBool x, VBool y => Bool.eqb x y
  | VNum x, VNum y => JSNumber.eqb x y
  | VStr x, VStr y => String.eqb x y
  | VRef x, VRef y => Nat.eqb x y
  | _, _ => false
  end.

(** Whether [String(v)] and [Number(v)] return: an object is converted
    through its [toString], and an own property of that name, which in a
    parsed document is data and not callable, makes the conversion throw a
    TypeError; an array converts its elements, but for [null] and
    [undefined]. *)
Fixpoint convertible (h : heap) (fuel : nat) (v : value) : bool :=
  match v with
  | VRef l =>
      match h !! l with
      | Some (Obj fs) => negb (existsb (fun kv => String.eqb (fst kv) "toString") fs)
      | Some (Arr elems) =>
          match fuel with
          | O => true
          | S f => forallb (convertible h f) elems
          end
      | None => true
      end
  | _ => true
  end.

(** [String(v)]: an array is its elements joined by commas, nested arrays
    included; [None] when the nesting exceeds [fuel], which no acyclic store
    of fewer than [fuel] objects does. *)
Fixpoint to_string (h : heap) (fuel : nat) (v : value) : option string :=
  match v with
  | VUndef => Some "undefined"
  | VNull => Some "null"
  | VBool b => Some (if b then "true" else "false")
  | VNum n => Some (JSNumber.to_string n)
  | VStr s => Some s
  | VRef l =>
      match h !! l with
      | Some (Arr elems) =>
          match fuel with
          | O => None
          | S f =>
              join "," <$>
                mapM (fun x => match x with
                               | VUndef | VNull => Some EmptyString
                               | _ => to_string h f x
                               end) elems
          end
      | _ => Some "[object Object]"
      end
  end.

(** [Number(v)] *)
Definition to_number (h : heap) (fuel : nat) (v : value) : option JSNumber.number :=
  match v with
  | VUndef => Some JSNumber.NaN
  | VNull => Some JSNumber.zero
  | VBool b => Some (JSNumber.Dec (if b then 1 else 0) 0)
  | VNum n => Some n
  | VStr s => Some (JSNumber.of_string s)
  | VRef _ => JSNumber.of_string <$> to_string h fuel v
  end.

(** The object graph that [JSON.parse] builds for a tree, allocated in the
    store. *)
Fixpoint alloc_json (t : json) : M value :=
  match t with
  | JNull => mret VNull
  | JBool b => mret (VBool b)
  | JNum n => mret (VNum n)
  | JStr s => mret (VStr s)
  | JArr l =>
      vs ← (fix go (l : list json) : M (list value) :=
              match l with
              | [] => mret []
              | x :: r => v ← alloc_json x; vs ← go r; mret (v :: vs)
              end) l;
      alloc (Arr vs)
  | JObj o =>
      fs ← (fix go (o : props) : M (list (string * value)) :=
              match o with
              | [] => mret []
              | (k, x) :: r => v ← alloc_json x; fs ← go r; mret ((k, v) :: fs)
              end) o;
      alloc (Obj fs)
  | JNative _ => mret VUndef
  end.

(** The tree that a value denotes in the store, down to depth [fuel]. *)
Fixpoint reify (h : heap) (fuel : nat) (v : value) : option json :=
  match v with
  | VUndef => None
  | VNull => Some JNull
  | VBool b => Some (JBool b)
  | VNum n => Some (JNum n)
  | VStr s => Some (JStr s)
  | VRef l =>
      match fuel with
      | O => None
      | S f =>
          match h !! l with
          | Some (Arr elems) => JArr <$> mapM (reify h f) elems
          | Some (Obj fs) =>
              JObj <$> mapM (fun kv => pair (fst kv) <$> reify h f (snd kv)) fs
          | None => None
          end
      end
  end.

End Store.

(** ** The response normaliser: [normalizeParserResponse] *)

Module Normalizer.

Import Store.

(** [\bWORD\b] with the flag [i], somewhere in [s]: the word starts where
    the character before is no word character, and ends likewise.
    [prev] tells whether the character before [s] is a word character. *)
Fixpoint has_word (w : string) (prev : bool) (s : string) : bool :=
  (negb prev &&
   match strip_prefix_ci w s with
   | Some (String c _) => negb (is_word c)
   | Some EmptyString => true
   | None => false
   end)
  || match s with
     | String c r => has_word w (is_word c) r
     | EmptyString => false
     end.

Fixpoint existsb_str (p : ascii -> bool) (s : string) : bool :=
  match s with
  | EmptyString => false
  | String c r => p c || existsb_str p r
  end.

(** [/[><=]|\band\b|\bor\b|==|!=/i.test(cond)] *)
Definition looks_like_code (cond : string) : bool :=
  existsb_str (fun c => Ascii.eqb c ">" || Ascii.eqb c "<" || Ascii.eqb c "=") cond
  || has_word "and" false cond
  || has_word "or" false cond
  || includes cond "=="
  || includes cond "!=".

Definition is_string (v : value) : bool :=
  match v with VStr _ => true | _ => false end.

Definition string_of (v : value) : string :=
  match v with VStr s => s | _ => EmptyString end.

Definition is_nullish (v : value) : bool :=
  match v with VUndef | VNull => true | _ => false end.

(** The text [category == '${category}' and amount > ${thr}]. *)
Definition synthesized_condition (category thr : string) : string :=
  "category == '" ++ category ++ "' and amount > " ++ thr.

(** [Number(v)] and [String(v)] on a value of the store: a TypeError where
    the value cannot be converted. *)
Definition number_of (h : heap) (v : value) : result JSNumber.number :=
  if convertible h (S (List.length h)) v then
    match to_number h (S (List.length h)) v with
    | Some n => Ok n
    | None => Throw RangeError
    end
  else Throw TypeError.

Definition text_of (h : heap) (v : value) : result string :=
  if convertible h (S (List.length h)) v then
    match to_string h (S (List.length h)) v with
    | Some s => Ok s
    | None => Throw RangeError
    end
  else Throw TypeError.

(** The body of the [try] in [synthRuleCondition]: the value returned from
    inside it, if any. *)
Definition synth_try (h : heap) (r : value) : result (option value) :=
  if truthy r then
    c ← get h r "condition";
    if truthy c && is_string c && looks_like_code (trim (string_of c))
    then Ok (Some c)
    else
      t ← get h r "threshold";
      cat ← get h r "category";
      if negb (is_nullish t) && truthy cat then
        thr ← number_of h t;
        if JSNumber.is_nan thr then Ok None else
        cs ← text_of h cat;
        Ok (Some (VStr (synthesized_condition cs (JSNumber.to_string thr))))
      else Ok None
  else Ok None.

(** [synthRuleCondition(r)]: what the [try] returns, else [r.condition]. *)
Definition synthRuleCondition (h : heap) (r : value) : result value :=
  match synth_try h r with
  | Ok (Some v) => Ok v
  | Ok None | Throw _ => get h r "condition"
  end.

(** [Array.isArray(v) && v.length>0 && typeof v[0] === 'object' &&
    ('name' in v[0] || 'condition' in v[0])] *)
Definition is_rule_array (h : heap) (v : value) : result bool :=
  match array_elems h v with
  | Some (x :: _) =>
      if typeof_object x then
        n ← has h x "name";
        if (n : bool) then Ok true else has h x "condition"
      else Ok false
  | _ => Ok false
  end.

(** The loop over [Object.keys]: the first key whose value is an array of
    rules. *)
Fixpoint find_rule_array (h : heap) (es : list (string * value))
    : result (option (string * value)) :=
  match es with
  | [] => Ok None
  | (k, v) :: r =>
      b ← is_rule_array h v;
      if (b : bool) then Ok (Some (k, v)) else find_rule_array h r
  end.

Definition lift {A : Type} (f : heap -> result A) : M A := fun h => (f h, h).

(** [{ rules: v, source: o.source || k }] *)
Definition wrap_with_source (o : value) (k : string) (v : value) : M value :=
  src ← read o "source";
  alloc (Obj [("rules", v); ("source", if truthy src then src else VStr k)]).

(** The shapes tried on the response itself when it is an object. *)
Definition from_object (resp : value) : M (option value) :=
  if typeof_object resp then
    rules ← read resp "rules";
    ra ← lift (fun h => Ok (isArray h rules));
    if (ra : bool) then mret (Some resp)
    else
      found ← lift (fun h => find_rule_array h (entries h resp));
      match found with
      | Some (k, v) => d ← wrap_with_source resp k v; mret (Some d)
      | None =>
          b ← lift (fun h => is_rule_array h resp);
          if (b : bool) then d ← alloc (Obj [("rules", resp)]); mret (Some d)
          else mret None
      end
  else mret None.

Definition string_field (h : heap) (resp : value) (k : string) : list string :=
  match get h resp k with
  | Ok (VStr s) => [s]
  | _ => []
  end.

Definition candidates (h : heap) (resp : value) : list string :=
  (match resp with VStr s => [s] | _ => [] end ++
   if typeof_object resp then
     string_field h resp "extracted" ++ string_field h resp "output" ++
     string_field h resp "text" ++ string_field h resp "content"
   else [])%list.

(** What the loop over the candidates does after an attempt. *)
Inductive step :=
| Break (doc : value)
| Continue (doc : option value).

Definition parse_alloc (s : string) : M value :=
  match JSONParse.parse s with
  | Some t => alloc_json t
  | None => throw SyntaxError
  end.

(** The first [try] of the loop body: the candidate parsed as it is. *)
Definition try_direct (s : string) (doc : option value) : M step :=
  try_catch
    (p ← parse_alloc s;
     if truthy p && typeof_object p then
       rules ← read p "rules";
       ra ← lift (fun h => Ok (isArray h rules));
       if (ra : bool) then mret (Break p)
       else
         first ← lift (fun h => Ok (array_elems h p));
         match first with
         | Some (x :: _) =>
             if typeof_object x then d ← alloc (Obj [("rules", p)]); mret (Break d)
             else
               found ← lift (fun h => find_rule_array h (entries h p));
               match found with
               | Some (k, v) => d ← wrap_with_source p k v; mret (Continue (Some d))
               | None => mret (Continue doc)
               end
         | _ =>
             found ← lift (fun h => find_rule_array h (entries h p));
             match found with
             | Some (k, v) => d ← wrap_with_source p k v; mret (Continue (Some d))
             | None => mret (Continue doc)
             end
         end
     else mret (Continue doc))
    (mret (Continue doc)).

(** The second attempt: the text between the first opening brace and the
    last closing brace. *)
Definition try_substring (s : string) (doc : option value) : M step :=
  match JSONParse.match_braces s with
  | None => mret (Continue doc)
  | Some m0 =>
      try_catch
        (p ← parse_alloc m0;
         if truthy p then
           rules ← read p "rules";
           ra ← lift (fun h => Ok (isArray h rules));
           pa ← lift (fun h => Ok (isArray h p));
           if (ra : bool) then mret (Break p)
           else if (pa : bool) then d ← alloc (Obj [("rules", p)]); mret (Break d)
           else mret (Continue doc)
         else mret (Continue doc))
        (mret (Continue doc))
  end.

Fixpoint candidates_loop (cands : list string) (doc : option value)
    : M (option value) :=
  match cands with
  | [] => mret doc
  | s :: rest =>
      if is_empty s then candidates_loop rest doc else
      st ← try_direct s doc;
      match st with
      | Break d => mret (Some d)
      | Continue doc1 =>
          st2 ← try_substring s doc1;
          match st2 with
          | Break d => mret (Some d)
          | Continue doc2 => candidates_loop rest doc2
          end
      end
  end.

(** The loop that fills in conditions: [rr.condition = synthesized] writes
    into the rule object itself. *)
Fixpoint synth_loop (rules : list value) : M unit :=
  match rules with
  | [] => mret tt
  | rr :: rest =>
      c ← read rr "condition";
      if negb (truthy c) || is_string c then
        synthesized ← lift (fun h => synthRuleCondition h rr);
        (if truthy synthesized && negb (strict_eq synthesized c)
         then write rr "condition" synthesized else mret tt);;
        synth_loop rest
      else synth_loop rest
  end.

(** [{ doc }] or [{ error }] *)
Inductive outcome :=
| Doc (doc : value)
| Error (msg : string).

(** The search for the document: the response itself, then the strings
    it carries. *)
Definition find_document (resp : value) : M (option value) :=
  doc0 ← from_object resp;
  match doc0 with
  | Some d => mret (Some d)
  | None =>
      cands ← lift (fun h => Ok (candidates h resp));
      candidates_loop cands None
  end.

(** [if(doc && Array.isArray(doc.rules)){ for(const rr of doc.rules) ... }] *)
Definition synthesize_conditions (doc : value) : M unit :=
  rules ← read doc "rules";
  elems ← lift (fun h => Ok (array_elems h rules));
  match elems with
  | Some es => synth_loop es
  | None => mret tt
  end.

Definition normalizeParserResponse (resp : value) : M outcome :=
  if negb (truthy resp) then mret (Error "empty_response") else
  doc ← find_document resp;
  match doc with
  | None => mret (Error "no_rules_found_in_response")
  | Some d => synthesize_conditions d;; mret (Doc d)
  end.

End Normalizer.


(** ** The category aligner: [alignParsedCategoriesWithDataset] *)

Module Aligner.

(** [lowerMap[k] = c] on the plain object [lowerMap]: assigning a string to
    [__proto__] goes to the inherited setter and creates no property. *)
Definition lowerMap_set (m : list (string * string)) (k c : string)
    : list (string * string) :=
  if String.eqb k "__proto__" then m
  else match assoc k m with
       | Some _ => map (fun kv => if String.eqb (fst kv) k then (fst kv, c) else kv) m
       | None => (m ++ [(k, c)])%list
       end.

(** [for(const c of cats){ lowerMap[c.toLowerCase()] = c; }] *)
Definition build_lowerMap (cats : list string) : list (string * string) :=
  fold_left (fun m c => lowerMap_set m (toLowerCase c) c) cats [].

(** [lowerMap[k]]: an own property, else what [Object.prototype] has under
    that name, else [undefined]. *)
Definition lowerMap_get (m : list (string * string)) (k : string) : option json :=
  match assoc k m with
  | Some c => Some (JStr c)
  | None => if inherited k then Some (JNative k) else None
  end.

(** The loop of the substring match: the first category that contains
    [low] or is contained in it, lower-cased. *)
Fixpoint substring_match (cats : list string) (low : string) : option string :=
  match cats with
  | [] => None
  | c :: r =>
      if includes (toLowerCase c) low || includes low (toLowerCase c)
      then Some c else substring_match r low
  end.

Section MapCategory.

Variable cats : list string.

(** [mapCategory]: [String(val)] throws for an object that cannot be
    converted. *)
Definition mapCategory (val : json) : result json :=
  if negb (truthy val) then Ok val else
  text ← Coerce.string_of (Some val);
  let s := trim text in
  if is_empty s then Ok val else
  let low := toLowerCase s in
  let by_substring :=
    match substring_match cats low with
    | Some c => JStr c
    | None => val
    end in
  Ok (match lowerMap_get (build_lowerMap cats) low with
      | Some x => if truthy x then x else by_substring
      | None => by_substring
      end).

(** [/(['Q])([^'Q]+)\1/], Q the double quote, at the head of [s]: the
    quote [m[1]], the literal [m[2]] and, as length, the match [m[0]].  The
    run of characters other than quotes is greedy and must be followed by
    the opening quote; giving characters back cannot help, the run holds
    no quote. *)
Definition literal_here (s : string) : option (ascii * string) :=
  match s with
  | String q r =>
      if is_quote q then
        let '(lit, rest) := span (fun c => negb (is_quote c)) r in
        if is_empty lit then None else
        match rest with
        | String q' _ => if Ascii.eqb q' q then Some (q, lit) else None
        | EmptyString => None
        end
      else None
  | EmptyString => None
  end.

(** [r.condition.match(...)]: the leftmost match. *)
Fixpoint first_literal (s : string) : option (ascii * string) :=
  match literal_here s with
  | Some m => Some m
  | None =>
      match s with
      | String _ r => first_literal r
      | EmptyString => None
      end
  end.

(** GetSubstitution for a replacement text when the pattern is a string,
    so that there is no capture: [$$], [$&], [$`] and [$'] are expanded. *)
Fixpoint expand (repl matched before after : string) : string :=
  match repl with
  | EmptyString => EmptyString
  | String c tl =>
      if Ascii.eqb c "$" then
        match tl with
        | String d r =>
            if Ascii.eqb d "$" then String "$" (expand r matched before after)
            else if Ascii.eqb d "&" then matched ++ expand r matched before after
            else if Ascii.eqb d "`" then before ++ expand r matched before after
            else if Ascii.eqb d "'" then after ++ expand r matched before after
            else String c (expand tl matched before after)
        | EmptyString => String c EmptyString
        end
      else String c (expand tl matched before after)
  end.

(** [s.replace(pat, repl)] with a string pattern: the first occurrence of
    [pat] is replaced; [before] is the text already passed. *)
Fixpoint replace_from (before s pat repl : string) : string :=
  if String.prefix pat s then
    let after := drop (String.length pat) s in
    before ++ expand repl pat before after ++ after
  else
    match s with
    | String c r => replace_from (before ++ String c EmptyString) r pat repl
    | EmptyString => before
    end.

Definition replace (s pat repl : string) : string :=
  replace_from EmptyString s pat repl.

Definition quoted (q : ascii) (s : string) : string :=
  String q (s ++ String q EmptyString).

(** [mapped !== lit] for the string [lit] *)
Definition differs (mapped : json) (lit : string) : bool :=
  match mapped with
  | JStr x => negb (String.eqb x lit)
  | _ => true
  end.

(** The text assigned to [r.condition], when the first quoted literal of
    the condition maps to something else: [None] where nothing is
    assigned. *)
Definition aligned_condition (cond : string) : result (option string) :=
  match first_literal cond with
  | Some (q, lit) =>
      mapped ← mapCategory (JStr lit);
      Ok (if truthy mapped && differs mapped lit
          then Some (replace cond (quoted q lit) (quoted q (to_string mapped)))
          else None)
  | None => Ok None
  end.

(** [if(r.category){ r.category = mapCategory(r.category); }] on the
    properties of [r] *)
Definition assign_category (fs : props) : result props :=
  match get_prop fs "category" with
  | Some c =>
      if truthy c then (mapped ← mapCategory c; Ok (set_prop fs "category" mapped))
      else Ok fs
  | None => Ok fs
  end.

(** [if(r.condition && typeof r.condition === 'string'){ ... }] on the
    properties of [r] *)
Definition assign_condition (fs : props) : result props :=
  match get_prop fs "condition" with
  | Some (JStr cond) =>
      if truthy (JStr cond) then
        aligned ← aligned_condition cond;
        Ok (match aligned with
            | Some cond' => set_prop fs "condition" (JStr cond')
            | None => fs
            end)
      else Ok fs
  | _ => Ok fs
  end.

(** The body of the loop over [out.rules], for one rule [r]: [r] after the
    two assignments.  Reading a property of [null] throws. *)
Definition align_rule (r : json) : result json :=
  match r with
  | JNull => Throw TypeError
  | JObj fs =>
      fs1 ← assign_category fs;
      fs2 ← assign_condition fs1;
      Ok (JObj fs2)
  | _ => Ok r
  end.

Fixpoint align_rules (rules : list json) : result (list json) :=
  match rules with
  | [] => Ok []
  | r :: rest =>
      r' ← align_rule r;
      rest' ← align_rules rest;
      Ok (r' :: rest')
  end.

End MapCategory.

(** The tree that [JSON.parse(JSON.stringify(v))] builds: numbers that are
    not finite become [null]; a function is dropped from an object and is
    [null] in an array; [None] where [stringify] gives [undefined]. *)
Fixpoint clone (v : json) : option json :=
  match v with
  | JNull | JBool _ | JStr _ => Some v
  | JNum n =>
      Some (match n with
            | JSNumber.Dec _ _ => v
            | _ => JNull
            end)
  | JArr l =>
      Some (JArr (map (fun x => match clone x with Some y => y | None => JNull end) l))
  | JObj o =>
      Some (JObj (omap (fun kv => match clone (snd kv) with
                                  | Some y => Some (fst kv, y)
                                  | None => None
                                  end) o))
  | JNative k => if native_is_function k then None else Some (JObj [])
  end.

Definition alignParsedCategoriesWithDataset (parsed : json)
    (datasetCategories : list string) : result json :=
  match (if truthy parsed then member parsed "rules" else None) with
  | Some (JArr _) =>
      match clone parsed with
      | Some out =>
          match member out "rules" with
          | Some (JArr rules) =>
              rules' ← align_rules datasetCategories rules;
              Ok (match out with
                  | JObj o => JObj (set_prop o "rules" (JArr rules'))
                  | _ => out
                  end)
          | _ => Ok out
          end
      | None => Throw SyntaxError
      end
  | _ => Ok parsed
  end.

End Aligner.


(** ** Notions used by the statements *)

Module Spec.

Import Store Normalizer.

(** A rule whose condition is a string that [synthRuleCondition] takes for
    a machine-checkable one. *)
Definition machine_checkable (h : heap) (rr : value) : Prop :=
  exists c, get h rr "condition" = Ok (VStr c) /\ looks_like_code (trim c) = true.

(** A canonical rule document in the store: an object whose [rules] is an
    array of rules with machine-checkable conditions. *)
Definition canonical (h : heap) (resp : value) : Prop :=
  exists rules es,
    get h resp "rules" = Ok rules /\
    array_elems h rules = Some es /\
    Forall (machine_checkable h) es.

(** The document with [version] defaulted to [1.0] when it has none. *)
Definition with_default_version (t : json) : json :=
  match t with
  | JObj o =>
      match assoc "version" o with
      | Some _ => t
      | None => JObj (o ++ [("version", JStr "1.0")])
      end
  | _ => t
  end.

(** An object is as before, or it is a plain object with its [condition]
    set. *)
Definition condition_set (o o' : object) : Prop :=
  o' = o \/
  exists fs v, o = Obj fs /\ o' = Obj (set_field fs "condition" (VStr v)).

(** Every object of [h] is still in [h'], at the same location, with at
    most its [condition] set. *)
Definition frame (h h' : heap) : Prop :=
  forall l o, h !! l = Some o -> exists o', h' !! l = Some o' /\ condition_set o o'.

(** A computation keeps the frame. *)
Definition preserves {A : Type} (m : M A) : Prop :=
  forall h, frame h (snd (m h)).

(** No object of [h] is changed in [h']. *)
Definition input_unchanged (h h' : heap) : Prop :=
  forall l o, h !! l = Some o -> h' !! l = Some o.

(** The document that the normaliser returns for the response [t], as a
    tree: [t] is allocated in an empty store and the result read back. *)
Definition normalized (t : json) : option json :=
  match alloc_json t [] with
  | (Ok v, h0) =>
      match normalizeParserResponse v h0 with
      | (Ok (Doc d), h1) => reify h1 (S (List.length h1)) d
      | _ => None
      end
  | _ => None
  end.

(** The character [x] does not occur in [s]. *)
Definition no_char (x : ascii) (s : string) : bool :=
  forallb_str (fun c => negb (Ascii.eqb c x)) s.

(** [s] is the text [j], from a brace to a brace, inside prose that has no
    opening brace before it and no closing brace after it. *)
Definition embeds (s j : string) : Prop :=
  exists pre body post,
    s = pre ++ j ++ post /\
    j = String "{" (body ++ "}") /\
    no_char "{" pre = true /\
    no_char "}" post = true.

(** No suffix of [s] starts with the separator [\s+w\s+]. *)
Fixpoint token_free (w : string) (s : string) : bool :=
  match sep_word w s with
  | Some _ => false
  | None =>
      match s with
      | String _ r => token_free w r
      | EmptyString => true
      end
  end.

(** The pattern [sep] matches at no position of [x] in the text [x ++ y]. *)
Fixpoint free_in {A : Type} (sep : string -> option A) (x y : string) : Prop :=
  match x with
  | EmptyString => True
  | String _ r => sep (x ++ y) = None /\ free_in sep r y
  end.

(** Plain JSON data: finite numbers, no built-in object. *)
Fixpoint json_data (t : json) : bool :=
  match t with
  | JNull | JBool _ | JStr _ => true
  | JNum (JSNumber.Dec _ _) => true
  | JNum _ => false
  | JArr l => forallb json_data l
  | JObj o => forallb (fun kv => json_data (snd kv)) o
  | JNative _ => false
  end.

(** The numbers of a document are numerals on which the embedding is
    exact. *)
Fixpoint exact_numbers (t : json) : bool :=
  match t with
  | JNum n => JSNumber.exact n
  | JArr l => forallb exact_numbers l
  | JObj o => forallb (fun kv => exact_numbers (snd kv)) o
  | _ => true
  end.

(** A category name that alignment can settle on: no white space around
    it, no quote and no dollar sign in it, and not [__proto__] in any
    case. *)
Definition category_ok (c : string) : Prop :=
  trim c = c /\
  forallb_str (fun x => negb (is_quote x)) c = true /\
  no_char "$" c = true /\
  toLowerCase c <> "__proto__".

(** Dataset categories that are well formed and differ by more than
    case. *)
Definition good_categories (cats : list string) : Prop :=
  Forall category_ok cats /\ NoDup (map toLowerCase cats).

(** The text of [v], trimmed and lower-cased, is no property name of
    [Object.prototype]. *)
Definition proto_free (v : json) : bool :=
  negb (inherited (toLowerCase (trim (Json.to_string v)))).

(** Neither the category of the rule nor the first quoted literal of its
    condition is such a name. *)
Definition rule_plain (r : json) : bool :=
  match r with
  | JObj fs =>
      match get_prop fs "category" with
      | Some c => proto_free c
      | None => true
      end &&
      match get_prop fs "condition" with
      | Some (JStr cond) =>
          match Aligner.first_literal cond with
          | Some (_, lit) => proto_free (JStr lit)
          | None => true
          end
      | _ => true
      end
  | _ => true
  end.

(** The category of the rule is a value that [String] converts. *)
Definition category_convertible (r : json) : bool :=
  match r with
  | JObj fs =>
      match get_prop fs "category" with
      | Some c => Coerce.convertible c
      | None => true
      end
  | _ => true
  end.

Definition plain_rules (d : json) : bool :=
  match member d "rules" with
  | Some (JArr rules) => forallb rule_plain rules
  | _ => true
  end.

(** Whether [pat] occurs at the head of a text. *)
Definition occurs_here (pat s : string) : option unit :=
  if String.prefix pat s then Some tt else None.

(** The last category of the list whose lower-case form is [k]. *)
Fixpoint last_with (k : string) (cats : list string) : option string :=
  match cats with
  | [] => None
  | c :: r =>
      match last_with k r with
      | Some c' => Some c'
      | None =>
          if String.eqb (toLowerCase c) k && negb (String.eqb k "__proto__")
          then Some c else None
      end
  end.

(** Sample responses. *)
Definition rule_R1 : json :=
  JObj [("name", JStr "R1"); ("condition", JStr "amount > 50")].

Definition doc_R1 : json := JObj [("rules", JArr [rule_R1])].

Definition text_R1 : string :=
  JSONParse.bq "{`rules`:[{`name`:`R1`,`condition`:`amount > 50`}]}".

Definition rule_meals : json :=
  JObj [("name", JStr "Meal limit"); ("threshold", JNum (JSNumber.Dec 50 0));
        ("category", JStr "Meals")].

Definition doc_meals (category condition : string) : json :=
  JObj [("rules",
         JArr [JObj [("name", JStr "Meal limit"); ("category", JStr category);
                     ("condition", JStr condition)]]);
        ("version", JStr "1.0")].

End Spec.

(** Induction on trees, with the hypothesis for every element of an array
    and every property value of an object. *)
Section JsonInduction.

Variable P : json -> Prop.
Hypothesis HNull : P JNull.
Hypothesis HBool : forall b, P (JBool b).
Hypothesis HNum : forall n, P (JNum n).
Hypothesis HStr : forall s, P (JStr s).
Hypothesis HArr : forall l, Forall P l -> P (JArr l).
Hypothesis HObj : forall o, Forall (fun kv => P (snd kv)) o -> P (JObj o).
Hypothesis HNative : forall k, P (JNative k).

Fixpoint json_induction (t : json) : P t :=
  match t with
  | JNull => HNull
  | JBool b => HBool b
  | JNum n => HNum n
  | JStr s => HStr s
  | JArr l =>
      HArr l ((fix go (l : list json) : Forall P l :=
                 match l with
                 | [] => List.Forall_nil P
                 | x :: r => List.Forall_cons P x r (json_induction x) (go r)
                 end) l)
  | JObj o =>
      HObj o ((fix go (o : list (string * json)) : Forall (fun kv => P (snd kv)) o :=
                 match o with
                 | [] => List.Forall_nil _
                 | kv :: r => List.Forall_cons _ kv r (json_induction (snd kv)) (go r)
                 end) o)
  | JNative k => HNative k
  end.

End JsonInduction.


(** ** The results table: [applyScoreFilters], [pagedScores], the page
    buttons and the row selection *)

Module ScoreTable.

Import Aggregator Coerce.

(** [i.category === f] for the string [f] *)
Definition category_is (f : string) (i : props) : bool :=
  match get_prop i "category" with
  | Some (JStr s) => String.eqb s f
  | _ => false
  end.

(** The left operand [i.fraud_score] of a comparison with a number:
    [undefined] converts to NaN. *)
Definition fraud_score (i : props) : JSNumber.number :=
  match get_prop i "fraud_score" with
  | Some v => to_number v
  | None => JSNumber.NaN
  end.

(** The literals [0.5] and [0.2]. *)
Definition half : JSNumber.number := JSNumber.Dec 5 (-1).
Definition fifth : JSNumber.number := JSNumber.Dec 2 (-1).

(** [i.fraud_score > 0.5] *)
Definition fraud_high (i : props) : bool := JSNumber.gtb (fraud_score i) half.
(** [i.fraud_score > 0.2 && i.fraud_score <= 0.5] *)
Definition fraud_med (i : props) : bool :=
  JSNumber.gtb (fraud_score i) fifth && JSNumber.leb (fraud_score i) half.
(** [i.fraud_score <= 0.2] *)
Definition fraud_low (i : props) : bool := JSNumber.leb (fraud_score i) fifth.

(** [i.policy && i.policy.compliant === b], as the filter reads it. *)
Definition policy_is (b : bool) (i : props) : bool :=
  match get_prop i "policy" with
  | Some p =>
      truthy p &&
      match member p "compliant" with
      | Some (JBool c) => Bool.eqb c b
      | _ => false
      end
  | None => false
  end.

(** [applyScoreFilters]: the array given to [scores.set] and to
    [dataSource.data], from [originalScores] and the three filter fields. *)
Definition applyScoreFilters (filterCategory filterFraud filterPolicy : string)
    (originalScores : list props) : list props :=
  let items := originalScores in
  let items :=
    if negb (is_empty filterCategory)
    then List.filter (category_is filterCategory) items else items in
  let items :=
    if negb (is_empty filterFraud) then
      if String.eqb filterFraud "high" then List.filter fraud_high items
      else if String.eqb filterFraud "med" then List.filter fraud_med items
      else if String.eqb filterFraud "low" then List.filter fraud_low items
      else items
    else items in
  let items :=
    if negb (is_empty filterPolicy) then
      if String.eqb filterPolicy "violation" then List.filter (policy_is false) items
      else if String.eqb filterPolicy "ok" then List.filter (policy_is true) items
      else items
    else items in
  items.

(** [clearScoreFilters]: the three fields are emptied, then the filters
    applied. *)
Definition clearScoreFilters (originalScores : list props) : list props :=
  applyScoreFilters EmptyString EmptyString EmptyString originalScores.

(** *** Pages *)

(** [items.slice(start, stop)] for integers [start] and [stop]: a negative
    index counts from the end, and both are clamped to the array. *)
Definition slice {A : Type} (start stop : Z) (items : list A) : list A :=
  let len := Z.of_nat (List.length items) in
  let k := if start <? 0 then Z.max (len + start) 0 else Z.min start len in
  let final := if stop <? 0 then Z.max (len + stop) 0 else Z.min stop len in
  firstn (Z.to_nat (Z.max (final - k) 0)) (skipn (Z.to_nat k) items).

(** The field [pageSize], which nothing assigns after its initialiser. *)
Definition pageSize : Z := 50.

(** [Math.ceil(a / b)] for an integer [a] and a positive integer [b]: the
    least integer that is not below the quotient, which is the opposite of
    the quotient of the opposite rounded down. *)
Definition ceil_quot (a b : Z) : Z := - ((- a) / b).

Section Sorted.

(** [items.sort(cmp)] with the comparator of [pagedScores] for a sort field
    and a direction ([true] is ascending).  The comparator falls back on
    [localeCompare], so the order is left open here; a sort permutes. *)
Variable sorted : string -> bool -> list props -> list props.

(** What the function given to [computed] returns when it runs: the copy of
    [scores], sorted when a sort field is set, then the slice of the
    current page. *)
Definition page_computed (sortField : string) (ascending : bool)
    (scores : list props) (pageIndex : Z) : list props :=
  let items := scores in
  let items :=
    if negb (is_empty sortField) then sorted sortField ascending items else items in
  let start := pageIndex * pageSize in
  slice start (start + pageSize) items.

End Sorted.

(** [totalPages] *)
Definition totalPages (scores : list props) : Z :=
  let total := Z.of_nat (List.length scores) in
  Z.max 1 (ceil_quot total pageSize).

(** [nextPage] and [prevPage]: the new [pageIndex]. *)
Definition nextPage (scores : list props) (pageIndex : Z) : Z :=
  if pageIndex + 1 <? totalPages scores then pageIndex + 1 else pageIndex.

Definition prevPage (pageIndex : Z) : Z :=
  if 0 <? pageIndex then pageIndex - 1 else pageIndex.

(** [sortBy(field)]: the new [sortField] and direction. *)
Definition sortBy (f : string) (sortField : string) (ascending : bool) : string * bool :=
  if String.eqb sortField f then (sortField, negb ascending) else (f, true).

(** *** Selection

    [selectedTxnIds] is a set of transaction identifiers, strings by the
    type [ScoreRow]; the rows of the visible page are given by their
    [txn_id]. *)

Definition isSelected (selectedTxnIds : gset string) (txnId : string) : bool :=
  bool_decide (txnId ∈ selectedTxnIds).

(** [toggleSelect(txnId, checked)]: [checked] left out ([None]) toggles. *)
Definition toggleSelect (selectedTxnIds : gset string) (txnId : string)
    (checked : option bool) : gset string :=
  let checked :=
    match checked with
    | None => negb (isSelected selectedTxnIds txnId)
    | Some c => c
    end in
  if checked then selectedTxnIds ∪ {[ txnId ]} else selectedTxnIds ∖ {[ txnId ]}.

(** [areAllVisibleSelected], for the identifiers of [pagedScores()] *)
Definition areAllVisibleSelected (selectedTxnIds : gset string)
    (visible : list string) : bool :=
  if Nat.eqb (List.length visible) 0 then false
  else forallb (isSelected selectedTxnIds) visible.

(** [toggleSelectAll(checked)]: the loop over the visible rows. *)
Fixpoint toggleSelectAll (selectedTxnIds : gset string) (visible : list string)
    (checked : bool) : gset string :=
  match visible with
  | [] => selectedTxnIds
  | r :: rest =>
      toggleSelectAll
        (if checked then selectedTxnIds ∪ {[ r ]} else selectedTxnIds ∖ {[ r ]})
        rest checked
  end.

(** *** The rows of a scoring response, as [score] prepares them *)

(** [it.fraud_score = Number(it.fraud_score ?? 0)] and
    [if(!it.policy) it.policy = { compliant: true, violated_rules: [],
    reason: '' }] on the properties of the row [it]. *)
Definition prepare_row (it : props) : result props :=
  fs ← match get_prop it "fraud_score" with
       | Some JNull | None => Ok JSNumber.zero
       | v => number_of v
       end;
  let it := set_prop it "fraud_score" (JNum fs) in
  Ok (if negb (opt_truthy (get_prop it "policy"))
      then set_prop it "policy" compliant_verdict else it).

(** [(j || []).map(it => ...)] *)
Fixpoint prepare_rows (j : list props) : result (list props) :=
  match j with
  | [] => Ok []
  | it :: rest =>
      r ← prepare_row it;
      rs ← prepare_rows rest;
      Ok (r :: rs)
  end.

(** SameValueZero, the equality of the elements of a [Set]: numbers by
    value with NaN equal to itself, strings and booleans by value, and two
    objects of a parsed response never the same. *)
Definition same_value_zero (a b : json) : bool :=
  match a, b with
  | JNull, JNull => true
  | JBool x, JBool y => Bool.eqb x y
  | JNum x, JNum y => JSNumber.eqb x y || (JSNumber.is_nan x && JSNumber.is_nan y)
  | JStr x, JStr y => String.eqb x y
  | _, _ => false
  end.

(** [new Set(values)] listed by [Array.from]: every value at its first
    occurrence. *)
Fixpoint distinct (seen : list json) (values : list json) : list json :=
  match values with
  | [] => []
  | v :: rest =>
      if existsb (same_value_zero v) seen then distinct seen rest
      else v :: distinct (v :: seen) rest
  end.

(** [processed.map(s => s.category).filter(Boolean)] *)
Definition truthy_categories (processed : list props) : list json :=
  List.filter truthy (omap (fun s => get_prop s "category") processed).

(** [Array.from(new Set(processed.map(s => s.category).filter(Boolean)))] *)
Definition scoreCategories (processed : list props) : list json :=
  distinct [] (truthy_categories processed).

(** What [score] stores from the rows [j] of the response: [originalScores],
    [scoreCategories], the filtered rows in [scores], and page 0. *)
Record scored := {
  originalScores : list props;
  categories : list json;
  scores : list props;
  pageIndex : Z;
}.

Definition score (doc : option json)
    (filterCategory filterFraud filterPolicy : string) (j : list props)
    : result scored :=
  rows ← prepare_rows j;
  processed ← applyPolicyToRows doc rows;
  Ok {| originalScores := processed;
        categories := scoreCategories processed;
        scores := applyScoreFilters filterCategory filterFraud filterPolicy processed;
        pageIndex := 0 |}.

End ScoreTable.

(** ** The table as the component holds it: [pagedScores] is memoised *)

Module ScoreView.

Import ScoreTable.

(** The fields that the table reads.  [scores] is a signal; [pageIndex],
    [sortField] and [sortDir] are plain fields ([ascending] is [sortDir ===
    'asc']).  [memo] is the value that [computed] holds for [pagedScores]:
    none before the first read and after [scores] has been set, since the
    function given to [computed] reads no other signal. *)
Record view := {
  scores : list props;
  pageIndex : Z;
  sortField : string;
  ascending : bool;
  memo : option (list props);
}.

(** [this.scores.set(items)] with a new array, as [applyScoreFilters] does
    with its copy of [originalScores]: the memo is stale. *)
Definition set_scores (items : list props) (v : view) : view :=
  {| scores := items; pageIndex := pageIndex v; sortField := sortField v;
     ascending := ascending v; memo := None |}.

Section Sorted.

Variable sorted : string -> bool -> list props -> list props.

(** [this.pagedScores()]: the memo if there is one, else the function runs
    on the fields as they are now and its value is kept. *)
Definition pagedScores (v : view) : list props * view :=
  match memo v with
  | Some value => (value, v)
  | None =>
      let value :=
        page_computed sorted (sortField v) (ascending v) (scores v) (pageIndex v) in
      (value,
       {| scores := scores v; pageIndex := pageIndex v; sortField := sortField v;
          ascending := ascending v; memo := Some value |})
  end.

(** What the user does to the table between two changes of [scores]. *)
Inductive action :=
| Next
| Prev
| Sort (f : string)
| Read.

(** One action on the fields: the buttons assign plain fields, which
    [computed] does not watch; a read fills the memo. *)
Definition act (a : action) (v : view) : view :=
  match a with
  | Next =>
      {| scores := scores v; pageIndex := nextPage (scores v) (pageIndex v);
         sortField := sortField v; ascending := ascending v; memo := memo v |}
  | Prev =>
      {| scores := scores v; pageIndex := prevPage (pageIndex v);
         sortField := sortField v; ascending := ascending v; memo := memo v |}
  | Sort f =>
      {| scores := scores v; pageIndex := pageIndex v;
         sortField := fst (sortBy f (sortField v) (ascending v));
         ascending := snd (sortBy f (sortField v) (ascending v)); memo := memo v |}
  | Read => snd (pagedScores v)
  end.

End Sorted.

End ScoreView.

(** ** Settings: the token limit and the name of a bot *)

Module Settings.

Import Coerce.

(** The quotient of the finite number [m * 10^e] by a positive integer [d],
    rounded down, as [Math.floor(n / d)] gives it.  The embedding divides
    numerals exactly. *)
Definition floor_quot (m e d : Z) : Z :=
  if 0 <=? e then (m * 10 ^ e) / d else m / (d * 10 ^ (- e)).

(** The same quotient rounded to the nearest integer, a tie going up, as
    [Math.round(n / d)] gives it: the quotient plus one half, rounded
    down. *)
Definition round_quot (m e d : Z) : Z :=
  if 0 <=? e then (2 * (m * 10 ^ e) + d) / (2 * d)
  else (2 * m + d * 10 ^ (- e)) / (2 * (d * 10 ^ (- e))).

(** [Math.floor(n / 1000) * 1000] *)
Definition floor_thousand (n : JSNumber.number) : JSNumber.number :=
  match n with
  | JSNumber.Dec m e => JSNumber.Dec (floor_quot m e 1000 * 1000) 0
  | _ => n
  end.

(** [Math.round(n / 1000) * 1000] *)
Definition round_thousand (n : JSNumber.number) : JSNumber.number :=
  match n with
  | JSNumber.Dec m e => JSNumber.Dec (round_quot m e 1000 * 1000) 0
  | _ => n
  end.

(** [Math.min(a, b)] and [Math.max(a, b)] *)
Definition Math_min (a b : JSNumber.number) : JSNumber.number :=
  if JSNumber.is_nan a || JSNumber.is_nan b then JSNumber.NaN
  else if JSNumber.ltb b a then b else a.

Definition Math_max (a b : JSNumber.number) : JSNumber.number :=
  if JSNumber.is_nan a || JSNumber.is_nan b then JSNumber.NaN
  else if JSNumber.ltb a b then b else a.

(** [x || d] on numbers *)
Definition or_else (x d : JSNumber.number) : JSNumber.number :=
  if JSNumber.truthy x then x else d.

(** [ev && ev.value !== undefined ? ev.value : ev]; [None] is
    [undefined]. *)
Definition event_value (ev : option json) : option json :=
  match ev with
  | Some e =>
      if truthy e then
        match member e "value" with
        | Some v => Some v
        | None => ev
        end
      else ev
  | None => None
  end.

(** [onSliderChange(ev)]: the new [selectedMaxTokens]. *)
Definition onSliderChange (ev : option json) : result JSNumber.number :=
  let v := event_value ev in
  n ← number_of v;
  let n := or_else n JSNumber.zero in
  Ok (Math_max (JSNumber.Dec 1000 0)
        (Math_min (JSNumber.Dec 50000 0)
           (or_else (floor_thousand n) (JSNumber.Dec 1000 0)))).

(** [onNumberChange(v)]: the new [selectedMaxTokens]. *)
Definition onNumberChange (v : option json) : result JSNumber.number :=
  n ← number_of v;
  let n := or_else n JSNumber.zero in
  let n := if JSNumber.ltb n (JSNumber.Dec 1000 0) then JSNumber.Dec 1000 0 else n in
  let n := if JSNumber.gtb n (JSNumber.Dec 50000 0) then JSNumber.Dec 50000 0 else n in
  Ok (round_thousand n).

(** [saveSelectedMaxTokens]: the text stored under
    [OPENAI_MAX_COMPLETION_TOKENS]. *)
Definition saveSelectedMaxTokens (selectedMaxTokens : JSNumber.number) : string :=
  JSNumber.to_string selectedMaxTokens.

(** The initialiser of [selectedMaxTokens], from what [localStorage.getItem]
    gives: [None] is [null]. *)
Definition initial_max_tokens (item : option string) : JSNumber.number :=
  let text :=
    match item with
    | Some s => if is_empty s then EmptyString else s
    | None => EmptyString
    end in
  let v := JSNumber.of_string text in
  if JSNumber.truthy v && negb (JSNumber.is_nan v) then v else JSNumber.Dec 10000 0.

(** *** The base name of a bot, in [createBot] *)

(** The class [[a-zA-Z0-9-_\.]]. *)
Definition is_name_char (c : ascii) : bool :=
  is_lower c || is_upper c || is_digit c ||
  Ascii.eqb c "-" || Ascii.eqb c "_" || Ascii.eqb c ".".

(** [s.replace(/[^a-zA-Z0-9-_\.]/g, '_')] *)
Fixpoint replace_unsafe (s : string) : string :=
  match s with
  | EmptyString => EmptyString
  | String c r => String (if is_name_char c then c else "_"%char) (replace_unsafe r)
  end.

(** [(this.uploadedFileName || 'policy').replace(...)]; [None] is [null]. *)
Definition baseName (uploadedFileName : option string) : string :=
  replace_unsafe
    match uploadedFileName with
    | Some s => if is_empty s then "policy" else s
    | None => "policy"
    end.

End Settings.

(** ** The rule editor: [applyParsedJson] *)

Module Editor.

(** The text put in [parsedJsonError]: one of the two messages of the
    source, or [String(e.message || e)] for an exception [e] that the engine
    raised, whose wording is the engine's. *)
Inductive notice :=
| Said (text : string)
| Raised (e : exn).

Definition not_an_object : string :=
  JSONParse.bq "Parsed JSON must be an object with a `rules` array".

Definition incomplete_rule : string :=
  JSONParse.bq "Each rule must have at least `name` and `condition` properties".

(** [typeof v === 'object'] for a parsed value *)
Definition typeof_object (v : json) : bool :=
  match v with
  | JNull | JArr _ | JObj _ => true
  | _ => false
  end.

(** The loop over [parsed.rules]: [Ok false] where it returns for a rule
    without a name or a condition; reading a property of [null] throws. *)
Fixpoint check_rules (rules : list json) : result bool :=
  match rules with
  | [] => Ok true
  | r :: rest =>
      match r with
      | JNull => Throw TypeError
      | _ =>
          if negb (opt_truthy (member r "name")) || negb (opt_truthy (member r "condition"))
          then Ok false
          else check_rules rest
      end
  end.

(** The two fields that [applyParsedJson] assigns. *)
Record state := {
  parsedJsonError : option notice;
  rulesDoc : option json;
}.

Definition applyParsedJson (parsedJsonText : string) (st : state) : state :=
  let failed (n : notice) :=
    {| parsedJsonError := Some n; rulesDoc := rulesDoc st |} in
  match JSONParse.parse parsedJsonText with
  | None => failed (Raised SyntaxError)
  | Some parsed =>
      match (if truthy parsed && typeof_object parsed
             then member parsed "rules" else None) with
      | Some (JArr rules) =>
          match check_rules rules with
          | Ok true => {| parsedJsonError := None; rulesDoc := Some parsed |}
          | Ok false => failed (Said incomplete_rule)
          | Throw e => failed (Raised e)
          end
      | _ => failed (Said not_an_object)
      end
  end.

End Editor.

(** ** The activity log: [pushLog], [combinedLogsFiltered] and
    [formatLogPayload] *)

Module Logs.

Import Coerce.

(** [pushLog(type, payload)]: the new [clientLogs], the entry first.  [ts]
    is the text of [new Date().toISOString()]. *)
Definition pushLog (ts type : string) (payload : json) (clientLogs : list json)
    : list json :=
  JObj [("ts", JStr ts); ("type", JStr ("client:" ++ type)); ("payload", payload)]
  :: clientLogs.

(** [v.k] for a name [k] that no prototype defines: reading a property of
    [null] or [undefined] throws. *)
Definition prop (v : option json) (k : string) : result (option json) :=
  match v with
  | None | Some JNull => Throw TypeError
  | Some x => Ok (member x k)
  end.

(** [combinedLogs()] *)
Definition combinedLogs (clientLogs logs : list json) : list json :=
  (clientLogs ++ logs)%list.

(** [l.type !== 'client:file_selected'] *)
Definition shown (l : json) : result bool :=
  t ← prop (Some l) "type";
  Ok (match t with
      | Some (JStr s) => negb (String.eqb s "client:file_selected")
      | _ => true
      end).

(** [entries.filter(l => l.type !== 'client:file_selected')] *)
Fixpoint filter_shown (entries : list json) : result (list json) :=
  match entries with
  | [] => Ok []
  | l :: rest =>
      keep ← shown l;
      rest' ← filter_shown rest;
      Ok (if (keep : bool) then l :: rest' else rest')
  end.

(** [combinedLogsFiltered()] *)
Definition combinedLogsFiltered (clientLogs logs : list json) : result (list json) :=
  filter_shown (combinedLogs clientLogs logs).

(** [s.endsWith(suffix)] *)
Definition endsWith (s suffix : string) : bool :=
  let n := String.length s in
  let m := String.length suffix in
  (m <=? n)%nat && String.eqb (String.substring (n - m) m s) suffix.

(** [JSON.stringify(p)] where a string is needed next: of [undefined] the
    property read throws. *)
Definition stringified (p : json) : result string :=
  match stringify p with
  | Some s => Ok s
  | None => Throw TypeError
  end.

(** The body of the [try] in [formatLogPayload], for an entry that holds
    data. *)
Definition format_body (l : json) : result string :=
  p ← prop (Some l) "payload";
  match p with
  | None => Ok EmptyString
  | Some pv =>
      if negb (truthy pv) then Ok EmptyString else
      ty ← prop (Some l) "type";
      t ← string_of ty;
      if endsWith t "openai_response_received" then
        s ← stringified pv;
        Ok (if (1000 <? String.length s)%nat
            then JSNumber.take 1000 s ++ " ..." else s)
      else
        rows ← prop p "rows";
        if opt_truthy rows then string_of rows else
        name ← prop p "name";
        if opt_truthy name then string_of name else
        error ← prop p "error";
        if opt_truthy error then string_of error else
        s ← stringified pv;
        Ok (JSNumber.take 300 s)
  end.

(** [formatLogPayload(l)]: whatever is thrown gives the empty text. *)
Definition formatLogPayload (l : json) : string :=
  match format_body l with
  | Ok s => s
  | Throw _ => EmptyString
  end.

End Logs.

(** ** The data source of training and scoring *)

Module DataSource.

(** The field [selectedDataSource]. *)
Inductive selection := auto | csv | db.

(** [toggleDataSource]: the next selection in the order auto, csv, db. *)
Definition toggleDataSource (selectedDataSource : selection) : selection :=
  match selectedDataSource with
  | auto => csv
  | csv => db
  | db => auto
  end.

(** What a request names as its data. *)
Inductive source :=
| Dataset (path : string)
| Query
| Nothing.

(** A dataset path is truthy: [None] is [null]. *)
Definition path_set (ds : option string) : bool :=
  match ds with
  | Some p => negb (is_empty p)
  | None => false
  end.

(** [this.txTotal && this.txTotal>0] *)
Definition rows_loaded (txTotal : JSNumber.number) : bool :=
  JSNumber.truthy txTotal && JSNumber.gtb txTotal JSNumber.zero.

(** The data that [score] puts in its request: [None] where it returns
    before sending one. *)
Definition score_source (selectedDataSource : selection) (ds : option string)
    (txTotal : JSNumber.number) : option source :=
  let wantsCsv := match selectedDataSource with csv => true | _ => false end in
  let wantsDb := match selectedDataSource with db => true | _ => false end in
  if wantsCsv && negb (path_set ds) then None
  else if wantsDb && negb (rows_loaded txTotal) then None
  else
    let useCsv :=
      path_set ds &&
      match selectedDataSource with csv | auto => true | db => false end in
    let useDb :=
      negb useCsv &&
      match selectedDataSource with
      | db => true
      | auto => rows_loaded txTotal
      | csv => false
      end in
    if negb useCsv && negb useDb then None
    else if useCsv
    then Some (match ds with Some p => Dataset p | None => Nothing end)
    else Some Query.

(** The data that [train] puts in its request, when the check of [max_rows]
    against the dataset lets it through: [None] where it returns on its
    first two checks. *)
Definition train_source (selectedDataSource : selection) (ds : option string)
    (txTotal : JSNumber.number) : option source :=
  match selectedDataSource with
  | csv =>
      if negb (path_set ds) then None
      else Some (match ds with Some p => Dataset p | None => Nothing end)
  | db => if negb (rows_loaded txTotal) then None else Some Query
  | auto =>
      if path_set ds
      then Some (match ds with Some p => Dataset p | None => Nothing end)
      else if rows_loaded txTotal then Some Query
      else Some Nothing
  end.

End DataSource.

(** ** What [parsePolicyText] and [onFile] do with the parser's response *)

Module Receiver.

Import Store Normalizer Aligner.

(** [(datasetCategories || []).map((c) => String(c))] for the answer of the
    categories request, which the callers pass as [cats || []]: a truthy
    answer that is not an array has no [map]. *)
Definition category_texts (datasetCategories : json) : result (list string) :=
  if negb (Json.truthy datasetCategories) then Ok []
  else
    match datasetCategories with
    | JArr l => mapM (fun c => Coerce.string_of (Some c)) l
    | _ => Throw TypeError
    end.

(** The inner [try] of both callers: [j] is replaced by its alignment when
    a dataset path is set and [j.rules] is an array, the categories request
    answers and the alignment returns; an exception leaves [j] as it was.
    [cats] is what the request gives when it is made. *)
Definition aligned (ds : option string) (cats : result json) (j : json) : json :=
  if DataSource.path_set ds && Json.truthy j && opt_truthy (member j "rules")
     && match member j "rules" with Some (JArr _) => true | _ => false end
  then
    match (c ← cats; l ← category_texts c; alignParsedCategoriesWithDataset j l) with
    | Ok j' => j'
    | Throw _ => j
    end
  else j.

(** The two fields that both callers assign from the response; the rule
    document is an object of the store. *)
Record state := {
  parsedJsonError : option Editor.notice;
  rulesDoc : option value;
}.

(** From the response to the two fields, the same in the two branches of
    [useOpenAI] and in both callers: [response] is what [r.json()] gives,
    an exception where the request or the decoding fails. *)
Definition receive (ds : option string) (cats : result json)
    (response : result json) (st : state) (h : heap) : state * heap :=
  let failed (n : Editor.notice) :=
    {| parsedJsonError := Some n; rulesDoc := rulesDoc st |} in
  match response with
  | Throw e => (failed (Editor.Raised e), h)
  | Ok j =>
      match (resp ← alloc_json (aligned ds cats j); normalizeParserResponse resp) h with
      | (Ok (Doc d), h') => ({| parsedJsonError := None; rulesDoc := Some d |}, h')
      | (Ok (Error msg), h') => (failed (Editor.Said msg), h')
      | (Throw e, h') => (failed (Editor.Raised e), h')
      end
  end.

End Receiver.

(** ** The filters of the transactions browser: [loadTransactions] and
    [buildDbQueryFromFilters] *)

Module TxFilter.

Import Coerce.

(** The keys that hold a list of values, and those that hold one. *)
Definition list_keys : list string :=
  ["employee_id"; "merchant"; "city"; "category"; "channel"; "card_id"].

Definition scalar_keys : list string :=
  ["min_amount"; "max_amount"; "start_ts"; "end_ts"].

(** [normList]: [None] is [undefined]. *)
Definition normList (v : option json) : result (option json) :=
  match v with
  | Some (JArr l) => Ok (if Nat.eqb (List.length l) 0 then None else Some (JArr l))
  | Some JNull | None => Ok None
  | Some x =>
      s ← string_of (Some x);
      let s := trim s in
      Ok (if negb (is_empty s) then Some (JArr [JStr s]) else None)
  end.

(** [x || undefined] *)
Definition or_undefined (x : option json) : option json :=
  if opt_truthy x then x else None.

(** [buildDbQueryFromFilters]: the properties of the object it returns, in
    their order. *)
Definition buildDbQueryFromFilters (txFilter : props) (txSortBy txSortDir : string)
    : result (list (string * option json)) :=
  lists ← mapM (fun k => v ← normList (get_prop txFilter k); Ok (k, v)) list_keys;
  Ok (lists
      ++ map (fun k => (k, or_undefined (get_prop txFilter k))) scalar_keys
      ++ [("sort_by", or_undefined (Some (JStr txSortBy)));
          ("sort_dir", or_undefined (Some (JStr txSortDir)))])%list.

(** [(v||'').toString().trim()] *)
Definition trimmed_text (v : option json) : result string :=
  s ← (if opt_truthy v then string_of v else Ok EmptyString);
  Ok (trim s).

(** [for(const it of v){ if(it && it.toString().trim()) q.append(k, it.toString()); }]:
    the values appended. *)
Fixpoint appended (v : list json) : result (list string) :=
  match v with
  | [] => Ok []
  | it :: rest =>
      if Json.truthy it then
        s ← string_of (Some it);
        if negb (is_empty (trim s))
        then (r ← appended rest; Ok (s :: r))
        else appended rest
      else appended rest
  end.

(** The values that [loadTransactions] puts in the query string for a key
    of the first loop. *)
Definition list_values (v : option json) : result (list string) :=
  match v with
  | Some (JArr l) => appended l
  | _ => s ← trimmed_text v; Ok (if negb (is_empty s) then [s] else [])
  end.

(** And for a key of the second loop. *)
Definition scalar_values (v : option json) : result (list string) :=
  s ← trimmed_text v; Ok (if negb (is_empty s) then [s] else []).

(** The filter parameters of the query string of [loadTransactions], after
    [page], [page_size], [sort_by] and [sort_dir]. *)
Definition filter_params (txFilter : props) : result (list (string * string)) :=
  lists ← mapM (fun k => vs ← list_values (get_prop txFilter k);
                         Ok (map (pair k) vs)) list_keys;
  scalars ← mapM (fun k => vs ← scalar_values (get_prop txFilter k);
                           Ok (map (pair k) vs)) scalar_keys;
  Ok (concat lists ++ concat scalars)%list.

End TxFilter.

(** ** The training algorithms: [loadAlgos] *)

Module Algos.

(** [a || b] on two property reads. *)
Definition or_opt (a b : option json) : option json :=
  if opt_truthy a then a else b.

(** The loop over an array answer: the identifiers pushed on [algosList]
    and the objects, identifier and label, pushed on [algosObjs]. *)
Fixpoint from_array (algosRaw : list json)
    : result (list string * list (string * json)) :=
  match algosRaw with
  | [] => Ok ([], [])
  | it :: rest =>
      match it with
      | JStr s =>
          r ← from_array rest;
          Ok (s :: fst r, (s, JStr s) :: snd r)
      | _ =>
          if Json.truthy it && opt_truthy (or_opt (member it "id") (member it "name"))
          then
            id ← Coerce.string_of (or_opt (member it "id") (member it "name"));
            let label :=
              match or_opt (or_opt (member it "label") (member it "name"))
                      (Some (JStr id)) with
              | Some l => l
              | None => JStr id
              end in
            r ← from_array rest;
            Ok (id :: fst r, (id, label) :: snd r)
          else from_array rest
      end
  end.

(** The loop over the keys of an object answer. *)
Fixpoint from_keys (algosRaw : props) (keys : list string)
    : result (list string * list (string * json)) :=
  match keys with
  | [] => Ok ([], [])
  | k :: rest =>
      label ← Coerce.string_of (get_prop algosRaw k);
      r ← from_keys algosRaw rest;
      Ok (k :: fst r, (k, JStr label) :: snd r)
  end.

(** The three fields that [loadAlgos] assigns. *)
Record state := {
  availableAlgos : list string;
  availableAlgosObjs : list (string * json);
  algo : string;
}.

(** [loadAlgos], from what [r2.json()] gives: an exception anywhere is
    caught at the end and leaves the three fields. *)
Definition loadAlgos (response : result json) (st : state) : state :=
  match response with
  | Throw _ => st
  | Ok raw =>
      let algosRaw :=
        match raw with
        | JStr s =>
            match JSONParse.parse s with
            | Some v => v
            | None => raw
            end
        | _ => raw
        end in
      let lists :=
        match algosRaw with
        | JArr l => from_array l
        | JObj o => from_keys o (map fst o)
        | JStr s => Ok (if negb (is_empty s) then [s] else [], [])
        | _ => Ok ([], [])
        end in
      match lists with
      | Throw _ => st
      | Ok (algosList, algosObjs) =>
          {| availableAlgos := algosList;
             availableAlgosObjs := algosObjs;
             algo :=
               match algosList with
               | first :: _ =>
                   if negb (existsb (String.eqb (algo st)) algosList)
                   then first else algo st
               | [] => algo st
               end |}
      end
  end.

End Algos.

(** ** Further notions used by the statements *)

Module Notions.

Import Evaluator Aggregator ScoreTable Store.

(** The rule evaluates to true on the row. *)
Definition triggered (r : props) (rule : json) : bool :=
  match evaluateRuleAgainstTx rule (Some r) with
  | Ok b => b
  | Throw _ => false
  end.

(** The comparison that an operator of the amount pattern denotes. *)
Definition compares (op : string) (a b : JSNumber.number) : bool :=
  if String.eqb op "==" || String.eqb op "=" then JSNumber.eqb a b
  else if String.eqb op "!=" then JSNumber.neqb a b
  else if String.eqb op "<" then JSNumber.ltb a b
  else if String.eqb op "<=" then JSNumber.leb a b
  else if String.eqb op ">" then JSNumber.gtb a b
  else JSNumber.geb a b.

(** A row passes the filter fields: each field that is set and recognised
    holds of it. *)
Definition passes (filterCategory filterFraud filterPolicy : string) (i : props) : bool :=
  (is_empty filterCategory || category_is filterCategory i) &&
  (if String.eqb filterFraud "high" then fraud_high i
   else if String.eqb filterFraud "med" then fraud_med i
   else if String.eqb filterFraud "low" then fraud_low i
   else true) &&
  (if String.eqb filterPolicy "violation" then policy_is false i
   else if String.eqb filterPolicy "ok" then policy_is true i
   else true).

(** The strings among a list of values. *)
Definition strings_of (l : list json) : list string :=
  omap (fun c => match c with JStr s => Some s | _ => None end) l.

(** A rule that [applyParsedJson] lets through: it has a name and a
    condition that are truthy. *)
Definition complete_rule (r : json) : bool :=
  opt_truthy (member r "name") && opt_truthy (member r "condition").

(** A document that [applyParsedJson] lets through. *)
Definition accepted (doc : json) : Prop :=
  exists rules,
    member doc "rules" = Some (JArr rules) /\ forallb complete_rule rules = true.

(** A computation only allocates: the store it leaves is the store it
    found, with objects added at the end. *)
Definition extends {A : Type} (m : M A) : Prop :=
  forall h, exists ext, snd (m h) = (h ++ ext)%list.

(** The values that a query string carries for a key. *)
Definition values_of (k : string) (params : list (string * string)) : list string :=
  map snd (List.filter (fun kv => String.eqb (fst kv) k) params).

(** A text with something other than white space in it. *)
Definition not_blank (s : string) : bool := negb (is_empty (trim s)).

End Notions.
(** * Properties *)

Import Evaluator Aggregator Store Normalizer Aligner Spec.

(** ** Strings *)

#[local] Arguments String.append !_ _ / : simpl nomatch.

Section StringFacts.

Lemma sapp_nil_r (s : string) : s ++ EmptyString = s.
Proof. induction s as [|c s IH]; simpl; [reflexivity | now f_equal]. Qed.

Lemma sapp_nil_l (s : string) : EmptyString ++ s = s.
Proof. reflexivity. Qed.

Lemma sapp_assoc (a b c : string) : (a ++ b) ++ c = a ++ (b ++ c).
Proof. induction a as [|x a IH]; simpl; [reflexivity | now f_equal]. Qed.

Lemma length_sapp (a b : string) :
  String.length (a ++ b) = (String.length a + String.length b)%nat.
Proof. induction a as [|x a IH]; simpl; [reflexivity | now f_equal]. Qed.

Lemma last_char_snoc (s : string) (c : ascii) :
  last_char (s ++ String c EmptyString) = Some c.
Proof.
  induction s as [|x s IH]; [reflexivity|].
  simpl. rewrite IH. destruct (s ++ String c EmptyString) eqn:E; [|reflexivity].
  destruct s; discriminate.
Qed.

Lemma drop_last_snoc (s : string) (c : ascii) :
  drop_last (s ++ String c EmptyString) = s.
Proof.
  induction s as [|x s IH]; [reflexivity|].
  simpl. rewrite IH. destruct (s ++ String c EmptyString) eqn:E; [|reflexivity].
  destruct s; discriminate.
Qed.

Lemma last_char_app (a b : string) :
  b <> EmptyString -> last_char (a ++ b) = last_char b.
Proof.
  intros Hb. induction a as [|x a IH]; [reflexivity|].
  simpl. rewrite IH. destruct (a ++ b) eqn:E; [|reflexivity].
  destruct a; simpl in E; [contradiction | discriminate].
Qed.

(** A run stops where the class stops. *)
Lemma span_app (p : ascii -> bool) (a b : string) :
  forallb_str p a = true ->
  match b with String c _ => p c = false | EmptyString => True end ->
  span p (a ++ b) = (a, b).
Proof.
  intros Ha Hb. induction a as [|x a IH]; simpl in *.
  - destruct b as [|c b]; [reflexivity|]. simpl. now rewrite Hb.
  - apply andb_prop in Ha as [Hx Ha]. rewrite Hx, (IH Ha). reflexivity.
Qed.

Lemma span_fst_all (p : ascii -> bool) (s : string) :
  forallb_str p (fst (span p s)) = true.
Proof.
  induction s as [|c s IH]; [reflexivity|]. simpl.
  destruct (p c) eqn:E; [|reflexivity].
  destruct (span p s). simpl in *. now rewrite E.
Qed.

Lemma span_app_eq (p : ascii -> bool) (s : string) :
  fst (span p s) ++ snd (span p s) = s.
Proof.
  induction s as [|c s IH]; [reflexivity|]. simpl.
  destruct (p c); [|reflexivity].
  destruct (span p s). simpl in *. now rewrite IH.
Qed.

Lemma trimStart_id (c : ascii) (r : string) :
  is_space c = false -> trimStart (String c r) = String c r.
Proof. intros H. simpl. now rewrite H. Qed.

Lemma trimEnd_id (s : string) :
  match last_char s with Some c => is_space c = false | None => True end ->
  trimEnd s = s.
Proof.
  induction s as [|x s IH]; [reflexivity|].
  simpl. destruct s as [|y s'].
  - simpl. intros ->. reflexivity.
  - intros H. rewrite (IH H). reflexivity.
Qed.

(** A text that neither starts nor ends with white space is its own trim. *)
Lemma trim_id (c : ascii) (r : string) :
  is_space c = false ->
  match last_char (String c r) with Some x => is_space x = false | None => True end ->
  trim (String c r) = String c r.
Proof.
  intros Hc Hl. unfold trim. rewrite (trimStart_id _ _ Hc). now apply trimEnd_id.
Qed.

Lemma last_char_cons (c : ascii) (r : string) :
  r <> EmptyString -> last_char (String c r) = last_char r.
Proof. destruct r; [contradiction | reflexivity]. Qed.

(** The same, for a text given by its first character and its end. *)
Lemma trim_between (c d : ascii) (a b : string) :
  is_space c = false -> last_char b = Some d -> is_space d = false ->
  trim (String c (a ++ b)) = String c (a ++ b).
Proof.
  intros Hc Hb Hd. assert (Hne : b <> EmptyString) by (intros ->; discriminate).
  apply trim_id; [exact Hc|].
  rewrite last_char_cons by (destruct a; [exact Hne | discriminate]).
  now rewrite (last_char_app a b Hne), Hb.
Qed.

End StringFacts.

(** ** What the patterns accept *)

Section PatternFacts.

Lemma suffix_of_refl (c : string) : suffix_of c c.
Proof. now exists EmptyString. Qed.

Lemma suffix_of_trans (a b c : string) :
  suffix_of a b -> suffix_of b c -> suffix_of a c.
Proof. intros [p ->] [q ->]. exists (q ++ p). now rewrite sapp_assoc. Qed.

Lemma suffix_of_cons (x : ascii) (r c : string) :
  suffix_of r c -> suffix_of r (String x c).
Proof. intros [p ->]. now exists (String x p). Qed.

Lemma suffix_last_char (r c : string) :
  suffix_of r c -> r <> EmptyString -> last_char c = last_char r.
Proof. intros [p ->] H. now apply last_char_app. Qed.

Lemma strip_prefix_ci_suffix (pat s r : string) :
  strip_prefix_ci pat s = Some r -> suffix_of r s.
Proof.
  revert s. induction pat as [|p pat IH]; intros s H; simpl in H.
  - injection H as ->. apply suffix_of_refl.
  - destruct s as [|c s]; [discriminate|].
    destruct (char_ci p c); [|discriminate].
    apply suffix_of_cons. now apply IH.
Qed.

Lemma span_suffix (p : ascii -> bool) (s : string) : suffix_of (snd (span p s)) s.
Proof. exists (fst (span p s)). symmetry. apply span_app_eq. Qed.

Lemma skip_spaces_suffix (s : string) : suffix_of (skip_spaces s) s.
Proof. apply span_suffix. Qed.

Lemma drop_suffix (n : nat) (s : string) : suffix_of (drop n s) s.
Proof.
  revert s. induction n as [|n IH]; intros s; [apply suffix_of_refl|].
  destruct s as [|c s]; [apply suffix_of_refl|].
  simpl. apply suffix_of_cons, IH.
Qed.

Lemma forallb_str_last (p : ascii -> bool) (s : string) :
  forallb_str p s = true -> s <> EmptyString ->
  exists c, last_char s = Some c /\ p c = true.
Proof.
  induction s as [|x s IH]; [congruence|].
  simpl. intros H _. apply andb_prop in H as [Hx Hs].
  destruct s as [|y s']; [eauto|]. apply IH; [exact Hs | discriminate].
Qed.

Lemma is_empty_false (s : string) : is_empty s = false -> s <> EmptyString.
Proof. destruct s; [discriminate | discriminate]. Qed.

(** A text that [number_text] consumes whole ends with a digit. *)
Lemma number_text_all_last (s num : string) :
  Evaluator.number_text s = Some (num, EmptyString) ->
  exists c, last_char s = Some c /\ is_digit c = true.
Proof.
  unfold Evaluator.number_text.
  pose proof (span_app_eq is_digit s) as Hs.
  pose proof (span_fst_all is_digit s) as Hd.
  destruct (span is_digit s) as [d1 r1]. simpl in Hs, Hd.
  destruct (is_empty d1) eqn:E1; [discriminate|].
  destruct r1 as [|x r2].
  - intros _. rewrite sapp_nil_r in Hs. subst s.
    apply forallb_str_last; [exact Hd | now apply is_empty_false].
  - destruct (Ascii.eqb x ".") eqn:Ex.
    + apply Ascii.eqb_eq in Ex. subst x.
      pose proof (span_app_eq is_digit r2) as Hs2.
      pose proof (span_fst_all is_digit r2) as Hd2.
      destruct (span is_digit r2) as [d2 r3]. simpl in Hs2, Hd2.
      destruct (is_empty d2) eqn:E2; [discriminate|].
      intros H. injection H as _ ->. rewrite sapp_nil_r in Hs2. subst r2 s.
      rewrite last_char_app by discriminate.
      change (last_char (String "." d2)) with
        (match d2 with EmptyString => Some "."%char | _ => last_char d2 end).
      destruct d2 as [|y d2']; [discriminate|].
      apply forallb_str_last; [exact Hd2 | discriminate].
    + intros H.
      assert (Some (d1, String x r2) = Some (num, EmptyString)) as H'.
      { destruct x as [[] [] [] [] [] [] [] []]; try exact H; discriminate Ex. }
      discriminate H'.
Qed.

Lemma alt_some {A : Type} (ops : list string) (s : string)
    (k : string -> string -> option A) (a : A) :
  Evaluator.alt ops s k = Some a ->
  exists op, In op ops /\ k op (drop (String.length op) s) = Some a.
Proof.
  induction ops as [|op ops IH]; simpl; [discriminate|].
  destruct (String.prefix op s) eqn:P.
  - destruct (k op (drop (String.length op) s)) eqn:K.
    + intros H. injection H as ->. eauto.
    + intros H. destruct (IH H) as (op' & ? & ?). eauto.
  - intros H. destruct (IH H) as (op' & ? & ?). eauto.
Qed.

(** A clause that the exact amount pattern accepts ends with a digit. *)
Lemma match_amount_last (c op num : string) :
  Evaluator.match_amount c = Some (op, num) ->
  exists d, last_char c = Some d /\ is_digit d = true.
Proof.
  unfold Evaluator.match_amount.
  destruct (strip_prefix_ci "amount" c) as [r1|] eqn:E1; [|discriminate].
  intros H. apply alt_some in H as (op' & _ & H).
  destruct (Evaluator.number_text _) as [[num' rest]|] eqn:En; [|discriminate].
  destruct rest; [|discriminate].
  destruct (number_text_all_last _ _ En) as (d & Hd & Hdig).
  exists d. split; [|exact Hdig]. rewrite <- Hd.
  apply suffix_last_char; [|intros E0; rewrite E0 in Hd; discriminate].
  eapply suffix_of_trans; [apply skip_spaces_suffix|].
  eapply suffix_of_trans; [apply drop_suffix|].
  eapply suffix_of_trans; [apply skip_spaces_suffix|].
  now apply (strip_prefix_ci_suffix "amount").
Qed.

Lemma match_amount_none (c : string) :
  match last_char c with Some d => is_digit d = false | None => True end ->
  Evaluator.match_amount c = None.
Proof.
  intros H. destruct (Evaluator.match_amount c) as [[op num]|] eqn:E; [|reflexivity].
  destruct (match_amount_last _ _ _ E) as (d & Hd & Hdig).
  rewrite Hd in H. congruence.
Qed.

(** A clause without parentheses at its ends is left as it is. *)
Lemma strip_parens_between (c d : ascii) (a b : string) :
  Ascii.eqb c "(" = false -> last_char b = Some d -> Ascii.eqb d ")" = false ->
  Evaluator.strip_parens (String c (a ++ b)) = String c (a ++ b).
Proof.
  intros Hc Hb Hd. assert (Hne : b <> EmptyString) by (intros ->; discriminate).
  unfold Evaluator.strip_parens.
  replace (match String c (a ++ b) with String "(" r => r | _ => String c (a ++ b) end)
    with (String c (a ++ b))
    by (destruct c as [[] [] [] [] [] [] [] []]; try reflexivity; discriminate Hc).
  rewrite last_char_cons by (destruct a; [exact Hne | discriminate]).
  rewrite (last_char_app a b Hne), Hb.
  destruct d as [[] [] [] [] [] [] [] []]; try reflexivity; discriminate Hd.
Qed.

End PatternFacts.

Lemma skip_spaces_cons (c : ascii) (r : string) :
  skip_spaces (String c r) = if is_space c then skip_spaces r else String c r.
Proof.
  unfold skip_spaces. simpl. destruct (is_space c); [|reflexivity].
  now destruct (span is_space r).
Qed.

Lemma skip_spaces_nil : skip_spaces EmptyString = EmptyString.
Proof. reflexivity. Qed.

(** ** Numerals *)

Section Numerals.

#[local] Arguments String.append !_ _ / : simpl nomatch.

Lemma string_of_uint_digits (d : Decimal.uint) :
  forallb_str is_digit (NilEmpty.string_of_uint d) = true.
Proof. induction d; simpl; auto. Qed.

Lemma string_of_N_digits (n : N) : forallb_str is_digit (JSNumber.string_of_N n) = true.
Proof. apply string_of_uint_digits. Qed.

Lemma string_of_N_nonempty (n : N) : JSNumber.string_of_N n <> EmptyString.
Proof.
  unfold JSNumber.string_of_N. destruct n as [|p]; [discriminate|].
  simpl. pose proof (DecimalPos.Unsigned.to_uint_nonnil p) as H.
  destruct (Pos.to_uint p); [contradiction | discriminate ..].
Qed.

Lemma digits_value_string_of_N (n : N) :
  JSNumber.digits_value (JSNumber.string_of_N n) = Z.of_N n.
Proof.
  unfold JSNumber.digits_value, JSNumber.string_of_N.
  now rewrite NilEmpty.usu, DecimalN.Unsigned.of_to.
Qed.

Lemma strip_zeros_spec (ds : string) :
  ds = fst (JSNumber.strip_zeros ds) ++ repeat_char "0" (snd (JSNumber.strip_zeros ds)) /\
  String.length ds
  = (String.length (fst (JSNumber.strip_zeros ds)) + snd (JSNumber.strip_zeros ds))%nat.
Proof.
  induction ds as [|c r [IH1 IH2]]; [split; reflexivity|].
  simpl. destruct (JSNumber.strip_zeros r) as [[|x a] z]; simpl in *.
  - destruct (Ascii.eqb c "0") eqn:E; simpl.
    + apply Ascii.eqb_eq in E. subst c. split; congruence.
    + split; congruence.
  - split; congruence.
Qed.

(** [String] prints a non-negative integer of at most 21 digits as its
    digits. *)
Lemma to_string_integer (m : Z) :
  0 <= m ->
  (String.length (JSNumber.string_of_N (Z.to_N m)) <= 21)%nat ->
  JSNumber.to_string (JSNumber.Dec m 0) = JSNumber.string_of_N (Z.to_N m).
Proof.
  intros Hm Hlen. unfold JSNumber.to_string.
  destruct (Z.eqb_spec m 0) as [->|Hne]; [reflexivity|].
  rewrite Z.abs_eq by exact Hm.
  destruct (strip_zeros_spec (JSNumber.string_of_N (Z.to_N m))) as [E1 E2].
  destruct (JSNumber.strip_zeros _) as [ds z]. simpl in E1, E2.
  replace (m <? 0) with false by (symmetry; apply Z.ltb_ge; exact Hm).
  unfold JSNumber.positive_to_string.
  rewrite Z.add_0_r.
  replace (Z.of_nat (String.length ds) <=? Z.of_nat (String.length ds) + Z.of_nat z)
    with true by (symmetry; apply Z.leb_le; lia).
  replace (Z.of_nat (String.length ds) + Z.of_nat z <=? 21)
    with true by (symmetry; apply Z.leb_le; lia).
  simpl andb. cbv iota.
  replace (Z.to_nat (Z.of_nat (String.length ds) + Z.of_nat z - Z.of_nat (String.length ds)))
    with z by lia.
  now symmetry.
Qed.

(** What is true of a digit character. *)
Lemma digit_facts (c : ascii) :
  is_digit c = true ->
  is_space c = false /\
  char_ci "x" c = false /\ char_ci "o" c = false /\ char_ci "b" c = false /\
  char_ci "a" c = false /\ char_ci "e" c = false /\
  Ascii.eqb c "+" = false /\ Ascii.eqb c "-" = false /\ Ascii.eqb c "I" = false /\
  Ascii.eqb c "(" = false /\ Ascii.eqb c ")" = false /\ Ascii.eqb c "." = false.
Proof.
  destruct c as [[] [] [] [] [] [] [] []]; intros H; try discriminate H;
    repeat split; reflexivity.
Qed.

Lemma span_all (p : ascii -> bool) (s : string) :
  forallb_str p s = true -> span p s = (s, EmptyString).
Proof.
  intros H. rewrite <- (sapp_nil_r s) at 1. now apply span_app.
Qed.

Lemma digits_trim (s : string) : forallb_str is_digit s = true -> trim s = s.
Proof.
  intros H. destruct s as [|c r]; [reflexivity|].
  destruct (forallb_str_last is_digit (String c r) H ltac:(discriminate)) as (d & Hd & Hdig).
  simpl in H. apply andb_prop in H as [Hc _].
  apply trim_id; [apply (digit_facts c Hc)|].
  rewrite Hd. apply (digit_facts d Hdig).
Qed.

Lemma parse_unsigned_digits (s : string) :
  forallb_str is_digit s = true -> s <> EmptyString ->
  JSNumber.parse_unsigned_decimal s = JSNumber.Dec (JSNumber.digits_value s) 0.
Proof.
  intros H Hne. unfold JSNumber.parse_unsigned_decimal.
  replace (String.eqb s "Infinity") with false.
  - rewrite (span_all _ _ H). destruct s; [contradiction | reflexivity].
  - symmetry. destruct s as [|c r]; [reflexivity|]. simpl in H.
    apply andb_prop in H as [Hc _].
    destruct c as [[] [] [] [] [] [] [] []]; try discriminate Hc; reflexivity.
Qed.

(** [Number] reads a run of digits as the integer it writes. *)
Lemma of_string_digits (s : string) :
  forallb_str is_digit s = true -> s <> EmptyString ->
  JSNumber.of_string s = JSNumber.Dec (JSNumber.digits_value s) 0.
Proof.
  intros H Hne. unfold JSNumber.of_string. rewrite (digits_trim s H).
  rewrite <- (parse_unsigned_digits s H Hne).
  destruct s as [|c r]; [contradiction|].
  pose proof H as H'. simpl in H'. apply andb_prop in H' as [Hc Hr].
  destruct (digit_facts c Hc) as (_&_&_&_&_&_&Hplus&Hminus&_).
  destruct c as [[] [] [] [] [] [] [] []]; try discriminate Hc;
    try discriminate Hplus; try discriminate Hminus; try reflexivity.
  destruct r as [|x [|y r']]; try reflexivity.
  simpl in Hr. apply andb_prop in Hr as [Hx _].
  destruct (digit_facts x Hx) as (_&Hx1&Hx2&Hx3&_).
  cbv beta iota. now rewrite Hx1, Hx2, Hx3.
Qed.

Lemma of_string_integer (m : Z) :
  0 <= m ->
  JSNumber.of_string (JSNumber.string_of_N (Z.to_N m)) = JSNumber.Dec m 0.
Proof.
  intros Hm.
  rewrite (of_string_digits _ (string_of_N_digits _) (string_of_N_nonempty _)).
  rewrite digits_value_string_of_N. f_equal. lia.
Qed.

End Numerals.

(** ** Splitting a text on a separator *)

Section Splitting.

#[local] Arguments String.append !_ _ / : simpl nomatch.

Variable sep : string -> option nat.

(** The characters of a separator already matched are passed over. *)
Lemma split_go_skip (p y cur : string) :
  split_go sep (String.length p) cur (p ++ y) = split_go sep O cur y.
Proof.
  induction p as [|c p IH]; simpl.
  - destruct y; reflexivity.
  - exact IH.
Qed.

(** Where no separator starts, the text goes to the current piece. *)
Lemma split_go_free (x y cur : string) :
  free_in sep x y ->
  split_go sep O cur (x ++ y) = split_go sep O (cur ++ x) y.
Proof.
  revert cur. induction x as [|c x IH]; intros cur H.
  - simpl. now rewrite sapp_nil_r.
  - destruct H as [Hs Hx].
    change (String c x ++ y) with (String c (x ++ y)) in *.
    cbn [split_go]. rewrite Hs.
    rewrite (IH _ Hx), sapp_assoc. reflexivity.
Qed.

Lemma split_go_end (cur : string) : split_go sep O cur EmptyString = [cur].
Proof. reflexivity. Qed.

(** A separator found: the current piece is closed. *)
Lemma split_go_sep (c : ascii) (p y cur : string) :
  sep (String c (p ++ y)) = Some (S (String.length p)) ->
  split_go sep O cur (String c (p ++ y)) = cur :: split_go sep O EmptyString y.
Proof.
  intros H. cbn [split_go]. rewrite H. now rewrite split_go_skip.
Qed.

Lemma free_in_app (x1 x2 y : string) :
  free_in sep x1 (x2 ++ y) -> free_in sep x2 y -> free_in sep (x1 ++ x2) y.
Proof.
  intros H1 H2. induction x1 as [|c x1 IH]; [exact H2|].
  destruct H1 as [Hs H1]. simpl. split; [now rewrite sapp_assoc | now apply IH].
Qed.

End Splitting.

(** *** The separators of the evaluator *)

Section Separators.

#[local] Arguments String.append !_ _ / : simpl nomatch.

Lemma span_app_rest (p : ascii -> bool) (a b : string) :
  snd (span p a) <> EmptyString ->
  span p (a ++ b) = (fst (span p a), snd (span p a) ++ b).
Proof.
  induction a as [|c a IH]; simpl; [contradiction|].
  destruct (p c) eqn:E; [|reflexivity].
  destruct (span p a) as [x y] eqn:Es. simpl in *. intros H. now rewrite (IH H).
Qed.

Lemma span_snd_empty (p : ascii -> bool) (a : string) :
  snd (span p a) = EmptyString -> forallb_str p a = true.
Proof.
  induction a as [|c a IH]; [reflexivity|]. simpl.
  destruct (p c) eqn:E; [|discriminate].
  destruct (span p a) as [x y]. simpl in *. exact IH.
Qed.

Lemma span_snd_head (p : ascii -> bool) (a : string) (c : ascii) (r : string) :
  snd (span p a) = String c r -> p c = false.
Proof.
  induction a as [|x a IH]; [discriminate|]. simpl.
  destruct (p x) eqn:E.
  - destruct (span p a) as [u v]. simpl in *. exact IH.
  - simpl. intros H. injection H as <- _. exact E.
Qed.

Lemma strip_prefix_ci_app_none (w r rest : string) (q : ascii) :
  strip_prefix_ci w r = None ->
  forallb_str (fun p => negb (char_ci p q)) w = true ->
  strip_prefix_ci w (r ++ String q rest) = None.
Proof.
  revert r. induction w as [|p w IH]; intros r H Hq; [discriminate|].
  simpl in Hq. apply andb_prop in Hq as [Hp Hw]. apply negb_true_iff in Hp.
  destruct r as [|c r]; simpl in *.
  - now rewrite Hp.
  - destruct (char_ci p c); [now apply IH | reflexivity].
Qed.

Lemma strip_prefix_ci_app_some (w r r2 b : string) :
  strip_prefix_ci w r = Some r2 -> strip_prefix_ci w (r ++ b) = Some (r2 ++ b).
Proof.
  revert r. induction w as [|p w IH]; intros r H; simpl in *.
  - now injection H as ->.
  - destruct r as [|c r]; [discriminate|]. simpl.
    destruct (char_ci p c); [now apply IH | discriminate].
Qed.

(** A separator cannot reach across a character that is neither white
    space nor a letter of the word. *)
Lemma sep_word_app_none (w a rest : string) (q : ascii) :
  is_space q = false ->
  forallb_str (fun p => negb (char_ci p q)) w = true ->
  sep_word w a = None ->
  sep_word w (a ++ String q rest) = None.
Proof.
  intros Hq Hw H. unfold sep_word in *.
  destruct (span is_space a) as [w1 r1] eqn:Ea.
  assert (Hspan : span is_space (a ++ String q rest) = (w1, r1 ++ String q rest)).
  { destruct r1 as [|c r1'] eqn:Er.
    - pose proof (span_snd_empty is_space a ltac:(now rewrite Ea)) as Hall.
      rewrite (span_app _ _ _ Hall) by exact Hq.
      pose proof (span_all _ _ Hall) as E2. rewrite Ea in E2. now injection E2 as ->.
    - rewrite span_app_rest by (rewrite Ea; discriminate). now rewrite Ea. }
  rewrite Hspan. destruct (is_empty w1); [reflexivity|].
  destruct (strip_prefix_ci w r1) as [r2|] eqn:Es.
  - rewrite (strip_prefix_ci_app_some _ _ _ _ Es).
    destruct (span is_space r2) as [w2 r3] eqn:E2.
    destruct (is_empty w2) eqn:Ew2; [|discriminate].
    destruct w2; [|discriminate].
    replace (span is_space (r2 ++ String q rest)) with (EmptyString, r2 ++ String q rest);
      [reflexivity|].
    destruct r2 as [|c r2'].
    + simpl. now rewrite Hq.
    + simpl in E2 |- *. destruct (is_space c); [|reflexivity].
      destruct (span is_space r2'); discriminate E2.
  - now rewrite (strip_prefix_ci_app_none _ _ _ _ Es Hw).
Qed.

Lemma token_free_free_in (w c rest : string) (q : ascii) :
  is_space q = false ->
  forallb_str (fun p => negb (char_ci p q)) w = true ->
  token_free w c = true ->
  free_in (sep_word w) c (String q rest).
Proof.
  intros Hq Hw. induction c as [|x c IH]; [constructor|].
  cbn [token_free]. destruct (sep_word w (String x c)) eqn:E; [discriminate|].
  intros H. split; [now apply sep_word_app_none | now apply IH].
Qed.

(** No separator starts inside a run of digits, nor at a space before it. *)
Lemma sep_word_digits (w n : string) :
  forallb_str is_digit n = true ->
  match w with String p _ => is_lower p = true | EmptyString => False end ->
  free_in (sep_word w) n EmptyString /\
  (n <> EmptyString -> sep_word w (String " " n) = None).
Proof.
  intros Hn Hw. split.
  - induction n as [|d n IH]; [constructor|].
    simpl in Hn. apply andb_prop in Hn as [Hd Hn].
    split; [|now apply IH].
    unfold sep_word. simpl. rewrite (proj1 (digit_facts d Hd)). reflexivity.
  - intros Hne. destruct n as [|d n]; [contradiction|].
    simpl in Hn. apply andb_prop in Hn as [Hd _].
    unfold sep_word. simpl. rewrite (proj1 (digit_facts d Hd)). simpl.
    destruct w as [|p w]; [contradiction|]. simpl.
    replace (char_ci p d) with false; [reflexivity|].
    symmetry. unfold char_ci.
    destruct d as [[] [] [] [] [] [] [] []]; try discriminate Hd;
      destruct p as [[] [] [] [] [] [] [] []]; try discriminate Hw; reflexivity.
Qed.

End Separators.

(** *** Splitting at a token *)

Section TokenSplit.

#[local] Arguments String.append !_ _ / : simpl nomatch.

Variable b : string.
Hypothesis Hb : match b with String c _ => is_space c = false | EmptyString => True end.

Lemma span_space_tail : span is_space (String " " b) = (" ", b).
Proof.
  cbn [span]. change (is_space " ") with true. cbv iota.
  destruct b as [|c r]; [reflexivity|]. cbn [span]. now rewrite Hb.
Qed.

Lemma sep_or_here : sep_word "or" (" or " ++ b) = Some 4%nat.
Proof.
  unfold sep_word. cbn [String.append span].
  change (is_space " ") with true. change (is_space "o") with false. cbv iota.
  cbn [is_empty strip_prefix_ci]. change (char_ci "o" "o") with true.
  change (char_ci "r" "r") with true. cbv iota.
  now rewrite span_space_tail.
Qed.

Lemma sep_and_here : sep_word "and" (" and " ++ b) = Some 5%nat.
Proof.
  unfold sep_word. cbn [String.append span].
  change (is_space " ") with true. change (is_space "a") with false. cbv iota.
  cbn [is_empty strip_prefix_ci]. change (char_ci "a" "a") with true.
  change (char_ci "n" "n") with true. change (char_ci "d" "d") with true. cbv iota.
  now rewrite span_space_tail.
Qed.

(** The text [a or b], where no separator starts inside [a] and [b] does
    not begin with white space, splits after [a]. *)
Lemma split_at_or (a : string) :
  free_in (sep_word "or") a (" or " ++ b) ->
  split_re (sep_word "or") (a ++ " or " ++ b) = a :: split_re (sep_word "or") b.
Proof.
  intros Hfree. unfold split_re.
  rewrite (split_go_free _ _ _ _ Hfree), sapp_nil_l.
  apply (split_go_sep (sep_word "or") " " "or " b). exact sep_or_here.
Qed.

Lemma split_at_and (a : string) :
  free_in (sep_word "and") a (" and " ++ b) ->
  split_re (sep_word "and") (a ++ " and " ++ b) = a :: split_re (sep_word "and") b.
Proof.
  intros Hfree. unfold split_re.
  rewrite (split_go_free _ _ _ _ Hfree), sapp_nil_l.
  apply (split_go_sep (sep_word "and") " " "and " b). exact sep_and_here.
Qed.

End TokenSplit.

(** ** The evaluator on a transaction object *)

Section EvaluatorFacts.

Variable o : props.

(** What a readable transaction holds under a name converts. *)
Lemma readable_get (k : string) :
  readable o = true ->
  match get_prop o k with
  | Some v => Coerce.convertible v = true
  | None => True
  end.
Proof.
  intros Hr. unfold get_prop.
  destruct (assoc k o) as [v|] eqn:E.
  - unfold readable in Hr. rewrite forallb_forall in Hr.
    clear -E Hr. induction o as [|[k' v'] r IH]; [discriminate|].
    cbn [assoc] in E. destruct (String.eqb k k').
    + injection E as <-. apply (Hr (k', v')). now left.
    + apply IH; [|exact E]. intros x Hx. apply Hr. now right.
  - destruct (inherited k); [reflexivity | exact I].
Qed.

Lemma amount_of_ok :
  readable o = true -> exists a, amount_of (Some o) = Ok a.
Proof.
  intros Hr. unfold amount_of, amount_value. cbn [tx_get mbind result_bind].
  pose proof (readable_get "amount" Hr) as Hc.
  destruct (get_prop o "amount") as [v|]; [|eauto].
  destruct (Json.truthy v); [|eauto].
  cbn [Coerce.number_of]. rewrite Hc. eauto.
Qed.

Lemma field_of_ok (f : string) :
  readable o = true -> exists t, field_of (Some o) f = Ok t.
Proof.
  intros Hr. unfold field_of, field_text. cbn [tx_get mbind result_bind].
  pose proof (readable_get f Hr) as Hc.
  destruct (get_prop o f) as [v|]; [|eauto].
  destruct v; eauto; cbn [Coerce.string_of]; rewrite Hc; eauto.
Qed.

Lemma eval_clause_ok andOk clause :
  readable o = true -> exists b, eval_clause (Some o) andOk clause = Ok b.
Proof.
  intros Hr. unfold eval_clause.
  destruct (amount_of_ok Hr) as [a Ha].
  destruct (match_amount _) as [[op num]|].
  { rewrite Ha. cbn [mbind result_bind]. eauto. }
  destruct (match_field _) as [[[f op] v]|].
  { destruct (field_of_ok f Hr) as [t Ht]. rewrite Ht. cbn [mbind result_bind]. eauto. }
  destruct (match_loose _); [|eauto].
  rewrite Ha. cbn [mbind result_bind]. eauto.
Qed.

Lemma eval_clause_true clause :
  readable o = true ->
  eval_clause (Some o) true clause = Ok (clause_holds o clause).
Proof.
  intros Hr. unfold clause_holds.
  destruct (eval_clause_ok true clause Hr) as [b ->]. reflexivity.
Qed.

Lemma and_loop_forallb clauses :
  readable o = true ->
  and_loop (Some o) true clauses = Ok (forallb (clause_holds o) clauses).
Proof.
  intros Hr. induction clauses as [|c rest IH]; [reflexivity|].
  cbn [and_loop forallb]. rewrite (eval_clause_true c Hr). cbn [mbind result_bind].
  destruct (clause_holds o c); cbn [negb andb]; [exact IH | reflexivity].
Qed.

Lemma or_loop_existsb parts :
  readable o = true ->
  or_loop (Some o) parts
  = Ok (existsb (fun g => forallb (clause_holds o) (andParts g)) parts).
Proof.
  intros Hr. induction parts as [|g rest IH]; [reflexivity|].
  cbn [or_loop existsb]. rewrite (and_loop_forallb _ Hr). cbn [mbind result_bind].
  destruct (forallb (clause_holds o) (andParts g)); cbn [orb]; [reflexivity | exact IH].
Qed.

End EvaluatorFacts.

(** *** Whatever the second argument *)

Lemma eval_clause_unrecognized tx andOk clause :
  unrecognized clause -> eval_clause tx andOk clause = Ok false.
Proof.
  intros (H1 & H2 & H3). unfold eval_clause. rewrite H1, H2, H3. reflexivity.
Qed.

(** The evaluator throws nothing but the TypeError of a read on [null] or
    of a conversion. *)
Lemma eval_clause_throws tx andOk clause e :
  eval_clause tx andOk clause = Throw e -> e = TypeError.
Proof.
  assert (Ha : forall e, amount_of tx = Throw e -> e = TypeError).
  { intros e0. unfold amount_of, tx_get, amount_value. destruct tx as [r|];
      [|intros H; now injection H as <-].
    cbn [mbind result_bind]. destruct (get_prop r "amount") as [v|]; [|discriminate].
    destruct (Json.truthy v); [|discriminate].
    cbn [Coerce.number_of]. destruct (Coerce.convertible v); [discriminate|].
    intros H; now injection H as <-. }
  assert (Hf : forall f e, field_of tx f = Throw e -> e = TypeError).
  { intros f e0. unfold field_of, tx_get, field_text. destruct tx as [r|];
      [|intros H; now injection H as <-].
    cbn [mbind result_bind]. destruct (get_prop r f) as [v|]; [|discriminate].
    destruct v; try discriminate; cbn [Coerce.string_of];
      destruct (Coerce.convertible _); try discriminate;
      intros H; now injection H as <-. }
  unfold eval_clause.
  destruct (match_amount _) as [[op num]|].
  { destruct (amount_of tx) as [a|e0] eqn:E; [discriminate|].
    cbn [mbind result_bind]. intros H. injection H as <-. now apply Ha. }
  destruct (match_field _) as [[[f op] v]|].
  { destruct (field_of tx f) as [t|e0] eqn:E; [discriminate|].
    cbn [mbind result_bind]. intros H. injection H as <-. now apply (Hf f). }
  destruct (match_loose _); [|discriminate].
  destruct (amount_of tx) as [a|e0] eqn:E; [discriminate|].
  cbn [mbind result_bind]. intros H. injection H as <-. now apply Ha.
Qed.

Lemma and_loop_throws tx andOk clauses e :
  and_loop tx andOk clauses = Throw e -> e = TypeError.
Proof.
  revert andOk. induction clauses as [|c rest IH]; intros andOk; [discriminate|].
  cbn [and_loop]. destruct (eval_clause tx andOk c) as [b|e0] eqn:E.
  - cbn [mbind result_bind]. destruct b; cbn [negb]; [apply IH | discriminate].
  - cbn [mbind result_bind]. intros H. injection H as <-.
    now apply (eval_clause_throws _ _ _ _ E).
Qed.

Lemma or_loop_throws tx parts e :
  or_loop tx parts = Throw e -> e = TypeError.
Proof.
  induction parts as [|g rest IH]; [discriminate|].
  cbn [or_loop]. destruct (and_loop tx true (andParts g)) as [b|e0] eqn:E.
  - cbn [mbind result_bind]. destruct b; [discriminate | exact IH].
  - cbn [mbind result_bind]. intros H. injection H as <-.
    now apply (and_loop_throws _ _ _ _ E).
Qed.

(** The loop over the clauses ends with [andOk] true only when every clause
    has left it true. *)
Lemma and_loop_true tx clauses :
  and_loop tx true clauses = Ok true ->
  Forall (fun c => eval_clause tx true c = Ok true) clauses.
Proof.
  induction clauses as [|c rest IH]; [constructor|].
  cbn [and_loop]. destruct (eval_clause tx true c) as [b|e0] eqn:E; [|discriminate].
  cbn [mbind result_bind]. destruct b; cbn [negb]; [|discriminate].
  intros H. constructor; [exact E | now apply IH].
Qed.

Lemma or_loop_true tx parts :
  or_loop tx parts = Ok true ->
  Exists (fun g => and_loop tx true (andParts g) = Ok true) parts.
Proof.
  induction parts as [|g rest IH]; [discriminate|].
  cbn [or_loop]. destruct (and_loop tx true (andParts g)) as [b|e0] eqn:E; [|discriminate].
  cbn [mbind result_bind]. destruct b.
  - intros _. now constructor.
  - intros H. constructor 2. now apply IH.
Qed.

(** ** Claims about the evaluator *)

Lemma condition_falsy_false (rule : json) (tx : option props) :
  Json.truthy (condition_of rule) = false -> evaluateRuleAgainstTx rule tx = Ok false.
Proof. intros H. unfold evaluateRuleAgainstTx. now rewrite H. Qed.

Lemma evaluate_on_object (rule : json) (o : props) :
  Coerce.convertible (condition_of rule) = true ->
  readable o = true ->
  evaluateRuleAgainstTx rule (Some o) =
    Ok (Json.truthy (condition_of rule) &&
        existsb (fun g => forallb (clause_holds o) (andParts g))
                (orParts (trim (Json.to_string (condition_of rule))))).
Proof.
  intros Hc Hr. unfold evaluateRuleAgainstTx.
  destruct (Json.truthy (condition_of rule)); cbn [negb andb]; [|reflexivity].
  cbn [Coerce.string_of]. rewrite Hc. cbn [mbind result_bind].
  now apply or_loop_existsb.
Qed.

Lemma evaluate_throws (rule : json) (tx : option props) (e : exn) :
  evaluateRuleAgainstTx rule tx = Throw e -> e = TypeError.
Proof.
  unfold evaluateRuleAgainstTx.
  destruct (negb (Json.truthy (condition_of rule))); [discriminate|].
  cbn [Coerce.string_of]. destruct (Coerce.convertible (condition_of rule)).
  - cbn [mbind result_bind]. apply or_loop_throws.
  - cbn [mbind result_bind]. intros H. now injection H as <-.
Qed.

(** The condition of a rule is a text, or nothing. *)
Lemma condition_text_convertible (rule : json) :
  member rule "condition" = None \/ (exists c, member rule "condition" = Some (JStr c)) ->
  Coerce.convertible (condition_of rule) = true.
Proof.
  intros H. unfold condition_of. destruct (Json.truthy rule); [|reflexivity].
  destruct H as [-> | [c ->]]; [reflexivity|].
  now destruct (Json.truthy (JStr c)).
Qed.

(** Whatever the second argument, the evaluator returns true only through
    an OR-part all of whose clauses evaluate to true. *)
Lemma evaluate_true_parts (rule : json) (tx : option props) :
  evaluateRuleAgainstTx rule tx = Ok true ->
  Exists (fun g => Forall (fun c => eval_clause tx true c = Ok true) (andParts g))
         (orParts (trim (Json.to_string (condition_of rule)))).
Proof.
  intros H. unfold evaluateRuleAgainstTx in H.
  destruct (negb (Json.truthy (condition_of rule))); [discriminate H|].
  cbn [Coerce.string_of] in H.
  destruct (Coerce.convertible (condition_of rule)); [|discriminate H].
  cbn [mbind result_bind] in H. apply or_loop_true in H.
  apply List.Exists_exists in H. destruct H as (g & Hin & Hg).
  apply List.Exists_exists. exists g. split; [exact Hin | now apply and_loop_true].
Qed.

(** C2 (amended). The evaluator returns a boolean and throws nothing,
    whatever text the condition of the rule holds, on every transaction
    object whose property values can be converted: none is an object with
    an own [toString], alone or inside an array.  What it can throw
    otherwise is a TypeError.  And when the condition is absent or the empty
    string it returns false, for every second argument. *)
Theorem evaluate_total (rule : json) (o : props) :
  (member rule "condition" = None \/
   (exists c, member rule "condition" = Some (JStr c)) ->
   readable o = true ->
   exists b, evaluateRuleAgainstTx rule (Some o) = Ok b) /\
  (forall tx e, evaluateRuleAgainstTx rule tx = Throw e -> e = TypeError) /\
  (member rule "condition" = None \/ member rule "condition" = Some (JStr EmptyString) ->
   forall tx, evaluateRuleAgainstTx rule tx = Ok false).
Proof.
  split; [|split].
  - intros Hc Hr.
    rewrite (evaluate_on_object rule o (condition_text_convertible rule Hc) Hr). eauto.
  - intros tx e. apply evaluate_throws.
  - intros H tx. apply condition_falsy_false. unfold condition_of.
    destruct (Json.truthy rule); [|reflexivity].
    destruct H as [-> | ->]; reflexivity.
Qed.

Lemma evaluate_total_witness :
  (exists b,
     evaluateRuleAgainstTx (JObj [("condition", JStr "amount >> 5 and city == Oslo")])
       (Some [("amount", JStr "12"); ("tags", JArr [JStr "a"; JNull])]) = Ok b) /\
  evaluateRuleAgainstTx (JObj [("name", JStr "R1")]) None = Ok false.
Proof.
  split.
  - apply (proj1 (evaluate_total
                    (JObj [("condition", JStr "amount >> 5 and city == Oslo")])
                    [("amount", JStr "12"); ("tags", JArr [JStr "a"; JNull])])).
    + right. now eexists.
    + reflexivity.
  - apply (proj2 (proj2 (evaluate_total (JObj [("name", JStr "R1")]) []))).
    left. reflexivity.
Defined.

(** C2 as stated fails: a field that holds an object with an own
    [toString] cannot be converted, and the clause that reads it throws. *)
Lemma unconvertible_field_throws :
  ~ (forall (c : string) (o : props),
       exists b, evaluateRuleAgainstTx (JObj [("condition", JStr c)]) (Some o) = Ok b).
Proof.
  intros H.
  destruct (H "merchant == 'ACME'"
              [("amount", JNum (JSNumber.Dec 80 0)); ("category", JStr "Meals");
               ("merchant", JObj [("toString", JNum (JSNumber.Dec 1 0))])])
    as [b Hb].
  vm_compute in Hb. discriminate Hb.
Qed.

(** C3 (amended). On a transaction object whose property values can be
    converted, the evaluator returns true exactly when some OR-part of the
    condition has all its AND-parts holding; on any second argument it
    returns true only if some OR-part has every clause evaluate to true.
    The OR-parts are cut at the token [or] between white space, in either
    letter case, and each of them is cut into AND-parts at the token [and]
    likewise: a text [a or b] in which no such token starts inside [a] gives
    [a], trimmed, and then the parts of [b].  The spec's example evaluates
    to true, and to false once the category differs. *)
Theorem evaluate_or_of_and :
  (forall (rule : json) (o : props),
     Coerce.convertible (condition_of rule) = true ->
     readable o = true ->
     evaluateRuleAgainstTx rule (Some o) =
       Ok (Json.truthy (condition_of rule) &&
           existsb (fun g => forallb (clause_holds o) (andParts g))
                   (orParts (trim (Json.to_string (condition_of rule)))))) /\
  (forall (rule : json) (tx : option props),
     evaluateRuleAgainstTx rule tx = Ok true ->
     Exists (fun g => Forall (fun c => eval_clause tx true c = Ok true) (andParts g))
            (orParts (trim (Json.to_string (condition_of rule))))) /\
  (forall a b : string,
     free_in (sep_word "or") a (" or " ++ b) ->
     match b with String c _ => is_space c = false | EmptyString => True end ->
     orParts (a ++ " or " ++ b) = trim a :: orParts b) /\
  (forall a b : string,
     free_in (sep_word "and") a (" and " ++ b) ->
     match b with String c _ => is_space c = false | EmptyString => True end ->
     andParts (a ++ " and " ++ b) = trim a :: andParts b) /\
  orParts "a OR b Or c" = ["a"; "b"; "c"] /\
  andParts "category == 'Travel' and amount > 300 AND city == 'Oslo'"
    = ["category == 'Travel'"; "amount > 300"; "city == 'Oslo'"] /\
  evaluateRuleAgainstTx
    (JObj [("condition", JStr "amount > 100 or category == 'Alcohol'")])
    (Some [("amount", JNum (JSNumber.Dec 50 0)); ("category", JStr "Alcohol")])
  = Ok true /\
  evaluateRuleAgainstTx
    (JObj [("condition", JStr "amount > 100 or category == 'Alcohol'")])
    (Some [("amount", JNum (JSNumber.Dec 50 0)); ("category", JStr "Meals")])
  = Ok false /\
  evaluateRuleAgainstTx
    (JObj [("condition", JStr "amount > 100 and category == 'Alcohol'")])
    (Some [("amount", JNum (JSNumber.Dec 150 0)); ("category", JStr "Meals")])
  = Ok false /\
  evaluateRuleAgainstTx
    (JObj [("condition", JStr "amount > 100 and category == 'Alcohol'")])
    (Some [("amount", JNum (JSNumber.Dec 150 0)); ("category", JStr "Alcohol")])
  = Ok true.
Proof.
  split; [exact evaluate_on_object|].
  split.
  { exact evaluate_true_parts. }
  split.
  { intros a b Hfree Hb. unfold orParts. now rewrite (split_at_or b Hb a Hfree). }
  split.
  { intros a b Hfree Hb. unfold andParts. now rewrite (split_at_and b Hb a Hfree). }
  repeat split; vm_compute; reflexivity.
Qed.

Lemma evaluate_or_of_and_witness :
  orParts ("amount > 100" ++ " or " ++ "category == 'Alcohol'")
  = trim "amount > 100" :: orParts "category == 'Alcohol'" /\
  andParts ("category == 'Travel'" ++ " and " ++ "amount > 300")
  = trim "category == 'Travel'" :: andParts "amount > 300" /\
  evaluateRuleAgainstTx
    (JObj [("condition", JStr "amount > 100 or category == 'Alcohol'")])
    (Some [("amount", JNum (JSNumber.Dec 500 0)); ("category", JNull)])
  = Ok (true &&
        existsb (fun g => forallb (clause_holds [("amount", JNum (JSNumber.Dec 500 0));
                                                 ("category", JNull)]) (andParts g))
          (orParts (trim "amount > 100 or category == 'Alcohol'"))).
Proof.
  destruct evaluate_or_of_and as (Hev & _ & Hor & Hand & _). split; [|split].
  - apply Hor; [repeat split; reflexivity | reflexivity].
  - apply Hand; [repeat split; reflexivity | reflexivity].
  - apply (Hev (JObj [("condition", JStr "amount > 100 or category == 'Alcohol'")])
               [("amount", JNum (JSNumber.Dec 500 0)); ("category", JNull)]);
      reflexivity.
Defined.

(** C3 as stated fails: when the first OR-part reads a field that cannot
    be converted, the evaluator throws and does not reach the second part,
    which holds. *)
Lemma or_part_after_throw_not_reached :
  ~ (forall (rule : json) (o : props),
       evaluateRuleAgainstTx rule (Some o) = Ok true <->
       existsb (fun g => forallb (clause_holds o) (andParts g))
               (orParts (trim (Json.to_string (condition_of rule)))) = true).
Proof.
  intros H.
  destruct (H (JObj [("condition", JStr "merchant == 'ACME' or category == 'Alcohol'")])
              [("amount", JNum (JSNumber.Dec 50 0)); ("category", JStr "Alcohol");
               ("merchant", JObj [("toString", JNum (JSNumber.Dec 1 0))])]) as [_ H2].
  specialize (H2 ltac:(vm_compute; reflexivity)).
  vm_compute in H2. discriminate H2.
Qed.

Lemma and_loop_unrecognized (o : props) (clauses : list string) (c : string) :
  readable o = true ->
  In c clauses -> unrecognized c -> and_loop (Some o) true clauses = Ok false.
Proof.
  intros Hr Hin Hun. rewrite (and_loop_forallb o clauses Hr). f_equal.
  apply not_true_is_false. intros Hall.
  rewrite forallb_forall in Hall. specialize (Hall c Hin).
  unfold clause_holds in Hall.
  rewrite (eval_clause_unrecognized (Some o) true c Hun) in Hall. discriminate.
Qed.

Lemma and_loop_never_true (tx : option props) (clauses : list string) (c : string) :
  In c clauses -> unrecognized c -> and_loop tx true clauses <> Ok true.
Proof.
  intros Hin Hun H. apply and_loop_true in H.
  rewrite List.Forall_forall in H. specialize (H c Hin).
  rewrite (eval_clause_unrecognized tx true c Hun) in H. discriminate H.
Qed.

(** C4. A clause that none of the three patterns recognises makes its
    AND-group fail: whatever the second argument, the loop over the group
    never ends with [andOk] true, and on a transaction object whose
    property values can be converted it ends with [andOk] false (a clause
    ahead of it that reads a value that cannot be converted throws
    instead).  A rule whose condition is [foo ~= bar] evaluates to false on
    every second argument, without throwing. *)
Theorem unrecognized_clause_fails_closed :
  (forall (tx : option props) (clauses : list string) (c : string),
     In c clauses -> unrecognized c -> and_loop tx true clauses <> Ok true) /\
  (forall (o : props) (clauses : list string) (c : string),
     readable o = true ->
     In c clauses -> unrecognized c -> and_loop (Some o) true clauses = Ok false) /\
  unrecognized "foo ~= bar" /\
  (forall (rule : json) (tx : option props),
     member rule "condition" = Some (JStr "foo ~= bar") ->
     evaluateRuleAgainstTx rule tx = Ok false).
Proof.
  split; [exact and_loop_never_true|].
  split; [exact and_loop_unrecognized|].
  split; [repeat split; vm_compute; reflexivity|].
  intros rule tx H. unfold evaluateRuleAgainstTx, condition_of.
  destruct rule; try discriminate H. simpl in H. simpl Json.truthy. cbv iota.
  unfold member. rewrite H. vm_compute. reflexivity.
Qed.

Lemma unrecognized_clause_fails_closed_witness :
  and_loop (Some [("amount", JNum (JSNumber.Dec 500 0))]) true
    ["amount > 100"; "foo ~= bar"] = Ok false /\
  and_loop (Some [("amount", JObj [("toString", JNum (JSNumber.Dec 1 0))])]) true
    ["amount > 100"; "foo ~= bar"] <> Ok true /\
  evaluateRuleAgainstTx (JObj [("name", JStr "R"); ("condition", JStr "foo ~= bar")])
    (Some [("amount", JNum (JSNumber.Dec 500 0))]) = Ok false.
Proof.
  destruct unrecognized_clause_fails_closed as (H0 & H1 & H2 & H3). split; [|split].
  - apply (H1 _ _ "foo ~= bar"); [reflexivity | simpl; tauto | exact H2].
  - apply (H0 _ _ "foo ~= bar"); [simpl; tauto | exact H2].
  - apply H3. reflexivity.
Defined.

(** ** Claims about the aggregator *)

(** What a loop that can throw has returned, element by element. *)
Lemma mapM_result {A B : Type} (g : A -> result B) (l : list A) (r : list B) :
  mapM g l = Ok r -> Forall2 (fun a b => g a = Ok b) l r.
Proof.
  revert r. induction l as [|a l IH]; intros r H.
  - injection H as <-. constructor.
  - cbn [mapM] in H. destruct (g a) as [b|e] eqn:Eg; [|discriminate H].
    cbn [mbind result_bind] in H.
    destruct (mapM g l) as [bs|e]; [|discriminate H].
    injection H as <-. constructor; [exact Eg | now apply IH].
Qed.


Lemma assoc_set_prop_eq (r : props) (k : string) (v : json) :
  assoc k (set_prop r k v) = Some v.
Proof.
  induction r as [|[k' v'] r IH]; simpl.
  - now rewrite String.eqb_refl.
  - destruct (String.eqb k k') eqn:E; simpl; rewrite E; [reflexivity | exact IH].
Qed.

Lemma assoc_set_prop_ne (r : props) (k k2 : string) (v : json) :
  k2 <> k -> assoc k2 (set_prop r k v) = assoc k2 r.
Proof.
  intros Hne. induction r as [|[k' v'] r IH]; simpl.
  - apply String.eqb_neq in Hne. now rewrite Hne.
  - destruct (String.eqb k k') eqn:E; simpl.
    + apply String.eqb_eq in E. subst k'.
      apply String.eqb_neq in Hne. now rewrite Hne.
    + now rewrite IH.
Qed.

Lemma get_prop_set_prop_eq (r : props) (k : string) (v : json) :
  get_prop (set_prop r k v) k = Some v.
Proof. unfold get_prop. now rewrite assoc_set_prop_eq. Qed.

Lemma get_prop_set_prop_ne (r : props) (k k2 : string) (v : json) :
  k2 <> k -> get_prop (set_prop r k v) k2 = get_prop r k2.
Proof. intros H. unfold get_prop. now rewrite assoc_set_prop_ne. Qed.

Lemma applyPolicy_no_rules_eq (doc : option json) (rows : list props) :
  no_rules doc ->
  applyPolicyToRows doc rows
  = Ok (map (fun r => set_prop r "policy" compliant_verdict) rows).
Proof.
  intros [-> | (d & -> & Hd)]; [reflexivity|].
  unfold applyPolicyToRows. destruct (Json.truthy d); [|reflexivity].
  rewrite Hd. reflexivity.
Qed.

(** C5. With no rule document, or one whose rules array is empty, every row
    comes back, in order, with its [policy] set to the verdict
    [{compliant: true, violated_rules: [], reason: ''}] and its other
    properties as they were; this is the value returned, nothing is thrown. *)
Theorem applyPolicy_no_rules (doc : option json) (rows : list props) :
  no_rules doc ->
  exists out,
    applyPolicyToRows doc rows = Ok out /\
    Forall2 (fun r r' =>
               get_prop r' "policy" = Some compliant_verdict /\
               forall k, k <> "policy" -> get_prop r' k = get_prop r k)
            rows out.
Proof.
  intros H. rewrite (applyPolicy_no_rules_eq doc rows H). eexists. split; [reflexivity|].
  induction rows as [|r rows IH]; simpl; constructor; [|exact IH].
  split; [apply get_prop_set_prop_eq | intros k Hk; now apply get_prop_set_prop_ne].
Qed.

Lemma applyPolicy_no_rules_witness :
  exists out,
    applyPolicyToRows (Some (JObj [("rules", JArr []); ("version", JStr "1.0")]))
      [[("txn_id", JStr "t1"); ("amount", JNum (JSNumber.Dec 301 0))]] = Ok out /\
    Forall2 (fun r r' =>
               get_prop r' "policy" = Some compliant_verdict /\
               forall k, k <> "policy" -> get_prop r' k = get_prop r k)
            [[("txn_id", JStr "t1"); ("amount", JNum (JSNumber.Dec 301 0))]] out.
Proof.
  apply applyPolicy_no_rules. right. eexists. split; reflexivity.
Defined.

(** ** String-comparison clauses *)

Section FieldClause.

#[local] Arguments String.append !_ _ / : simpl nomatch.

Variables (field v : string).
Hypothesis Hfield : is_identifier field = true.
Hypothesis Hv : no_line_terminator v = true.

Lemma match_field_neq :
  match_field (field ++ " != '" ++ v ++ "'") = Some (field, "!=", v).
Proof.
  destruct field as [|c0 id]; [discriminate|].
  simpl in Hfield. apply andb_prop in Hfield as [H0 Hid].
  simpl. rewrite H0.
  rewrite (span_app is_word id _ Hid) by reflexivity.
  repeat (rewrite skip_spaces_cons; simpl).
  now rewrite last_char_snoc, drop_last_snoc, Hv.
Qed.

Lemma match_field_eq :
  match_field (field ++ " == '" ++ v ++ "'") = Some (field, "==", v).
Proof.
  destruct field as [|c0 id]; [discriminate|].
  simpl in Hfield. apply andb_prop in Hfield as [H0 Hid].
  simpl. rewrite H0.
  rewrite (span_app is_word id _ Hid) by reflexivity.
  repeat (rewrite skip_spaces_cons; simpl).
  now rewrite last_char_snoc, drop_last_snoc, Hv.
Qed.

Lemma is_identifier_head :
  exists c r, field = String c r /\ is_space c = false /\ Ascii.eqb c "(" = false.
Proof.
  destruct field as [|c r]; [discriminate|]. exists c, r. split; [reflexivity|].
  simpl in Hfield. apply andb_prop in Hfield as [H0 _].
  destruct c as [[] [] [] [] [] [] [] []]; try discriminate H0; split; reflexivity.
Qed.

(** A clause [field op 'v'] is left as it is by the removal of parentheses
    and by [trim], and the exact amount pattern rejects it. *)
Lemma quoted_clause_prepared (mid : string) :
  let clause := field ++ mid ++ "'" in
  trim (strip_parens clause) = clause /\ match_amount clause = None.
Proof.
  intros clause.
  assert (Hlast : last_char clause = Some "'"%char).
  { unfold clause. rewrite <- sapp_assoc. apply last_char_snoc. }
  destruct is_identifier_head as (c & r & Hf & Hsp & Hpar).
  split.
  - assert (Hs : strip_parens clause = clause).
    { unfold strip_parens. replace (match clause with String "(" r0 => r0 | _ => clause end)
        with clause.
      - now rewrite Hlast.
      - unfold clause. rewrite Hf. simpl.
        destruct c as [[] [] [] [] [] [] [] []]; try reflexivity; discriminate Hpar. }
    rewrite Hs. unfold clause in *. rewrite Hf in *.
    change (String c r ++ mid ++ "'") with (String c (r ++ mid ++ "'")) in *.
    apply trim_id; [exact Hsp | now rewrite Hlast].
  - apply match_amount_none. now rewrite Hlast.
Qed.

Lemma eval_clause_neq (o : props) :
  eval_clause (Some o) true (field ++ " != '" ++ v ++ "'")
  = s ← field_of (Some o) field; Ok (negb (String.eqb s v)).
Proof.
  destruct (quoted_clause_prepared (" != '" ++ v)) as [Ht Ha].
  rewrite sapp_assoc in Ht, Ha.
  unfold eval_clause. rewrite Ht, Ha, match_field_neq. reflexivity.
Qed.

Lemma eval_clause_eq (o : props) :
  eval_clause (Some o) true (field ++ " == '" ++ v ++ "'")
  = s ← field_of (Some o) field; Ok (String.eqb s v).
Proof.
  destruct (quoted_clause_prepared (" == '" ++ v)) as [Ht Ha].
  rewrite sapp_assoc in Ht, Ha.
  unfold eval_clause. rewrite Ht, Ha, match_field_eq. reflexivity.
Qed.

End FieldClause.

(** A value that cannot be converted holds an object, whose text is not
    empty. *)
Lemma join_nonempty (sep s : string) (l : list string) :
  In s l -> s <> EmptyString -> join sep l <> EmptyString.
Proof.
  induction l as [|x r IH]; [contradiction|].
  intros Hin Hs. cbn [join]. destruct r as [|y r'].
  - destruct Hin as [->|[]]. exact Hs.
  - destruct Hin as [->|Hin].
    + destruct s; [contradiction | discriminate].
    + destruct x; [|discriminate]. cbn [String.append].
      destruct sep; [|discriminate]. cbn [String.append]. now apply IH.
Qed.

Lemma to_string_not_convertible (x : json) :
  Coerce.convertible x = false -> Json.to_string x <> EmptyString.
Proof.
  induction x as [| | | |l IH|o IH|] using json_induction; try discriminate.
  cbn [Coerce.convertible Json.to_string]. intros H.
  assert (Hex : exists y, In y l /\ Coerce.convertible y = false).
  { clear IH. induction l as [|y r IHr]; [discriminate H|].
    cbn [forallb] in H. apply andb_false_iff in H as [H|H].
    - exists y. split; [now left | exact H].
    - destruct (IHr H) as (z & Hz & Hc). exists z. split; [now right | exact Hc]. }
  destruct Hex as (y & Hy & Hc).
  rewrite List.Forall_forall in IH.
  apply (join_nonempty "," (Json.to_string y)).
  - apply in_map_iff. exists y. split; [|exact Hy].
    destruct y; try reflexivity. discriminate Hc.
  - now apply IH.
Qed.

(** C10 (amended). A clause [field op 'v'] compares [String(tx[field] ?? '')]
    with [v].  So where [tx[field]] is [undefined] or [null] the text
    compared is the empty string: [field != 'v'] with [v] not empty holds
    for every such transaction; and [field == ''] holds for these
    transactions and for those whose field converts to the empty string,
    no others. *)
Theorem string_clause_on_missing_field (o : props) (field v : string) :
  is_identifier field = true ->
  no_line_terminator v = true ->
  (eval_clause (Some o) true (field ++ " != '" ++ v ++ "'")
     = s ← field_of (Some o) field; Ok (negb (String.eqb s v))) /\
  (eval_clause (Some o) true (field ++ " == '" ++ v ++ "'")
     = s ← field_of (Some o) field; Ok (String.eqb s v)) /\
  (get_prop o field = None \/ get_prop o field = Some JNull ->
     field_of (Some o) field = Ok EmptyString /\
     (v <> EmptyString -> clause_holds o (field ++ " != '" ++ v ++ "'") = true)) /\
  (clause_holds o (field ++ " == ''") = true <->
     get_prop o field = None \/ get_prop o field = Some JNull \/
     exists x, get_prop o field = Some x /\ Json.to_string x = EmptyString).
Proof.
  intros Hf Hv.
  split; [now apply eval_clause_neq|].
  split; [now apply eval_clause_eq|].
  split.
  - intros H.
    assert (Hm : field_of (Some o) field = Ok EmptyString).
    { unfold field_of. cbn [tx_get mbind result_bind]. destruct H as [-> | ->]; reflexivity. }
    split; [exact Hm|]. intros Hne.
    unfold clause_holds. rewrite (eval_clause_neq field v Hf Hv o), Hm. simpl.
    destruct v; [contradiction | reflexivity].
  - unfold clause_holds.
    pose proof (eval_clause_eq field EmptyString Hf eq_refl o) as He.
    change (field ++ " == '" ++ EmptyString ++ "'") with (field ++ " == ''") in He.
    rewrite He. clear He. unfold field_of. cbn [tx_get mbind result_bind].
    destruct (get_prop o field) as [x|] eqn:E; [|split; [now left | reflexivity]].
    assert (Hx : x = JNull \/ x <> JNull)
      by (destruct x; (now left) || (right; discriminate)).
    destruct Hx as [->|Hnn]; [split; [intros _; right; now left | reflexivity]|].
    assert (Hft : field_text (Some x) = Coerce.string_of (Some x))
      by (destruct x; try reflexivity; contradiction).
    rewrite Hft. cbn [Coerce.string_of].
    destruct (Coerce.convertible x) eqn:Hc; cbn [mbind result_bind].
    + split.
      * intros H. right. right. exists x. split; [reflexivity|].
        now apply String.eqb_eq in H.
      * intros [H | [H | (y & Hy & Hs)]]; [discriminate H | now injection H as -> |].
        injection Hy as <-. rewrite Hs. reflexivity.
    + split; [discriminate|].
      intros [H | [H | (y & Hy & Hs)]]; [discriminate H | now injection H as -> |].
      injection Hy as <-. now elim (to_string_not_convertible x Hc).
Qed.

Lemma string_clause_on_missing_field_witness :
  clause_holds [("amount", JNum (JSNumber.Dec 12 0)); ("category", JNull)]
    "merchant != 'Acme'" = true /\
  clause_holds [("amount", JNum (JSNumber.Dec 12 0)); ("category", JNull)]
    "category == ''" = true.
Proof.
  split.
  - destruct (string_clause_on_missing_field
                [("amount", JNum (JSNumber.Dec 12 0)); ("category", JNull)]
                "merchant" "Acme" eq_refl eq_refl) as (_ & _ & H & _).
    apply H; [left; reflexivity | discriminate].
  - destruct (string_clause_on_missing_field
                [("amount", JNum (JSNumber.Dec 12 0)); ("category", JNull)]
                "category" "Acme" eq_refl eq_refl) as (_ & _ & _ & H).
    apply H. right. left. reflexivity.
Defined.

(** C10 as stated fails: [category == ''] also matches a transaction whose
    category is present and is the empty string. *)
Lemma empty_clause_not_only_missing :
  ~ (forall (o : props) (field : string),
       is_identifier field = true ->
       (clause_holds o (field ++ " == ''") = true <->
        get_prop o field = None \/ get_prop o field = Some JNull)).
Proof.
  intros H.
  destruct (H [("amount", JNum (JSNumber.Dec 12 0)); ("category", JStr EmptyString)]
              "category" eq_refl) as [H1 _].
  destruct (H1 eq_refl) as [E | E]; discriminate E.
Qed.

(** ** The normaliser *)

Section MonadFacts.

Context {A B : Type}.

Lemma bind_ok (m : M A) (k : A -> M B) (h h' : heap) (a : A) :
  m h = (Ok a, h') -> mbind k m h = k a h'.
Proof. intros E. unfold mbind, M_bind. now rewrite E. Qed.

Lemma bind_throw (m : M A) (k : A -> M B) (h h' : heap) (e : exn) :
  m h = (Throw e, h') -> mbind k m h = (Throw e, h').
Proof. intros E. unfold mbind, M_bind. now rewrite E. Qed.

Lemma bind_read (v : value) (key : string) (k : value -> M B) (h : heap) :
  mbind k (read v key) h
  = match get h v key with Ok a => k a h | Throw e => (Throw e, h) end.
Proof. reflexivity. Qed.

Lemma bind_lift (f : heap -> result A) (k : A -> M B) (h : heap) :
  mbind k (lift f) h
  = match f h with Ok a => k a h | Throw e => (Throw e, h) end.
Proof. reflexivity. Qed.

End MonadFacts.

Lemma machine_checkable_synth (h : heap) (rr : value) (c : string) :
  get h rr "condition" = Ok (VStr c) ->
  looks_like_code (trim c) = true ->
  synthRuleCondition h rr = Ok (VStr c).
Proof.
  intros Hg Hl. unfold synthRuleCondition, synth_try.
  assert (Hc : c <> EmptyString) by (intros ->; discriminate Hl).
  assert (Ht : truthy rr = true).
  { destruct rr; try reflexivity; simpl in Hg; try discriminate Hg.
    all: unfold get in Hg; simpl in Hg; discriminate Hg. }
  rewrite Ht, Hg. simpl. rewrite Hl.
  destruct c; [contradiction | reflexivity].
Qed.

Lemma synth_loop_checkable (h : heap) (es : list value) :
  Forall (machine_checkable h) es -> synth_loop es h = (Ok tt, h).
Proof.
  induction 1 as [|rr es (c & Hg & Hl) _ IH]; [reflexivity|].
  simpl. unfold read at 1.
  unfold mbind at 1, M_bind at 1. rewrite Hg. simpl.
  unfold lift. unfold mbind at 1, M_bind at 1.
  rewrite orb_true_r. cbv beta.
  rewrite (machine_checkable_synth h rr c Hg Hl).
  simpl. rewrite String.eqb_refl, andb_false_r. exact IH.
Qed.

Lemma read_eq (h : heap) (v : value) (k : string) : read v k h = (get h v k, h).
Proof. reflexivity. Qed.

Lemma from_object_shaped (h : heap) (resp rules : value) :
  typeof_object resp = true ->
  get h resp "rules" = Ok rules ->
  isArray h rules = true ->
  from_object resp h = (Ok (Some resp), h).
Proof.
  intros Ht Hr Ha. unfold from_object. rewrite Ht. cbv iota.
  rewrite bind_read, Hr, bind_lift, Ha. reflexivity.
Qed.

Lemma find_document_shaped (h : heap) (resp rules : value) :
  typeof_object resp = true ->
  get h resp "rules" = Ok rules ->
  isArray h rules = true ->
  find_document resp h = (Ok (Some resp), h).
Proof.
  intros Ht Hr Ha. unfold find_document.
  rewrite (bind_ok _ _ _ _ _ (from_object_shaped h resp rules Ht Hr Ha)).
  reflexivity.
Qed.

Lemma synthesize_conditions_eq (h : heap) (d rules : value) (es : list value) :
  get h d "rules" = Ok rules ->
  array_elems h rules = Some es ->
  synthesize_conditions d h = synth_loop es h.
Proof.
  intros Hr Ha. unfold synthesize_conditions.
  rewrite bind_read, Hr, bind_lift, Ha. reflexivity.
Qed.

(** The normaliser once the document is found. *)
Lemma normalize_found (h h1 : heap) (resp d : value) :
  truthy resp = true ->
  find_document resp h = (Ok (Some d), h1) ->
  normalizeParserResponse resp h
  = (_ ← synthesize_conditions d; mret (Doc d)) h1.
Proof.
  intros Ht Hf. unfold normalizeParserResponse. rewrite Ht.
  change (negb true) with false. cbv iota.
  rewrite (bind_ok _ _ _ _ _ Hf). reflexivity.
Qed.

Lemma canonical_is_object (h : heap) (resp : value) :
  canonical h resp -> exists l, resp = VRef l.
Proof.
  intros (rules & es & Hr & Ha & _).
  destruct resp; simpl in Hr; try discriminate Hr; eauto;
    injection Hr as <-; discriminate Ha.
Qed.

Lemma normalize_canonical (h : heap) (resp : value) :
  canonical h resp -> normalizeParserResponse resp h = (Ok (Doc resp), h).
Proof.
  intros Hc. destruct (canonical_is_object h resp Hc) as [l ->].
  destruct Hc as (rules & es & Hr & Ha & Hes).
  assert (Hf : find_document (VRef l) h = (Ok (Some (VRef l)), h)).
  { apply (find_document_shaped h (VRef l) rules eq_refl Hr).
    unfold isArray. now rewrite Ha. }
  rewrite (normalize_found h h (VRef l) (VRef l) eq_refl Hf).
  unfold mbind, M_bind.
  rewrite (synthesize_conditions_eq h (VRef l) rules es Hr Ha).
  now rewrite (synth_loop_checkable h es Hes).
Qed.

(** *** What the normaliser leaves alone *)

Lemma set_field_twice (fs : list (string * value)) (k : string) (v v' : value) :
  set_field (set_field fs k v) k v' = set_field fs k v'.
Proof.
  induction fs as [|[k0 v0] fs IH]; simpl.
  - now rewrite String.eqb_refl.
  - destruct (String.eqb k k0) eqn:E; simpl; rewrite E; [reflexivity | now rewrite IH].
Qed.

Lemma condition_set_refl (o : object) : condition_set o o.
Proof. now left. Qed.

Lemma condition_set_trans (o1 o2 o3 : object) :
  condition_set o1 o2 -> condition_set o2 o3 -> condition_set o1 o3.
Proof.
  intros [-> | (fs & v & -> & ->)] H2; [exact H2|].
  destruct H2 as [-> | (fs' & v' & E & ->)].
  - right. eauto.
  - injection E as <-. right. exists fs, v'. now rewrite set_field_twice.
Qed.

Lemma frame_refl (h : heap) : frame h h.
Proof. intros l o H. exists o. split; [exact H | apply condition_set_refl]. Qed.

Lemma frame_trans (h1 h2 h3 : heap) : frame h1 h2 -> frame h2 h3 -> frame h1 h3.
Proof.
  intros H12 H23 l o H.
  destruct (H12 l o H) as (o2 & H2 & C2).
  destruct (H23 l o2 H2) as (o3 & H3 & C3).
  exists o3. split; [exact H3 | eapply condition_set_trans; eauto].
Qed.

Lemma frame_app (h ext : heap) : frame h (h ++ ext)%list.
Proof.
  intros l o H. exists o. split; [|apply condition_set_refl].
  now apply lookup_app_l_Some.
Qed.

Section Preserves.

Context {A B : Type}.

Lemma preserves_ret (a : A) : preserves (mret a : M A).
Proof. intros h. apply frame_refl. Qed.

Lemma preserves_throw (e : exn) : preserves (throw e : M A).
Proof. intros h. apply frame_refl. Qed.

Lemma preserves_lift (f : heap -> result A) : preserves (lift f).
Proof. intros h. apply frame_refl. Qed.

Lemma preserves_bind (m : M A) (k : A -> M B) :
  preserves m -> (forall a, preserves (k a)) -> preserves (mbind k m).
Proof.
  intros Hm Hk h. unfold mbind, M_bind. specialize (Hm h).
  destruct (m h) as [[a|e] h1]; simpl in *; [|exact Hm].
  eapply frame_trans; [exact Hm | apply Hk].
Qed.

Lemma preserves_try_catch (m handler : M A) :
  preserves m -> preserves handler -> preserves (try_catch m handler).
Proof.
  intros Hm Hh h. unfold try_catch. specialize (Hm h).
  destruct (m h) as [[a|e] h1]; simpl in *; [exact Hm|].
  eapply frame_trans; [exact Hm | apply Hh].
Qed.

End Preserves.

Lemma preserves_read (v : value) (k : string) : preserves (read v k).
Proof. intros h. apply frame_refl. Qed.

Lemma preserves_alloc (o : object) : preserves (alloc o).
Proof. intros h. apply frame_app. Qed.

Lemma preserves_write_condition (target : value) (v : string) :
  preserves (write target "condition" (VStr v)).
Proof.
  intros h. unfold write.
  destruct target as [| | | | |l]; try apply frame_refl.
  destruct (h !! l) as [[fs|es]|] eqn:E; try apply frame_refl.
  simpl. intros l' o Hl'. destruct (Nat.eq_dec l l') as [Heq|Hne].
  - subst l'. assert (o = Obj fs) as -> by congruence.
    exists (Obj (set_field fs "condition" (VStr v))). split.
    + apply list_lookup_insert_eq. now apply lookup_lt_Some in E.
    + right. eauto.
  - exists o. split; [|apply condition_set_refl].
    now rewrite list_lookup_insert_ne.
Qed.

Lemma strict_eq_refl_string (c : value) : is_string c = true -> strict_eq c c = true.
Proof. destruct c; try discriminate. intros _. apply String.eqb_refl. Qed.

Lemma synth_try_cases (h : heap) (rr v : value) :
  synth_try h rr = Ok (Some v) ->
  get h rr "condition" = Ok v \/ exists t, v = VStr t.
Proof.
  unfold synth_try. destruct (truthy rr); [|discriminate].
  destruct (get h rr "condition") as [c|]; [|discriminate].
  cbn [mbind result_bind].
  destruct (truthy c && is_string c && looks_like_code (trim (string_of c))).
  { intros H. injection H as <-. now left. }
  destruct (get h rr "threshold") as [t|]; [|discriminate].
  destruct (get h rr "category") as [cat|]; [|discriminate].
  cbn [mbind result_bind].
  destruct (negb (is_nullish t) && truthy cat); [|discriminate].
  destruct (number_of h t) as [thr|]; [|discriminate].
  cbn [mbind result_bind].
  destruct (JSNumber.is_nan thr); [discriminate|].
  destruct (text_of h cat) as [cs|]; [|discriminate].
  cbn [mbind result_bind].
  intros H. injection H as <-. right. eauto.
Qed.

(** What the loop assigns is a text. *)
Lemma synth_assigned_is_string (h : heap) (rr c s : value) :
  get h rr "condition" = Ok c ->
  negb (truthy c) || is_string c = true ->
  synthRuleCondition h rr = Ok s ->
  truthy s && negb (strict_eq s c) = true ->
  exists t, s = VStr t.
Proof.
  intros Hg Hc Hs Hw.
  assert (Hsame : s = c -> False).
  { intros ->. apply andb_prop in Hw as [Ht Hne].
    apply orb_prop in Hc as [Hf | Hstr].
    - rewrite Ht in Hf. discriminate.
    - rewrite (strict_eq_refl_string c Hstr) in Hne. discriminate. }
  unfold synthRuleCondition in Hs.
  destruct (synth_try h rr) as [[v|]|] eqn:Ht.
  - injection Hs as <-. destruct (synth_try_cases h rr v Ht) as [H|H]; [|exact H].
    exfalso. apply Hsame. congruence.
  - exfalso. apply Hsame. congruence.
  - exfalso. apply Hsame. congruence.
Qed.

Lemma preserves_synth_loop (es : list value) : preserves (synth_loop es).
Proof.
  induction es as [|rr es IH]; [apply preserves_ret|].
  intros h. simpl. rewrite bind_read.
  destruct (get h rr "condition") as [c|] eqn:Hg; [|apply frame_refl].
  destruct (negb (truthy c) || is_string c) eqn:Hc; [|apply IH].
  rewrite bind_lift.
  destruct (synthRuleCondition h rr) as [s|] eqn:Hs; [|apply frame_refl].
  destruct (truthy s && negb (strict_eq s c)) eqn:Hw.
  - destruct (synth_assigned_is_string h rr c s Hg Hc Hs Hw) as [t ->].
    apply (preserves_bind (write rr "condition" (VStr t)) (fun _ => synth_loop es));
      [apply preserves_write_condition | intros _; exact IH].
  - apply (preserves_bind (mret tt) (fun _ => synth_loop es));
      [apply preserves_ret | intros _; exact IH].
Qed.

Lemma preserves_alloc_json (t : json) : preserves (alloc_json t).
Proof.
  induction t as [| | | |l IH|o IH|] using json_induction;
    try apply (preserves_ret (A := value)).
  - simpl. apply preserves_bind; [|intros vs; apply preserves_alloc].
    induction IH as [|x r Hx _ IHr]; [apply preserves_ret|].
    apply preserves_bind; [exact Hx|]. intros v.
    apply preserves_bind; [exact IHr|]. intros vs. apply preserves_ret.
  - simpl. apply preserves_bind; [|intros fs; apply preserves_alloc].
    induction IH as [|[k x] r Hx _ IHr]; [apply preserves_ret|].
    apply preserves_bind; [exact Hx|]. intros v.
    apply preserves_bind; [exact IHr|]. intros fs. apply preserves_ret.
Qed.

(** Goals of the form [preserves m], by the structure of [m]. *)
Ltac preserve :=
  repeat first
    [ apply preserves_bind; [|intros ?]
    | apply preserves_ret
    | apply preserves_throw
    | apply preserves_lift
    | apply preserves_read
    | apply preserves_alloc
    | apply preserves_alloc_json
    | apply preserves_try_catch
    | apply preserves_synth_loop
    | match goal with
      | |- preserves (if ?b then _ else _) => destruct b
      | |- preserves (match ?x with _ => _ end) => destruct x
      end ].

Lemma preserves_wrap (o : value) (k : string) (v : value) :
  preserves (wrap_with_source o k v).
Proof. unfold wrap_with_source. preserve. Qed.

Lemma preserves_from_object (resp : value) : preserves (from_object resp).
Proof. unfold from_object. preserve; apply preserves_wrap. Qed.

Lemma preserves_parse_alloc (s : string) : preserves (parse_alloc s).
Proof. unfold parse_alloc. preserve. Qed.

Lemma preserves_try_direct (s : string) (doc : option value) :
  preserves (try_direct s doc).
Proof.
  unfold try_direct. apply preserves_try_catch; [|apply preserves_ret].
  apply preserves_bind; [apply preserves_parse_alloc|]. intros p.
  preserve; apply preserves_wrap.
Qed.

Lemma preserves_try_substring (s : string) (doc : option value) :
  preserves (try_substring s doc).
Proof.
  unfold try_substring. destruct (JSONParse.match_braces s); [|apply preserves_ret].
  apply preserves_try_catch; [|apply preserves_ret].
  apply preserves_bind; [apply preserves_parse_alloc|]. intros p.
  preserve.
Qed.

Lemma preserves_candidates_loop (cands : list string) (doc : option value) :
  preserves (candidates_loop cands doc).
Proof.
  revert doc. induction cands as [|s rest IH]; intros doc; [apply preserves_ret|].
  simpl. destruct (is_empty s); [apply IH|].
  apply preserves_bind; [apply preserves_try_direct|]. intros [d|doc1];
    [apply preserves_ret|].
  apply preserves_bind; [apply preserves_try_substring|]. intros [d|doc2];
    [apply preserves_ret | apply IH].
Qed.

Lemma preserves_find_document (resp : value) : preserves (find_document resp).
Proof.
  unfold find_document.
  apply preserves_bind; [apply preserves_from_object|]. intros [d|];
    [apply preserves_ret|].
  apply preserves_bind; [apply preserves_lift|]. intros cands.
  apply preserves_candidates_loop.
Qed.

Lemma preserves_normalize (resp : value) : preserves (normalizeParserResponse resp).
Proof.
  unfold normalizeParserResponse. destruct (negb (truthy resp)); [apply preserves_ret|].
  apply preserves_bind; [apply preserves_find_document|]. intros [d|];
    [|apply preserves_ret].
  unfold synthesize_conditions. preserve.
Qed.

(** *** Allocation of a parsed tree *)

(** [alloc_json] never throws and only appends to the store. *)
Lemma alloc_json_appends (t : json) (h : heap) :
  exists v ext, alloc_json t h = (Ok v, (h ++ ext)%list).
Proof.
  revert h. induction t as [| | | |l IH|o IH|] using json_induction; intros h;
    try (eexists _, []; rewrite app_nil_r; reflexivity).
  - assert (Hgo : forall h, exists vs ext,
              (fix go (l : list json) : M (list value) :=
                 match l with
                 | [] => mret []
                 | x :: r => v ← alloc_json x; vs ← go r; mret (v :: vs)
                 end) l h = (Ok vs, (h ++ ext)%list)).
    { induction IH as [|x r Hx _ IHr]; intros h0.
      - exists [], []. now rewrite app_nil_r.
      - destruct (Hx h0) as (v & e1 & E1). destruct (IHr (h0 ++ e1)%list) as (vs & e2 & E2).
        exists (v :: vs), (e1 ++ e2)%list.
        rewrite (bind_ok _ _ _ _ _ E1), (bind_ok _ _ _ _ _ E2), app_assoc. reflexivity. }
    destruct (Hgo h) as (vs & ext & E).
    exists (VRef (List.length (h ++ ext)%list)), (ext ++ [Arr vs])%list.
    simpl. rewrite (bind_ok _ _ _ _ _ E). unfold alloc. now rewrite app_assoc.
  - assert (Hgo : forall h, exists fs ext,
              (fix go (o : props) : M (list (string * value)) :=
                 match o with
                 | [] => mret []
                 | (k, x) :: r => v ← alloc_json x; fs ← go r; mret ((k, v) :: fs)
                 end) o h = (Ok fs, (h ++ ext)%list)).
    { induction IH as [|[k x] r Hx _ IHr]; intros h0.
      - exists [], []. now rewrite app_nil_r.
      - destruct (Hx h0) as (v & e1 & E1). destruct (IHr (h0 ++ e1)%list) as (fs & e2 & E2).
        exists ((k, v) :: fs), (e1 ++ e2)%list.
        rewrite (bind_ok _ _ _ _ _ E1), (bind_ok _ _ _ _ _ E2), app_assoc. reflexivity. }
    destruct (Hgo h) as (fs & ext & E).
    exists (VRef (List.length (h ++ ext)%list)), (ext ++ [Obj fs])%list.
    simpl. rewrite (bind_ok _ _ _ _ _ E). unfold alloc. now rewrite app_assoc.
Qed.

Lemma isArray_app (h ext : heap) (v : value) :
  isArray h v = true -> isArray (h ++ ext)%list v = true.
Proof.
  unfold isArray, array_elems. destruct v as [| | | | |l]; try discriminate.
  destruct (h !! l) as [[fs|es]|] eqn:E; try discriminate.
  intros _. now rewrite (lookup_app_l_Some _ _ _ _ E).
Qed.

Lemma alloc_json_array (l : list json) (h : heap) :
  exists v h1, alloc_json (JArr l) h = (Ok v, h1) /\ isArray h1 v = true.
Proof.
  destruct (alloc_json_appends (JArr l) h) as (v & ext & E).
  exists v, (h ++ ext)%list. split; [exact E|].
  simpl in E. unfold mbind, M_bind in E.
  destruct ((fix go (l : list json) : M (list value) := _) l h) as [[vs|e] h'];
    [|discriminate].
  unfold alloc in E. injection E as <- E. rewrite <- E.
  unfold isArray, array_elems. now rewrite list_lookup_middle.
Qed.

(** The object allocated for a tree with an array under [rules] has an
    array under [rules]. *)
Lemma alloc_json_rules (o : props) (rules : list json) (h : heap) :
  assoc "rules" o = Some (JArr rules) ->
  exists p h1 rv,
    alloc_json (JObj o) h = (Ok p, h1) /\
    truthy p = true /\
    get h1 p "rules" = Ok rv /\
    isArray h1 rv = true.
Proof.
  intros Ho.
  assert (Hgo : forall h, exists fs ext rv,
            (fix go (o : props) : M (list (string * value)) :=
               match o with
               | [] => mret []
               | (k, x) :: r => v ← alloc_json x; fs ← go r; mret ((k, v) :: fs)
               end) o h = (Ok fs, (h ++ ext)%list) /\
            assoc "rules" fs = Some rv /\ isArray (h ++ ext)%list rv = true).
  { clear h. induction o as [|[k x] r IHr]; intros h; [discriminate|].
    cbn [assoc] in Ho. destruct (String.eqb "rules" k) eqn:Ek.
    - injection Ho as ->.
      destruct (alloc_json_array rules h) as (v & h1 & E1 & A1).
      destruct (alloc_json_appends (JArr rules) h) as (v' & e1 & E1').
      rewrite E1 in E1'. injection E1' as <- ->.
      assert (Hrest : exists fs e2,
                (fix go (o : props) : M (list (string * value)) :=
                   match o with
                   | [] => mret []
                   | (k, x) :: r => v ← alloc_json x; fs ← go r; mret ((k, v) :: fs)
                   end) r (h ++ e1)%list = (Ok fs, ((h ++ e1) ++ e2)%list)).
      { clear. generalize (h ++ e1)%list as h0. induction r as [|[k x] r IH]; intros h0.
        - exists [], []. now rewrite app_nil_r.
        - destruct (alloc_json_appends x h0) as (v & a1 & E1).
          destruct (IH (h0 ++ a1)%list) as (fs & a2 & E2).
          exists ((k, v) :: fs), (a1 ++ a2)%list.
          rewrite (bind_ok _ _ _ _ _ E1), (bind_ok _ _ _ _ _ E2), app_assoc. reflexivity. }
      destruct Hrest as (fs & e2 & E2).
      exists ((k, v) :: fs), (e1 ++ e2)%list, v.
      rewrite (bind_ok _ _ _ _ _ E1), (bind_ok _ _ _ _ _ E2), app_assoc.
      split; [reflexivity|]. split; [cbn [assoc]; now rewrite Ek|].
      now apply isArray_app.
    - destruct (alloc_json_appends x h) as (v & e1 & E1).
      destruct (IHr Ho (h ++ e1)%list) as (fs & e2 & rv & E2 & Hfs & Harr).
      exists ((k, v) :: fs), (e1 ++ e2)%list, rv.
      rewrite (bind_ok _ _ _ _ _ E1), (bind_ok _ _ _ _ _ E2), app_assoc.
      split; [reflexivity|]. split; [cbn [assoc]; now rewrite Ek|]. exact Harr. }
  destruct (Hgo h) as (fs & ext & rv & E & Hfs & Harr).
  exists (VRef (List.length (h ++ ext)%list)), ((h ++ ext) ++ [Obj fs])%list, rv.
  split; [simpl; now rewrite (bind_ok _ _ _ _ _ E)|].
  split; [reflexivity|]. split.
  - unfold get, object_fields. rewrite list_lookup_middle by reflexivity. now rewrite Hfs.
  - now apply isArray_app.
Qed.

(** *** Extraction of an embedded object *)

Section Extraction.

#[local] Arguments String.append !_ _ / : simpl nomatch.

Lemma upto_last_brace_none (post : string) :
  no_char "}" post = true -> JSONParse.upto_last_brace post = None.
Proof.
  induction post as [|c post IH]; [reflexivity|].
  simpl. intros H. apply andb_prop in H as [Hc Hp].
  rewrite (IH Hp). apply negb_true_iff in Hc. now rewrite Hc.
Qed.

Lemma upto_last_brace_body (body post : string) :
  no_char "}" post = true ->
  JSONParse.upto_last_brace (body ++ String "}" post) = Some (body ++ "}").
Proof.
  intros Hp. induction body as [|c body IH]; simpl.
  - now rewrite (upto_last_brace_none post Hp).
  - now rewrite IH.
Qed.

Lemma match_braces_skip (pre rest : string) :
  no_char "{" pre = true ->
  JSONParse.match_braces (pre ++ rest) = JSONParse.match_braces rest.
Proof.
  induction pre as [|c pre IH]; [reflexivity|].
  simpl. intros H. apply andb_prop in H as [Hc Hp].
  apply negb_true_iff in Hc. rewrite Hc. now apply IH.
Qed.

Lemma match_braces_embedded (s j : string) :
  embeds s j -> JSONParse.match_braces s = Some j.
Proof.
  intros (pre & body & post & -> & -> & Hpre & Hpost).
  rewrite (match_braces_skip _ _ Hpre). simpl.
  rewrite sapp_assoc. simpl.
  now rewrite (upto_last_brace_body body post Hpost).
Qed.

Lemma embeds_nonempty (s j : string) : embeds s j -> is_empty s = false.
Proof.
  intros (pre & body & post & -> & -> & _). destruct pre; reflexivity.
Qed.

End Extraction.

Lemma candidates_truthy (h : heap) (resp : value) (s : string) (rest : list string) :
  candidates h resp = s :: rest -> is_empty s = false -> truthy resp = true.
Proof.
  intros Hc Hs. unfold candidates, string_field in Hc.
  destruct resp; try reflexivity; simpl in Hc; try discriminate Hc.
  injection Hc as <- _. simpl. now rewrite Hs.
Qed.

Lemma try_direct_not_json (s : string) (doc : option value) (h : heap) :
  JSONParse.parse s = None -> try_direct s doc h = (Ok (Continue doc), h).
Proof.
  intros Hp. unfold try_direct, try_catch, parse_alloc. rewrite Hp. reflexivity.
Qed.

Lemma try_substring_rules (s j : string) (o : props) (rules : list json)
    (doc : option value) (h : heap) :
  JSONParse.match_braces s = Some j ->
  JSONParse.parse j = Some (JObj o) ->
  assoc "rules" o = Some (JArr rules) ->
  exists p h1 rv,
    alloc_json (JObj o) h = (Ok p, h1) /\
    get h1 p "rules" = Ok rv /\ isArray h1 rv = true /\
    try_substring s doc h = (Ok (Break p), h1).
Proof.
  intros Hm Hp Ho.
  destruct (alloc_json_rules o rules h Ho) as (p & h1 & rv & Ea & Ht & Hg & Harr).
  exists p, h1, rv. repeat split; try assumption.
  unfold try_substring. rewrite Hm. unfold try_catch, parse_alloc. rewrite Hp.
  rewrite (bind_ok _ _ _ _ _ Ea), Ht. cbv iota.
  rewrite bind_read, Hg, bind_lift, Harr. reflexivity.
Qed.

(** The normaliser on a response that has none of the object shapes and
    whose first string embeds an object with a rules array. *)
Lemma normalize_embedded (h : heap) (resp : value) (s j : string)
    (rest : list string) (o : props) (rules : list json) :
  from_object resp h = (Ok None, h) ->
  candidates h resp = s :: rest ->
  embeds s j ->
  JSONParse.parse s = None ->
  JSONParse.parse j = Some (JObj o) ->
  assoc "rules" o = Some (JArr rules) ->
  normalizeParserResponse resp h
  = (p ← alloc_json (JObj o); _ ← synthesize_conditions p; mret (Doc p)) h.
Proof.
  intros Hfo Hc He Hps Hpj Ho.
  pose proof (embeds_nonempty s j He) as Hne.
  pose proof (match_braces_embedded s j He) as Hm.
  destruct (try_substring_rules s j o rules None h Hm Hpj Ho)
    as (p & h1 & rv & Ea & Hg & Harr & Hts).
  assert (Hfd : find_document resp h = (Ok (Some p), h1)).
  { unfold find_document. rewrite (bind_ok _ _ _ _ _ Hfo). cbv iota.
    rewrite bind_lift, Hc. cbn [candidates_loop]. rewrite Hne.
    rewrite (bind_ok _ _ _ _ _ (try_direct_not_json s None h Hps)).
    now rewrite (bind_ok _ _ _ _ _ Hts). }
  rewrite (normalize_found h h1 resp p (candidates_truthy h resp s rest Hc Hne) Hfd).
  now rewrite (bind_ok _ _ _ _ _ Ea).
Qed.

(** *** Claims about the normaliser *)

(** C6 (amended). A canonical rule document, an object whose [rules] is an
    array of rules with machine-checkable conditions, is returned as it is:
    the result is the very object passed in and the store is untouched, so
    no field is added, [version] included; normalising it again changes
    nothing either. *)
Theorem normalize_canonical_unchanged (h : heap) (resp : value) :
  canonical h resp ->
  normalizeParserResponse resp h = (Ok (Doc resp), h) /\
  (_ ← normalizeParserResponse resp; normalizeParserResponse resp) h
  = normalizeParserResponse resp h.
Proof.
  intros Hc. pose proof (normalize_canonical h resp Hc) as E.
  split; [exact E|]. now rewrite (bind_ok _ _ _ _ _ E).
Qed.

Lemma normalize_canonical_unchanged_witness :
  normalizeParserResponse (VRef 2)
    [ Obj [("name", VStr "R1"); ("condition", VStr "amount > 50")];
      Arr [VRef 0]; Obj [("rules", VRef 1)] ]
  = (Ok (Doc (VRef 2)),
     [ Obj [("name", VStr "R1"); ("condition", VStr "amount > 50")];
       Arr [VRef 0]; Obj [("rules", VRef 1)] ]).
Proof.
  apply normalize_canonical_unchanged.
  exists (VRef 1), [VRef 0]. split; [reflexivity|]. split; [reflexivity|].
  constructor; [|constructor].
  exists "amount > 50". split; reflexivity.
Defined.

(** C6 as stated fails: a canonical document without [version] comes back
    without it, not with the default. *)
Lemma version_is_not_defaulted :
  normalized doc_R1 = Some doc_R1 /\
  normalized doc_R1 <> Some (with_default_version doc_R1).
Proof. split; [reflexivity | discriminate]. Qed.

(** C7 (amended). The normaliser writes into its argument: whatever the
    response and the store, every object of the store is afterwards either
    as it was or a plain object whose [condition] has been set, in place, to
    a text; nothing else is changed and nothing is removed. *)
Theorem normalize_frame (resp : value) (h : heap) :
  frame h (snd (normalizeParserResponse resp h)).
Proof. apply preserves_normalize. Qed.

(** C7 as stated fails: a rule with a threshold and a category has its
    [condition] written by the call. *)
Lemma normalize_writes_condition :
  ~ (forall (resp : value) (h : heap),
       input_unchanged h (snd (normalizeParserResponse resp h))).
Proof.
  intros H.
  specialize (H (VRef 2)
                [ Obj [("name", VStr "Meal limit"); ("threshold", VNum (JSNumber.Dec 50 0));
                       ("category", VStr "Meals")];
                  Arr [VRef 0]; Obj [("rules", VRef 1)] ]
                0%nat _ eq_refl).
  vm_compute in H. discriminate H.
Qed.

(** C8 (amended). Where the response has none of the object shapes and the
    first string it carries is not JSON as a whole but prose around one
    brace-delimited object, with no opening brace before it and no closing
    brace after it, and that object parses and has an array under [rules],
    the normaliser returns the object parsed, after the pass that fills in
    conditions.  The string is one of the embedding's texts, with no escape
    of a code unit above 255, so that [parse] failing on it is [JSON.parse]
    throwing.  The spec's example yields the document with the one rule
    named R1. *)
Theorem normalize_extracts_embedded :
  (forall (h : heap) (resp : value) (s j : string) (rest : list string)
          (o : props) (rules : list json),
     from_object resp h = (Ok None, h) ->
     candidates h resp = s :: rest ->
     embeds s j ->
     JSONParse.narrow s = true ->
     JSONParse.parse s = None ->
     JSONParse.parse j = Some (JObj o) ->
     assoc "rules" o = Some (JArr rules) ->
     normalizeParserResponse resp h
     = (p ← alloc_json (JObj o); _ ← synthesize_conditions p; mret (Doc p)) h) /\
  normalized (JObj [("output", JStr ("Sure, here is the JSON: " ++ text_R1))])
  = Some doc_R1.
Proof.
  split; [|reflexivity].
  intros h resp s j rest o rules Hfo Hc He _ Hps Hpj Ho.
  exact (normalize_embedded h resp s j rest o rules Hfo Hc He Hps Hpj Ho).
Qed.

Lemma normalize_extracts_embedded_witness :
  normalizeParserResponse (VRef 0)
    [Obj [("output", VStr ("Sure, here is the JSON: " ++ text_R1))]]
  = (Ok (Doc (VRef 3)),
     [ Obj [("output", VStr ("Sure, here is the JSON: " ++ text_R1))];
       Obj [("name", VStr "R1"); ("condition", VStr "amount > 50")];
       Arr [VRef 1]; Obj [("rules", VRef 2)] ]).
Proof.
  rewrite (proj1 normalize_extracts_embedded
             [Obj [("output", VStr ("Sure, here is the JSON: " ++ text_R1))]]
             (VRef 0) ("Sure, here is the JSON: " ++ text_R1) text_R1 []
             [("rules", JArr [rule_R1])] [rule_R1]).
  - reflexivity.
  - reflexivity.
  - reflexivity.
  - exists "Sure, here is the JSON: ",
      (JSONParse.bq "`rules`:[{`name`:`R1`,`condition`:`amount > 50`}]"), EmptyString.
    repeat split; reflexivity.
  - reflexivity.
  - reflexivity.
  - reflexivity.
  - reflexivity.
Defined.

(** C8 as stated fails: a brace in the prose before the object makes the
    extraction take a text that does not parse. *)
Lemma brace_in_prose_defeats_extraction :
  ~ (forall (s pre post : string) (o : props) (rules : list json),
       s = pre ++ text_R1 ++ post ->
       JSONParse.parse text_R1 = Some (JObj o) ->
       assoc "rules" o = Some (JArr rules) ->
       exists d, fst (normalizeParserResponse (VStr s) []) = Ok (Doc d)).
Proof.
  intros H.
  destruct (H ("See {draft}: " ++ text_R1) "See {draft}: " EmptyString
              [("rules", JArr [rule_R1])] [rule_R1] eq_refl eq_refl eq_refl)
    as [d Hd].
  vm_compute in Hd. discriminate Hd.
Qed.

(** ** The synthesised condition *)

Section Synthesised.

#[local] Arguments String.append !_ _ / : simpl nomatch.

Variables (C N : string).
Hypothesis HN : forallb_str is_digit N = true.
Hypothesis HNne : N <> EmptyString.

Lemma synthesized_trim : trim (synthesized_condition C N) = synthesized_condition C N.
Proof.
  destruct (forallb_str_last is_digit N HN HNne) as (d & Hl & Hd).
  change (synthesized_condition C N)
    with (String "c" ("ategory == '" ++ C ++ "' and amount > " ++ N)).
  rewrite <- !sapp_assoc.
  apply (trim_between "c" d); [reflexivity | exact Hl | apply (digit_facts d Hd)].
Qed.

Lemma orParts_synthesized :
  token_free "or" C = true ->
  orParts (synthesized_condition C N) = [synthesized_condition C N].
Proof.
  intros HC. unfold orParts, split_re.
  assert (Hfree : free_in (sep_word "or") (synthesized_condition C N) EmptyString).
  { unfold synthesized_condition.
    apply (free_in_app _ "category == '"); [repeat split; reflexivity|].
    apply free_in_app; [now apply token_free_free_in|].
    apply (free_in_app _ "' and amount >"); [repeat split; reflexivity|].
    destruct (sep_word_digits "or" N HN eq_refl) as [H1 H2].
    split; [rewrite sapp_nil_r; now apply H2 | exact H1]. }
  rewrite <- (sapp_nil_r (synthesized_condition C N)) at 1.
  rewrite (split_go_free _ _ _ _ Hfree), split_go_end. cbn [map].
  now rewrite sapp_nil_l, synthesized_trim.
Qed.

Lemma amount_clause_trim : trim ("amount > " ++ N) = "amount > " ++ N.
Proof.
  destruct (forallb_str_last is_digit N HN HNne) as (d & Hl & Hd).
  apply (trim_between "a" d "mount > " N); [reflexivity | exact Hl | apply (digit_facts d Hd)].
Qed.

Lemma andParts_synthesized :
  token_free "and" C = true ->
  andParts (synthesized_condition C N)
  = ["category == '" ++ C ++ "'"; "amount > " ++ N].
Proof.
  intros HC. unfold andParts, split_re, synthesized_condition.
  assert (H1 : free_in (sep_word "and") ("category == '" ++ C ++ "'")
                 (" and amount > " ++ N)).
  { apply (free_in_app _ "category == '"); [repeat split; reflexivity|].
    apply free_in_app; [now apply token_free_free_in|].
    repeat split; reflexivity. }
  assert (H2 : free_in (sep_word "and") ("amount > " ++ N) EmptyString).
  { apply (free_in_app _ "amount >"); [repeat split; reflexivity|].
    destruct (sep_word_digits "and" N HN eq_refl) as [Ha Hb].
    split; [rewrite sapp_nil_r; now apply Hb | exact Ha]. }
  replace ("category == '" ++ C ++ "' and amount > " ++ N)
    with (("category == '" ++ C ++ "'") ++ " and amount > " ++ N)
    by (now rewrite !sapp_assoc).
  rewrite (split_go_free _ _ _ _ H1).
  change (" and amount > " ++ N) with (String " " ("and " ++ ("amount > " ++ N))).
  rewrite (split_go_sep (sep_word "and") " " "and " ("amount > " ++ N)) by reflexivity.
  rewrite <- (sapp_nil_r ("amount > " ++ N)) at 1.
  rewrite (split_go_free _ _ _ _ H2), split_go_end. cbn [map].
  rewrite !sapp_nil_l, amount_clause_trim.
  f_equal.
  change ("category == '" ++ C ++ "'") with (String "c" ("ategory == '" ++ C ++ "'")).
  rewrite <- sapp_assoc.
  now apply (trim_between "c" "'" ("ategory == '" ++ C) "'").
Qed.

Lemma number_text_digits : number_text N = Some (N, EmptyString).
Proof.
  unfold number_text. rewrite (span_all _ _ HN).
  destruct N; [contradiction | reflexivity].
Qed.

Lemma match_amount_greater : match_amount ("amount > " ++ N) = Some (">", N).
Proof.
  unfold match_amount. simpl.
  repeat (rewrite skip_spaces_cons; simpl).
  assert (Hs : skip_spaces N = N).
  { destruct N as [|d n]; [reflexivity|]. rewrite skip_spaces_cons.
    simpl in HN. apply andb_prop in HN as [Hd _].
    now rewrite (proj1 (digit_facts d Hd)). }
  rewrite Hs, number_text_digits. reflexivity.
Qed.

Lemma eval_amount_greater (o : props) :
  eval_clause (Some o) true ("amount > " ++ N)
  = a ← amount_of (Some o); Ok (JSNumber.gtb a (JSNumber.of_string N)).
Proof.
  unfold eval_clause.
  assert (Hp : strip_parens ("amount > " ++ N) = "amount > " ++ N).
  { destruct (forallb_str_last is_digit N HN HNne) as (d & Hl & Hd).
    apply (strip_parens_between "a" d "mount > " N); [reflexivity | exact Hl |].
    apply (digit_facts d Hd). }
  rewrite Hp, amount_clause_trim, match_amount_greater. reflexivity.
Qed.

End Synthesised.
(** *** Synthesis followed by evaluation *)

Lemma synth_produces (h : heap) (rr c t : value) (C : string) (T : JSNumber.number) :
  get h rr "condition" = Ok c ->
  truthy c && is_string c && looks_like_code (trim (string_of c)) = false ->
  get h rr "threshold" = Ok t ->
  is_nullish t = false ->
  number_of h t = Ok T ->
  JSNumber.is_nan T = false ->
  get h rr "category" = Ok (VStr C) ->
  C <> EmptyString ->
  synthRuleCondition h rr
  = Ok (VStr (synthesized_condition C (JSNumber.to_string T))).
Proof.
  intros Hc Hnc Ht Hnn HT Hnan Hcat HC.
  assert (Hrr : truthy rr = true).
  { destruct rr; try reflexivity; unfold get in Hcat; simpl in Hcat; discriminate Hcat. }
  unfold synthRuleCondition, synth_try.
  rewrite Hrr, Hc. cbn [mbind result_bind]. rewrite Hnc, Ht, Hcat.
  cbn [mbind result_bind]. rewrite Hnn, HT. cbn [mbind result_bind]. rewrite Hnan.
  destruct C; [contradiction | reflexivity].
Qed.

Lemma condition_of_string (rule : json) (c : string) :
  member rule "condition" = Some (JStr c) -> c <> EmptyString ->
  condition_of rule = JStr c.
Proof.
  intros Hm Hc. unfold condition_of.
  destruct rule; try discriminate Hm. simpl truthy. cbv iota.
  rewrite Hm. destruct c; [contradiction | reflexivity].
Qed.

Section SynthesisedRule.

#[local] Arguments String.append !_ _ / : simpl nomatch.

Variables (C : string) (m : Z).
Hypothesis HCl : no_line_terminator C = true.
Hypothesis HCor : token_free "or" C = true.
Hypothesis HCand : token_free "and" C = true.
Hypothesis Hm : 0 <= m.
Hypothesis Hlen : (String.length (JSNumber.string_of_N (Z.to_N m)) <= 21)%nat.

(** The rule with the synthesised condition reads the category, and the
    amount if the category is the one of the rule. *)
Lemma evaluate_synthesized (rule : json) (tx : option props) :
  member rule "condition"
    = Some (JStr (synthesized_condition C (JSNumber.to_string (JSNumber.Dec m 0)))) ->
  evaluateRuleAgainstTx rule tx
  = cat ← field_of tx "category";
    if String.eqb cat C
    then a ← amount_of tx; Ok (JSNumber.gtb a (JSNumber.Dec m 0))
    else Ok false.
Proof.
  rewrite (to_string_integer m Hm Hlen).
  set (N := JSNumber.string_of_N (Z.to_N m)).
  assert (HN : forallb_str is_digit N = true) by apply string_of_N_digits.
  assert (HNne : N <> EmptyString) by apply string_of_N_nonempty.
  intros Hrule. unfold evaluateRuleAgainstTx.
  rewrite (condition_of_string rule _ Hrule) by discriminate.
  cbn [Json.truthy Coerce.string_of Coerce.convertible Json.to_string].
  change (negb (is_empty (synthesized_condition C N))) with true.
  cbn [negb mbind result_bind].
  rewrite (synthesized_trim C N HN HNne), (orParts_synthesized C N HN HNne HCor).
  cbn [or_loop]. rewrite (andParts_synthesized C N HN HNne HCand).
  cbn [and_loop].
  assert (Hcat : forall tx' b,
            eval_clause tx' b ("category == '" ++ C ++ "'")
            = s ← field_of tx' "category"; Ok (b && String.eqb s C)).
  { intros tx' b.
    change ("category == '" ++ C ++ "'") with ("category" ++ " == '" ++ C ++ "'").
    destruct (quoted_clause_prepared "category" eq_refl (" == '" ++ C)) as [Ht Ha].
    rewrite sapp_assoc in Ht, Ha.
    unfold eval_clause. rewrite Ht, Ha, (match_field_eq "category" C eq_refl HCl).
    reflexivity. }
  assert (Hamt : forall tx' b,
            eval_clause tx' b ("amount > " ++ N)
            = a ← amount_of tx'; Ok (b && JSNumber.gtb a (JSNumber.of_string N))).
  { intros tx' b. unfold eval_clause.
    assert (Hp : strip_parens ("amount > " ++ N) = "amount > " ++ N).
    { destruct (forallb_str_last is_digit N HN HNne) as (d & Hl & Hd).
      apply (strip_parens_between "a" d "mount > " N); [reflexivity | exact Hl |].
      apply (digit_facts d Hd). }
    rewrite Hp, (amount_clause_trim N HN HNne), (match_amount_greater N HN HNne).
    reflexivity. }
  rewrite Hcat. destruct (field_of tx "category") as [s|e]; [|reflexivity].
  cbn [mbind result_bind andb]. destruct (String.eqb s C); cbn [negb]; [|reflexivity].
  rewrite Hamt. unfold N. rewrite (of_string_integer m Hm).
  destruct (amount_of tx) as [a|e]; [|reflexivity].
  cbn [mbind result_bind andb].
  now destruct (JSNumber.gtb a (JSNumber.Dec m 0)).
Qed.

End SynthesisedRule.

(** C1. The code at the failing input.  For the rule with category 'Meals
    and Entertainment' and threshold 50, synthesis produces the condition
    that the claim names, and the normaliser writes it into the rule; the
    evaluator cuts it at the word [and] inside the quoted category, finds a
    first clause that no pattern recognises, and returns false for the
    transaction of that category with amount 80, where the claim says true.
    The rule returns true for no second argument at all.  With the category
    'Meals' the rule of the same threshold returns true for that amount. *)
Theorem synthesized_condition_cut_inside_category :
  synthRuleCondition
    [Obj [("name", VStr "Meals cap"); ("threshold", VNum (JSNumber.Dec 50 0));
          ("category", VStr "Meals and Entertainment")]] (VRef 0)
  = Ok (VStr "category == 'Meals and Entertainment' and amount > 50") /\
  normalized
    (JObj [("rules", JArr [JObj [("name", JStr "Meals cap");
                                 ("threshold", JNum (JSNumber.Dec 50 0));
                                 ("category", JStr "Meals and Entertainment")]])])
  = Some (JObj [("rules", JArr [JObj [("name", JStr "Meals cap");
                                      ("threshold", JNum (JSNumber.Dec 50 0));
                                      ("category", JStr "Meals and Entertainment");
                                      ("condition",
                                       JStr "category == 'Meals and Entertainment' and amount > 50")]])]) /\
  andParts "category == 'Meals and Entertainment' and amount > 50"
  = ["category == 'Meals"; "Entertainment'"; "amount > 50"] /\
  unrecognized "category == 'Meals" /\
  evaluateRuleAgainstTx
    (JObj [("name", JStr "Meals cap"); ("threshold", JNum (JSNumber.Dec 50 0));
           ("category", JStr "Meals and Entertainment");
           ("condition", JStr "category == 'Meals and Entertainment' and amount > 50")])
    (Some [("category", JStr "Meals and Entertainment");
           ("amount", JNum (JSNumber.Dec 80 0))])
  = Ok false /\
  (forall tx : option props,
     evaluateRuleAgainstTx
       (JObj [("name", JStr "Meals cap"); ("threshold", JNum (JSNumber.Dec 50 0));
              ("category", JStr "Meals and Entertainment");
              ("condition", JStr "category == 'Meals and Entertainment' and amount > 50")])
       tx
     <> Ok true) /\
  evaluateRuleAgainstTx
    (JObj [("name", JStr "Meals cap"); ("threshold", JNum (JSNumber.Dec 50 0));
           ("category", JStr "Meals");
           ("condition", JStr "category == 'Meals' and amount > 50")])
    (Some [("category", JStr "Meals"); ("amount", JNum (JSNumber.Dec 80 0))])
  = Ok true.
Proof.
  assert (Hun : unrecognized "category == 'Meals")
    by (repeat split; vm_compute; reflexivity).
  split; [reflexivity|].
  split; [vm_compute; reflexivity|].
  split; [vm_compute; reflexivity|].
  split; [exact Hun|].
  split; [vm_compute; reflexivity|].
  split; [|vm_compute; reflexivity].
  intros tx H. apply evaluate_true_parts in H.
  assert (E : orParts (trim (Json.to_string (condition_of
                (JObj [("name", JStr "Meals cap"); ("threshold", JNum (JSNumber.Dec 50 0));
                       ("category", JStr "Meals and Entertainment");
                       ("condition",
                        JStr "category == 'Meals and Entertainment' and amount > 50")]))))
              = ["category == 'Meals and Entertainment' and amount > 50"])
    by (vm_compute; reflexivity).
  rewrite E in H. clear E.
  apply List.Exists_exists in H. destruct H as (g & [<-|[]] & Hg).
  assert (E : andParts "category == 'Meals and Entertainment' and amount > 50"
              = ["category == 'Meals"; "Entertainment'"; "amount > 50"])
    by (vm_compute; reflexivity).
  rewrite E in Hg. clear E.
  rewrite List.Forall_forall in Hg.
  specialize (Hg "category == 'Meals" ltac:(left; reflexivity)).
  rewrite (eval_clause_unrecognized tx true _ Hun) in Hg. discriminate Hg.
Qed.

(** ** The aligner *)

Section LowerMap.

Lemma assoc_overwrite (m : list (string * string)) (k c k' : string) :
  assoc k' (map (fun kv => if String.eqb (fst kv) k then (fst kv, c) else kv) m)
  = if String.eqb k' k
    then match assoc k m with Some _ => Some c | None => None end
    else assoc k' m.
Proof.
  induction m as [|[a b] m IH]; cbn [map assoc fst].
  - now destruct (String.eqb k' k).
  - destruct (String.eqb a k) eqn:Ea; cbn [assoc].
    + apply String.eqb_eq in Ea. subst a. rewrite String.eqb_refl.
      destruct (String.eqb k' k); [reflexivity|].
      rewrite IH. destruct (String.eqb k' k) eqn:E; [|reflexivity].
      now destruct (assoc k m).
    + rewrite (String.eqb_sym k a), Ea.
      destruct (String.eqb k' a) eqn:E'.
      * apply String.eqb_eq in E'. subst k'. now rewrite Ea.
      * exact IH.
Qed.

Lemma assoc_snoc (m : list (string * string)) (k c k' : string) :
  assoc k' (m ++ [(k, c)])
  = match assoc k' m with
    | Some v => Some v
    | None => if String.eqb k' k then Some c else None
    end.
Proof.
  induction m as [|[a b] m IH]; simpl; [reflexivity|].
  destruct (String.eqb k' a); [reflexivity | exact IH].
Qed.

Lemma assoc_lowerMap_set (m : list (string * string)) (k c k' : string) :
  assoc k' (lowerMap_set m k c)
  = if String.eqb k "__proto__" then assoc k' m
    else if String.eqb k' k then Some c else assoc k' m.
Proof.
  unfold lowerMap_set. destruct (String.eqb k "__proto__"); [reflexivity|].
  destruct (assoc k m) as [v|] eqn:E.
  - rewrite assoc_overwrite, E. reflexivity.
  - rewrite assoc_snoc. destruct (String.eqb k' k) eqn:Ek.
    + apply String.eqb_eq in Ek. subst k'. now rewrite E.
    + now destruct (assoc k' m).
Qed.

Lemma fold_lowerMap_assoc (cats : list string) (m : list (string * string)) (k : string) :
  assoc k (fold_left (fun m c => lowerMap_set m (toLowerCase c) c) cats m)
  = match last_with k cats with
    | Some c => Some c
    | None => assoc k m
    end.
Proof.
  revert m. induction cats as [|c r IH]; intros m; [reflexivity|].
  simpl. rewrite IH. destruct (last_with k r); [reflexivity|].
  rewrite assoc_lowerMap_set.
  destruct (String.eqb (toLowerCase c) "__proto__") eqn:Ep.
  - apply String.eqb_eq in Ep.
    destruct (String.eqb (toLowerCase c) k) eqn:Ek; [|reflexivity].
    apply String.eqb_eq in Ek. rewrite <- Ek, Ep. reflexivity.
  - rewrite (String.eqb_sym k). destruct (String.eqb (toLowerCase c) k) eqn:Ek;
      [|reflexivity].
    apply String.eqb_eq in Ek. rewrite <- Ek, Ep. reflexivity.
Qed.

Lemma build_lowerMap_assoc (cats : list string) (k : string) :
  assoc k (build_lowerMap cats) = last_with k cats.
Proof.
  unfold build_lowerMap. rewrite fold_lowerMap_assoc.
  now destruct (last_with k cats).
Qed.

Lemma last_with_in (k c : string) (cats : list string) :
  last_with k cats = Some c -> In c cats /\ toLowerCase c = k.
Proof.
  induction cats as [|x r IH]; [discriminate|]. simpl.
  destruct (last_with k r) as [c'|].
  - intros H. injection H as ->. destruct (IH eq_refl). auto.
  - destruct (String.eqb (toLowerCase x) k) eqn:E; [|discriminate].
    destruct (negb (String.eqb k "__proto__")); [|discriminate].
    intros H. injection H as ->. apply String.eqb_eq in E. auto.
Qed.

Lemma last_with_nodup (c : string) (cats : list string) :
  NoDup (map toLowerCase cats) -> In c cats ->
  toLowerCase c <> "__proto__" ->
  last_with (toLowerCase c) cats = Some c.
Proof.
  intros Hnd Hin Hp. induction cats as [|x r IH]; [contradiction|].
  simpl in Hnd. apply NoDup_cons in Hnd as [Hx Hr]. simpl.
  destruct Hin as [->|Hin].
  - destruct (last_with (toLowerCase c) r) as [c'|] eqn:E.
    + destruct (last_with_in _ _ _ E) as [Hin' Hl].
      exfalso. apply Hx. rewrite <- Hl. apply list_elem_of_In. now apply in_map.
    + rewrite String.eqb_refl. apply String.eqb_neq in Hp. now rewrite Hp.
  - now rewrite (IH Hr Hin).
Qed.

End LowerMap.

Section MapCategoryFacts.

Variable cats : list string.

Lemma substring_match_in (low c : string) :
  substring_match cats low = Some c -> In c cats.
Proof.
  induction cats as [|x r IH]; [discriminate|]. simpl.
  destruct (includes (toLowerCase x) low || includes low (toLowerCase x)).
  - intros H. injection H as ->. now left.
  - intros H. right. now apply IH.
Qed.

Lemma lowerMap_get_own (low : string) :
  inherited low = false ->
  lowerMap_get (build_lowerMap cats) low = JStr <$> last_with low cats.
Proof.
  intros Hi. unfold lowerMap_get. rewrite build_lowerMap_assoc, Hi.
  now destruct (last_with low cats).
Qed.

(** A text is always mapped: its conversion is the text itself. *)
Lemma mapCategory_text (t : string) :
  exists x, mapCategory cats (JStr t) = Ok x.
Proof.
  unfold mapCategory. destruct (negb (Json.truthy (JStr t))); [eauto|].
  cbn [Coerce.string_of Coerce.convertible mbind result_bind].
  destruct (is_empty (trim (Json.to_string (JStr t)))); eauto.
Qed.

(** Away from the names of [Object.prototype], a value maps to itself or
    to a dataset category. *)
Lemma mapCategory_cases (val x : json) :
  proto_free val = true ->
  mapCategory cats val = Ok x ->
  x = val \/ exists c, In c cats /\ x = JStr c.
Proof.
  intros Hp. unfold mapCategory.
  destruct (negb (Json.truthy val)); [intros H; injection H as <-; now left|].
  cbn [Coerce.string_of]. destruct (Coerce.convertible val); [|discriminate].
  cbn [mbind result_bind].
  destruct (is_empty (trim (Json.to_string val))); [intros H; injection H as <-; now left|].
  unfold proto_free in Hp. apply negb_true_iff in Hp.
  rewrite (lowerMap_get_own _ Hp).
  assert (Hsub : match substring_match cats (toLowerCase (trim (Json.to_string val))) with
                 | Some c => JStr c
                 | None => val
                 end = val \/
                 exists c, In c cats /\
                   match substring_match cats (toLowerCase (trim (Json.to_string val))) with
                   | Some c => JStr c
                   | None => val
                   end = JStr c).
  { destruct (substring_match cats _) as [c|] eqn:E; [|now left].
    right. exists c. split; [now apply (substring_match_in _ _ E) | reflexivity]. }
  intros H. injection H as <-.
  destruct (last_with _ cats) as [c|] eqn:E; [|exact Hsub].
  cbn [fmap option_fmap option_map]. cbn [Json.truthy].
  destruct (negb (is_empty c)); [|exact Hsub].
  right. exists c. split; [apply (last_with_in _ _ _ E) | reflexivity].
Qed.

Hypothesis Hgood : good_categories cats.

(** A dataset category maps to itself. *)
Lemma mapCategory_cat (c : string) :
  In c cats -> mapCategory cats (JStr c) = Ok (JStr c).
Proof.
  intros Hin. destruct Hgood as [Hok Hnd].
  rewrite List.Forall_forall in Hok. destruct (Hok c Hin) as (Htrim & _ & _ & Hproto).
  unfold mapCategory. cbn [Json.truthy Json.to_string].
  destruct c as [|x c']; [reflexivity|].
  cbn [is_empty negb]. cbv iota.
  cbn [Coerce.string_of Coerce.convertible Json.to_string mbind result_bind].
  rewrite Htrim. cbn [is_empty]. cbv iota.
  unfold lowerMap_get. rewrite build_lowerMap_assoc.
  now rewrite (last_with_nodup _ _ Hnd Hin Hproto).
Qed.

Lemma mapCategory_idem (val x : json) :
  proto_free val = true ->
  mapCategory cats val = Ok x ->
  mapCategory cats x = Ok x.
Proof.
  intros Hp H. destruct (mapCategory_cases val x Hp H) as [-> | (c & Hin & ->)].
  - exact H.
  - now apply mapCategory_cat.
Qed.

End MapCategoryFacts.

(** *** The first quoted literal and its replacement *)

Section Literals.

#[local] Arguments String.append !_ _ / : simpl nomatch.

Abbreviation not_quote := (fun c : ascii => negb (is_quote c)).

Lemma quoted_app (q : ascii) (c post : string) :
  quoted q c ++ post = String q (c ++ String q post).
Proof. unfold quoted. simpl. now rewrite sapp_assoc. Qed.

Lemma literal_here_quoted (q : ascii) (c post : string) :
  is_quote q = true -> c <> EmptyString -> forallb_str not_quote c = true ->
  literal_here (quoted q c ++ post) = Some (q, c).
Proof.
  intros Hq Hc Hnq. rewrite quoted_app. unfold literal_here. rewrite Hq.
  rewrite (span_app _ c (String q post) Hnq) by (now rewrite Hq).
  destruct c; [contradiction|]. simpl. now rewrite Ascii.eqb_refl.
Qed.

Lemma literal_here_spec (s : string) (q : ascii) (lit : string) :
  literal_here s = Some (q, lit) ->
  exists post, s = quoted q lit ++ post /\
    is_quote q = true /\ lit <> EmptyString /\ forallb_str not_quote lit = true.
Proof.
  unfold literal_here. destruct s as [|q0 r]; [discriminate|].
  destruct (is_quote q0) eqn:Hq; [|discriminate].
  pose proof (span_app_eq not_quote r) as Hr.
  pose proof (span_fst_all not_quote r) as Hl.
  destruct (span not_quote r) as [l rest]. simpl in Hr, Hl.
  destruct (is_empty l) eqn:He; [discriminate|].
  destruct rest as [|q' rest']; [discriminate|].
  destruct (Ascii.eqb q' q0) eqn:Eq; [|discriminate].
  apply Ascii.eqb_eq in Eq. subst q'.
  intros H. injection H as <- <-. exists rest'.
  rewrite quoted_app, Hr. repeat split; try assumption.
  now apply is_empty_false.
Qed.

Lemma first_literal_here (s : string) (m : ascii * string) :
  literal_here s = Some m -> first_literal s = Some m.
Proof.
  intros H. destruct s; [discriminate H|]. cbn [first_literal]. now rewrite H.
Qed.

Lemma first_literal_skip (pre y : string) :
  free_in literal_here pre y -> first_literal (pre ++ y) = first_literal y.
Proof.
  induction pre as [|c pre IH]; [reflexivity|].
  intros [Hh Hf]. change (String c pre ++ y) with (String c (pre ++ y)) in *.
  cbn [first_literal]. rewrite Hh. now apply IH.
Qed.

(** Where the first literal stands. *)
Lemma first_literal_spec (s : string) (q : ascii) (lit : string) :
  first_literal s = Some (q, lit) ->
  exists pre post,
    s = pre ++ quoted q lit ++ post /\
    free_in literal_here pre (quoted q lit ++ post) /\
    is_quote q = true /\ lit <> EmptyString /\ forallb_str not_quote lit = true.
Proof.
  induction s as [|c s IH]; [discriminate|].
  cbn [first_literal].
  destruct (literal_here (String c s)) as [m|] eqn:Eh.
  - intros H. injection H as ->.
    destruct (literal_here_spec _ _ _ Eh) as (post & E & Hq & Hne & Hnq).
    exists EmptyString, post. rewrite E. repeat split; assumption.
  - intros H. destruct (IH H) as (pre & post & E & Hf & Hq & Hne & Hnq).
    exists (String c pre), post. subst s. repeat split; assumption.
Qed.

(** What precedes a quote decides whether a literal starts there. *)
Lemma literal_here_cut (b rest rest' : string) (q : ascii) :
  b <> EmptyString -> is_quote q = true ->
  literal_here (b ++ String q rest) = literal_here (b ++ String q rest').
Proof.
  intros Hb Hq. destruct b as [|q0 b']; [contradiction|].
  simpl. destruct (is_quote q0); [|reflexivity].
  destruct (snd (span not_quote b')) as [|x t] eqn:Es.
  - pose proof (span_snd_empty _ _ Es) as Hall.
    rewrite !(span_app _ b' _ Hall) by (now rewrite Hq). reflexivity.
  - rewrite !span_app_rest by (rewrite Es; discriminate). now rewrite Es.
Qed.

Lemma free_in_literal_cut (pre rest rest' : string) (q : ascii) :
  is_quote q = true ->
  free_in literal_here pre (String q rest) ->
  free_in literal_here pre (String q rest').
Proof.
  intros Hq. induction pre as [|c pre IH]; [trivial|].
  intros [Hh Hf]. split; [|now apply IH].
  rewrite <- Hh. now apply literal_here_cut.
Qed.

Lemma prefix_split (a s : string) :
  String.prefix a s = true -> exists post, s = a ++ post.
Proof.
  revert s. induction a as [|x a IH]; intros s H; [now exists s|].
  destruct s as [|y s]; [discriminate|]. simpl in H.
  destruct (ascii_dec x y) as [->|]; [|discriminate].
  destruct (IH s H) as [post ->]. now exists post.
Qed.

Lemma prefix_app (a post : string) : String.prefix a (a ++ post) = true.
Proof.
  induction a as [|x a IH]; simpl; [now destruct post|].
  destruct (ascii_dec x x); [exact IH | contradiction].
Qed.

Lemma drop_app (a post : string) : drop (String.length a) (a ++ post) = post.
Proof. induction a as [|x a IH]; simpl; [now destruct post | exact IH]. Qed.

Lemma free_in_occurs (q : ascii) (lit pre y : string) :
  is_quote q = true -> lit <> EmptyString -> forallb_str not_quote lit = true ->
  free_in literal_here pre y -> free_in (occurs_here (quoted q lit)) pre y.
Proof.
  intros Hq Hne Hnq. induction pre as [|c pre IH]; [trivial|].
  intros [Hh Hf]. split; [|now apply IH].
  unfold occurs_here. destruct (String.prefix _ _) eqn:E; [|reflexivity].
  destruct (prefix_split _ _ E) as [post Ep]. rewrite Ep in Hh.
  rewrite (literal_here_quoted q lit post Hq Hne Hnq) in Hh. discriminate.
Qed.

Lemma replace_from_eq (before s pat repl : string) :
  replace_from before s pat repl
  = if String.prefix pat s then
      before ++ expand repl pat before (drop (String.length pat) s)
             ++ drop (String.length pat) s
    else match s with
         | String c r => replace_from (before ++ String c EmptyString) r pat repl
         | EmptyString => before
         end.
Proof. destruct s; reflexivity. Qed.

Lemma replace_from_first (before pre pat post repl : string) :
  free_in (occurs_here pat) pre (pat ++ post) ->
  replace_from before (pre ++ pat ++ post) pat repl
  = (before ++ pre) ++ expand repl pat (before ++ pre) post ++ post.
Proof.
  revert before. induction pre as [|c pre IH]; intros before Hf.
  - rewrite sapp_nil_l, replace_from_eq, prefix_app, drop_app. now rewrite sapp_nil_r.
  - destruct Hf as [Hh Hf]. unfold occurs_here in Hh.
    change (String c pre ++ pat ++ post) with (String c (pre ++ pat ++ post)) in *.
    rewrite replace_from_eq.
    destruct (String.prefix pat (String c (pre ++ pat ++ post))); [discriminate|].
    rewrite (IH _ Hf). now rewrite !sapp_assoc.
Qed.

Lemma expand_plain (repl matched before after : string) :
  no_char "$" repl = true -> expand repl matched before after = repl.
Proof.
  unfold no_char. induction repl as [|c tl IH]; [reflexivity|]. simpl.
  intros H. apply andb_prop in H as [Hc Ht]. apply negb_true_iff in Hc.
  rewrite Hc. now rewrite (IH Ht).
Qed.

Lemma no_char_app (x : ascii) (a b : string) :
  no_char x (a ++ b) = no_char x a && no_char x b.
Proof.
  unfold no_char. induction a as [|c a IH]; [reflexivity|].
  simpl. now rewrite IH, andb_assoc.
Qed.

Lemma quote_not_dollar (q : ascii) : is_quote q = true -> negb (Ascii.eqb q "$") = true.
Proof.
  destruct q as [[] [] [] [] [] [] [] []]; intros H; try discriminate H; reflexivity.
Qed.

Lemma no_char_quoted (q : ascii) (c : string) :
  is_quote q = true -> no_char "$" c = true -> no_char "$" (quoted q c) = true.
Proof.
  intros Hq Hc. unfold quoted.
  change (no_char "$" (String q (c ++ String q EmptyString)))
    with (negb (Ascii.eqb q "$") && no_char "$" (c ++ String q EmptyString)).
  rewrite (quote_not_dollar q Hq), no_char_app, Hc.
  change (no_char "$" (String q EmptyString)) with (negb (Ascii.eqb q "$") && true).
  now rewrite (quote_not_dollar q Hq).
Qed.

(** The replacement of the first literal by another one. *)
Lemma replace_literal (s pre post lit c : string) (q : ascii) :
  s = pre ++ quoted q lit ++ post ->
  free_in literal_here pre (quoted q lit ++ post) ->
  is_quote q = true -> lit <> EmptyString -> forallb_str not_quote lit = true ->
  no_char "$" c = true ->
  replace s (quoted q lit) (quoted q c) = pre ++ quoted q c ++ post.
Proof.
  intros -> Hf Hq Hne Hnq Hc. unfold replace.
  rewrite replace_from_first by (now apply free_in_occurs).
  rewrite expand_plain by (now apply no_char_quoted).
  now rewrite sapp_nil_l.
Qed.

End Literals.

(** *** One rule *)

Section RuleFacts.

#[local] Arguments String.append !_ _ / : simpl nomatch.

Variable cats : list string.
Hypothesis Hgood : good_categories cats.

Lemma aligned_condition_stable (cond cond' : string) :
  (forall q lit, first_literal cond = Some (q, lit) -> proto_free (JStr lit) = true) ->
  aligned_condition cats cond = Ok (Some cond') ->
  aligned_condition cats cond' = Ok None /\ cond' <> EmptyString.
Proof.
  intros Hpf. unfold aligned_condition at 1.
  destruct (first_literal cond) as [[q lit]|] eqn:Ef; [|discriminate].
  specialize (Hpf q lit eq_refl).
  destruct (first_literal_spec _ _ _ Ef) as (pre & post & Es & Hfree & Hq & Hne & Hnq).
  destruct (mapCategory cats (JStr lit)) as [x|e] eqn:Em; [|discriminate].
  cbn [mbind result_bind].
  destruct (mapCategory_cases cats (JStr lit) x Hpf Em) as [-> | (c & Hin & ->)].
  - cbn [differs]. rewrite String.eqb_refl, andb_false_r. discriminate.
  - cbn [Json.truthy differs Json.to_string].
    destruct (negb (is_empty c) && negb (String.eqb c lit)) eqn:Hc; [|discriminate].
    apply andb_prop in Hc as [Hce _].
    assert (Hcne : c <> EmptyString) by (intros ->; discriminate Hce).
    destruct Hgood as [Hok _]. rewrite List.Forall_forall in Hok.
    destruct (Hok c Hin) as (_ & Hcq & Hcd & _).
    rewrite (replace_literal cond pre post lit c q Es Hfree Hq Hne Hnq Hcd).
    assert (Hfl : first_literal (pre ++ quoted q c ++ post) = Some (q, c)).
    { rewrite (first_literal_skip pre (quoted q c ++ post)).
      - apply first_literal_here. now apply literal_here_quoted.
      - rewrite quoted_app in *. now apply (free_in_literal_cut pre _ _ q Hq Hfree). }
    intros H.
    assert (cond' = pre ++ quoted q c ++ post) as -> by congruence. clear H. split.
    + unfold aligned_condition. rewrite Hfl.
      rewrite (mapCategory_cat cats Hgood c Hin). cbn [mbind result_bind].
      cbn [differs]. now rewrite String.eqb_refl, andb_false_r.
    + rewrite quoted_app. destruct pre; discriminate.
Qed.

Lemma get_prop_own (fs : props) (k : string) :
  inherited k = false -> get_prop fs k = assoc k fs.
Proof. intros H. unfold get_prop. rewrite H. now destruct (assoc k fs). Qed.

Lemma set_prop_same (fs : props) (k : string) (v : json) :
  assoc k fs = Some v -> set_prop fs k v = fs.
Proof.
  induction fs as [|[k' v'] fs IH]; [discriminate|]. cbn [assoc set_prop].
  destruct (String.eqb k k'); [intros H; now injection H as -> | intros H; now rewrite IH].
Qed.

Lemma assign_category_cases (fs fs1 : props) :
  assign_category cats fs = Ok fs1 ->
  fs1 = fs \/
  exists c x, assoc "category" fs = Some c /\ Json.truthy c = true /\
              mapCategory cats c = Ok x /\ fs1 = set_prop fs "category" x.
Proof.
  unfold assign_category. rewrite (get_prop_own fs "category" eq_refl).
  destruct (assoc "category" fs) as [c|]; [|intros H; injection H as <-; now left].
  destruct (Json.truthy c) eqn:Ht; [|intros H; injection H as <-; now left].
  destruct (mapCategory cats c) as [x|e] eqn:Em; [|discriminate].
  cbn [mbind result_bind]. intros H. injection H as <-.
  right. exists c, x. now repeat split.
Qed.

Lemma assign_condition_cases (fs fs2 : props) :
  assign_condition cats fs = Ok fs2 ->
  (fs2 = fs /\
   match assoc "condition" fs with
   | Some (JStr cond) => cond = EmptyString \/ aligned_condition cats cond = Ok None
   | _ => True
   end) \/
  exists cond cond', assoc "condition" fs = Some (JStr cond) /\
                     aligned_condition cats cond = Ok (Some cond') /\
                     fs2 = set_prop fs "condition" (JStr cond').
Proof.
  unfold assign_condition. rewrite (get_prop_own fs "condition" eq_refl).
  destruct (assoc "condition" fs) as [[| | |cond| | |]|];
    try (intros H; injection H as <-; left; split; [reflexivity | exact I]).
  destruct (Json.truthy (JStr cond)) eqn:Ht.
  2:{ intros H. injection H as <-. left. split; [reflexivity|]. left.
      destruct cond; [reflexivity | discriminate Ht]. }
  destruct (aligned_condition cats cond) as [[cond'|]|e] eqn:Ea; [| |discriminate].
  - cbn [mbind result_bind]. intros H. injection H as <-.
    right. exists cond, cond'. now repeat split.
  - cbn [mbind result_bind]. intros H. injection H as <-.
    left. split; [reflexivity | now right].
Qed.

Lemma assign_category_condition (fs fs1 : props) :
  assign_category cats fs = Ok fs1 ->
  assoc "condition" fs1 = assoc "condition" fs.
Proof.
  intros H. destruct (assign_category_cases fs fs1 H) as [-> | (c & x & _ & _ & _ & ->)];
    [reflexivity|].
  now apply assoc_set_prop_ne.
Qed.

Lemma assign_condition_category (fs fs2 : props) :
  assign_condition cats fs = Ok fs2 ->
  assoc "category" fs2 = assoc "category" fs.
Proof.
  intros H.
  destruct (assign_condition_cases fs fs2 H) as [[-> _] | (c & c' & _ & _ & ->)];
    [reflexivity|].
  now apply assoc_set_prop_ne.
Qed.

(** The category assignment does nothing on a rule whose category is
    already the image of one. *)
Lemma assign_category_settled (fs : props) (c x : json) :
  proto_free c = true ->
  mapCategory cats c = Ok x ->
  assoc "category" fs = Some x ->
  assign_category cats fs = Ok fs.
Proof.
  intros Hp Hm Hc. unfold assign_category. rewrite (get_prop_own fs "category" eq_refl), Hc.
  destruct (Json.truthy x); [|reflexivity].
  rewrite (mapCategory_idem cats Hgood c x Hp Hm). cbn [mbind result_bind].
  f_equal. now apply set_prop_same.
Qed.

Lemma assign_condition_idem (fs fs2 : props) :
  (forall cond q lit, assoc "condition" fs = Some (JStr cond) ->
     first_literal cond = Some (q, lit) -> proto_free (JStr lit) = true) ->
  assign_condition cats fs = Ok fs2 ->
  assign_condition cats fs2 = Ok fs2.
Proof.
  intros Hpf H.
  destruct (assign_condition_cases fs fs2 H) as [[-> _] | (cond & cond' & Hc & Ha & ->)];
    [exact H|].
  destruct (aligned_condition_stable cond cond'
              (fun q lit => Hpf cond q lit Hc) Ha) as [Hs Hne].
  unfold assign_condition.
  rewrite (get_prop_own _ "condition" eq_refl), assoc_set_prop_eq, Hs.
  destruct cond'; [contradiction | reflexivity].
Qed.

(** A rule that the category assignment leaves as it is, is left so with
    its other properties changed. *)
Lemma assign_category_unchanged (fs fs' : props) :
  assoc "category" fs' = assoc "category" fs ->
  assign_category cats fs = Ok fs ->
  assign_category cats fs' = Ok fs'.
Proof.
  intros Hsame. unfold assign_category.
  rewrite !(get_prop_own _ "category" eq_refl), Hsame.
  destruct (assoc "category" fs) as [c|] eqn:Ec; [|reflexivity].
  destruct (Json.truthy c); [|reflexivity].
  destruct (mapCategory cats c) as [x|e]; [|discriminate].
  cbn [mbind result_bind]. intros H. injection H as H.
  assert (Hx : x = c).
  { pose proof (assoc_set_prop_eq fs "category" x) as Hs.
    rewrite H, Ec in Hs. now injection Hs as ->. }
  subst x. f_equal. now apply set_prop_same.
Qed.

Lemma align_rule_idem (r r1 : json) :
  rule_plain r = true ->
  align_rule cats r = Ok r1 -> align_rule cats r1 = Ok r1.
Proof.
  intros Hp. destruct r as [| | | | |fs|]; try (intros H; injection H as <-; reflexivity).
  { discriminate. }
  cbn [align_rule].
  destruct (assign_category cats fs) as [fs1|e] eqn:E1; [|discriminate].
  cbn [mbind result_bind].
  destruct (assign_condition cats fs1) as [fs2|e] eqn:E2; [|discriminate].
  cbn [mbind result_bind]. intros H. injection H as <-. cbn [align_rule].
  cbn [rule_plain] in Hp. apply andb_prop in Hp as [Hcat Hcond].
  rewrite (get_prop_own fs "category" eq_refl) in Hcat.
  rewrite (get_prop_own fs "condition" eq_refl) in Hcond.
  assert (H1 : assign_category cats fs2 = Ok fs2).
  { pose proof (assign_condition_category _ _ E2) as Hsame.
    destruct (assign_category_cases fs fs1 E1) as [-> | (c & x & Hc & Ht & Hm & ->)].
    - now apply (assign_category_unchanged fs fs2).
    - rewrite Hc in Hcat. apply (assign_category_settled _ c x Hcat Hm).
      rewrite Hsame. apply assoc_set_prop_eq. }
  rewrite H1. cbn [mbind result_bind].
  rewrite (assign_condition_idem fs1 fs2); [reflexivity | | exact E2].
  intros cond q lit Hc Hl. rewrite (assign_category_condition _ _ E1) in Hc.
  rewrite Hc, Hl in Hcond. exact Hcond.
Qed.

End RuleFacts.

(** *** The whole document *)

Lemma clone_json_data (t : json) : json_data t = true -> clone t = Some t.
Proof.
  induction t as [| |n| |l IH|o IH|] using json_induction; try reflexivity.
  - destruct n; [discriminate | discriminate | reflexivity].
  - cbn [json_data clone]. intros H. do 2 f_equal.
    induction IH as [|x r Hx _ IHr]; [reflexivity|].
    cbn [forallb] in H. apply andb_prop in H as [H1 H2].
    cbn [map]. now rewrite (Hx H1), (IHr H2).
  - cbn [json_data clone]. intros H. do 2 f_equal.
    induction IH as [|[k x] r Hx _ IHr]; [reflexivity|].
    cbn [forallb] in H. apply andb_prop in H as [H1 H2].
    cbn [omap list_omap snd fst]. cbn [snd] in Hx, H1.
    now rewrite (Hx H1), (IHr H2).
  - discriminate.
Qed.

Lemma json_data_set_prop (fs : props) (k : string) (v : json) :
  forallb (fun kv => json_data (snd kv)) fs = true -> json_data v = true ->
  forallb (fun kv => json_data (snd kv)) (set_prop fs k v) = true.
Proof.
  intros Hfs Hv. induction fs as [|[k' v'] fs IH]; cbn [set_prop forallb snd].
  - now rewrite Hv.
  - cbn [forallb snd] in Hfs. apply andb_prop in Hfs as [H1 H2].
    destruct (String.eqb k k'); cbn [forallb snd].
    + now rewrite Hv, H2.
    + now rewrite H1, (IH H2).
Qed.

Lemma json_data_assoc (fs : props) (k : string) (v : json) :
  forallb (fun kv => json_data (snd kv)) fs = true -> assoc k fs = Some v ->
  json_data v = true.
Proof.
  intros Hfs. induction fs as [|[k' v'] fs IH]; [discriminate|].
  cbn [forallb snd] in Hfs. apply andb_prop in Hfs as [H1 H2]. cbn [assoc].
  destruct (String.eqb k k'); [intros H; now injection H as <- | now apply IH].
Qed.

Lemma set_prop_twice (fs : props) (k : string) (v v' : json) :
  set_prop (set_prop fs k v) k v' = set_prop fs k v'.
Proof.
  induction fs as [|[k0 v0] fs IH]; cbn [set_prop].
  - now rewrite String.eqb_refl.
  - destruct (String.eqb k k0) eqn:E; cbn [set_prop]; rewrite E;
      [reflexivity | now rewrite IH].
Qed.

Section DocumentFacts.

Variable cats : list string.
Hypothesis Hgood : good_categories cats.

Lemma json_data_align_rule (r r1 : json) :
  json_data r = true -> rule_plain r = true ->
  align_rule cats r = Ok r1 -> json_data r1 = true.
Proof.
  intros Hd Hp. destruct r as [| | | | |fs|]; try (intros H; injection H as <-; exact Hd).
  { discriminate. }
  cbn [align_rule].
  destruct (assign_category cats fs) as [fs1|e] eqn:E1; [|discriminate].
  cbn [mbind result_bind].
  destruct (assign_condition cats fs1) as [fs2|e] eqn:E2; [|discriminate].
  cbn [mbind result_bind]. intros H. injection H as <-.
  cbn [json_data] in *. cbn [rule_plain] in Hp. apply andb_prop in Hp as [Hcat _].
  rewrite (get_prop_own fs "category" eq_refl) in Hcat.
  assert (H1 : forallb (fun kv => json_data (snd kv)) fs1 = true).
  { destruct (assign_category_cases cats fs fs1 E1) as [-> | (c & x & Hc & Ht & Hm & ->)];
      [exact Hd|].
    apply json_data_set_prop; [exact Hd|].
    rewrite Hc in Hcat.
    destruct (mapCategory_cases cats c x Hcat Hm) as [-> | (y & _ & ->)];
      [now apply (json_data_assoc fs "category") | reflexivity]. }
  destruct (assign_condition_cases cats fs1 fs2 E2) as [[-> _] | (c & c' & _ & _ & ->)];
    [exact H1|].
  now apply json_data_set_prop.
Qed.

Lemma align_rules_idem (rules rules1 : list json) :
  forallb rule_plain rules = true ->
  align_rules cats rules = Ok rules1 -> align_rules cats rules1 = Ok rules1.
Proof.
  revert rules1. induction rules as [|r rest IH]; intros rules1 Hp.
  - intros H. injection H as <-. reflexivity.
  - cbn [forallb] in Hp. apply andb_prop in Hp as [Hr Hrest]. cbn [align_rules].
    destruct (align_rule cats r) as [r1|] eqn:Er; [|discriminate].
    cbn [mbind result_bind].
    destruct (align_rules cats rest) as [rest1|] eqn:Erest; [|discriminate].
    cbn [mbind result_bind]. intros H. injection H as <-.
    cbn [align_rules]. rewrite (align_rule_idem cats Hgood r r1 Hr Er).
    cbn [mbind result_bind]. now rewrite (IH rest1 Hrest eq_refl).
Qed.

Lemma json_data_align_rules (rules rules1 : list json) :
  forallb json_data rules = true -> forallb rule_plain rules = true ->
  align_rules cats rules = Ok rules1 -> forallb json_data rules1 = true.
Proof.
  revert rules1. induction rules as [|r rest IH]; intros rules1 Hd Hp.
  - intros H. injection H as <-. reflexivity.
  - cbn [forallb] in Hd, Hp. apply andb_prop in Hd as [Hd1 Hd2].
    apply andb_prop in Hp as [Hr Hrest]. cbn [align_rules].
    destruct (align_rule cats r) as [r1|] eqn:Er; [|discriminate].
    cbn [mbind result_bind].
    destruct (align_rules cats rest) as [rest1|] eqn:Erest; [|discriminate].
    cbn [mbind result_bind]. intros H. injection H as <-.
    cbn [forallb]. rewrite (json_data_align_rule r r1 Hd1 Hr Er).
    now rewrite (IH rest1 Hd2 Hrest eq_refl).
Qed.

Lemma align_idem (d d1 : json) :
  json_data d = true -> plain_rules d = true ->
  alignParsedCategoriesWithDataset d cats = Ok d1 ->
  alignParsedCategoriesWithDataset d1 cats = Ok d1.
Proof.
  intros Hd Hp H. pose proof H as H0. unfold alignParsedCategoriesWithDataset in H.
  destruct (if Json.truthy d then member d "rules" else None) as [v|] eqn:Em.
  2:{ injection H as <-. exact H0. }
  destruct v as [| | | |rules| |]; try (injection H as <-; exact H0).
  rewrite (clone_json_data d Hd) in H.
  assert (Ho : exists o, d = JObj o).
  { destruct d; eauto; exfalso; destruct (Json.truthy _) in Em; discriminate Em. }
  destruct Ho as [o ->].
  cbn [Json.truthy] in Em. rewrite Em in H.
  unfold plain_rules in Hp. rewrite Em in Hp.
  destruct (align_rules cats rules) as [rules1|] eqn:Er; [|discriminate].
  cbn [mbind result_bind] in H. injection H as <-.
  cbn [member] in Em. rewrite (get_prop_own o "rules" eq_refl) in Em.
  cbn [json_data] in Hd.
  pose proof (json_data_assoc o "rules" _ Hd Em) as Hrules. cbn [json_data] in Hrules.
  pose proof (json_data_align_rules rules rules1 Hrules Hp Er) as Hd1.
  unfold alignParsedCategoriesWithDataset. cbn [Json.truthy member].
  rewrite get_prop_set_prop_eq.
  rewrite clone_json_data by (cbn [json_data]; now apply json_data_set_prop).
  cbn [member]. rewrite get_prop_set_prop_eq.
  rewrite (align_rules_idem rules rules1 Hp Er). cbn [mbind result_bind].
  now rewrite set_prop_twice.
Qed.

End DocumentFacts.

(** C9 (amended). Alignment is idempotent on plain JSON documents when the
    dataset categories have no white space around them, no quote and no
    dollar sign in them, are not [__proto__], and differ from one another by
    more than letter case, and when no rule's category or first quoted
    literal is, trimmed and lower-cased, a property name of
    [Object.prototype]: aligning the aligned document again, against the
    same categories, returns it unchanged, category fields and quoted
    literals included. *)
Theorem align_idempotent (cats : list string) (d d1 : json) :
  good_categories cats ->
  json_data d = true ->
  plain_rules d = true ->
  alignParsedCategoriesWithDataset d cats = Ok d1 ->
  alignParsedCategoriesWithDataset d1 cats = Ok d1.
Proof.
  intros Hgood Hd Hp H. exact (align_idem cats Hgood d d1 Hd Hp H).
Qed.

Lemma align_idempotent_witness :
  alignParsedCategoriesWithDataset
    (doc_meals "meals" "category == 'meals' and amount > 50") ["Meals"; "Travel"]
  = Ok (doc_meals "Meals" "category == 'Meals' and amount > 50") /\
  alignParsedCategoriesWithDataset
    (doc_meals "Meals" "category == 'Meals' and amount > 50") ["Meals"; "Travel"]
  = Ok (doc_meals "Meals" "category == 'Meals' and amount > 50").
Proof.
  split; [reflexivity|].
  apply (align_idempotent ["Meals"; "Travel"]
           (doc_meals "meals" "category == 'meals' and amount > 50")).
  - split.
    + repeat constructor; discriminate.
    + apply (bool_decide_unpack _). vm_compute. reflexivity.
  - reflexivity.
  - reflexivity.
  - reflexivity.
Defined.

(** C9 as stated fails: with two dataset categories that differ only by
    case, the substring match settles on the first and the exact match, at
    the second alignment, on the last. *)
Lemma align_twice_differs :
  ~ (forall (d d1 : json) (cats : list string),
       alignParsedCategoriesWithDataset d cats = Ok d1 ->
       alignParsedCategoriesWithDataset d1 cats = Ok d1).
Proof.
  intros H.
  specialize (H (doc_meals "meal" "amount > 50") _ ["Meals"; "MEALS"] eq_refl).
  vm_compute in H. discriminate H.
Qed.

(** ** The results table *)

Import ScoreTable Notions.

Set Warnings "-clear-no-such-hyp".

Section FilterFacts.

Lemma filter_sublist {A : Type} (p : A -> bool) (l : list A) :
  sublist (List.filter p l) l.
Proof.
  induction l as [|x l IH]; simpl; [constructor|].
  destruct (p x); now constructor.
Qed.

Lemma filter_filter_and {A : Type} (p q : A -> bool) (l : list A) :
  List.filter q (List.filter p l) = List.filter (fun x => p x && q x) l.
Proof.
  induction l as [|x l IH]; simpl; [reflexivity|].
  destruct (p x) eqn:Hp; simpl; [|exact IH].
  destruct (q x); simpl; now rewrite IH.
Qed.

Lemma filter_true {A : Type} (l : list A) : List.filter (fun _ => true) l = l.
Proof. induction l as [|x l IH]; simpl; [reflexivity | now rewrite IH]. Qed.

Lemma filter_ext_eq {A : Type} (p q : A -> bool) (l : list A) :
  (forall x, p x = q x) -> List.filter p l = List.filter q l.
Proof.
  intros H. induction l as [|x l IH]; simpl; [reflexivity|].
  rewrite H, IH. reflexivity.
Qed.

Lemma category_step (fc : string) (items : list props) :
  (if negb (is_empty fc) then List.filter (category_is fc) items else items)
  = List.filter (fun i => is_empty fc || category_is fc i) items.
Proof. destruct fc; simpl; [now rewrite filter_true | reflexivity]. Qed.

Lemma fraud_step (ff : string) (items : list props) :
  (if negb (is_empty ff) then
     if String.eqb ff "high" then List.filter fraud_high items
     else if String.eqb ff "med" then List.filter fraud_med items
     else if String.eqb ff "low" then List.filter fraud_low items
     else items
   else items)
  = List.filter (fun i => if String.eqb ff "high" then fraud_high i
                          else if String.eqb ff "med" then fraud_med i
                          else if String.eqb ff "low" then fraud_low i
                          else true) items.
Proof.
  destruct ff as [|c ff]; [simpl; now rewrite filter_true|].
  cbn [is_empty negb].
  destruct (String.eqb (String c ff) "high"); [reflexivity|].
  destruct (String.eqb (String c ff) "med"); [reflexivity|].
  destruct (String.eqb (String c ff) "low"); [reflexivity|].
  now rewrite filter_true.
Qed.

Lemma policy_step (fp : string) (items : list props) :
  (if negb (is_empty fp) then
     if String.eqb fp "violation" then List.filter (policy_is false) items
     else if String.eqb fp "ok" then List.filter (policy_is true) items
     else items
   else items)
  = List.filter (fun i => if String.eqb fp "violation" then policy_is false i
                          else if String.eqb fp "ok" then policy_is true i
                          else true) items.
Proof.
  destruct fp as [|c fp]; [simpl; now rewrite filter_true|].
  cbn [is_empty negb].
  destruct (String.eqb (String c fp) "violation"); [reflexivity|].
  destruct (String.eqb (String c fp) "ok"); [reflexivity|].
  now rewrite filter_true.
Qed.

(** The three steps of [applyScoreFilters] are one filter. *)
Lemma applyScoreFilters_filter (fc ff fp : string) (rows : list props) :
  applyScoreFilters fc ff fp rows = List.filter (passes fc ff fp) rows.
Proof.
  unfold applyScoreFilters. cbv zeta.
  rewrite policy_step, fraud_step, category_step, !filter_filter_and.
  apply filter_ext_eq. intros x. unfold passes. now rewrite andb_assoc.
Qed.

End FilterFacts.

(** X1. [applyScoreFilters] keeps the rows of [originalScores] in their
    order and keeps exactly those that pass every filter field that is set
    to a recognised keyword (a fraud or policy keyword that is not
    recognised removes nothing); applying it again changes nothing; and
    [clearScoreFilters] shows every row. *)
Theorem applyScoreFilters_selects (fc ff fp : string) (rows : list props) :
  sublist (applyScoreFilters fc ff fp rows) rows /\
  (forall i, In i (applyScoreFilters fc ff fp rows) <->
             In i rows /\ passes fc ff fp i = true) /\
  applyScoreFilters fc ff fp (applyScoreFilters fc ff fp rows)
  = applyScoreFilters fc ff fp rows /\
  clearScoreFilters rows = rows.
Proof.
  rewrite !applyScoreFilters_filter.
  split; [apply filter_sublist|].
  split; [intros i; apply List.filter_In|].
  split.
  - rewrite filter_filter_and. apply filter_ext_eq. intros x.
    now destruct (passes fc ff fp x).
  - unfold clearScoreFilters. rewrite applyScoreFilters_filter.
    apply filter_true.
Qed.

Section Bands.

Lemma dec_compare_antisym (m1 e1 m2 e2 : Z) :
  JSNumber.dec_compare m2 e2 m1 e1 = CompOpp (JSNumber.dec_compare m1 e1 m2 e2).
Proof.
  unfold JSNumber.dec_compare. rewrite (Z.min_comm e2 e1). cbv zeta.
  apply Z.compare_antisym.
Qed.

(** A finite score against the two thresholds, at their common exponent. *)
Lemma band_cases (m e : Z) :
  let x := JSNumber.Dec m e in
  (JSNumber.gtb x half = true /\ JSNumber.gtb x fifth = true /\
   JSNumber.leb x half = false /\ JSNumber.leb x fifth = false) \/
  (JSNumber.gtb x half = false /\ JSNumber.gtb x fifth = true /\
   JSNumber.leb x half = true /\ JSNumber.leb x fifth = false) \/
  (JSNumber.gtb x half = false /\ JSNumber.gtb x fifth = false /\
   JSNumber.leb x half = true /\ JSNumber.leb x fifth = true).
Proof.
  cbv zeta. unfold JSNumber.gtb, JSNumber.ltb, JSNumber.leb, half, fifth, JSNumber.compare.
  rewrite (dec_compare_antisym m e 5 (-1)), (dec_compare_antisym m e 2 (-1)).
  unfold JSNumber.dec_compare. cbv zeta.
  set (k := Z.min e (-1)).
  assert (Hp : 0 < 10 ^ (-1 - k)) by (apply Z.pow_pos_nonneg; lia).
  set (P := 10 ^ (-1 - k)) in *. set (X := m * 10 ^ (e - k)).
  destruct (Z.compare_spec X (5 * P)) as [H5|H5|H5];
    destruct (Z.compare_spec X (2 * P)) as [H2|H2|H2]; simpl; try lia; tauto.
Qed.

End Bands.

(** X2. The three fraud bands split the scores: a row whose fraud score is
    a number other than NaN is kept by exactly one of the filters [high]
    (above 0.5), [med] (above 0.2, at most 0.5) and [low] (at most 0.2), the
    score 0.5 itself being medium and 0.2 itself low; a row whose score is
    NaN or missing is kept by none of the three. *)
Theorem fraud_bands_partition (i : props) :
  (JSNumber.is_nan (fraud_score i) = false ->
   (fraud_high i, fraud_med i, fraud_low i) = (true, false, false) \/
   (fraud_high i, fraud_med i, fraud_low i) = (false, true, false) \/
   (fraud_high i, fraud_med i, fraud_low i) = (false, false, true)) /\
  (JSNumber.is_nan (fraud_score i) = true ->
   (fraud_high i, fraud_med i, fraud_low i) = (false, false, false)) /\
  (fraud_score i = half -> fraud_med i = true) /\
  (fraud_score i = fifth -> fraud_low i = true).
Proof.
  unfold fraud_high, fraud_med, fraud_low.
  repeat split.
  - intros Hn. destruct (fraud_score i) as [|s|m e]; [discriminate Hn| |].
    + destruct s; [right; right | left]; reflexivity.
    + destruct (band_cases m e) as [H|[H|H]]; cbv zeta in H;
        destruct H as (-> & -> & -> & ->); simpl; tauto.
  - intros Hn. destruct (fraud_score i); try discriminate Hn. reflexivity.
  - intros ->. reflexivity.
  - intros ->. reflexivity.
Qed.

Lemma fraud_bands_partition_witness :
  (fraud_high [("txn_id", JStr "t1"); ("fraud_score", JNum (JSNumber.Dec 35 (-2)))],
   fraud_med [("txn_id", JStr "t1"); ("fraud_score", JNum (JSNumber.Dec 35 (-2)))],
   fraud_low [("txn_id", JStr "t1"); ("fraud_score", JNum (JSNumber.Dec 35 (-2)))])
  = (false, true, false).
Proof.
  destruct (fraud_bands_partition
              [("txn_id", JStr "t1"); ("fraud_score", JNum (JSNumber.Dec 35 (-2)))])
    as (H & _).
  destruct (H eq_refl) as [E|[E|E]]; [discriminate E | exact E | discriminate E].
Defined.

Section PolicyFilter.

Lemma triggered_violated (rules : list json) (r : props) :
  Nat.eqb (List.length (violated_rules rules r)) 0 = negb (existsb (triggered r) rules).
Proof.
  induction rules as [|rule rules IH]; [reflexivity|].
  cbn [violated_rules existsb]. unfold triggered at 1.
  destruct (evaluateRuleAgainstTx rule (Some r)) as [[|]|e]; cbn [orb]; try exact IH.
  destruct (violation_label rule); reflexivity.
Qed.

Lemma policy_is_verdict (b : bool) (r : props) (violated : list json) (v : json) :
  verdict violated = Ok v ->
  policy_is b (set_prop r "policy" v)
  = Bool.eqb (Nat.eqb (List.length violated) 0) b.
Proof.
  unfold verdict. destruct (joined violated) as [reason|e]; [|discriminate].
  cbn [mbind result_bind]. intros H. injection H as <-.
  unfold policy_is. rewrite get_prop_set_prop_eq. reflexivity.
Qed.

Lemma applyPolicy_rules (d : json) (rules : list json) (rows : list props) :
  member d "rules" = Some (JArr rules) -> rules <> [] ->
  applyPolicyToRows (Some d) rows
  = mapM (fun r => v ← verdict (violated_rules rules r);
                   Ok (set_prop r "policy" v)) rows.
Proof.
  intros Hm Hne. unfold applyPolicyToRows.
  destruct d; try discriminate Hm. cbn [Json.truthy]. rewrite Hm.
  destruct rules; [contradiction | reflexivity].
Qed.

(** A loop that has returned for all the rows returns for some of them,
    with the results of these. *)
Lemma mapM_filter {A B : Type} (g : A -> result B) (q : A -> bool) (p : B -> bool)
    (l : list A) (out : list B) :
  Forall2 (fun a b => g a = Ok b) l out ->
  (forall a b, g a = Ok b -> p b = q a) ->
  mapM g (List.filter q l) = Ok (List.filter p out).
Proof.
  intros H Hpq. induction H as [|a b l out Hab _ IH]; [reflexivity|].
  cbn [List.filter]. rewrite (Hpq a b Hab). destruct (q a); [|exact IH].
  cbn [mapM]. rewrite Hab. cbn [mbind result_bind]. rewrite IH. reflexivity.
Qed.

End PolicyFilter.

(** X3. Filtering the aggregated rows by policy.  With a document that has
    rules, and provided [applyPolicyToRows] returns for the rows (the join
    of the labels of the violated rules does not throw), the filter
    [violation] shows exactly the rows on which some rule evaluates to true,
    and the filter [ok] exactly the rows on which none does, each with the
    verdict that [applyPolicyToRows] gave it: what is shown is what
    [applyPolicyToRows] returns for these rows alone. *)
Theorem policy_filter_after_aggregation (d : json) (rules : list json)
    (rows out : list props) :
  member d "rules" = Some (JArr rules) -> rules <> [] ->
  applyPolicyToRows (Some d) rows = Ok out ->
  applyPolicyToRows (Some d) (List.filter (fun r => existsb (triggered r) rules) rows)
  = Ok (applyScoreFilters EmptyString EmptyString "violation" out) /\
  applyPolicyToRows (Some d)
    (List.filter (fun r => negb (existsb (triggered r) rules)) rows)
  = Ok (applyScoreFilters EmptyString EmptyString "ok" out).
Proof.
  intros Hm Hne Hout. rewrite !(applyPolicy_rules d rules _ Hm Hne) in *.
  apply mapM_result in Hout.
  rewrite !applyScoreFilters_filter.
  split; apply (mapM_filter _ _ _ _ _ Hout); intros r r' Hr;
    (destruct (verdict (violated_rules rules r)) as [v|e] eqn:Ev; [|discriminate Hr]);
    cbn [mbind result_bind] in Hr; injection Hr as <-;
    unfold passes; cbn [is_empty orb andb String.eqb Ascii.eqb Bool.eqb];
    rewrite (policy_is_verdict _ r _ v Ev), triggered_violated;
    now destruct (existsb (triggered r) rules).
Qed.

Lemma policy_filter_after_aggregation_witness :
  applyPolicyToRows (Some Spec.doc_R1)
    (List.filter (fun r => existsb (triggered r) [Spec.rule_R1])
       [[("txn_id", JStr "t1"); ("amount", JNum (JSNumber.Dec 51 0))];
        [("txn_id", JStr "t2"); ("amount", JNum (JSNumber.Dec 50 0))]])
  = Ok (applyScoreFilters EmptyString EmptyString "violation"
          [[("txn_id", JStr "t1"); ("amount", JNum (JSNumber.Dec 51 0));
            ("policy", JObj [("compliant", JBool false);
                             ("violated_rules", JArr [JStr "R1"]);
                             ("reason", JStr "R1")])];
           [("txn_id", JStr "t2"); ("amount", JNum (JSNumber.Dec 50 0));
            ("policy", JObj [("compliant", JBool true);
                             ("violated_rules", JArr []);
                             ("reason", JStr EmptyString)])]]).
Proof.
  apply (policy_filter_after_aggregation Spec.doc_R1 [Spec.rule_R1]
           [[("txn_id", JStr "t1"); ("amount", JNum (JSNumber.Dec 51 0))];
            [("txn_id", JStr "t2"); ("amount", JNum (JSNumber.Dec 50 0))]]);
    [reflexivity | discriminate | reflexivity].
Defined.

Lemma applyScoreFilters_selects_witness :
  In [("category", JStr "Meals")]
     (applyScoreFilters "Meals" EmptyString EmptyString
        [[("category", JStr "Travel")]; [("category", JStr "Meals")]]).
Proof.
  apply (proj1 (proj2 (applyScoreFilters_selects "Meals" EmptyString EmptyString
                         [[("category", JStr "Travel")]; [("category", JStr "Meals")]]))).
  split; [right; left; reflexivity | reflexivity].
Defined.

(** *** Pages *)

Section Pages.

Lemma firstn_add {A : Type} (a b : nat) (l : list A) :
  firstn (a + b) l = (firstn a l ++ firstn b (skipn a l))%list.
Proof.
  revert l. induction a as [|a IH]; intros l; [reflexivity|].
  destruct l as [|x l]; simpl; [now destruct b | now rewrite IH].
Qed.

(** The first [n] chunks of [c] elements make up the first [c * n]
    elements. *)
Lemma chunks_firstn {A : Type} (c n : nat) (l : list A) :
  concat (map (fun k => firstn c (skipn (c * k) l)) (seq 0 n)) = firstn (c * n) l.
Proof.
  induction n as [|n IH]; [now rewrite Nat.mul_0_r|].
  rewrite seq_S, map_app, concat_app, IH. simpl.
  rewrite app_nil_r, <- firstn_add. f_equal. lia.
Qed.

(** A page with a non-negative index is a chunk. *)
Lemma slice_chunk {A : Type} (k : nat) (l : list A) :
  slice (Z.of_nat k * pageSize) (Z.of_nat k * pageSize + pageSize) l
  = firstn 50 (skipn (50 * k) l).
Proof.
  unfold slice, pageSize. cbv zeta.
  destruct (Z.ltb_spec (Z.of_nat k * 50) 0) as [H|_]; [lia|].
  destruct (Z.ltb_spec (Z.of_nat k * 50 + 50) 0) as [H|_]; [lia|].
  destruct (Nat.le_gt_cases (List.length l) (50 * k)) as [Hle|Hgt].
  - rewrite (skipn_all2 l Hle).
    replace (Z.to_nat (Z.min (Z.of_nat k * 50) (Z.of_nat (List.length l))))
      with (List.length l) by lia.
    rewrite skipn_all. now rewrite !firstn_nil.
  - replace (Z.to_nat (Z.min (Z.of_nat k * 50) (Z.of_nat (List.length l))))
      with (50 * k)%nat by lia.
    destruct (Nat.le_gt_cases (List.length l) (50 * k + 50)) as [Hs|Hs].
    + rewrite !firstn_all2; [reflexivity | | ]; rewrite length_skipn; lia.
    + f_equal. lia.
Qed.

Lemma ceil_quot_bounds (a : Z) :
  0 <= a ->
  a <= 50 * ceil_quot a pageSize /\ 50 * (ceil_quot a pageSize - 1) < a.
Proof.
  intros Ha. unfold ceil_quot, pageSize.
  Z.div_mod_to_equations. lia.
Qed.

Variable sorted : string -> bool -> list props -> list props.
Hypothesis sorted_perm : forall f a l, Permutation (sorted f a l) l.

(** The rows that the computation of [pagedScores] cuts into pages. *)
Lemma page_computed_chunk (sortField : string) (ascending : bool)
    (scores : list props) :
  exists items,
    Permutation items scores /\
    (sortField = EmptyString -> items = scores) /\
    forall k, page_computed sorted sortField ascending scores (Z.of_nat k)
              = firstn 50 (skipn (50 * k) items).
Proof.
  unfold page_computed. cbv zeta.
  destruct sortField as [|c f]; cbn [is_empty negb].
  - exists scores. split; [reflexivity|]. split; [reflexivity|].
    intros j. apply slice_chunk.
  - exists (sorted (String c f) ascending scores). split; [apply sorted_perm|].
    split; [discriminate|]. intros j. apply slice_chunk.
Qed.

Lemma chunk_nil {A : Type} (k : nat) (l : list A) :
  firstn 50 (skipn (50 * k) l) = [] <-> (List.length l <= 50 * k)%nat.
Proof.
  split.
  - intros H. apply (f_equal (@List.length A)) in H.
    rewrite length_firstn, length_skipn in H. cbn [List.length] in H. lia.
  - intros H. now rewrite (skipn_all2 l H).
Qed.

End Pages.

Section Memo.

Import ScoreView.

Variable sorted : string -> bool -> list props -> list props.

(** No action touches the memo once it is there. *)
Lemma act_keeps_memo (a : action) (v : view) (value : list props) :
  memo v = Some value -> memo (act sorted a v) = Some value.
Proof.
  intros Hm. destruct a; cbn [act memo]; try exact Hm.
  unfold pagedScores. now rewrite Hm.
Qed.

Lemma acts_keep_memo (actions : list action) (v : view) (value : list props) :
  memo v = Some value ->
  memo (fold_left (fun w a => act sorted a w) actions v) = Some value.
Proof.
  revert v. induction actions as [|a rest IH]; intros v Hm; [exact Hm|].
  cbn [fold_left]. apply IH. now apply act_keeps_memo.
Qed.

Lemma read_fills_memo (v : view) :
  memo (snd (pagedScores sorted v)) = Some (fst (pagedScores sorted v)).
Proof. unfold pagedScores. destruct (memo v) eqn:E; [exact E | reflexivity]. Qed.

End Memo.

(** X4. [pagedScores] is memoised on [scores] alone.  After [scores] has
    been set, the next read runs the computation on the fields as they are
    then: it gives the page, at the page index in force, of the rows, sorted
    when a sort field is set.  Every later read gives these same rows,
    whatever the page buttons and [sortBy] have done in between and whatever
    the page index and the sort field have become; only setting [scores]
    again makes the computation run again.  The computation itself cuts the
    rows into pages: were it run at each index from 0 to [totalPages() - 1],
    it would yield every row exactly once, at most 50 at a time, and
    nothing from [totalPages()] on. *)
Theorem pagedScores_memoised (sorted : string -> bool -> list props -> list props)
    (v : ScoreView.view) :
  (forall f a l, Permutation (sorted f a l) l) ->
  (forall items,
     fst (ScoreView.pagedScores sorted (ScoreView.set_scores items v))
     = page_computed sorted (ScoreView.sortField v) (ScoreView.ascending v) items
         (ScoreView.pageIndex v)) /\
  (forall actions : list ScoreView.action,
     fst (ScoreView.pagedScores sorted
            (fold_left (fun w a => ScoreView.act sorted a w) actions
               (snd (ScoreView.pagedScores sorted v))))
     = fst (ScoreView.pagedScores sorted v)) /\
  (forall (sortField : string) (ascending : bool) (scores : list props),
     let page := fun k : nat =>
       page_computed sorted sortField ascending scores (Z.of_nat k) in
     let pages := map page (seq 0 (Z.to_nat (totalPages scores))) in
     Permutation (concat pages) scores /\
     (sortField = EmptyString -> concat pages = scores) /\
     (forall k, (List.length (page k) <= 50)%nat) /\
     (forall k, page k = [] <-> (List.length scores <= 50 * k)%nat) /\
     (forall k, totalPages scores <= Z.of_nat k -> page k = [])).
Proof.
  intros Hperm. split; [reflexivity|]. split.
  { intros actions.
    pose proof (acts_keep_memo sorted actions _ _ (read_fills_memo sorted v)) as Hm.
    unfold ScoreView.pagedScores at 1. now rewrite Hm. }
  intros sortField ascending scores page pages.
  destruct (page_computed_chunk sorted Hperm sortField ascending scores)
    as (items & Hitems & Hsame & Hpage).
  assert (Hlen : List.length items = List.length scores)
    by now apply Permutation_length.
  assert (Hall : concat pages = items).
  { unfold pages, page.
    rewrite (map_ext _ (fun k => firstn 50 (skipn (50 * k) items)) Hpage).
    rewrite chunks_firstn. apply firstn_all2.
    unfold totalPages. cbv zeta.
    pose proof (ceil_quot_bounds (Z.of_nat (List.length scores)) ltac:(lia)) as [H1 _].
    lia. }
  split; [now rewrite Hall|].
  split; [intros E; rewrite Hall; now apply Hsame|].
  split; [intros k; unfold page; rewrite Hpage, length_firstn; lia|].
  split.
  - intros k. unfold page. rewrite Hpage, chunk_nil, Hlen. reflexivity.
  - intros k Hk. unfold page. rewrite Hpage. apply chunk_nil. rewrite Hlen.
    unfold totalPages in Hk. cbv zeta in Hk.
    pose proof (ceil_quot_bounds (Z.of_nat (List.length scores)) ltac:(lia)) as [H1 _].
    lia.
Qed.

Lemma pagedScores_memoised_witness :
  fst (ScoreView.pagedScores (fun _ _ l => rev l)
         (fold_left (fun w a => ScoreView.act (fun _ _ l => rev l) a w)
            [ScoreView.Next; ScoreView.Sort "amount"; ScoreView.Read]
            (snd (ScoreView.pagedScores (fun _ _ l => rev l)
                    {| ScoreView.scores := repeat [("txn_id", JStr "t")] 120;
                       ScoreView.pageIndex := 0;
                       ScoreView.sortField := EmptyString;
                       ScoreView.ascending := true;
                       ScoreView.memo := None |}))))
  = repeat [("txn_id", JStr "t")] 50.
Proof.
  rewrite (proj1 (proj2 (pagedScores_memoised (fun _ _ l => rev l)
             {| ScoreView.scores := repeat [("txn_id", JStr "t")] 120;
                ScoreView.pageIndex := 0;
                ScoreView.sortField := EmptyString;
                ScoreView.ascending := true;
                ScoreView.memo := None |}
             (fun f a l => Permutation_sym (Permutation_rev l))))).
  reflexivity.
Defined.

(** X5. The page buttons keep the page index within the pages: from an
    index between 0 and [totalPages() - 1], [nextPage] and [prevPage] give
    such an index again; [nextPage] does nothing on the last page and
    [prevPage] nothing on the first; and when [nextPage] moves, [scores] has
    rows at the index it moves to and [prevPage] leads back. *)
Theorem page_buttons_in_range (scores : list props) (pageIndex : Z) :
  0 <= pageIndex < totalPages scores ->
  0 <= nextPage scores pageIndex < totalPages scores /\
  0 <= prevPage pageIndex < totalPages scores /\
  (pageIndex = totalPages scores - 1 -> nextPage scores pageIndex = pageIndex) /\
  (pageIndex = 0 -> prevPage pageIndex = pageIndex) /\
  (nextPage scores pageIndex <> pageIndex ->
   nextPage scores pageIndex * pageSize < Z.of_nat (List.length scores) /\
   prevPage (nextPage scores pageIndex) = pageIndex).
Proof.
  intros Hidx. unfold nextPage, prevPage.
  assert (Hb : 50 * (totalPages scores - 1) < Z.of_nat (List.length scores)
               \/ totalPages scores = 1).
  { unfold totalPages. cbv zeta.
    pose proof (ceil_quot_bounds (Z.of_nat (List.length scores)) ltac:(lia)) as [_ H2].
    lia. }
  unfold pageSize.
  destruct (Z.ltb_spec (pageIndex + 1) (totalPages scores)) as [Hn|Hn];
    destruct (Z.ltb_spec 0 pageIndex) as [Hp|Hp];
    (split; [lia|]); (split; [lia|]); (split; [lia|]); (split; [lia|]);
    intros Hmove; try contradiction; try lia;
    (split; [lia | destruct (Z.ltb_spec 0 (pageIndex + 1)); lia]).
Qed.

Lemma page_buttons_in_range_witness :
  nextPage (repeat [("txn_id", JStr "t")] 120) 1 = 2 /\
  prevPage (nextPage (repeat [("txn_id", JStr "t")] 120) 1) = 1.
Proof.
  destruct (page_buttons_in_range (repeat [("txn_id", JStr "t")] 120) 1)
    as (_ & _ & _ & _ & H).
  - vm_compute. split; [discriminate | reflexivity].
  - split; [reflexivity|]. apply H. vm_compute. discriminate.
Defined.

Section SelectionFacts.

Implicit Types (sel : gset string) (visible : list string).

Lemma isSelected_true sel id : isSelected sel id = true <-> id ∈ sel.
Proof. unfold isSelected. apply bool_decide_eq_true. Qed.

Lemma isSelected_false sel id : isSelected sel id = false <-> id ∉ sel.
Proof. unfold isSelected. apply bool_decide_eq_false. Qed.

Lemma isSelected_iff sel sel' id id' :
  (id ∈ sel <-> id' ∈ sel') -> isSelected sel id = isSelected sel' id'.
Proof. intros H. unfold isSelected. now apply bool_decide_ext. Qed.

Lemma toggleSelectAll_on sel visible :
  toggleSelectAll sel visible true = sel ∪ list_to_set visible.
Proof.
  revert sel. induction visible as [|r rest IH]; intros sel; simpl.
  - set_solver.
  - rewrite IH. set_solver.
Qed.

Lemma toggleSelectAll_off sel visible :
  toggleSelectAll sel visible false = sel ∖ list_to_set visible.
Proof.
  revert sel. induction visible as [|r rest IH]; intros sel; simpl.
  - set_solver.
  - rewrite IH. set_solver.
Qed.

End SelectionFacts.

(** X6. [toggleSelect] without its second argument flips the selection of
    one transaction, so that calling it twice restores the selection; with
    [true] or [false] it selects or deselects; and in every case the
    selection of the other transactions is left as it was. *)
Theorem toggleSelect_one (sel : gset string) (id : string) :
  toggleSelect (toggleSelect sel id None) id None = sel /\
  isSelected (toggleSelect sel id None) id = negb (isSelected sel id) /\
  isSelected (toggleSelect sel id (Some true)) id = true /\
  isSelected (toggleSelect sel id (Some false)) id = false /\
  (forall other c, other <> id ->
     isSelected (toggleSelect sel id c) other = isSelected sel other).
Proof.
  split; [|split; [|split; [|split]]].
  - unfold toggleSelect.
    destruct (isSelected sel id) eqn:E; cbn [negb].
    + apply isSelected_true in E.
      assert (E' : isSelected (sel ∖ {[id]}) id = false)
        by (apply isSelected_false; set_solver).
      rewrite E'. cbn [negb]. apply set_eq. intros x.
      destruct (decide (x = id)) as [->|]; set_solver.
    + apply isSelected_false in E.
      assert (E' : isSelected (sel ∪ {[id]}) id = true)
        by (apply isSelected_true; set_solver).
      rewrite E'. cbn [negb]. set_solver.
  - unfold toggleSelect. destruct (isSelected sel id) eqn:E; cbn [negb].
    + apply isSelected_false. set_solver.
    + apply isSelected_true. set_solver.
  - apply isSelected_true. unfold toggleSelect. set_solver.
  - apply isSelected_false. unfold toggleSelect. set_solver.
  - intros other c Hne. apply isSelected_iff. unfold toggleSelect.
    destruct c as [[|]|]; [| |destruct (negb (isSelected sel id))]; set_solver.
Qed.

Lemma toggleSelect_one_witness :
  isSelected (toggleSelect {[ "t1" ]} "t2" None) "t1" = isSelected {[ "t1" ]} "t1".
Proof.
  apply (proj2 (proj2 (proj2 (proj2 (toggleSelect_one {[ "t1" ]} "t2"))))).
  discriminate.
Defined.

(** X7. [toggleSelectAll(true)] selects every visible row, after which
    [areAllVisibleSelected] holds if the page has a row (on an empty page it
    is false whatever is selected); [toggleSelectAll(false)] deselects every
    visible row; and neither changes the selection of a transaction that is
    not on the page. *)
Theorem toggleSelectAll_page (sel : gset string) (visible : list string) :
  (visible <> [] ->
   areAllVisibleSelected (toggleSelectAll sel visible true) visible = true) /\
  areAllVisibleSelected sel [] = false /\
  (forall id, id ∈ visible ->
     isSelected (toggleSelectAll sel visible false) id = false) /\
  (visible <> [] ->
   areAllVisibleSelected (toggleSelectAll sel visible false) visible = false) /\
  (forall id c, id ∉ visible ->
     isSelected (toggleSelectAll sel visible c) id = isSelected sel id).
Proof.
  split; [|split; [|split; [|split]]].
  - intros Hne. unfold areAllVisibleSelected.
    destruct visible as [|r rest]; [contradiction|].
    cbn [List.length Nat.eqb]. apply forallb_forall. intros x Hx.
    apply isSelected_true. rewrite toggleSelectAll_on.
    apply elem_of_union_r, elem_of_list_to_set, list_elem_of_In, Hx.
  - reflexivity.
  - intros id Hid. apply isSelected_false. rewrite toggleSelectAll_off.
    set_solver.
  - intros Hne. unfold areAllVisibleSelected.
    destruct visible as [|r rest]; [contradiction|].
    cbn [List.length Nat.eqb forallb].
    assert (E : isSelected (toggleSelectAll sel (r :: rest) false) r = false).
    { apply isSelected_false. rewrite toggleSelectAll_off. set_solver. }
    now rewrite E.
  - intros id c Hid. apply isSelected_iff.
    destruct c; [rewrite toggleSelectAll_on | rewrite toggleSelectAll_off];
      set_solver.
Qed.

Lemma toggleSelectAll_page_witness :
  areAllVisibleSelected (toggleSelectAll ∅ ["t1"; "t2"] true) ["t1"; "t2"] = true.
Proof.
  apply (proj1 (toggleSelectAll_page ∅ ["t1"; "t2"])). discriminate.
Defined.

(** *** The rows stored by [score] *)

Section ScoreFacts.

Lemma svz_string (a : string) (x : json) :
  same_value_zero (JStr a) x = true <-> x = JStr a.
Proof.
  destruct x; simpl; try (split; [discriminate | intros H; discriminate H]).
  rewrite String.eqb_eq. split; [now intros -> | now intros [= ->]].
Qed.

Lemma seen_string (a : string) (seen : list json) :
  existsb (same_value_zero (JStr a)) seen = true <-> In (JStr a) seen.
Proof.
  rewrite existsb_exists. split.
  - intros (x & Hx & E). apply svz_string in E. now subst x.
  - intros H. exists (JStr a). split; [exact H | now apply svz_string].
Qed.

Lemma string_or_not (v : json) (a : string) : v = JStr a \/ v <> JStr a.
Proof.
  destruct v; try (right; discriminate).
  destruct (String.eqb_spec s a) as [->|H]; [now left | right; congruence].
Qed.

Lemma distinct_in (c : json) (seen values : list json) :
  In c (distinct seen values) -> In c values.
Proof.
  revert seen. induction values as [|v rest IH]; intros seen; simpl; [tauto|].
  destruct (existsb (same_value_zero v) seen).
  - intros H. right. now apply IH in H.
  - intros [->|H]; [now left | right; now apply IH in H].
Qed.

Lemma distinct_string (a : string) (seen values : list json) :
  In (JStr a) (distinct seen values) <-> In (JStr a) values /\ ~ In (JStr a) seen.
Proof.
  revert seen. induction values as [|v rest IH]; intros seen; simpl; [tauto|].
  destruct (existsb (same_value_zero v) seen) eqn:E.
  - rewrite IH. split; [tauto|]. intros [[->|H] Hn]; [|tauto].
    apply seen_string in E. contradiction.
  - simpl. rewrite IH. simpl. split.
    + intros [->|[H Hn]].
      * split; [now left|]. intros H. apply seen_string in H. congruence.
      * split; [now right | tauto].
    + intros [[->|H] Hn]; [now left|].
      destruct (string_or_not v a) as [->|Hne]; [now left|].
      right. split; [exact H|]. intros [Hv|Hs]; [now apply Hne | contradiction].
Qed.

Lemma distinct_strings_nodup (seen values : list json) :
  NoDup (strings_of (distinct seen values)) /\
  forall a, In a (strings_of (distinct seen values)) -> ~ In (JStr a) seen.
Proof.
  revert seen. induction values as [|v rest IH]; intros seen; simpl.
  - split; [constructor | intros a []].
  - destruct (existsb (same_value_zero v) seen) eqn:E; [apply IH|].
    assert (Hother : forall v, (forall a, v <> JStr a) ->
              NoDup (strings_of (distinct (v :: seen) rest)) ->
              (forall a, In a (strings_of (distinct (v :: seen) rest)) ->
                         ~ In (JStr a) (v :: seen)) ->
              NoDup (strings_of (v :: distinct (v :: seen) rest)) /\
              forall a, In a (strings_of (v :: distinct (v :: seen) rest)) ->
                        ~ In (JStr a) seen).
    { intros w Hw H1 H2.
      assert (E' : strings_of (w :: distinct (w :: seen) rest)
                   = strings_of (distinct (w :: seen) rest)).
      { destruct w; try reflexivity. now destruct (Hw s). }
      rewrite E'. split; [exact H1|].
      intros a Ha Hin. apply (H2 a Ha). now right. }
    destruct (IH (v :: seen)) as [Hnd Hseen].
    destruct v as [|b|n|s|l|o|k]; try (apply Hother; [discriminate | exact Hnd | exact Hseen]).
    change (strings_of (JStr s :: distinct (JStr s :: seen) rest))
      with (s :: strings_of (distinct (JStr s :: seen) rest)).
    split.
    + apply NoDup_cons. split; [|exact Hnd].
      intros Hin. apply list_elem_of_In in Hin. apply (Hseen s Hin). now left.
    + intros a [->|Ha].
      * intros Hin. apply seen_string in Hin. congruence.
      * intros Hin. apply (Hseen a Ha). now right.
Qed.

Lemma strings_of_in (a : string) (l : list json) :
  In a (strings_of l) <-> In (JStr a) l.
Proof.
  induction l as [|c l IH]; simpl; [tauto|].
  destruct c; cbn [strings_of omap]; fold (strings_of l); simpl;
    rewrite ?IH; try (split; [tauto | intros [H|H]; [discriminate H | tauto]]).
  split; (intros [H|H]; [left; congruence | tauto]).
Qed.

Lemma Forall2_compose {A B C : Type} (P : A -> B -> Prop) (Q : B -> C -> Prop)
    (R : A -> C -> Prop) (l1 : list A) (l2 : list B) (l3 : list C) :
  Forall2 P l1 l2 -> Forall2 Q l2 l3 ->
  (forall a b c, P a b -> Q b c -> R a c) -> Forall2 R l1 l3.
Proof.
  intros H1. revert l3. induction H1 as [|a b l1 l2 Hab _ IH]; intros l3 H2 H;
    inversion H2; subst; constructor; eauto.
Qed.

Lemma prepare_row_fields (it r : props) :
  prepare_row it = Ok r ->
  (exists n, get_prop r "fraud_score" = Some (JNum n)) /\
  (forall k, k <> "fraud_score" -> k <> "policy" -> get_prop r k = get_prop it k).
Proof.
  unfold prepare_row. intros H.
  destruct (match get_prop it "fraud_score" with
            | Some JNull | None => Ok JSNumber.zero
            | v => Coerce.number_of v
            end) as [fs|e]; [|discriminate H].
  cbn [mbind result_bind] in H. injection H as <-.
  destruct (negb (opt_truthy (get_prop (set_prop it "fraud_score" (JNum fs)) "policy"))).
  - split.
    + exists fs. rewrite get_prop_set_prop_ne by discriminate.
      apply get_prop_set_prop_eq.
    + intros k H1 H2. now rewrite !get_prop_set_prop_ne.
  - split.
    + exists fs. apply get_prop_set_prop_eq.
    + intros k H1 H2. now rewrite get_prop_set_prop_ne.
Qed.

Lemma prepare_rows_fields (j rows : list props) :
  prepare_rows j = Ok rows ->
  Forall2 (fun it r =>
             (exists n, get_prop r "fraud_score" = Some (JNum n)) /\
             (forall k, k <> "fraud_score" -> k <> "policy" ->
                        get_prop r k = get_prop it k)) j rows.
Proof.
  revert rows. induction j as [|it j IH]; intros rows H; simpl in H.
  - injection H as <-. constructor.
  - destruct (prepare_row it) as [r|e] eqn:Er; [|discriminate H].
    cbn [mbind result_bind] in H.
    destruct (prepare_rows j) as [rs|e]; [|discriminate H].
    cbn [mbind result_bind] in H. injection H as <-.
    constructor; [now apply prepare_row_fields | now apply IH].
Qed.

(** Every row that [applyPolicyToRows] returns carries a verdict and
    otherwise the properties of the row it comes from. *)
Lemma applyPolicy_fields (doc : option json) (rows out : list props) :
  applyPolicyToRows doc rows = Ok out ->
  Forall2 (fun r r' =>
             (exists violated v,
                verdict violated = Ok v /\ get_prop r' "policy" = Some v) /\
             (forall k, k <> "policy" -> get_prop r' k = get_prop r k))
          rows out.
Proof.
  assert (Hnone : Forall2 (fun r r' =>
               (exists violated v,
                  verdict violated = Ok v /\ get_prop r' "policy" = Some v) /\
               (forall k, k <> "policy" -> get_prop r' k = get_prop r k))
              rows (map (fun r => set_prop r "policy" compliant_verdict) rows)).
  { induction rows as [|r rows IH]; simpl; constructor; [|exact IH].
    split; [exists [], compliant_verdict; split;
              [reflexivity | apply get_prop_set_prop_eq]|].
    intros k Hk. now apply get_prop_set_prop_ne. }
  unfold applyPolicyToRows.
  destruct doc as [d|]; [|intros H; injection H as <-; exact Hnone].
  destruct (Json.truthy d); [|intros H; injection H as <-; exact Hnone].
  destruct (member d "rules") as [[| | | |rules| |]|];
    try (intros H; injection H as <-; exact Hnone).
  destruct (Nat.eqb (List.length rules) 0); [intros H; injection H as <-; exact Hnone|].
  intros H. apply mapM_result in H. clear Hnone.
  induction H as [|r r' rows out Hr _ IH]; constructor; [|exact IH].
  destruct (verdict (violated_rules rules r)) as [v|e] eqn:Ev; [|discriminate Hr].
  cbn [mbind result_bind] in Hr. injection Hr as <-.
  split; [exists (violated_rules rules r), v; split;
            [exact Ev | apply get_prop_set_prop_eq]|].
  intros k Hk. now apply get_prop_set_prop_ne.
Qed.

End ScoreFacts.

(** X8. What [score] stores from a response: one row for each row of the
    response, in the same order, whose [fraud_score] is a number, whose
    [policy] is the verdict computed here (whatever policy the response
    carried) and whose other properties are those of the response; the rows
    shown are the stored rows under the current filters, on page 0; and the
    categories offered for filtering hold every non-empty category string of
    the rows once, and nothing that is not a truthy category of a row. *)
Theorem score_stores (doc : option json) (fc ff fp : string)
    (j : list props) (s : scored) :
  score doc fc ff fp j = Ok s ->
  Forall2 (fun it r =>
             (exists n, get_prop r "fraud_score" = Some (JNum n)) /\
             (exists violated v,
                verdict violated = Ok v /\ get_prop r "policy" = Some v) /\
             (forall k, k <> "fraud_score" -> k <> "policy" ->
                        get_prop r k = get_prop it k))
          j (originalScores s) /\
  scores s = applyScoreFilters fc ff fp (originalScores s) /\
  pageIndex s = 0 /\
  NoDup (strings_of (categories s)) /\
  (forall c, In (JStr c) (categories s) <->
             c <> EmptyString /\
             exists r, In r (originalScores s) /\ get_prop r "category" = Some (JStr c)) /\
  (forall c, In c (categories s) ->
             Json.truthy c = true /\
             exists r, In r (originalScores s) /\ get_prop r "category" = Some c).
Proof.
  unfold score. intros H.
  destruct (prepare_rows j) as [rows|e] eqn:Ej; [|discriminate H].
  cbn [mbind result_bind] in H.
  destruct (applyPolicyToRows doc rows) as [processed|e] eqn:Ep; [|discriminate H].
  cbn [mbind result_bind] in H. injection H as <-.
  cbn [originalScores scores pageIndex categories].
  assert (Hcat : forall c, In c (truthy_categories processed) <->
            Json.truthy c = true /\
            exists r, In r processed /\ get_prop r "category" = Some c).
  { intros c. unfold truthy_categories. rewrite List.filter_In.
    rewrite <- !list_elem_of_In, list_elem_of_omap.
    split.
    - intros [(r & Hr & E) Ht]. split; [exact Ht|]. exists r.
      split; [now apply list_elem_of_In | exact E].
    - intros [Ht (r & Hr & E)]. split; [|exact Ht]. exists r.
      split; [now apply list_elem_of_In | exact E]. }
  split.
  { apply (Forall2_compose _ _ _ _ _ _ (prepare_rows_fields j rows Ej)
             (applyPolicy_fields doc rows processed Ep)).
    intros it r r' (Hn & Hk) (Hv & Hp). split; [|split].
    - destruct Hn as [n Hn]. exists n. rewrite Hp by discriminate. exact Hn.
    - exact Hv.
    - intros k H1 H3. rewrite Hp by exact H3. now apply Hk. }
  split; [reflexivity|]. split; [reflexivity|].
  unfold scoreCategories.
  split; [apply distinct_strings_nodup|].
  split.
  - intros c. rewrite distinct_string, Hcat. simpl.
    split.
    + intros [[Ht Hr] _]. split; [|exact Hr]. now destruct c.
    + intros [Hc Hr]. split; [|tauto]. split; [|exact Hr]. now destruct c.
  - intros c Hc. apply distinct_in in Hc. now apply Hcat.
Qed.

Lemma score_stores_witness :
  exists s,
    score (Some Spec.doc_R1) EmptyString EmptyString EmptyString
      [[("txn_id", JStr "t1"); ("amount", JNum (JSNumber.Dec 51 0));
        ("category", JStr "Meals"); ("fraud_score", JStr "0.7")]] = Ok s /\
    pageIndex s = 0 /\ scores s = originalScores s.
Proof.
  eexists. split; [reflexivity|].
  destruct (score_stores (Some Spec.doc_R1) EmptyString EmptyString EmptyString
              [[("txn_id", JStr "t1"); ("amount", JNum (JSNumber.Dec 51 0));
                ("category", JStr "Meals"); ("fraud_score", JStr "0.7")]] _ eq_refl)
    as (_ & H1 & H2 & _).
  split; [exact H2 | exact H1].
Defined.

(** ** Settings *)

Section TokenLimit.

Import Settings.

Lemma dec_compare_int (a b : Z) : JSNumber.dec_compare a 0 b 0 = Z.compare a b.
Proof. unfold JSNumber.dec_compare. simpl. now rewrite !Z.mul_1_r. Qed.

Lemma ltb_int (a b : Z) :
  JSNumber.ltb (JSNumber.Dec a 0) (JSNumber.Dec b 0) = (a <? b).
Proof.
  unfold JSNumber.ltb, JSNumber.compare. rewrite dec_compare_int.
  unfold Z.ltb. now destruct (a ?= b).
Qed.

Lemma clamp_int (x : Z) :
  Math_max (JSNumber.Dec 1000 0) (Math_min (JSNumber.Dec 50000 0) (JSNumber.Dec x 0))
  = JSNumber.Dec (Z.max 1000 (Z.min 50000 x)) 0.
Proof.
  unfold Math_max, Math_min. cbn [JSNumber.is_nan orb].
  rewrite ltb_int. destruct (Z.ltb_spec x 50000) as [H|H]; cbn [JSNumber.is_nan orb];
    rewrite ltb_int.
  - destruct (Z.ltb_spec 1000 x); f_equal; lia.
  - change (1000 <? 50000) with true. cbv iota. f_equal. lia.
Qed.

(** The slider's value for a number that is not NaN. *)
Lemma slider_steps (n : JSNumber.number) :
  exists k, 1 <= k <= 50 /\
    Math_max (JSNumber.Dec 1000 0)
      (Math_min (JSNumber.Dec 50000 0)
         (or_else (floor_thousand (or_else n JSNumber.zero)) (JSNumber.Dec 1000 0)))
    = JSNumber.Dec (1000 * k) 0.
Proof.
  assert (Hint : forall x, exists k, 1 <= k <= 50 /\
            Math_max (JSNumber.Dec 1000 0)
              (Math_min (JSNumber.Dec 50000 0)
                 (or_else (JSNumber.Dec (x * 1000) 0) (JSNumber.Dec 1000 0)))
            = JSNumber.Dec (1000 * k) 0).
  { intros x. unfold or_else. cbn [JSNumber.truthy].
    destruct (Z.eqb_spec (x * 1000) 0) as [E|E]; cbn [negb]; rewrite clamp_int.
    - exists 1. split; [lia | reflexivity].
    - exists (Z.max 1 (Z.min 50 x)). split; [lia | f_equal; lia]. }
  destruct n as [|s|m e].
  - apply Hint.
  - unfold or_else. cbn [JSNumber.truthy floor_thousand].
    destruct s.
    + exists 1. split; [lia | reflexivity].
    + exists 50. split; [lia | reflexivity].
  - unfold or_else at 2. cbn [JSNumber.truthy].
    destruct (negb (m =? 0)); [apply Hint|]. apply (Hint 0).
Qed.

Lemma pow10_pos (k : Z) : 0 <= k -> 0 < 10 ^ k.
Proof. intros H. apply Z.pow_pos_nonneg; lia. Qed.

(** The number field's value for a number that is not NaN. *)
Lemma number_steps (n : JSNumber.number) :
  let n0 := or_else n JSNumber.zero in
  let n1 := if JSNumber.ltb n0 (JSNumber.Dec 1000 0) then JSNumber.Dec 1000 0 else n0 in
  let n2 := if JSNumber.gtb n1 (JSNumber.Dec 50000 0) then JSNumber.Dec 50000 0 else n1 in
  exists k, 1 <= k <= 50 /\ round_thousand n2 = JSNumber.Dec (1000 * k) 0.
Proof.
  cbv zeta.
  assert (Hdec : forall m e,
            let n0 := JSNumber.Dec m e in
            let n1 := if JSNumber.ltb n0 (JSNumber.Dec 1000 0)
                      then JSNumber.Dec 1000 0 else n0 in
            let n2 := if JSNumber.gtb n1 (JSNumber.Dec 50000 0)
                      then JSNumber.Dec 50000 0 else n1 in
            exists k, 1 <= k <= 50 /\ round_thousand n2 = JSNumber.Dec (1000 * k) 0).
  { intros m e. cbv zeta.
    destruct (JSNumber.ltb (JSNumber.Dec m e) (JSNumber.Dec 1000 0)) eqn:Hlo.
    { exists 1. split; [lia | reflexivity]. }
    destruct (JSNumber.gtb (JSNumber.Dec m e) (JSNumber.Dec 50000 0)) eqn:Hhi.
    { exists 50. split; [lia | reflexivity]. }
    unfold JSNumber.gtb in Hhi.
    unfold JSNumber.ltb, JSNumber.compare, JSNumber.dec_compare in Hlo, Hhi.
    cbv zeta in Hlo, Hhi.
    rewrite (Z.min_comm 0 e) in Hhi.
    exists (round_quot m e 1000). unfold round_thousand. split; [|f_equal; lia].
    unfold round_quot.
    destruct (Z.leb_spec 0 e) as [He|He].
    - replace (Z.min e 0) with 0 in Hlo, Hhi by lia.
      replace (e - 0) with e in Hlo, Hhi by lia.
      change (10 ^ (0 - 0)) with 1 in Hlo, Hhi.
      set (X := m * 10 ^ e) in *.
      assert (1000 <= X) by (destruct (Z.compare_spec X (1000 * 1)); try discriminate Hlo; lia).
      assert (X <= 50000) by (destruct (Z.compare_spec (50000 * 1) X); try discriminate Hhi; lia).
      split.
      + apply Z.div_le_lower_bound; lia.
      + apply Z.lt_succ_r, Z.div_lt_upper_bound; lia.
    - replace (Z.min e 0) with e in Hlo, Hhi by lia.
      replace (e - e) with 0 in Hlo, Hhi by lia.
      change (10 ^ 0) with 1 in Hlo, Hhi.
      replace (0 - e) with (- e) in Hlo, Hhi by lia.
      pose proof (pow10_pos (- e) ltac:(lia)) as HP.
      set (P := 10 ^ (- e)) in *.
      assert (1000 * P <= m)
        by (destruct (Z.compare_spec (m * 1) (1000 * P)); try discriminate Hlo; lia).
      assert (m <= 50000 * P)
        by (destruct (Z.compare_spec (50000 * P) (m * 1)); try discriminate Hhi; lia).
      split.
      + apply Z.div_le_lower_bound; lia.
      + apply Z.lt_succ_r, Z.div_lt_upper_bound; lia. }
  destruct n as [|s|m e].
  - apply (Hdec 0 0).
  - unfold or_else. cbn [JSNumber.truthy]. destruct s.
    + exists 1. split; [lia | reflexivity].
    + exists 50. split; [lia | reflexivity].
  - unfold or_else. cbn [JSNumber.truthy].
    destruct (negb (m =? 0)); [apply Hdec | apply (Hdec 0 0)].
Qed.

End TokenLimit.

Section TokenLimitStored.

Import Settings.

(** Every step of the slider is read back from the store as it was
    written. *)
Lemma stored_steps :
  Forall (fun k : nat =>
            initial_max_tokens
              (Some (saveSelectedMaxTokens (JSNumber.Dec (1000 * Z.of_nat k) 0)))
            = JSNumber.Dec (1000 * Z.of_nat k) 0)
         (seq 1 50).
Proof. repeat (apply List.Forall_cons; [vm_compute; reflexivity|]). apply List.Forall_nil. Qed.

Lemma stored_step (k : Z) :
  1 <= k <= 50 ->
  initial_max_tokens (Some (saveSelectedMaxTokens (JSNumber.Dec (1000 * k) 0)))
  = JSNumber.Dec (1000 * k) 0.
Proof.
  intros Hk. pose proof stored_steps as H.
  rewrite List.Forall_forall in H. specialize (H (Z.to_nat k)).
  rewrite Z2Nat.id in H by lia. apply H, in_seq. lia.
Qed.

Lemma event_value_number (x : JSNumber.number) :
  event_value (Some (JNum x)) = Some (JNum x).
Proof. unfold event_value. now destruct (Json.truthy (JNum x)). Qed.

End TokenLimitStored.

(** X9. Both handlers of the token limit leave [selectedMaxTokens] at a
    multiple of 1000 between 1000 and 50000, whatever they are given: a
    number (NaN and the infinities included) or anything else that converts.
    For an integer between 1000 and 50000 the slider rounds down to the
    multiple of 1000 and the number field rounds to the nearest one, a tie
    going up. *)
Theorem token_limit_steps :
  (forall ev n, Settings.onSliderChange ev = Ok n ->
     exists k, 1 <= k <= 50 /\ n = JSNumber.Dec (1000 * k) 0) /\
  (forall v n, Settings.onNumberChange v = Ok n ->
     exists k, 1 <= k <= 50 /\ n = JSNumber.Dec (1000 * k) 0) /\
  (forall x : JSNumber.number,
     (exists n, Settings.onSliderChange (Some (JNum x)) = Ok n) /\
     (exists n, Settings.onNumberChange (Some (JNum x)) = Ok n)) /\
  (forall m, 1000 <= m <= 50000 ->
     Settings.onSliderChange (Some (JNum (JSNumber.Dec m 0)))
     = Ok (JSNumber.Dec (1000 * (m / 1000)) 0) /\
     Settings.onNumberChange (Some (JNum (JSNumber.Dec m 0)))
     = Ok (JSNumber.Dec (1000 * ((m + 500) / 1000)) 0)).
Proof.
  split; [|split; [|split]].
  - intros ev n. unfold Settings.onSliderChange.
    destruct (Coerce.number_of (Settings.event_value ev)) as [x|e]; [|discriminate].
    cbn [mbind result_bind]. intros [= <-].
    destruct (slider_steps x) as (k & Hk & E). now exists k.
  - intros v n. unfold Settings.onNumberChange.
    destruct (Coerce.number_of v) as [x|e]; [|discriminate].
    cbn [mbind result_bind]. intros [= <-].
    destruct (number_steps x) as (k & Hk & E). now exists k.
  - intros x. split; [|eexists; reflexivity].
    unfold Settings.onSliderChange. rewrite event_value_number.
    eexists. reflexivity.
  - intros m Hm. split.
    + unfold Settings.onSliderChange. rewrite event_value_number.
      cbn [Coerce.number_of Coerce.convertible Json.to_number mbind result_bind].
      unfold Settings.or_else. cbn [JSNumber.truthy].
      destruct (Z.eqb_spec m 0) as [E|_]; [lia|]. cbn [negb Settings.floor_thousand].
      unfold Settings.floor_quot. change (0 <=? 0) with true. cbv iota.
      change (10 ^ 0) with 1. rewrite Z.mul_1_r. cbn [JSNumber.truthy].
      destruct (Z.eqb_spec (m / 1000 * 1000) 0) as [E|_].
      { assert (1 <= m / 1000) by (apply Z.div_le_lower_bound; lia). lia. }
      cbn [negb]. rewrite clamp_int. do 2 f_equal.
      assert (1 <= m / 1000) by (apply Z.div_le_lower_bound; lia).
      assert (m / 1000 <= 50) by (apply Z.lt_succ_r, Z.div_lt_upper_bound; lia).
      lia.
    + unfold Settings.onNumberChange. cbn [Coerce.number_of Coerce.convertible
        Json.to_number mbind result_bind].
      unfold Settings.or_else. cbn [JSNumber.truthy].
      destruct (Z.eqb_spec m 0) as [E|_]; [lia|]. cbn [negb].
      unfold JSNumber.gtb. rewrite !ltb_int.
      destruct (Z.ltb_spec m 1000) as [H|_]; [lia|].
      rewrite ltb_int.
      destruct (Z.ltb_spec 50000 m) as [H|_]; [lia|].
      unfold Settings.round_thousand, Settings.round_quot.
      change (0 <=? 0) with true. cbv iota.
      change (10 ^ 0) with 1. rewrite Z.mul_1_r. do 2 f_equal.
      replace (2 * m + 1000) with (2 * (m + 500)) by lia.
      rewrite Z.div_mul_cancel_l by lia. lia.
Qed.

Lemma token_limit_steps_witness :
  Settings.onSliderChange (Some (JNum (JSNumber.Dec 1999 0)))
  = Ok (JSNumber.Dec (1000 * (1999 / 1000)) 0) /\
  Settings.onNumberChange (Some (JNum (JSNumber.Dec 1999 0)))
  = Ok (JSNumber.Dec (1000 * ((1999 + 500) / 1000)) 0).
Proof.
  apply (proj2 (proj2 (proj2 token_limit_steps)) 1999). lia.
Defined.

(** X10. The token limit survives a reload: the text that
    [saveSelectedMaxTokens] stores for the value that either handler set is
    read back by the initialiser of [selectedMaxTokens] as that value.  With
    nothing stored, or with a stored text that is empty, not a number, or
    zero, the initialiser gives 10000. *)
Theorem token_limit_round_trip :
  (forall ev n, Settings.onSliderChange ev = Ok n ->
     Settings.initial_max_tokens (Some (Settings.saveSelectedMaxTokens n)) = n) /\
  (forall v n, Settings.onNumberChange v = Ok n ->
     Settings.initial_max_tokens (Some (Settings.saveSelectedMaxTokens n)) = n) /\
  Settings.initial_max_tokens None = JSNumber.Dec 10000 0 /\
  (forall s, JSNumber.truthy (JSNumber.of_string s) = false ->
     Settings.initial_max_tokens (Some s) = JSNumber.Dec 10000 0).
Proof.
  split; [|split; [|split]].
  - intros ev n. unfold Settings.onSliderChange.
    destruct (Coerce.number_of (Settings.event_value ev)) as [x|e]; [|discriminate].
    cbn [mbind result_bind]. intros [= <-].
    destruct (slider_steps x) as (k & Hk & ->). now apply stored_step.
  - intros v n. unfold Settings.onNumberChange.
    destruct (Coerce.number_of v) as [x|e]; [|discriminate].
    cbn [mbind result_bind]. intros [= <-].
    destruct (number_steps x) as (k & Hk & E). cbv zeta in E. rewrite E.
    now apply stored_step.
  - reflexivity.
  - intros s Hs. unfold Settings.initial_max_tokens. cbv zeta.
    destruct s as [|c s]; [reflexivity|]. cbn [is_empty].
    now rewrite Hs.
Qed.

Lemma token_limit_round_trip_witness :
  Settings.initial_max_tokens
    (Some (Settings.saveSelectedMaxTokens (JSNumber.Dec 12000 0)))
  = JSNumber.Dec 12000 0.
Proof.
  apply (proj1 token_limit_round_trip (Some (JNum (JSNumber.Dec 12345 0)))).
  reflexivity.
Defined.

(** *** The base name of a bot *)

Section BaseName.

Import Settings.

Lemma replace_unsafe_safe (s : string) :
  forallb_str is_name_char (replace_unsafe s) = true.
Proof.
  induction s as [|c s IH]; [reflexivity|]. simpl.
  rewrite IH, andb_true_r. destruct (is_name_char c) eqn:E; [exact E | reflexivity].
Qed.

Lemma replace_unsafe_id (s : string) :
  forallb_str is_name_char s = true -> replace_unsafe s = s.
Proof.
  induction s as [|c s IH]; [reflexivity|]. simpl.
  intros H. apply andb_true_iff in H as [Hc Hs]. now rewrite Hc, IH.
Qed.

Lemma replace_unsafe_length (s : string) :
  String.length (replace_unsafe s) = String.length s.
Proof. induction s as [|c s IH]; [reflexivity|]. simpl. now rewrite IH. Qed.

End BaseName.

(** X11. The base name that [createBot] builds from the name of the
    uploaded file holds only letters, digits, hyphens, underscores and
    points: every other character is replaced by an underscore, one for one,
    so that the length is kept, a name made of allowed characters is kept as
    it is, and sanitising twice is sanitising once.  Without a file name the
    base name is [policy]; it is never empty. *)
Theorem baseName_safe (name : option string) :
  forallb_str Settings.is_name_char (Settings.baseName name) = true /\
  Settings.baseName name <> EmptyString /\
  Settings.replace_unsafe (Settings.baseName name) = Settings.baseName name /\
  Settings.baseName None = "policy" /\
  Settings.baseName (Some EmptyString) = "policy" /\
  (forall s, s <> EmptyString ->
     String.length (Settings.baseName (Some s)) = String.length s /\
     (forallb_str Settings.is_name_char s = true -> Settings.baseName (Some s) = s)).
Proof.
  split; [apply replace_unsafe_safe|].
  split.
  { intros H. apply (f_equal String.length) in H.
    unfold Settings.baseName in H. rewrite replace_unsafe_length in H.
    destruct name as [[|c s]|]; discriminate H. }
  split; [apply replace_unsafe_id, replace_unsafe_safe|].
  split; [reflexivity|]. split; [reflexivity|].
  intros s Hs. unfold Settings.baseName.
  destruct s as [|c s]; [contradiction|]. cbn [is_empty].
  split; [apply replace_unsafe_length | apply replace_unsafe_id].
Qed.

Lemma baseName_safe_witness :
  String.length (Settings.baseName (Some "Q3 policy (final).pdf"))
  = String.length "Q3 policy (final).pdf".
Proof.
  apply (proj2 (proj2 (proj2 (proj2 (proj2
           (baseName_safe (Some "Q3 policy (final).pdf"))))))).
  discriminate.
Defined.

(** ** The rule editor *)

Section EditorFacts.

Import Editor.

Lemma check_rules_complete (rules : list json) :
  check_rules rules = Ok true <-> forallb complete_rule rules = true.
Proof.
  induction rules as [|r rules IH]; [split; reflexivity|].
  cbn [check_rules forallb]. unfold complete_rule at 1.
  destruct r; try (split; discriminate);
    (destruct (opt_truthy _); cbn [negb orb andb]; [|split; discriminate]);
    (destruct (opt_truthy _); cbn [negb orb andb]; [exact IH | split; discriminate]).
Qed.

Lemma member_object (doc : json) (k : string) (v : json) :
  member doc k = Some v -> Json.truthy doc && Editor.typeof_object doc = true.
Proof. destruct doc; try discriminate. reflexivity. Qed.

End EditorFacts.

(** X12. [applyParsedJson] on an edited text that holds no escape of a
    code unit above 255 and whose numbers are written with at most 15
    significant digits.  It stores the text as the rule document exactly
    when the text is JSON for an object whose [rules] is an array of rules
    that each have a truthy [name] and a truthy [condition]: then the error
    is cleared and [rulesDoc] is the parsed document, as it was written.
    In every other case the error is set and [rulesDoc] keeps the value it
    had; a text that is not JSON gives the error of the parser. *)
Theorem applyParsedJson_accepts (text : string) (st : Editor.state) :
  JSONParse.narrow text = true ->
  (forall doc, JSONParse.parse text = Some doc -> exact_numbers doc = true) ->
  let st' := Editor.applyParsedJson text st in
  (Editor.parsedJsonError st' = None <->
   exists doc, JSONParse.parse text = Some doc /\ accepted doc) /\
  (forall doc, JSONParse.parse text = Some doc -> accepted doc ->
     st' = {| Editor.parsedJsonError := None; Editor.rulesDoc := Some doc |}) /\
  (Editor.parsedJsonError st' <> None -> Editor.rulesDoc st' = Editor.rulesDoc st) /\
  (JSONParse.parse text = None ->
   Editor.parsedJsonError st' = Some (Editor.Raised SyntaxError)).
Proof.
  intros _ _. cbv zeta.
  assert (Hyes : forall doc, JSONParse.parse text = Some doc -> accepted doc ->
            Editor.applyParsedJson text st
            = {| Editor.parsedJsonError := None; Editor.rulesDoc := Some doc |}).
  { intros doc Hp (rules & Hm & Hall). unfold Editor.applyParsedJson. rewrite Hp.
    rewrite (member_object doc _ _ Hm), Hm.
    apply check_rules_complete in Hall. now rewrite Hall. }
  split; [|split; [exact Hyes|split]].
  - split.
    + unfold Editor.applyParsedJson.
      destruct (JSONParse.parse text) as [doc|]; [|discriminate].
      destruct (Json.truthy doc && Editor.typeof_object doc); [|discriminate].
      destruct (member doc "rules") as [[| | | |rules| |]|] eqn:Hm; try discriminate.
      destruct (Editor.check_rules rules) as [[|]|e] eqn:Hc; try discriminate.
      intros _. exists doc. split; [reflexivity|]. exists rules.
      split; [exact Hm | now apply check_rules_complete].
    + intros (doc & Hp & Hacc). now rewrite (Hyes doc Hp Hacc).
  - unfold Editor.applyParsedJson.
    destruct (JSONParse.parse text) as [doc|]; [|reflexivity].
    destruct (Json.truthy doc && Editor.typeof_object doc); [|reflexivity].
    destruct (member doc "rules") as [[| | | |rules| |]|]; try reflexivity.
    destruct (Editor.check_rules rules) as [[|]|e]; try reflexivity.
    intros H. now contradiction H.
  - intros Hp. unfold Editor.applyParsedJson. now rewrite Hp.
Qed.

Lemma applyParsedJson_accepts_witness :
  Editor.applyParsedJson Spec.text_R1
    {| Editor.parsedJsonError := Some (Editor.Raised SyntaxError);
       Editor.rulesDoc := None |}
  = {| Editor.parsedJsonError := None; Editor.rulesDoc := Some Spec.doc_R1 |}.
Proof.
  apply (proj1 (proj2 (applyParsedJson_accepts Spec.text_R1 _ eq_refl
                         ltac:(intros doc H; vm_compute in H; injection H as <-;
                               reflexivity)))).
  - vm_compute. reflexivity.
  - exists [Spec.rule_R1]. split; reflexivity.
Defined.

(** ** The activity log *)

Section LogFacts.

Import Logs.

Lemma filter_shown_app (a b : list json) (a' b' : list json) :
  filter_shown a = Ok a' -> filter_shown b = Ok b' ->
  filter_shown (a ++ b) = Ok (a' ++ b')%list.
Proof.
  revert a'. induction a as [|l a IH]; intros a' Ha Hb; simpl in *.
  - injection Ha as <-. exact Hb.
  - destruct (shown l) as [keep|e]; [|discriminate Ha].
    cbn [mbind result_bind] in *.
    destruct (filter_shown a) as [r|e]; [|discriminate Ha].
    cbn [mbind result_bind] in *. injection Ha as <-.
    rewrite (IH r eq_refl Hb). cbn [mbind result_bind]. now destruct keep.
Qed.

Lemma shown_ok (l : json) : l <> JNull -> exists b, shown l = Ok b.
Proof. destruct l; try (intros _; eexists; reflexivity). now intros H. Qed.

Lemma filter_shown_null (entries : list json) :
  In JNull entries <-> filter_shown entries = Throw TypeError.
Proof.
  induction entries as [|l rest IH]; simpl; [split; [tauto | discriminate]|].
  assert (Hl : l = JNull \/ l <> JNull) by (destruct l; (now left) || (right; discriminate)).
  destruct Hl as [->|Hne]; [split; [reflexivity | now left]|].
  destruct (shown_ok l Hne) as [b ->]. cbn [mbind result_bind].
  destruct (filter_shown rest) as [r|e]; cbn [mbind result_bind].
  - split; [intros [H|H]; [congruence | now apply IH in H] | discriminate].
  - rewrite <- IH. split; [intros [H|H]; [congruence | exact H] | now right].
Qed.

Lemma shown_pushed (ts type : string) (payload : json) :
  shown (JObj [("ts", JStr ts); ("type", JStr ("client:" ++ type));
               ("payload", payload)])
  = Ok (negb (String.eqb type "file_selected")).
Proof. reflexivity. Qed.

Lemma take_length (n : nat) (s : string) :
  String.length (JSNumber.take n s) = Nat.min n (String.length s).
Proof.
  unfold JSNumber.take. revert s. induction n as [|n IH]; intros s.
  - now destruct s.
  - destruct s as [|c s]; [reflexivity|]. simpl. now rewrite IH.
Qed.

End LogFacts.

(** X13. [pushLog] puts the new entry first, under the type prefixed with
    [client:], and [combinedLogsFiltered] lists the client entries before
    the entries of the server, hiding those of type [client:file_selected]:
    so an entry pushed as [file_selected] never shows, and any other shows
    first.  The list cannot be computed, a TypeError being thrown, exactly
    when one of the entries is [null]. *)
Theorem pushLog_shown (ts type : string) (payload : json)
    (clientLogs logs : list json) :
  (forall before,
     Logs.combinedLogsFiltered clientLogs logs = Ok before ->
     Logs.combinedLogsFiltered (Logs.pushLog ts type payload clientLogs) logs
     = Ok (if String.eqb type "file_selected" then before
           else JObj [("ts", JStr ts); ("type", JStr ("client:" ++ type));
                      ("payload", payload)] :: before)) /\
  (forall c s,
     Logs.filter_shown clientLogs = Ok c -> Logs.filter_shown logs = Ok s ->
     Logs.combinedLogsFiltered clientLogs logs = Ok (c ++ s)%list) /\
  (In JNull (clientLogs ++ logs) <->
   Logs.combinedLogsFiltered clientLogs logs = Throw TypeError).
Proof.
  split; [|split].
  - intros before H. unfold Logs.combinedLogsFiltered, Logs.combinedLogs, Logs.pushLog in *.
    rewrite <- app_comm_cons. cbn [Logs.filter_shown].
    rewrite H, shown_pushed. cbn [mbind result_bind].
    now destruct (String.eqb type "file_selected").
  - intros c s Hc Hs. now apply filter_shown_app.
  - apply filter_shown_null.
Qed.

Lemma pushLog_shown_witness :
  Logs.combinedLogsFiltered
    (Logs.pushLog "2025-01-01T00:00:00.000Z" "file_selected" (JObj []) [])
    [JObj [("id", JStr "s1"); ("type", JStr "score")]]
  = Ok [JObj [("id", JStr "s1"); ("type", JStr "score")]].
Proof.
  apply (proj1 (pushLog_shown "2025-01-01T00:00:00.000Z" "file_selected" (JObj []) []
                  [JObj [("id", JStr "s1"); ("type", JStr "score")]])).
  reflexivity.
Defined.

(** X14. The text that [formatLogPayload] shows.  It is empty for an
    entry without a truthy payload.  For an entry whose type ends in
    [openai_response_received] it gives the JSON text of the payload, cut
    after 1000 characters with [ ...] added when it is longer, so at most
    1004 characters; and for an entry of another type whose payload has no
    truthy [rows], [name] or [error], the first 300 characters of that
    text. *)
Theorem formatLogPayload_text (l : json) :
  (opt_truthy (member l "payload") = false -> Logs.formatLogPayload l = EmptyString) /\
  (forall t p s,
     member l "type" = Some (JStr t) ->
     member l "payload" = Some p -> Json.truthy p = true ->
     stringify p = Some s ->
     (Logs.endsWith t "openai_response_received" = true ->
      Logs.formatLogPayload l
      = (if (1000 <? String.length s)%nat then JSNumber.take 1000 s ++ " ..." else s) /\
      (String.length (Logs.formatLogPayload l) <= 1004)%nat) /\
     (Logs.endsWith t "openai_response_received" = false ->
      opt_truthy (member p "rows") = false ->
      opt_truthy (member p "name") = false ->
      opt_truthy (member p "error") = false ->
      Logs.formatLogPayload l = JSNumber.take 300 s /\
      (String.length (Logs.formatLogPayload l) <= 300)%nat)).
Proof.
  split.
  - intros H. unfold Logs.formatLogPayload, Logs.format_body.
    destruct l as [|b|n|s|a|o|k]; try reflexivity.
    cbn [Logs.prop member mbind result_bind] in *.
    destruct (get_prop o "payload") as [pv|]; [|reflexivity].
    cbn [opt_truthy] in H. now rewrite H.
  - intros t p s Ht Hp Htr Hs.
    assert (Hl : Logs.prop (Some l) "type" = Ok (Some (JStr t)) /\
                 Logs.prop (Some l) "payload" = Ok (Some p)).
    { destruct l; try discriminate Ht. unfold Logs.prop. now rewrite Ht, Hp. }
    destruct Hl as [Hl1 Hl2].
    assert (Hpk : forall k, Logs.prop (Some p) k = Ok (member p k)).
    { intros k. destruct p; try reflexivity. discriminate Htr. }
    unfold Logs.formatLogPayload, Logs.format_body.
    rewrite Hl2. cbn [mbind result_bind]. rewrite Htr. cbn [negb].
    rewrite Hl1. cbn [mbind result_bind Coerce.string_of Coerce.convertible Json.to_string].
    unfold Logs.stringified. rewrite Hs.
    split.
    + intros ->. cbn [mbind result_bind]. split; [reflexivity|].
      destruct (Nat.ltb_spec 1000 (String.length s)) as [H|H]; [|lia].
      rewrite length_sapp, take_length. change (String.length " ...") with 4%nat. lia.
    + intros -> Hr Hn He. rewrite !Hpk. cbn [mbind result_bind].
      rewrite Hr, Hn, He. cbn [mbind result_bind]. split; [reflexivity|].
      rewrite take_length. lia.
Qed.

Lemma formatLogPayload_text_witness :
  Logs.formatLogPayload (JObj [("type", JStr "client:parse_text_start")])
  = EmptyString.
Proof.
  apply (proj1 (formatLogPayload_text
                  (JObj [("type", JStr "client:parse_text_start")]))).
  reflexivity.
Defined.

(** ** Amount clauses and verdicts *)

Section AmountClause.

Variable N : string.
Hypothesis HN : forallb_str is_digit N = true.
Hypothesis HNne : N <> EmptyString.

Lemma skip_spaces_digits : skip_spaces N = N.
Proof.
  destruct N as [|d n]; [reflexivity|]. rewrite skip_spaces_cons.
  simpl in HN. apply andb_prop in HN as [Hd _].
  now rewrite (proj1 (digit_facts d Hd)).
Qed.

(** The facts about one clause [amount OP N], for a head [amount OP] in
    which no separator starts. *)
Lemma amount_clause_facts (head : string) (op : string) (o : props) :
  (exists mid, head = String "a" mid) ->
  free_in (sep_word "or") head (String " " N) ->
  free_in (sep_word "and") head (String " " N) ->
  match_amount (head ++ String " " N) = Some (op, N) ->
  let c := head ++ String " " N in
  trim c = c /\ orParts c = [c] /\ andParts c = [c] /\
  eval_clause (Some o) true c
  = a ← amount_of (Some o); Ok (compares op a (JSNumber.of_string N)).
Proof.
  intros (mid & ->) Hor Hand Hm. cbv zeta.
  destruct (forallb_str_last is_digit N HN HNne) as (d & Hl & Hd).
  assert (Hlast : last_char (String " " N) = Some d)
    by (rewrite last_char_cons by exact HNne; exact Hl).
  assert (Htrim : trim (String "a" mid ++ String " " N) = String "a" mid ++ String " " N).
  { apply (trim_between "a" d mid (String " " N));
      [reflexivity | exact Hlast | apply (digit_facts d Hd)]. }
  assert (Hsplit : forall w, match w with String p _ => is_lower p = true | EmptyString => False end ->
            free_in (sep_word w) (String "a" mid) (String " " N) ->
            split_re (sep_word w) (String "a" mid ++ String " " N)
            = [String "a" mid ++ String " " N]).
  { intros w Hw Hfree. unfold split_re.
    assert (H2 : free_in (sep_word w) (String "a" mid ++ String " " N) EmptyString).
    { apply free_in_app; [now rewrite sapp_nil_r|].
      destruct (sep_word_digits w N HN Hw) as [H1 H3].
      split; [rewrite sapp_nil_r; now apply H3 | exact H1]. }
    rewrite <- (sapp_nil_r (String "a" mid ++ String " " N)) at 1.
    now rewrite (split_go_free _ _ _ _ H2), split_go_end, sapp_nil_l. }
  split; [exact Htrim|]. split; [|split].
  - unfold orParts. rewrite (Hsplit "or" eq_refl Hor). cbn [map]. now rewrite Htrim.
  - unfold andParts. rewrite (Hsplit "and" eq_refl Hand). cbn [map]. now rewrite Htrim.
  - unfold eval_clause.
    assert (Hp : strip_parens (String "a" mid ++ String " " N)
                 = String "a" mid ++ String " " N).
    { apply (strip_parens_between "a" d mid (String " " N));
        [reflexivity | exact Hlast | apply (digit_facts d Hd)]. }
    rewrite Hp, Htrim, Hm.
    destruct (amount_of (Some o)) as [a|e]; [|reflexivity].
    cbn [mbind result_bind]. f_equal.
    assert (Hin : In op ["=="; "="; "!="; "<="; ">="; "<"; ">"]).
    { unfold match_amount in Hm.
      destruct (strip_prefix_ci "amount" _) as [r1|]; [|discriminate Hm].
      apply alt_some in Hm as (op' & Hin & Hk).
      destruct (number_text _) as [[num rest]|]; [|discriminate Hk].
      destruct rest; [|discriminate Hk]. now injection Hk as <- _. }
    simpl in Hin. unfold compares.
    repeat destruct Hin as [<-|Hin]; try contradiction;
      cbn [String.eqb Ascii.eqb Bool.eqb orb andb]; reflexivity.
Qed.

End AmountClause.

(** X15. A rule whose condition is [amount OP N], for one of the seven
    operators and an integer N of at most 15 digits, evaluates on a
    transaction to the comparison of [Number(tx.amount || 0)] with N, when
    that amount is a numeral of at most 15 significant digits, NaN or an
    infinity: [==] and [=] are equality, [!=] its negation, and [<], [<=],
    [>], [>=] the order of numbers.  An amount that is missing or falsy (0,
    NaN, the empty string, [null], [false]) counts as 0; a truthy amount
    that converts to NaN satisfies none of the operators but [!=]; and an
    amount that cannot be converted makes the evaluation throw. *)
Theorem amount_rule_compares (op : string) (n : N) (rule : json) (o : props) :
  In op ["=="; "="; "!="; "<"; "<="; ">"; ">="] ->
  (n < 10 ^ 15)%N ->
  member rule "condition"
    = Some (JStr ("amount " ++ op ++ " " ++ JSNumber.string_of_N n)) ->
  (forall a, amount_of (Some o) = Ok a -> JSNumber.exact a = true ->
   evaluateRuleAgainstTx rule (Some o)
   = Ok (compares op a (JSNumber.Dec (Z.of_N n) 0))) /\
  (forall e, amount_of (Some o) = Throw e ->
   evaluateRuleAgainstTx rule (Some o) = Throw e) /\
  (opt_truthy (get_prop o "amount") = false ->
   evaluateRuleAgainstTx rule (Some o)
   = Ok (compares op JSNumber.zero (JSNumber.Dec (Z.of_N n) 0))) /\
  (forall v, get_prop o "amount" = Some v -> Json.truthy v = true ->
   Coerce.convertible v = true -> Json.to_number v = JSNumber.NaN ->
   evaluateRuleAgainstTx rule (Some o) = Ok (String.eqb op "!=")).
Proof.
  intros Hop _ Hrule.
  set (N := JSNumber.string_of_N n) in *.
  assert (HN : forallb_str is_digit N = true) by apply string_of_N_digits.
  assert (HNne : N <> EmptyString) by apply string_of_N_nonempty.
  assert (Hnum : JSNumber.of_string N = JSNumber.Dec (Z.of_N n) 0).
  { unfold N. rewrite <- (N2Z.id n) at 1. apply of_string_integer. lia. }
  clearbody N.
  assert (Hfacts : let c := "amount " ++ op ++ " " ++ N in
            trim c = c /\ orParts c = [c] /\ andParts c = [c] /\
            eval_clause (Some o) true c
            = a ← amount_of (Some o); Ok (compares op a (JSNumber.of_string N))).
  { assert (Hm : forall head op', head = "amount " ++ op' ->
              In op' ["=="; "="; "!="; "<"; "<="; ">"; ">="] ->
              match_amount (head ++ String " " N) = Some (op', N)).
    { intros head op' -> Hin. simpl in Hin.
      repeat destruct Hin as [<-|Hin]; try contradiction;
        unfold match_amount; simpl;
        repeat (rewrite skip_spaces_cons; simpl);
        rewrite (skip_spaces_digits N HN HNne), (number_text_digits N HN HNne);
        reflexivity. }
    simpl in Hop.
    repeat destruct Hop as [<-|Hop]; try contradiction.
    - apply (amount_clause_facts N HN HNne "amount ==" "==" o);
        [now eexists | repeat split; reflexivity | repeat split; reflexivity
        | now apply Hm; [|simpl; tauto]].
    - apply (amount_clause_facts N HN HNne "amount =" "=" o);
        [now eexists | repeat split; reflexivity | repeat split; reflexivity
        | now apply Hm; [|simpl; tauto]].
    - apply (amount_clause_facts N HN HNne "amount !=" "!=" o);
        [now eexists | repeat split; reflexivity | repeat split; reflexivity
        | now apply Hm; [|simpl; tauto]].
    - apply (amount_clause_facts N HN HNne "amount <" "<" o);
        [now eexists | repeat split; reflexivity | repeat split; reflexivity
        | now apply Hm; [|simpl; tauto]].
    - apply (amount_clause_facts N HN HNne "amount <=" "<=" o);
        [now eexists | repeat split; reflexivity | repeat split; reflexivity
        | now apply Hm; [|simpl; tauto]].
    - apply (amount_clause_facts N HN HNne "amount >" ">" o);
        [now eexists | repeat split; reflexivity | repeat split; reflexivity
        | now apply Hm; [|simpl; tauto]].
    - apply (amount_clause_facts N HN HNne "amount >=" ">=" o);
        [now eexists | repeat split; reflexivity | repeat split; reflexivity
        | now apply Hm; [|simpl; tauto]]. }
  cbv zeta in Hfacts. destruct Hfacts as (Htrim & Hor & Hand & Heval).
  assert (E : evaluateRuleAgainstTx rule (Some o)
              = a ← amount_of (Some o);
                Ok (compares op a (JSNumber.Dec (Z.of_N n) 0))).
  { unfold evaluateRuleAgainstTx.
    rewrite (condition_of_string rule _ Hrule) by discriminate.
    cbn [Json.truthy is_empty negb Coerce.string_of Coerce.convertible
         Json.to_string mbind result_bind].
    rewrite Htrim, Hor. cbn [or_loop]. rewrite Hand. cbn [and_loop].
    rewrite Heval, Hnum.
    destruct (amount_of (Some o)) as [a|e]; [|reflexivity].
    cbn [mbind result_bind].
    now destruct (compares op a (JSNumber.Dec (Z.of_N n) 0)). }
  split; [|split; [|split]].
  - intros a Ha _. now rewrite E, Ha.
  - intros e He. now rewrite E, He.
  - intros Ha. rewrite E. unfold amount_of, amount_value. cbn [tx_get mbind result_bind].
    destruct (get_prop o "amount") as [v|]; [|reflexivity].
    cbn [opt_truthy] in Ha. now rewrite Ha.
  - intros v Ha Hv Hc Hnan. rewrite E. unfold amount_of, amount_value.
    cbn [tx_get mbind result_bind]. rewrite Ha, Hv. cbn [Coerce.number_of].
    rewrite Hc, Hnan. cbn [mbind result_bind].
    f_equal. unfold compares. simpl in Hop.
    repeat destruct Hop as [<-|Hop]; try contradiction; reflexivity.
Qed.

Lemma amount_rule_compares_witness :
  evaluateRuleAgainstTx (JObj [("condition", JStr "amount <= 100")])
    (Some [("amount", JStr "99.5")])
  = Ok (compares "<=" (JSNumber.Dec 995 (-1)) (JSNumber.Dec 100 0)).
Proof.
  apply (proj1 (amount_rule_compares "<=" 100
                  (JObj [("condition", JStr "amount <= 100")])
                  [("amount", JStr "99.5")]
                  ltac:(simpl; tauto) eq_refl eq_refl));
    reflexivity.
Defined.

Section Verdicts.

Lemma violated_rules_filter (rules : list json) (r : props) :
  violated_rules rules r
  = map (fun rule => default JNull (violation_label rule))
        (List.filter (triggered r) rules).
Proof.
  induction rules as [|rule rules IH]; [reflexivity|].
  cbn [violated_rules List.filter]. unfold triggered at 1.
  destruct (evaluateRuleAgainstTx rule (Some r)) as [[|]|e]; try exact IH.
  cbn [map]. rewrite IH. now destruct (violation_label rule).
Qed.

End Verdicts.

(** The join of labels that can all be converted. *)
Lemma joined_convertible (l : list json) :
  forallb Coerce.convertible l = true ->
  joined l
  = Ok (join "; " (map (fun x => match x with
                                 | JNull => EmptyString
                                 | _ => Json.to_string x
                                 end) l)).
Proof.
  intros H. unfold joined.
  assert (Hm : mapM (fun x => match x with
                              | JNull => Ok EmptyString
                              | _ => Coerce.string_of (Some x)
                              end) l
               = Ok (map (fun x => match x with
                                   | JNull => EmptyString
                                   | _ => Json.to_string x
                                   end) l)).
  { induction l as [|x r IH]; [reflexivity|].
    cbn [forallb] in H. apply andb_prop in H as [Hx Hr].
    cbn [mapM map]. rewrite (IH Hr).
    destruct x; cbn [Coerce.string_of mbind result_bind]; try reflexivity;
      rewrite Hx; reflexivity. }
  now rewrite Hm.
Qed.

(** X16. With a document that has rules, [applyPolicyToRows], when it
    returns, gives every row, in order, the verdict of the rules on that
    row and leaves its other properties as they are: [violated_rules]
    lists, in the order of the rules, one label for each rule that
    evaluates to true on the row, [compliant] is true exactly when no rule
    does, and [reason] is the join of the labels.  It returns whenever the
    label of every rule can be converted to a string, and [reason] then
    joins the texts of the labels with a semicolon and a space.  The label
    of a rule is its name when that is a non-empty string. *)
Theorem applyPolicy_verdicts (d : json) (rules : list json) (rows : list props) :
  member d "rules" = Some (JArr rules) -> rules <> [] ->
  (forall out, applyPolicyToRows (Some d) rows = Ok out ->
   Forall2 (fun r r' =>
              (forall k, k <> "policy" -> get_prop r' k = get_prop r k) /\
              let violated :=
                map (fun rule => default JNull (violation_label rule))
                    (List.filter (triggered r) rules) in
              exists reason,
                joined violated = Ok reason /\
                get_prop r' "policy"
                = Some (JObj [("compliant", JBool (negb (existsb (triggered r) rules)));
                              ("violated_rules", JArr violated);
                              ("reason", JStr reason)]))
           rows out) /\
  (forallb (fun rule => Coerce.convertible (default JNull (violation_label rule))) rules
   = true ->
   exists out, applyPolicyToRows (Some d) rows = Ok out) /\
  (forall l, forallb Coerce.convertible l = true ->
     joined l = Ok (join "; " (map (fun x => match x with
                                             | JNull => EmptyString
                                             | _ => Json.to_string x
                                             end) l))) /\
  (forall rule name,
     member rule "name" = Some (JStr name) -> name <> EmptyString ->
     violation_label rule = Some (JStr name)).
Proof.
  intros Hm Hne. rewrite (applyPolicy_rules d rules rows Hm Hne).
  split; [|split; [|split]].
  - intros out H. apply mapM_result in H.
    induction H as [|r r' rows' out' Hr _ IH]; constructor; [|exact IH].
    unfold verdict in Hr.
    destruct (joined (violated_rules rules r)) as [reason|e] eqn:Ej; [|discriminate Hr].
    cbn [mbind result_bind] in Hr. injection Hr as <-.
    split; [intros k Hk; now apply get_prop_set_prop_ne|].
    cbv zeta. exists reason. rewrite <- violated_rules_filter.
    split; [exact Ej|].
    now rewrite get_prop_set_prop_eq, triggered_violated.
  - intros Hconv. induction rows as [|r rows' IH]; [now exists []|].
    destruct IH as [out Hout]. cbn [mapM]. rewrite Hout.
    assert (Hv : forallb Coerce.convertible (violated_rules rules r) = true).
    { rewrite violated_rules_filter. rewrite forallb_forall in Hconv.
      apply forallb_forall. intros x Hx. apply in_map_iff in Hx as (rule & <- & Hin).
      apply List.filter_In in Hin as [Hin _]. now apply Hconv. }
    unfold verdict. rewrite (joined_convertible _ Hv). cbn [mbind result_bind].
    eauto.
  - exact joined_convertible.
  - intros rule name Hn Hname. unfold violation_label. rewrite Hn.
    destruct name; [contradiction | reflexivity].
Qed.

Lemma applyPolicy_verdicts_witness :
  exists out,
    applyPolicyToRows (Some Spec.doc_R1)
      [[("txn_id", JStr "t1"); ("amount", JNum (JSNumber.Dec 51 0))];
       [("txn_id", JStr "t2"); ("amount", JNum (JSNumber.Dec 50 0))]] = Ok out.
Proof.
  apply (proj1 (proj2 (applyPolicy_verdicts Spec.doc_R1 [Spec.rule_R1]
                  [[("txn_id", JStr "t1"); ("amount", JNum (JSNumber.Dec 51 0))];
                   [("txn_id", JStr "t2"); ("amount", JNum (JSNumber.Dec 50 0))]]
                  eq_refl ltac:(discriminate)))).
  reflexivity.
Defined.

(** ** The normaliser: errors and exceptions *)

Section Extends.

Context {A B : Type}.

Lemma extends_ret (a : A) : extends (mret a : M A).
Proof. intros h. exists []. now rewrite app_nil_r. Qed.

Lemma extends_throw (e : exn) : extends (throw e : M A).
Proof. intros h. exists []. now rewrite app_nil_r. Qed.

Lemma extends_lift (f : heap -> result A) : extends (lift f).
Proof. intros h. exists []. now rewrite app_nil_r. Qed.

Lemma extends_bind (m : M A) (k : A -> M B) :
  extends m -> (forall a, extends (k a)) -> extends (mbind k m).
Proof.
  intros Hm Hk h. unfold mbind, M_bind. destruct (Hm h) as [e1 E1].
  destruct (m h) as [[a|e] h1]; simpl in *; [|now exists e1].
  destruct (Hk a h1) as [e2 E2]. exists (e1 ++ e2)%list.
  rewrite E2, E1. now rewrite app_assoc.
Qed.

Lemma extends_try_catch (m handler : M A) :
  extends m -> extends handler -> extends (try_catch m handler).
Proof.
  intros Hm Hh h. unfold try_catch. destruct (Hm h) as [e1 E1].
  destruct (m h) as [[a|e] h1]; simpl in *; [now exists e1|].
  destruct (Hh h1) as [e2 E2]. exists (e1 ++ e2)%list.
  rewrite E2, E1. now rewrite app_assoc.
Qed.

End Extends.

Lemma extends_read (v : value) (k : string) : extends (read v k).
Proof. intros h. exists []. now rewrite app_nil_r. Qed.

Lemma extends_alloc (o : object) : extends (alloc o).
Proof. intros h. now exists [o]. Qed.

Lemma extends_alloc_json (t : json) : extends (alloc_json t).
Proof.
  intros h. destruct (alloc_json_appends t h) as (v & ext & E).
  exists ext. now rewrite E.
Qed.

(** Goals of the form [extends m], by the structure of [m]. *)
Ltac extend :=
  repeat first
    [ apply extends_bind; [|intros ?]
    | apply extends_ret
    | apply extends_throw
    | apply extends_lift
    | apply extends_read
    | apply extends_alloc
    | apply extends_alloc_json
    | apply extends_try_catch
    | match goal with
      | |- extends (if ?b then _ else _) => destruct b
      | |- extends (match ?x with _ => _ end) => destruct x
      end ].

Lemma extends_wrap (o : value) (k : string) (v : value) :
  extends (wrap_with_source o k v).
Proof. unfold wrap_with_source. extend. Qed.

Lemma extends_from_object (resp : value) : extends (from_object resp).
Proof. unfold from_object. extend; apply extends_wrap. Qed.

Lemma extends_parse_alloc (s : string) : extends (parse_alloc s).
Proof. unfold parse_alloc. extend. Qed.

Lemma extends_try_direct (s : string) (doc : option value) :
  extends (try_direct s doc).
Proof.
  unfold try_direct. apply extends_try_catch; [|apply extends_ret].
  apply extends_bind; [apply extends_parse_alloc|]. intros p.
  extend; apply extends_wrap.
Qed.

Lemma extends_try_substring (s : string) (doc : option value) :
  extends (try_substring s doc).
Proof.
  unfold try_substring. destruct (JSONParse.match_braces s); [|apply extends_ret].
  apply extends_try_catch; [|apply extends_ret].
  apply extends_bind; [apply extends_parse_alloc|]. intros p.
  extend.
Qed.

Lemma extends_candidates_loop (cands : list string) (doc : option value) :
  extends (candidates_loop cands doc).
Proof.
  revert doc. induction cands as [|s rest IH]; intros doc; [apply extends_ret|].
  simpl. destruct (is_empty s); [apply IH|].
  apply extends_bind; [apply extends_try_direct|]. intros [d|doc1];
    [apply extends_ret|].
  apply extends_bind; [apply extends_try_substring|]. intros [d|doc2];
    [apply extends_ret | apply IH].
Qed.

Lemma extends_find_document (resp : value) : extends (find_document resp).
Proof.
  unfold find_document.
  apply extends_bind; [apply extends_from_object|]. intros [d|];
    [apply extends_ret|].
  apply extends_bind; [apply extends_lift|]. intros cands.
  apply extends_candidates_loop.
Qed.

(** X17. When [normalizeParserResponse] returns an error, it is one of two:
    [empty_response], exactly for a falsy response, or
    [no_rules_found_in_response]; and it has changed no object: the store
    is as it was, but for what parsing the texts of the response has
    allocated after it. *)
Theorem normalize_error_keeps_store (resp : value) (h h' : heap) (msg : string) :
  normalizeParserResponse resp h = (Ok (Error msg), h') ->
  (msg = "empty_response" /\ Store.truthy resp = false /\ h' = h \/
   msg = "no_rules_found_in_response" /\ Store.truthy resp = true) /\
  (exists ext, h' = (h ++ ext)%list) /\
  input_unchanged h h'.
Proof.
  intros H.
  assert (Hmain :
    (msg = "empty_response" /\ Store.truthy resp = false /\ h' = h \/
     msg = "no_rules_found_in_response" /\ Store.truthy resp = true) /\
    (exists ext, h' = (h ++ ext)%list)).
  { unfold normalizeParserResponse in H.
    destruct (Store.truthy resp) eqn:Ht; cbn [negb] in H.
    - destruct (extends_find_document resp h) as [ext Hext].
      unfold mbind, M_bind in H.
      destruct (find_document resp h) as [[[d|]|e] h1]; simpl in Hext.
      + destruct (synthesize_conditions d h1) as [[[]|e] h2]; discriminate H.
      + injection H as <- <-. split; [right; now split | now exists ext].
      + discriminate H.
    - injection H as <- <-. split; [left; now repeat split|].
      exists []. now rewrite app_nil_r. }
  destruct Hmain as [H1 [ext ->]]. split; [exact H1|]. split; [now exists ext|].
  intros l o Hl. now apply lookup_app_l_Some.
Qed.

Lemma normalize_error_keeps_store_witness :
  input_unchanged [Obj [("note", VStr "nothing")]]
                  [Obj [("note", VStr "nothing")]].
Proof.
  apply (normalize_error_keeps_store (VRef 0) [Obj [("note", VStr "nothing")]]
           [Obj [("note", VStr "nothing")]] "no_rules_found_in_response").
  reflexivity.
Defined.

Section NullRules.

Lemma synth_step_ok (h : heap) (rr : value) :
  is_nullish rr = false -> exists v, synthRuleCondition h rr = Ok v.
Proof.
  intros Hn. unfold synthRuleCondition.
  destruct (synth_try h rr) as [[v|]|e]; [now exists v| |];
    destruct rr; try discriminate Hn; eexists; reflexivity.
Qed.

Lemma synth_loop_nullish (es : list value) (h : heap) :
  (Exists (fun x => is_nullish x = true) es ->
   fst (synth_loop es h) = Throw TypeError) /\
  (Forall (fun x => is_nullish x = false) es -> fst (synth_loop es h) = Ok tt).
Proof.
  revert h. induction es as [|rr es IH]; intros h.
  - split; [intros H; inversion H | reflexivity].
  - assert (Hstep : is_nullish rr = false ->
              exists h1, synth_loop (rr :: es) h = synth_loop es h1).
    { intros Hn. cbn [synth_loop]. rewrite bind_read.
      assert (Hg : exists c, get h rr "condition" = Ok c)
        by (destruct rr; try discriminate Hn; eexists; reflexivity).
      destruct Hg as [c ->].
      destruct (negb (Store.truthy c) || is_string c); [|now exists h].
      rewrite bind_lift. destruct (synth_step_ok h rr Hn) as [v ->].
      destruct (Store.truthy v && negb (strict_eq v c)).
      - unfold mbind at 1, M_bind at 1. unfold write.
        destruct rr as [| | | | |l]; try (now exists h).
        destruct (h !! l) as [[fs|el]|]; eexists; reflexivity.
      - now exists h. }
    split.
    + intros Hex. destruct (is_nullish rr) eqn:Hn.
      * destruct rr; try discriminate Hn; reflexivity.
      * destruct (Hstep eq_refl) as [h1 ->]. apply IH.
        inversion Hex as [? ? Hx|? ? Hx]; subst; [congruence | exact Hx].
    + intros Hall. inversion Hall as [|? ? Hn Hrest]; subst.
      destruct (Hstep Hn) as [h1 ->]. now apply IH.
Qed.

End NullRules.

(** X18. For a response that is an object with an array under [rules], the
    normaliser returns that very object as the document, provided no entry
    of the array is [null]; if an entry is [null], it throws a TypeError,
    which [normalizeParserResponse] does not catch. *)
Theorem normalize_null_rule (h : heap) (resp rules : value) (es : list value) :
  typeof_object resp = true ->
  get h resp "rules" = Ok rules ->
  array_elems h rules = Some es ->
  (Forall (fun x => is_nullish x = false) es ->
   fst (normalizeParserResponse resp h) = Ok (Doc resp)) /\
  (Exists (fun x => is_nullish x = true) es ->
   fst (normalizeParserResponse resp h) = Throw TypeError).
Proof.
  intros Ht Hr Ha.
  assert (Htr : Store.truthy resp = true).
  { destruct resp; try discriminate Ht; [discriminate Hr | reflexivity]. }
  assert (Hf : find_document resp h = (Ok (Some resp), h)).
  { apply (find_document_shaped h resp rules Ht Hr). unfold isArray. now rewrite Ha. }
  rewrite (normalize_found h h resp resp Htr Hf).
  unfold mbind, M_bind.
  rewrite (synthesize_conditions_eq h resp rules es Hr Ha).
  destruct (synth_loop_nullish es h) as [Hbad Hgood].
  split; intros H.
  - specialize (Hgood H). destruct (synth_loop es h) as [[[]|e] h1];
      simpl in Hgood; [reflexivity | discriminate Hgood].
  - specialize (Hbad H). destruct (synth_loop es h) as [[[]|e] h1];
      simpl in Hbad; [discriminate Hbad | simpl; congruence].
Qed.

Lemma normalize_null_rule_witness :
  fst (normalizeParserResponse (VRef 1)
         [Arr [VNull]; Obj [("rules", VRef 0)]]) = Throw TypeError.
Proof.
  apply (proj2 (normalize_null_rule [Arr [VNull]; Obj [("rules", VRef 0)]]
                  (VRef 1) (VRef 0) [VNull] eq_refl eq_refl eq_refl)).
  now constructor.
Defined.

Section Wrapped.

Lemma array_elems_app (h ext : heap) (v : value) (es : list value) :
  array_elems h v = Some es -> array_elems (h ++ ext)%list v = Some es.
Proof.
  unfold array_elems. destruct v as [| | | | |l]; try discriminate.
  destruct (h !! l) as [o|] eqn:E; [|discriminate].
  now rewrite (lookup_app_l_Some _ _ _ _ E).
Qed.

Lemma get_new_object (h : heap) (fs : list (string * value)) (k : string) :
  get (h ++ [Obj fs])%list (VRef (List.length h)) k
  = Ok (match assoc k fs with Some x => x | None => VUndef end).
Proof.
  unfold get, object_fields.
  rewrite lookup_app_r by lia. now rewrite Nat.sub_diag.
Qed.

Lemma assoc_set_field_ne (fs : list (string * value)) (k k' : string) (x : value) :
  k <> k' -> assoc k (set_field fs k' x) = assoc k fs.
Proof.
  intros Hk. induction fs as [|[k0 v0] fs IH]; simpl.
  - destruct (String.eqb_spec k k'); [contradiction | reflexivity].
  - destruct (String.eqb_spec k' k0) as [<-|Hne]; simpl.
    + destruct (String.eqb_spec k k'); [contradiction | reflexivity].
    + destruct (String.eqb k k0); [reflexivity | exact IH].
Qed.

(** Setting [condition] changes no other property. *)
Lemma condition_set_get (h h' : heap) (l : nat) (o : object) (k : string) :
  h !! l = Some o -> frame h h' -> k <> "condition" ->
  get h' (VRef l) k = get h (VRef l) k.
Proof.
  intros Hl Hf Hk. destruct (Hf l o Hl) as (o' & Hl' & Hc).
  unfold get, object_fields. rewrite Hl, Hl'.
  destruct Hc as [->|(fs & v & -> & ->)]; [reflexivity|].
  now rewrite (assoc_set_field_ne fs k "condition" (VStr v) Hk).
Qed.

End Wrapped.

(** X19. A response that is an object without an array under [rules], but
    with a property whose value is an array of rules (the first such
    property, in the order of the keys), is wrapped: the document is a new
    object whose [rules] is that same array, not a copy, and whose [source]
    is the [source] of the response if it is truthy and the name of the
    property otherwise.  The conditions synthesised afterwards are written
    into the rules of the response itself. *)
Theorem normalize_wraps_rule_array (h : heap) (resp rules src v : value)
    (k : string) (es : list value) :
  typeof_object resp = true ->
  get h resp "rules" = Ok rules ->
  isArray h rules = false ->
  get h resp "source" = Ok src ->
  find_rule_array h (entries h resp) = Ok (Some (k, v)) ->
  array_elems h v = Some es ->
  Forall (fun x => is_nullish x = false) es ->
  exists h',
    normalizeParserResponse resp h = (Ok (Doc (VRef (List.length h))), h') /\
    get h' (VRef (List.length h)) "rules" = Ok v /\
    get h' (VRef (List.length h)) "source"
    = Ok (if Store.truthy src then src else VStr k) /\
    frame h h'.
Proof.
  intros Ht Hr Ha Hs Hfind Hes Hnn.
  set (d := Obj [("rules", v); ("source", if Store.truthy src then src else VStr k)]).
  assert (Htr : Store.truthy resp = true).
  { destruct resp; try discriminate Ht; [discriminate Hr | reflexivity]. }
  assert (Hf : find_document resp h
               = (Ok (Some (VRef (List.length h))), (h ++ [d])%list)).
  { assert (Hfo : from_object resp h
                  = (Ok (Some (VRef (List.length h))), (h ++ [d])%list)).
    { unfold from_object. rewrite Ht. cbv iota.
      rewrite bind_read, Hr, bind_lift, Ha. cbv iota.
      rewrite bind_lift, Hfind. cbv iota beta.
      unfold wrap_with_source, mbind, M_bind, read, alloc. now rewrite Hs. }
    unfold find_document. now rewrite (bind_ok _ _ _ _ _ Hfo). }
  rewrite (normalize_found h _ resp _ Htr Hf).
  assert (Hrules : get (h ++ [d])%list (VRef (List.length h)) "rules" = Ok v)
    by apply get_new_object.
  assert (Hsrc : get (h ++ [d])%list (VRef (List.length h)) "source"
                 = Ok (if Store.truthy src then src else VStr k))
    by apply get_new_object.
  unfold mbind, M_bind.
  rewrite (synthesize_conditions_eq _ _ v es Hrules (array_elems_app h [d] v es Hes)).
  pose proof (proj2 (synth_loop_nullish es (h ++ [d])%list) Hnn) as Hok.
  pose proof (preserves_synth_loop es (h ++ [d])%list) as Hfr.
  destruct (synth_loop es (h ++ [d])%list) as [[[]|e] h'] eqn:E;
    simpl in Hok, Hfr; [|discriminate Hok].
  assert (Hd : (h ++ [d])%list !! List.length h = Some d).
  { rewrite lookup_app_r by lia. now rewrite Nat.sub_diag. }
  exists h'. split; [reflexivity|].
  split; [now rewrite (condition_set_get _ h' _ d "rules" Hd Hfr)|].
  split; [now rewrite (condition_set_get _ h' _ d "source" Hd Hfr)|].
  eapply frame_trans; [apply frame_app | exact Hfr].
Qed.

Lemma normalize_wraps_rule_array_witness :
  exists h',
    normalizeParserResponse (VRef 2)
      [Obj [("name", VStr "R1"); ("condition", VStr "amount > 50")];
       Arr [VRef 0];
       Obj [("policies", VRef 1)]]
    = (Ok (Doc (VRef 3)), h') /\
    get h' (VRef 3) "rules" = Ok (VRef 1) /\
    get h' (VRef 3) "source" = Ok (VStr "policies").
Proof.
  destruct (normalize_wraps_rule_array
              [Obj [("name", VStr "R1"); ("condition", VStr "amount > 50")];
               Arr [VRef 0];
               Obj [("policies", VRef 1)]]
              (VRef 2) VUndef VUndef (VRef 1) "policies" [VRef 0]
              eq_refl eq_refl eq_refl eq_refl eq_refl eq_refl
              ltac:(repeat constructor)) as (h' & H1 & H2 & H3 & _).
  exists h'. repeat split; assumption.
Defined.

(** ** The aligner: spelling, frame and edge cases *)

Section AlignFacts.

Variable cats : list string.

Lemma toLowerCase_empty (s : string) : toLowerCase s = EmptyString -> s = EmptyString.
Proof. destruct s; [reflexivity | discriminate]. Qed.

Lemma in_null_dec (rules : list json) : In JNull rules \/ ~ In JNull rules.
Proof.
  induction rules as [|r rest [IH|IH]]; [right; intros [] | left; now right |].
  destruct r; try (right; intros [H|H]; [discriminate H | contradiction]).
  left. now left.
Qed.

Lemma mapCategory_throws (val : json) (e : exn) :
  mapCategory cats val = Throw e -> e = TypeError /\ Coerce.convertible val = false.
Proof.
  unfold mapCategory. destruct (negb (Json.truthy val)); [discriminate|].
  cbn [Coerce.string_of]. destruct (Coerce.convertible val).
  - cbn [mbind result_bind]. destruct (is_empty _); discriminate.
  - cbn [mbind result_bind]. intros H. injection H as <-. now split.
Qed.

Lemma mapCategory_total (val : json) :
  Coerce.convertible val = true -> exists x, mapCategory cats val = Ok x.
Proof.
  intros Hc. destruct (mapCategory cats val) as [x|e] eqn:E; [now exists x|].
  destruct (mapCategory_throws val e E) as [_ H]. rewrite Hc in H. discriminate H.
Qed.

Lemma aligned_condition_total (cond : string) :
  exists a, aligned_condition cats cond = Ok a.
Proof.
  unfold aligned_condition. destruct (first_literal cond) as [[q lit]|]; [|eauto].
  destruct (mapCategory_text cats lit) as [x ->]. cbn [mbind result_bind]. eauto.
Qed.

Lemma assign_condition_total (fs : props) :
  exists fs2, assign_condition cats fs = Ok fs2.
Proof.
  unfold assign_condition.
  destruct (get_prop fs "condition") as [[| | |s| | |]|]; eauto.
  destruct (Json.truthy (JStr s)); [|eauto].
  destruct (aligned_condition_total s) as [a ->]. cbn [mbind result_bind]. eauto.
Qed.

Lemma assign_category_total (fs : props) :
  category_convertible (JObj fs) = true ->
  exists fs1, assign_category cats fs = Ok fs1.
Proof.
  cbn [category_convertible]. unfold assign_category.
  destruct (get_prop fs "category") as [c|]; [|eauto].
  intros Hc. destruct (Json.truthy c); [|eauto].
  destruct (mapCategory_total c Hc) as [x ->]. cbn [mbind result_bind]. eauto.
Qed.

Lemma assign_category_throws (fs : props) (e : exn) :
  assign_category cats fs = Throw e ->
  e = TypeError /\ category_convertible (JObj fs) = false.
Proof.
  cbn [category_convertible]. unfold assign_category.
  destruct (get_prop fs "category") as [c|]; [|discriminate].
  destruct (Json.truthy c); [|discriminate].
  destruct (mapCategory cats c) as [x|e'] eqn:E; [discriminate|].
  cbn [mbind result_bind]. intros H. injection H as <-.
  exact (mapCategory_throws c e' E).
Qed.

Lemma align_rule_total (r : json) :
  r <> JNull -> category_convertible r = true ->
  exists r', align_rule cats r = Ok r'.
Proof.
  intros Hn Hc. destruct r as [| | | | |fs|]; try (eexists; reflexivity); [contradiction|].
  cbn [align_rule]. destruct (assign_category_total fs Hc) as [fs1 ->].
  cbn [mbind result_bind]. destruct (assign_condition_total fs1) as [fs2 ->].
  cbn [mbind result_bind]. eauto.
Qed.

Lemma align_rule_throws (r : json) (e : exn) :
  align_rule cats r = Throw e -> e = TypeError.
Proof.
  destruct r as [| | | | |fs|]; try discriminate.
  - intros H. now injection H as <-.
  - cbn [align_rule].
    destruct (assign_category cats fs) as [fs1|e1] eqn:E1.
    + cbn [mbind result_bind]. destruct (assign_condition_total fs1) as [fs2 ->].
      discriminate.
    + cbn [mbind result_bind]. intros H. injection H as <-.
      exact (proj1 (assign_category_throws fs e1 E1)).
Qed.

Lemma align_rules_throws (rules : list json) (e : exn) :
  align_rules cats rules = Throw e -> e = TypeError.
Proof.
  induction rules as [|r rest IH]; [discriminate|]. cbn [align_rules].
  destruct (align_rule cats r) as [r'|e1] eqn:Er.
  - cbn [mbind result_bind]. destruct (align_rules cats rest) as [rest'|e2].
    + discriminate.
    + cbn [mbind result_bind]. intros H. injection H as <-. now apply IH.
  - cbn [mbind result_bind]. intros H. injection H as <-.
    exact (align_rule_throws r e1 Er).
Qed.

Lemma align_rules_total (rules : list json) :
  ~ In JNull rules -> forallb category_convertible rules = true ->
  exists rules', align_rules cats rules = Ok rules'.
Proof.
  induction rules as [|r rest IH]; intros Hn Hc; [now exists []|].
  cbn [forallb] in Hc. apply andb_prop in Hc as [Hr Hrest].
  destruct IH as [rest' E]; [intros H; apply Hn; now right | exact Hrest |].
  destruct (align_rule_total r) as [r' Er]; [intros ->; apply Hn; now left | exact Hr |].
  exists (r' :: rest'). cbn [align_rules]. now rewrite Er, E.
Qed.

Lemma align_rules_null (rules : list json) :
  In JNull rules -> align_rules cats rules = Throw TypeError.
Proof.
  induction rules as [|r rest IH]; [contradiction|].
  intros Hin. cbn [align_rules].
  destruct (align_rule cats r) as [r'|e] eqn:Er.
  - cbn [mbind result_bind].
    destruct Hin as [->|Hin]; [discriminate Er|].
    now rewrite (IH Hin).
  - cbn [mbind result_bind]. now rewrite (align_rule_throws r e Er).
Qed.

Lemma assign_category_other (fs fs1 : props) (k : string) :
  assign_category cats fs = Ok fs1 ->
  k <> "category" -> get_prop fs1 k = get_prop fs k.
Proof.
  intros H Hk.
  destruct (assign_category_cases cats fs fs1 H) as [-> | (c & x & _ & _ & _ & ->)];
    [reflexivity|].
  now apply get_prop_set_prop_ne.
Qed.

Lemma assign_condition_other (fs fs2 : props) (k : string) :
  assign_condition cats fs = Ok fs2 ->
  k <> "condition" -> get_prop fs2 k = get_prop fs k.
Proof.
  intros H Hk.
  destruct (assign_condition_cases cats fs fs2 H) as [[-> _] | (c & c' & _ & _ & ->)];
    [reflexivity|].
  now apply get_prop_set_prop_ne.
Qed.

Lemma align_rules_frame (rules rules' : list json) :
  align_rules cats rules = Ok rules' ->
  Forall2 (fun r r' =>
             (forall k, k <> "category" -> k <> "condition" ->
                        member r' k = member r k) /\
             ((forall o, r <> JObj o) -> r' = r))
          rules rules'.
Proof.
  revert rules'. induction rules as [|r rest IH]; intros rules' H.
  - injection H as <-. constructor.
  - cbn [align_rules] in H.
    destruct (align_rule cats r) as [r1|] eqn:Er; [|discriminate H].
    cbn [mbind result_bind] in H.
    destruct (align_rules cats rest) as [rest1|]; [|discriminate H].
    cbn [mbind result_bind] in H. injection H as <-.
    constructor; [|now apply IH].
    destruct r as [| | | | |fs|];
      try (injection Er as <-; split; [reflexivity | reflexivity]);
      try discriminate Er.
    cbn [align_rule] in Er.
    destruct (assign_category cats fs) as [fs1|] eqn:E1; [|discriminate Er].
    cbn [mbind result_bind] in Er.
    destruct (assign_condition cats fs1) as [fs2|] eqn:E2; [|discriminate Er].
    cbn [mbind result_bind] in Er. injection Er as <-. split.
    + intros k H1 H2. cbn [member].
      now rewrite (assign_condition_other _ _ k E2 H2), (assign_category_other _ _ k E1 H1).
    + intros Hno. now destruct (Hno fs).
Qed.

End AlignFacts.

(** X20. The category that alignment settles on for a text: with L the
    text trimmed and lower-cased (not empty, and no property name of
    [Object.prototype]), it is the last dataset category whose lower-case
    form is L; failing that, the first dataset category whose lower-case
    form contains L or is contained in it; failing that, the text itself.
    So when the dataset categories differ by more than letter case, a
    category that equals a dataset category but for case and outer white
    space takes the dataset's spelling; and that is the value the aligned
    rule has under [category]. *)
Theorem mapCategory_dataset_spelling (cats : list string) (s : string) :
  trim s <> EmptyString ->
  inherited (toLowerCase (trim s)) = false ->
  mapCategory cats (JStr s)
  = Ok (JStr (match last_with (toLowerCase (trim s)) cats with
              | Some c => c
              | None =>
                  match substring_match cats (toLowerCase (trim s)) with
                  | Some c => c
                  | None => s
                  end
              end)) /\
  (forall c, In c cats -> NoDup (map toLowerCase cats) ->
     toLowerCase c = toLowerCase (trim s) ->
     mapCategory cats (JStr s) = Ok (JStr c)) /\
  (forall fs, get_prop fs "category" = Some (JStr s) ->
     exists fs' x, align_rule cats (JObj fs) = Ok (JObj fs') /\
                   mapCategory cats (JStr s) = Ok x /\
                   get_prop fs' "category" = Some x).
Proof.
  intros Hne Hinh.
  assert (Hs : s <> EmptyString) by (intros ->; now apply Hne).
  assert (E : mapCategory cats (JStr s)
              = Ok (JStr (match last_with (toLowerCase (trim s)) cats with
                          | Some c => c
                          | None =>
                              match substring_match cats (toLowerCase (trim s)) with
                              | Some c => c
                              | None => s
                              end
                          end))).
  { unfold mapCategory. cbn [Json.truthy Json.to_string].
    destruct s as [|x s']; [contradiction|]. cbn [is_empty negb]. cbv iota.
    cbn [Coerce.string_of Coerce.convertible Json.to_string mbind result_bind].
    destruct (trim (String x s')) as [|y t] eqn:Et; [contradiction|].
    cbn [is_empty]. cbv iota.
    rewrite (lowerMap_get_own cats _ Hinh).
    destruct (last_with (toLowerCase (String y t)) cats) as [c|] eqn:El.
    - cbn [fmap option_fmap option_map Json.truthy].
      destruct (last_with_in _ _ _ El) as [_ Hc].
      destruct c; [discriminate Hc | reflexivity].
    - cbn [fmap option_fmap option_map].
      now destruct (substring_match cats (toLowerCase (String y t))). }
  split; [exact E|]. split.
  - intros c Hin Hnd Hc. rewrite E, <- Hc.
    rewrite (last_with_nodup c cats Hnd Hin); [reflexivity|].
    intros Hp. rewrite <- Hc, Hp in Hinh. discriminate Hinh.
  - intros fs Hcat. cbn [align_rule].
    assert (E1 : assign_category cats fs
                 = Ok (set_prop fs "category"
                         (JStr (match last_with (toLowerCase (trim s)) cats with
                                | Some c => c
                                | None =>
                                    match substring_match cats (toLowerCase (trim s)) with
                                    | Some c => c
                                    | None => s
                                    end
                                end)))).
    { unfold assign_category. rewrite Hcat. cbn [Json.truthy].
      destruct s; [contradiction|]. cbn [is_empty negb]. now rewrite E. }
    rewrite E1. cbn [mbind result_bind].
    destruct (assign_condition_total cats (set_prop fs "category"
                (JStr (match last_with (toLowerCase (trim s)) cats with
                       | Some c => c
                       | None =>
                           match substring_match cats (toLowerCase (trim s)) with
                           | Some c => c
                           | None => s
                           end
                       end)))) as [fs2 E2].
    rewrite E2. cbn [mbind result_bind]. eexists fs2, _.
    split; [reflexivity|]. split; [exact E|].
    rewrite (get_prop_own _ "category" eq_refl), (assign_condition_category cats _ _ E2).
    apply assoc_set_prop_eq.
Qed.

Lemma mapCategory_dataset_spelling_witness :
  mapCategory ["Travel"; "Meals"] (JStr " meals ") = Ok (JStr "Meals").
Proof.
  apply (proj1 (proj2 (mapCategory_dataset_spelling ["Travel"; "Meals"] " meals "
                         ltac:(discriminate) eq_refl)) "Meals").
  - right. left. reflexivity.
  - repeat constructor; set_solver.
  - reflexivity.
Defined.

(** X21. On a plain JSON document whose [rules] is an array without a
    [null] entry, and in which the category of every rule is a value that
    [String] converts, alignment returns a document.  Whenever alignment
    returns on a plain JSON document with an array of rules, the result
    has as many rules, its properties other than [rules] are those of the
    input, and every rule differs from the rule at its place in the input
    at most in [category] and [condition], a rule that is no object being
    left as it is.  When it does not return it has thrown a TypeError, and
    then a rule is [null] or has a category that [String] cannot convert, as
    the object [{toString: 1}] is. *)
Theorem align_frame (cats : list string) (parsed : json) (rules : list json) :
  json_data parsed = true ->
  member parsed "rules" = Some (JArr rules) ->
  (~ In JNull rules -> forallb category_convertible rules = true ->
   exists out, alignParsedCategoriesWithDataset parsed cats = Ok out) /\
  (forall out, alignParsedCategoriesWithDataset parsed cats = Ok out ->
     exists rules',
       member out "rules" = Some (JArr rules') /\
       (forall k, k <> "rules" -> member out k = member parsed k) /\
       Forall2 (fun r r' =>
                  (forall k, k <> "category" -> k <> "condition" ->
                             member r' k = member r k) /\
                  ((forall o, r <> JObj o) -> r' = r))
               rules rules') /\
  (forall e, alignParsedCategoriesWithDataset parsed cats = Throw e ->
     e = TypeError /\
     (In JNull rules \/ forallb category_convertible rules = false)) /\
  alignParsedCategoriesWithDataset
    (JObj [("rules", JArr [JObj [("category", JObj [("toString", JNum (JSNumber.Dec 1 0))])]])])
    cats = Throw TypeError.
Proof.
  intros Hd Hm. destruct parsed as [| | | | |o|]; try discriminate Hm.
  assert (Eq : alignParsedCategoriesWithDataset (JObj o) cats
               = rules' ← align_rules cats rules;
                 Ok (JObj (set_prop o "rules" (JArr rules')))).
  { unfold alignParsedCategoriesWithDataset. cbn [Json.truthy]. rewrite Hm.
    now rewrite (clone_json_data _ Hd), Hm. }
  split; [|split; [|split]].
  - intros Hn Hc. destruct (align_rules_total cats rules Hn Hc) as [rules' Er].
    rewrite Eq, Er. cbn [mbind result_bind]. eauto.
  - intros out. rewrite Eq.
    destruct (align_rules cats rules) as [rules'|] eqn:Er; [|discriminate].
    cbn [mbind result_bind]. intros H. injection H as <-. exists rules'.
    split; [|split].
    + cbn [member]. apply get_prop_set_prop_eq.
    + intros k Hk. cbn [member]. now apply get_prop_set_prop_ne.
    + now apply (align_rules_frame cats).
  - intros e. rewrite Eq.
    destruct (align_rules cats rules) as [rules'|e'] eqn:Er; [discriminate|].
    cbn [mbind result_bind]. intros H. injection H as <-.
    split; [exact (align_rules_throws cats rules e' Er)|].
    destruct (forallb category_convertible rules) eqn:Hc; [|now right].
    left. destruct (in_null_dec rules) as [Hin|Hn]; [exact Hin|].
    destruct (align_rules_total cats rules Hn Hc) as [r' Er'].
    rewrite Er in Er'. discriminate Er'.
  - reflexivity.
Qed.

Lemma align_frame_witness :
  exists out rules',
    alignParsedCategoriesWithDataset (doc_meals "meals" "amount > 50") ["Meals"] = Ok out /\
    member out "rules" = Some (JArr rules') /\
    member out "version" = Some (JStr "1.0").
Proof.
  destruct (align_frame ["Meals"] (doc_meals "meals" "amount > 50") _
              eq_refl eq_refl) as (H1 & H2 & _).
  destruct H1 as [out E]; [intros [H|[]]; discriminate H | reflexivity |].
  destruct (H2 out E) as (rules' & Hr & Hk & _).
  exists out, rules'. split; [exact E|]. split; [exact Hr|].
  now rewrite Hk.
Defined.

Section EmptyDataset.

Lemma mapCategory_nil (val x : json) :
  proto_free val = true -> mapCategory [] val = Ok x -> x = val.
Proof.
  intros Hp H. destruct (mapCategory_cases [] val x Hp H) as [E|(c & [] & _)]. exact E.
Qed.

Lemma align_rule_nil (r r' : json) :
  rule_plain r = true -> align_rule [] r = Ok r' -> r' = r.
Proof.
  intros Hp. destruct r as [| | | | |fs|];
    try (intros H; injection H as <-; reflexivity); [discriminate|].
  cbn [align_rule rule_plain] in *. apply andb_prop in Hp as [Hcat Hcond].
  destruct (assign_category [] fs) as [fs1|] eqn:E1; [|discriminate].
  cbn [mbind result_bind].
  destruct (assign_condition [] fs1) as [fs2|] eqn:E2; [|discriminate].
  cbn [mbind result_bind]. intros H. injection H as <-.
  assert (H1 : fs1 = fs).
  { destruct (assign_category_cases [] fs fs1 E1) as [-> | (c & x & Hc & _ & Hm & ->)];
      [reflexivity|].
    rewrite (get_prop_own fs "category" eq_refl), Hc in Hcat.
    rewrite (mapCategory_nil c x Hcat Hm). now apply set_prop_same. }
  subst fs1. f_equal.
  destruct (assign_condition_cases [] fs fs2 E2) as [[-> _] | (cond & cond' & Hc & Ha & ->)];
    [reflexivity|].
  exfalso. rewrite (get_prop_own fs "condition" eq_refl), Hc in Hcond.
  unfold aligned_condition in Ha.
  destruct (first_literal cond) as [[q lit]|]; [|discriminate Ha].
  destruct (mapCategory [] (JStr lit)) as [x|] eqn:Em; [|discriminate Ha].
  rewrite (mapCategory_nil (JStr lit) x Hcond Em) in Ha.
  cbn [mbind result_bind differs] in Ha.
  rewrite String.eqb_refl, andb_false_r in Ha. discriminate Ha.
Qed.

Lemma align_rules_nil (rules rules' : list json) :
  forallb rule_plain rules = true ->
  align_rules [] rules = Ok rules' -> rules' = rules.
Proof.
  revert rules'. induction rules as [|r rest IH]; intros rules' Hp.
  - intros H. now injection H as <-.
  - cbn [forallb] in Hp. apply andb_prop in Hp as [Hr Hrest].
    cbn [align_rules].
    destruct (align_rule [] r) as [r1|] eqn:Er; [|discriminate].
    cbn [mbind result_bind].
    destruct (align_rules [] rest) as [rest1|] eqn:Es; [|discriminate].
    cbn [mbind result_bind]. intros H. injection H as <-.
    now rewrite (align_rule_nil r r1 Hr Er), (IH rest1 Hrest eq_refl).
Qed.

End EmptyDataset.

(** X22. The edges of alignment.  A response that is falsy, or whose
    [rules] is missing or not an array, is returned as it is.  A [null]
    entry in the rules makes alignment throw a TypeError.  And without
    dataset categories nothing is aligned: a plain JSON document, whose
    rules are not [null], have categories that [String] converts and name no
    property of [Object.prototype] as category or first quoted literal,
    comes back unchanged; whatever the categories are, such a document is
    unchanged whenever alignment returns. *)
Theorem align_edges (cats : list string) (parsed : json) :
  ((forall rules, (if Json.truthy parsed then member parsed "rules" else None)
                  <> Some (JArr rules)) ->
   alignParsedCategoriesWithDataset parsed cats = Ok parsed) /\
  (forall rules, member parsed "rules" = Some (JArr rules) ->
     json_data parsed = true -> In JNull rules ->
     alignParsedCategoriesWithDataset parsed cats = Throw TypeError) /\
  (forall rules, member parsed "rules" = Some (JArr rules) ->
     json_data parsed = true -> plain_rules parsed = true ->
     (forall out, alignParsedCategoriesWithDataset parsed [] = Ok out -> out = parsed) /\
     (~ In JNull rules -> forallb category_convertible rules = true ->
      alignParsedCategoriesWithDataset parsed [] = Ok parsed)).
Proof.
  split; [|split].
  - intros H. unfold alignParsedCategoriesWithDataset.
    destruct (if Json.truthy parsed then member parsed "rules" else None)
      as [[| | | |rules| |]|]; try reflexivity.
    now destruct (H rules).
  - intros rules Hm Hd Hn. destruct parsed as [| | | | |o|]; try discriminate Hm.
    unfold alignParsedCategoriesWithDataset. cbn [Json.truthy]. rewrite Hm.
    rewrite (clone_json_data _ Hd), Hm, (align_rules_null cats rules Hn).
    reflexivity.
  - intros rules Hm Hd Hp. destruct parsed as [| | | | |o|]; try discriminate Hm.
    assert (Eq : alignParsedCategoriesWithDataset (JObj o) []
                 = rules' ← align_rules [] rules;
                   Ok (JObj (set_prop o "rules" (JArr rules')))).
    { unfold alignParsedCategoriesWithDataset. cbn [Json.truthy]. rewrite Hm.
      now rewrite (clone_json_data _ Hd), Hm. }
    unfold plain_rules in Hp. rewrite Hm in Hp.
    assert (Hsame : forall out, alignParsedCategoriesWithDataset (JObj o) [] = Ok out ->
                                out = JObj o).
    { intros out. rewrite Eq.
      destruct (align_rules [] rules) as [rules'|] eqn:Er; [|discriminate].
      cbn [mbind result_bind]. intros H. injection H as <-.
      rewrite (align_rules_nil rules rules' Hp Er). f_equal. apply set_prop_same.
      cbn [member] in Hm. now rewrite <- (get_prop_own o "rules" eq_refl). }
    split; [exact Hsame|].
    intros Hn Hc. destruct (align_rules_total [] rules Hn Hc) as [rules' Er].
    assert (Hout : alignParsedCategoriesWithDataset (JObj o) []
                   = Ok (JObj (set_prop o "rules" (JArr rules'))))
      by (rewrite Eq, Er; reflexivity).
    rewrite Hout. f_equal. exact (Hsame _ Hout).
Qed.

Lemma align_edges_witness :
  alignParsedCategoriesWithDataset (JObj [("rules", JArr [rule_R1; JNull])]) ["Meals"]
  = Throw TypeError /\
  alignParsedCategoriesWithDataset (doc_meals "meals" "amount > 50") []
  = Ok (doc_meals "meals" "amount > 50").
Proof.
  split.
  - apply (proj1 (proj2 (align_edges ["Meals"] (JObj [("rules", JArr [rule_R1; JNull])])))
             [rule_R1; JNull] eq_refl eq_refl).
    right. left. reflexivity.
  - apply (proj2 (proj2 (proj2 (align_edges [] (doc_meals "meals" "amount > 50")))
             _ eq_refl eq_refl eq_refl)).
    + intros [H|[]]. discriminate H.
    + reflexivity.
Defined.

(** ** Parentheses and the loose amount pattern *)

Section Parentheses.

Lemma last_char_snoc_paren (c : string) : last_char (c ++ ")") = Some ")"%char.
Proof. apply (last_char_snoc c ")"%char). Qed.

Lemma strip_parens_fixed_head (c : string) :
  strip_parens c = c -> match c with String "(" _ => False | _ => True end.
Proof.
  intros H. destruct c as [|x r]; [exact I|].
  destruct (Ascii.eqb_spec x "(") as [->|Hx].
  - exfalso. unfold strip_parens in H.
    assert (Hlen : (String.length (match last_char r with
                                   | Some ")"%char => drop_last r
                                   | _ => r
                                   end) <= String.length r)%nat).
    { destruct (last_char r) as [[[] [] [] [] [] [] [] []]|]; try lia.
      clear. induction r as [|y r IH]; [simpl; lia|].
      destruct r; simpl in *; lia. }
    rewrite H in Hlen. simpl in Hlen. lia.
  - destruct x as [[] [] [] [] [] [] [] []]; try exact I. now destruct Hx.
Qed.

Lemma strip_parens_head (c : string) :
  strip_parens c = c ->
  match c with String "(" r => r | _ => c end = c.
Proof.
  intros H. pose proof (strip_parens_fixed_head c H) as Hh.
  destruct c as [|x r]; [reflexivity|].
  destruct x as [[] [] [] [] [] [] [] []]; try reflexivity. contradiction.
Qed.

Lemma strip_parens_open (c : string) :
  strip_parens c = c -> strip_parens (String "(" c) = c.
Proof.
  intros H. pose proof (strip_parens_head c H) as Hh.
  unfold strip_parens in *. now rewrite Hh in H.
Qed.

Lemma strip_parens_close (c : string) :
  strip_parens c = c -> strip_parens (c ++ ")") = c.
Proof.
  intros H. pose proof (strip_parens_fixed_head c H) as Hh.
  unfold strip_parens.
  assert (E : match c ++ ")" with String "(" r => r | _ => c ++ ")" end = c ++ ")").
  { destruct c as [|x r]; [reflexivity|].
    destruct x as [[] [] [] [] [] [] [] []]; try reflexivity. contradiction. }
  rewrite E, last_char_snoc_paren. apply (drop_last_snoc c ")"%char).
Qed.

End Parentheses.

(** X23. One opening parenthesis at the start of a clause and one closing
    parenthesis at its end are ignored, together or each alone: a clause
    that has neither evaluates the same with them added. *)
Theorem parentheses_around_clause (tx : option props) (andOk : bool) (c : string) :
  strip_parens c = c ->
  eval_clause tx andOk ("(" ++ c ++ ")") = eval_clause tx andOk c /\
  eval_clause tx andOk ("(" ++ c) = eval_clause tx andOk c /\
  eval_clause tx andOk (c ++ ")") = eval_clause tx andOk c.
Proof.
  intros H.
  assert (H1 : strip_parens ("(" ++ c ++ ")") = c).
  { change ("(" ++ c ++ ")") with (String "(" (c ++ ")")).
    unfold strip_parens. rewrite last_char_snoc_paren.
    apply (drop_last_snoc c ")"%char). }
  assert (H2 : strip_parens ("(" ++ c) = c) by now apply strip_parens_open.
  assert (H3 : strip_parens (c ++ ")") = c) by now apply strip_parens_close.
  unfold eval_clause. now rewrite H, H1, H2, H3.
Qed.

Lemma parentheses_around_clause_witness :
  eval_clause (Some [("amount", JNum (JSNumber.Dec 7 0))]) true "(amount > 5)"
  = eval_clause (Some [("amount", JNum (JSNumber.Dec 7 0))]) true "amount > 5".
Proof.
  apply (proj1 (parentheses_around_clause
                  (Some [("amount", JNum (JSNumber.Dec 7 0))]) true "amount > 5" eq_refl)).
Defined.

Section Loose.

Abbreviation is_letter := (fun c : ascii => is_lower c || is_upper c).

Variable N : string.
Hypothesis HN : forallb_str is_digit N = true.
Hypothesis HNne : N <> EmptyString.

Let tail : string := " amount > " ++ N.

Lemma letter_facts (x : ascii) :
  is_letter x = true ->
  is_space x = false /\ is_ident_start x = true /\ is_word x = true /\
  Ascii.eqb x "(" = false /\ Ascii.eqb x ">" = false /\ Ascii.eqb x "=" = false /\
  Ascii.eqb x "!" = false /\ Ascii.eqb x "<" = false.
Proof.
  destruct x as [[] [] [] [] [] [] [] []]; intros H; try discriminate H;
    repeat split; reflexivity.
Qed.

(** After [amount], read inside a word, comes the rest of the word. *)
Lemma strip_amount_in_word (w r1 : string) :
  forallb_str is_letter w = true ->
  strip_prefix_ci "amount" (w ++ tail) = Some r1 ->
  exists w2, forallb_str is_letter w2 = true /\ r1 = w2 ++ tail.
Proof.
  intros Hw. unfold tail.
  do 6 (destruct w as [|? w]; [discriminate|];
        cbn [String.append strip_prefix_ci forallb_str] in *;
        apply andb_prop in Hw as [_ Hw];
        match goal with |- context [if ?b then _ else _] => destruct b end;
        [|discriminate]).
  intros [= <-]. now exists w.
Qed.

Lemma no_operator_at_letter (x : ascii) (r : string) (ops : list string)
    {A : Type} (k : string -> string -> option A) :
  is_letter x = true ->
  Forall (fun op => match op with
                    | String p _ => is_letter p = false
                    | EmptyString => False
                    end) ops ->
  alt ops (String x r) k = None.
Proof.
  intros Hx Hops. induction Hops as [|op ops Hop _ IH]; [reflexivity|].
  cbn [alt]. destruct op as [|p op']; [contradiction|].
  cbn [String.prefix].
  destruct (ascii_dec p x) as [->|_]; [congruence|]. exact IH.
Qed.

Lemma after_word_starts_letter (w2 : string) :
  forallb_str is_letter w2 = true ->
  exists x r, skip_spaces (w2 ++ tail) = String x r /\ is_letter x = true.
Proof.
  intros Hw. destruct w2 as [|y w2].
  - exists "a"%char, ("mount > " ++ N). split; reflexivity.
  - simpl in Hw. apply andb_prop in Hw as [Hy _].
    exists y, (w2 ++ tail). split; [|exact Hy].
    change (String y w2 ++ tail) with (String y (w2 ++ tail)).
    rewrite skip_spaces_cons. now rewrite (proj1 (letter_facts y Hy)).
Qed.

Lemma loose_here_in_word (x : ascii) (w : string) :
  forallb_str is_letter (String x w) = true ->
  loose_here (String x w ++ tail) = None.
Proof.
  intros Hw. unfold loose_here.
  destruct (strip_prefix_ci "amount" (String x w ++ tail)) as [r1|] eqn:E; [|reflexivity].
  destruct (strip_amount_in_word _ _ Hw E) as (w2 & Hw2 & ->).
  destruct (after_word_starts_letter w2 Hw2) as (y & r & -> & Hy).
  destruct (letter_facts y Hy) as (_ & _ & _ & _ & Hgt & _).
  destruct y as [[] [] [] [] [] [] [] []]; try reflexivity; discriminate Hgt.
Qed.

Lemma match_loose_after_word (w : string) :
  forallb_str is_letter w = true -> match_loose (w ++ tail) = Some N.
Proof.
  induction w as [|x w IH]; intros Hw.
  - unfold tail. cbn [String.append match_loose].
    change (loose_here (String " " ("amount > " ++ N))) with (@None string).
    cbn [match_loose]. unfold loose_here. cbn [String.append strip_prefix_ci char_ci].
    simpl. repeat (rewrite skip_spaces_cons; simpl).
    rewrite (skip_spaces_digits N HN HNne).
    unfold number_text. rewrite (span_all _ _ HN).
    destruct N; [contradiction | reflexivity].
  - change (String x w ++ tail) with (String x (w ++ tail)).
    cbn [match_loose].
    change (String x (w ++ tail)) with (String x w ++ tail).
    rewrite (loose_here_in_word x w Hw).
    simpl in Hw. apply andb_prop in Hw as [_ Hw]. now apply IH.
Qed.

Lemma match_amount_after_word (x : ascii) (w : string) :
  forallb_str is_letter (String x w) = true ->
  match_amount (String x w ++ tail) = None.
Proof.
  intros Hw. unfold match_amount.
  destruct (strip_prefix_ci "amount" (String x w ++ tail)) as [r1|] eqn:E; [|reflexivity].
  destruct (strip_amount_in_word _ _ Hw E) as (w2 & Hw2 & ->).
  destruct (after_word_starts_letter w2 Hw2) as (y & r & -> & Hy).
  apply no_operator_at_letter; [exact Hy|]. repeat constructor.
Qed.

Lemma match_field_after_word (x : ascii) (w : string) :
  forallb_str is_letter (String x w) = true ->
  match_field (String x w ++ tail) = None.
Proof.
  intros Hw. simpl in Hw. apply andb_prop in Hw as [Hx Hw].
  change (String x w ++ tail) with (String x (w ++ tail)).
  unfold match_field. rewrite (proj1 (proj2 (letter_facts x Hx))).
  assert (Hword : forallb_str is_word w = true).
  { clear -Hw. induction w as [|y w IH]; [reflexivity|].
    simpl in *. apply andb_prop in Hw as [Hy Hw].
    now rewrite (proj1 (proj2 (proj2 (letter_facts y Hy)))), IH. }
  unfold tail. rewrite (span_app is_word w _ Hword) by reflexivity.
  change (skip_spaces (" amount > " ++ N)) with (skip_spaces (String " " ("amount > " ++ N))).
  rewrite skip_spaces_cons. cbn [is_space code N_of_ascii N_of_digits].
  change (skip_spaces ("amount > " ++ N)) with (skip_spaces (String "a" ("mount > " ++ N))).
  rewrite skip_spaces_cons. reflexivity.
Qed.

End Loose.

(** X24. The loose amount pattern: a clause made of a word of letters, a
    space and [amount > N], with N an integer of at most 15 digits, such as
    [total amount > 100], is matched by neither of the two exact patterns
    and is evaluated as [amount > N]: the comparison of
    [Number(tx.amount || 0)] with N, when that amount is a numeral of at
    most 15 significant digits, NaN or an infinity.  An amount that cannot
    be converted makes the evaluation throw. *)
Theorem loose_amount_clause (w : string) (n : N) (o : props) (andOk : bool) :
  w <> EmptyString ->
  forallb_str (fun c => is_lower c || is_upper c) w = true ->
  (n < 10 ^ 15)%N ->
  let clause := w ++ " amount > " ++ JSNumber.string_of_N n in
  match_amount clause = None /\
  match_field clause = None /\
  (forall a, amount_of (Some o) = Ok a -> JSNumber.exact a = true ->
     eval_clause (Some o) andOk clause
     = Ok (andOk && JSNumber.gtb a (JSNumber.Dec (Z.of_N n) 0))) /\
  (forall e, amount_of (Some o) = Throw e ->
     eval_clause (Some o) andOk clause = Throw e).
Proof.
  intros Hne Hw _. cbv zeta.
  set (N := JSNumber.string_of_N n).
  assert (HN : forallb_str is_digit N = true) by apply string_of_N_digits.
  assert (HNne : N <> EmptyString) by apply string_of_N_nonempty.
  assert (Hnum : JSNumber.of_string N = JSNumber.Dec (Z.of_N n) 0).
  { unfold N. rewrite <- (N2Z.id n) at 1. apply of_string_integer. lia. }
  clearbody N.
  destruct w as [|x w]; [contradiction|].
  pose proof (match_amount_after_word N x w Hw) as Ha.
  pose proof (match_field_after_word N x w Hw) as Hf.
  pose proof (match_loose_after_word N HN HNne (String x w) Hw) as Hl.
  split; [exact Ha|]. split; [exact Hf|].
  destruct (forallb_str_last is_digit N HN HNne) as (d & Hd & Hdd).
  assert (Hlast : last_char (" amount > " ++ N) = Some d).
  { change (" amount > " ++ N) with (String " " ("amount > " ++ N)).
    rewrite last_char_cons by discriminate.
    change ("amount > " ++ N) with ("amount >" ++ String " " N).
    rewrite last_char_app by discriminate.
    rewrite last_char_cons by exact HNne. exact Hd. }
  pose proof Hw as Hw'. simpl in Hw'. apply andb_prop in Hw' as [Hx _].
  destruct (letter_facts x Hx) as (Hsp & _ & _ & Hpar & _).
  assert (Hp : strip_parens (String x w ++ " amount > " ++ N)
               = String x w ++ " amount > " ++ N).
  { apply (strip_parens_between x d w (" amount > " ++ N));
      [exact Hpar | exact Hlast | apply (digit_facts d Hdd)]. }
  assert (Ht : trim (String x w ++ " amount > " ++ N)
               = String x w ++ " amount > " ++ N).
  { apply (trim_between x d w (" amount > " ++ N));
      [exact Hsp | exact Hlast | apply (digit_facts d Hdd)]. }
  assert (E : eval_clause (Some o) andOk (String x w ++ " amount > " ++ N)
              = a ← amount_of (Some o);
                Ok (if negb (JSNumber.gtb a (JSNumber.Dec (Z.of_N n) 0))
                    then false else andOk)).
  { unfold eval_clause. now rewrite Hp, Ht, Ha, Hf, Hl, Hnum. }
  split.
  - intros a Ea _. rewrite E, Ea. cbn [mbind result_bind]. f_equal.
    destruct (JSNumber.gtb _ _); cbn [negb];
      [now rewrite andb_true_r | now rewrite andb_false_r].
  - intros e Ee. now rewrite E, Ee.
Qed.

Lemma loose_amount_clause_witness :
  eval_clause (Some [("amount", JStr "120.5")]) true
    ("total" ++ " amount > " ++ JSNumber.string_of_N 100)
  = Ok true /\
  eval_clause (Some [("amount", JObj [("toString", JNum (JSNumber.Dec 1 0))])]) true
    ("total" ++ " amount > " ++ JSNumber.string_of_N 100)
  = Throw TypeError.
Proof.
  split.
  - apply (proj1 (proj2 (proj2 (loose_amount_clause "total" 100
                           [("amount", JStr "120.5")] true
                           ltac:(discriminate) eq_refl eq_refl)))
             (JSNumber.Dec 1205 (-1)) eq_refl eq_refl).
  - apply (proj2 (proj2 (proj2 (loose_amount_clause "total" 100
                           [("amount", JObj [("toString", JNum (JSNumber.Dec 1 0))])] true
                           ltac:(discriminate) eq_refl eq_refl)))
             TypeError eq_refl).
Defined.

(** ** Alignment, then synthesis, then evaluation *)

Section Pipeline.

(** The properties of the object that [alloc_json] builds for a plain
    object: a text or a number is held as it is, a missing property is
    missing. *)
Lemma alloc_fields (fs : props) (h : heap) :
  exists vs ext,
    (fix go (o : props) : M (list (string * value)) :=
       match o with
       | [] => mret []
       | (k, x) :: r => v ← alloc_json x; fs ← go r; mret ((k, v) :: fs)
       end) fs h = (Ok vs, (h ++ ext)%list) /\
    forall k,
      match assoc k fs with
      | None => assoc k vs = None
      | Some (JStr x) => assoc k vs = Some (VStr x)
      | Some (JNum n) => assoc k vs = Some (VNum n)
      | Some _ => True
      end.
Proof.
  revert h. induction fs as [|[k0 x] r IH]; intros h.
  - exists [], []. split; [now rewrite app_nil_r | reflexivity].
  - destruct (alloc_json_appends x h) as (v & e1 & E1).
    destruct (IH (h ++ e1)%list) as (vs & e2 & E2 & Hvs).
    exists ((k0, v) :: vs), (e1 ++ e2)%list.
    split; [rewrite (bind_ok _ _ _ _ _ E1), (bind_ok _ _ _ _ _ E2), app_assoc; reflexivity|].
    intros k. cbn [assoc]. destruct (String.eqb k k0); [|apply Hvs].
    destruct x; try exact I; simpl in E1; injection E1 as <- _; reflexivity.
Qed.

Lemma alloc_object_get (fs : props) (h : heap) :
  exists p h1,
    alloc_json (JObj fs) h = (Ok p, h1) /\
    forall k,
      match assoc k fs with
      | None => get h1 p k = Ok VUndef
      | Some (JStr x) => get h1 p k = Ok (VStr x)
      | Some (JNum n) => get h1 p k = Ok (VNum n)
      | Some _ => True
      end.
Proof.
  destruct (alloc_fields fs h) as (vs & ext & E & Hvs).
  exists (VRef (List.length (h ++ ext)%list)), ((h ++ ext) ++ [Obj vs])%list.
  split; [simpl; now rewrite (bind_ok _ _ _ _ _ E)|].
  intros k. specialize (Hvs k). rewrite get_new_object.
  destruct (assoc k fs) as [[| | n | x | | |]|]; try exact I; now rewrite Hvs.
Qed.

End Pipeline.

(** X25. From the policy to the check, end to end.  Take a rule with a
    category text, a threshold T that is a non-negative integer of at most
    15 digits, and no condition, and a dataset whose categories differ by
    more than letter case and hold one, C, that equals the rule's category
    but for case and outer white space.  Alignment gives the rule the
    category C; the condition then synthesised for the aligned rule is
    [category == 'C' and amount > T]; and, C holding no line terminator and
    no word [and] or [or] set off by white space, a rule with that
    condition evaluates on a transaction as follows.  When
    [String(tx.category ?? '')] is not C the result is false, the amount not
    being read; when it is C, the result is whether
    [Number(tx.amount || 0)] exceeds T, for an amount that is a numeral of
    at most 15 significant digits, NaN or an infinity; and a category or,
    the category being C, an amount that cannot be converted makes the
    evaluation throw. *)
Theorem aligned_rule_checks_dataset_category (cats : list string) (fs : props)
    (s c : string) (m : Z) :
  assoc "category" fs = Some (JStr s) ->
  assoc "threshold" fs = Some (JNum (JSNumber.Dec m 0)) ->
  assoc "condition" fs = None ->
  In c cats -> NoDup (map toLowerCase cats) ->
  toLowerCase c = toLowerCase (trim s) ->
  trim s <> EmptyString ->
  inherited (toLowerCase (trim s)) = false ->
  no_line_terminator c = true ->
  token_free "or" c = true -> token_free "and" c = true ->
  0 <= m -> (String.length (JSNumber.string_of_N (Z.to_N m)) <= 15)%nat ->
  exists fs',
    align_rule cats (JObj fs) = Ok (JObj fs') /\
    assoc "category" fs' = Some (JStr c) /\
    (forall h, exists p h1,
       alloc_json (JObj fs') h = (Ok p, h1) /\
       synthRuleCondition h1 p
       = Ok (VStr (synthesized_condition c (JSNumber.string_of_N (Z.to_N m))))) /\
    (forall rule o,
       member rule "condition"
       = Some (JStr (synthesized_condition c (JSNumber.string_of_N (Z.to_N m)))) ->
       (forall cat, field_of (Some o) "category" = Ok cat -> cat <> c ->
          evaluateRuleAgainstTx rule (Some o) = Ok false) /\
       (forall a, field_of (Some o) "category" = Ok c ->
          amount_of (Some o) = Ok a -> JSNumber.exact a = true ->
          evaluateRuleAgainstTx rule (Some o)
          = Ok (JSNumber.gtb a (JSNumber.Dec m 0))) /\
       (forall e, field_of (Some o) "category" = Throw e ->
          evaluateRuleAgainstTx rule (Some o) = Throw e) /\
       (forall e, field_of (Some o) "category" = Ok c ->
          amount_of (Some o) = Throw e ->
          evaluateRuleAgainstTx rule (Some o) = Throw e)).
Proof.
  intros Hcat Hthr Hcond Hin Hnd Hlow Hne Hinh Hlt Hor Hand Hm Hlen15.
  assert (Hlen : (String.length (JSNumber.string_of_N (Z.to_N m)) <= 21)%nat) by lia.
  rewrite <- (to_string_integer m Hm Hlen).
  assert (Hs : s <> EmptyString) by (intros ->; now apply Hne).
  assert (Hc : c <> EmptyString).
  { intros ->. apply Hne. apply toLowerCase_empty. now rewrite <- Hlow. }
  assert (Hmap : mapCategory cats (JStr s) = Ok (JStr c)).
  { unfold mapCategory. cbn [Json.truthy Json.to_string].
    destruct s as [|x s']; [contradiction|]. cbn [is_empty negb]. cbv iota.
    cbn [Coerce.string_of Coerce.convertible Json.to_string mbind result_bind].
    destruct (trim (String x s')) as [|y t] eqn:Et; [contradiction|].
    cbn [is_empty]. cbv iota.
    rewrite (lowerMap_get_own cats _ Hinh), <- Hlow.
    rewrite (last_with_nodup c cats Hnd Hin).
    - cbn [fmap option_fmap option_map Json.truthy].
      destruct c; [contradiction | reflexivity].
    - intros Hp. rewrite <- Hlow, Hp in Hinh. discriminate Hinh. }
  exists (set_prop fs "category" (JStr c)).
  assert (Hc1 : assoc "category" (set_prop fs "category" (JStr c)) = Some (JStr c))
    by apply assoc_set_prop_eq.
  assert (Hc2 : assoc "threshold" (set_prop fs "category" (JStr c))
                = Some (JNum (JSNumber.Dec m 0)))
    by (rewrite assoc_set_prop_ne by discriminate; exact Hthr).
  assert (Hc3 : assoc "condition" (set_prop fs "category" (JStr c)) = None)
    by (rewrite assoc_set_prop_ne by discriminate; exact Hcond).
  split; [|split; [exact Hc1|split]].
  - cbn [align_rule]. unfold assign_category.
    rewrite (get_prop_own fs "category" eq_refl), Hcat. cbn [Json.truthy].
    destruct s; [contradiction|]. cbn [is_empty negb]. rewrite Hmap.
    cbn [mbind result_bind]. unfold assign_condition.
    now rewrite (get_prop_own _ "condition" eq_refl), Hc3.
  - intros h.
    destruct (alloc_object_get (set_prop fs "category" (JStr c)) h)
      as (p & h1 & Ea & Hget).
    exists p, h1. split; [exact Ea|].
    pose proof (Hget "category") as G1. rewrite Hc1 in G1.
    pose proof (Hget "threshold") as G2. rewrite Hc2 in G2.
    pose proof (Hget "condition") as G3. rewrite Hc3 in G3.
    apply (synth_produces h1 p VUndef (VNum (JSNumber.Dec m 0)) c (JSNumber.Dec m 0));
      try assumption; reflexivity.
  - intros rule o Hrule.
    pose proof (evaluate_synthesized c m Hlt Hor Hand Hm Hlen rule (Some o) Hrule) as E.
    split; [|split; [|split]].
    + intros cat Hf Hneq. rewrite E, Hf. cbn [mbind result_bind].
      destruct (String.eqb_spec cat c); [contradiction | reflexivity].
    + intros a Hf Ha _. rewrite E, Hf. cbn [mbind result_bind].
      now rewrite String.eqb_refl, Ha.
    + intros e Hf. now rewrite E, Hf.
    + intros e Hf Ha. rewrite E, Hf. cbn [mbind result_bind].
      now rewrite String.eqb_refl, Ha.
Qed.

Lemma aligned_rule_checks_dataset_category_witness :
  exists fs',
    align_rule ["Travel"; "Meals"]
      (JObj [("name", JStr "Meal limit"); ("category", JStr "meals");
             ("threshold", JNum (JSNumber.Dec 50 0))]) = Ok (JObj fs') /\
    assoc "category" fs' = Some (JStr "Meals") /\
    evaluateRuleAgainstTx (JObj [("condition", JStr "category == 'Meals' and amount > 50")])
      (Some [("category", JStr "Meals"); ("amount", JStr "80.25")])
    = Ok true /\
    evaluateRuleAgainstTx (JObj [("condition", JStr "category == 'Meals' and amount > 50")])
      (Some [("category", JStr "Travel"); ("amount", JNum (JSNumber.Dec 80 0))])
    = Ok false.
Proof.
  destruct (aligned_rule_checks_dataset_category ["Travel"; "Meals"]
              [("name", JStr "Meal limit"); ("category", JStr "meals");
               ("threshold", JNum (JSNumber.Dec 50 0))] "meals" "Meals" 50)
    as (fs' & H1 & H2 & _ & H4); try reflexivity.
  - right. left. reflexivity.
  - repeat constructor; set_solver.
  - discriminate.
  - lia.
  - vm_compute. lia.
  - exists fs'. split; [exact H1|]. split; [exact H2|]. split.
    + apply (proj1 (proj2 (H4 (JObj [("condition", JStr "category == 'Meals' and amount > 50")])
                             [("category", JStr "Meals"); ("amount", JStr "80.25")] eq_refl))
               (JSNumber.Dec 8025 (-2)) eq_refl eq_refl eq_refl).
    + apply (proj1 (H4 (JObj [("condition", JStr "category == 'Meals' and amount > 50")])
                      [("category", JStr "Travel"); ("amount", JNum (JSNumber.Dec 80 0))]
                      eq_refl) "Travel" eq_refl).
      discriminate.
Defined.

(** * The data source of training and scoring *)

Import DataSource.

(** X26. [train] and [score] read the same data.  Whenever [score] sends a
    request, [train] in the same state names the same source in its own
    (when its check of [max_rows] lets it through), and the source is the
    dataset path or a database query, never nothing; an explicit selection
    is kept: with [csv] the request names the dataset path that is set, with
    [db] a query, and rows are then loaded.  The two differ in one state
    only: with [auto], no dataset path and no rows loaded, [score] returns
    without a request while [train] sends one that names no data.  Three
    presses of the source button come back to the selection. *)
Theorem train_and_score_same_source :
  forall sel ds txTotal,
    (forall s, score_source sel ds txTotal = Some s ->
       train_source sel ds txTotal = Some s /\
       s <> Nothing /\
       (sel = csv -> exists p, ds = Some p /\ p <> EmptyString /\ s = Dataset p) /\
       (sel = db -> s = Query /\ rows_loaded txTotal = true)) /\
    (score_source sel ds txTotal = None ->
       train_source sel ds txTotal = None \/
       (train_source sel ds txTotal = Some Nothing /\
        sel = auto /\ path_set ds = false /\ rows_loaded txTotal = false)) /\
    (forall s, train_source sel ds txTotal = Some s -> s <> Nothing ->
       score_source sel ds txTotal = Some s) /\
    toggleDataSource (toggleDataSource (toggleDataSource sel)) = sel /\
    toggleDataSource sel <> sel.
Proof.
  intros sel ds txTotal.
  assert (Hp : forall p, negb (is_empty p) = true -> p <> EmptyString).
  { intros p H ->. discriminate H. }
  split; [|split; [|split; [|split]]].
  - intros s. unfold score_source, train_source.
    destruct sel, ds as [p|]; cbn [path_set negb andb orb];
      try (destruct (negb (is_empty p)) eqn:Ep; cbn [negb andb orb]);
      destruct (rows_loaded txTotal) eqn:Er; cbn [negb andb orb];
      intros Hs; try discriminate Hs; injection Hs as <-;
      (split; [reflexivity | split; [discriminate | split]]);
      try (intros [=]); try (intros _);
      try (split; reflexivity);
      try (exists p; split; [reflexivity | split; [apply Hp; exact Ep | reflexivity]]).
  - unfold score_source, train_source.
    destruct sel, ds as [p|]; cbn [path_set negb andb orb];
      try (destruct (negb (is_empty p)) eqn:Ep; cbn [negb andb orb]);
      destruct (rows_loaded txTotal) eqn:Er; cbn [negb andb orb];
      intros Hs; try discriminate Hs;
      try (left; reflexivity);
      right; repeat split; reflexivity.
  - intros s. unfold score_source, train_source.
    destruct sel, ds as [p|]; cbn [path_set negb andb orb];
      try (destruct (negb (is_empty p)) eqn:Ep; cbn [negb andb orb]);
      destruct (rows_loaded txTotal) eqn:Er; cbn [negb andb orb];
      intros Hs Hn; try discriminate Hs; injection Hs as <-;
      try reflexivity; now elim Hn.
  - now destruct sel.
  - now destruct sel.
Qed.

Lemma train_and_score_same_source_witness :
  score_source auto (Some "data/tx.csv") (JSNumber.Dec 120 0)
    = Some (Dataset "data/tx.csv") /\
  train_source auto (Some "data/tx.csv") (JSNumber.Dec 120 0)
    = Some (Dataset "data/tx.csv").
Proof.
  split; [reflexivity|].
  exact (proj1 (proj1 (train_and_score_same_source auto (Some "data/tx.csv")
                         (JSNumber.Dec 120 0)) _ eq_refl)).
Defined.

(** * The parser's response in [parsePolicyText] and [onFile] *)

Section Receive.

Import Store Normalizer Aligner Spec Receiver.

(** The values allocated for the elements of an array: [null] stays
    [null]. *)
Lemma alloc_elems_null (l : list json) (h : heap) :
  exists vs ext,
    (fix go (l : list json) : M (list value) :=
       match l with
       | [] => mret []
       | x :: r => v ← alloc_json x; vs ← go r; mret (v :: vs)
       end) l h = (Ok vs, (h ++ ext)%list) /\
    (In JNull l -> Exists (fun x => is_nullish x = true) vs).
Proof.
  revert h. induction l as [|x r IH]; intros h.
  - exists [], []. split; [now rewrite app_nil_r | contradiction].
  - destruct (alloc_json_appends x h) as (v & e1 & E1).
    destruct (IH (h ++ e1)%list) as (vs & e2 & E2 & Hn).
    exists (v :: vs), (e1 ++ e2)%list.
    split; [rewrite (bind_ok _ _ _ _ _ E1), (bind_ok _ _ _ _ _ E2), app_assoc; reflexivity|].
    intros [->|Hin].
    + simpl in E1. injection E1 as <- _. now constructor.
    + constructor 2. now apply Hn.
Qed.

Lemma alloc_array_null (l : list json) (h : heap) :
  exists v ext vs,
    alloc_json (JArr l) h = (Ok v, (h ++ ext)%list) /\
    array_elems (h ++ ext)%list v = Some vs /\
    (In JNull l -> Exists (fun x => is_nullish x = true) vs).
Proof.
  destruct (alloc_elems_null l h) as (vs & ext & E & Hn).
  exists (VRef (List.length (h ++ ext)%list)), (ext ++ [Arr vs])%list, vs.
  split; [simpl; rewrite (bind_ok _ _ _ _ _ E); unfold alloc; now rewrite app_assoc|].
  split; [|exact Hn].
  unfold array_elems. rewrite app_assoc. now rewrite list_lookup_middle.
Qed.

(** The object allocated for a tree whose [rules] is an array with a
    [null] entry. *)
Lemma alloc_rules_null (o : props) (rules : list json) (h : heap) :
  assoc "rules" o = Some (JArr rules) ->
  In JNull rules ->
  exists p h1 rv es,
    alloc_json (JObj o) h = (Ok p, h1) /\
    typeof_object p = true /\
    get h1 p "rules" = Ok rv /\
    array_elems h1 rv = Some es /\
    Exists (fun x => is_nullish x = true) es.
Proof.
  intros Ho Hnull.
  assert (Hgo : forall h, exists fs ext rv es,
            (fix go (o : props) : M (list (string * value)) :=
               match o with
               | [] => mret []
               | (k, x) :: r => v ← alloc_json x; fs ← go r; mret ((k, v) :: fs)
               end) o h = (Ok fs, (h ++ ext)%list) /\
            assoc "rules" fs = Some rv /\
            array_elems (h ++ ext)%list rv = Some es /\
            Exists (fun x => is_nullish x = true) es).
  { clear h. induction o as [|[k x] r IHr]; intros h; [discriminate|].
    cbn [assoc] in Ho. destruct (String.eqb "rules" k) eqn:Ek.
    - injection Ho as ->.
      destruct (alloc_array_null rules h) as (v & e1 & es & E1 & A1 & N1).
      destruct (alloc_fields r (h ++ e1)%list) as (fs & e2 & E2 & _).
      exists ((k, v) :: fs), (e1 ++ e2)%list, v, es.
      rewrite (bind_ok _ _ _ _ _ E1), (bind_ok _ _ _ _ _ E2), app_assoc.
      split; [reflexivity|]. split; [cbn [assoc]; now rewrite Ek|].
      split; [now apply array_elems_app | now apply N1].
    - destruct (alloc_json_appends x h) as (v & e1 & E1).
      destruct (IHr Ho (h ++ e1)%list) as (fs & e2 & rv & es & E2 & Hfs & Harr & Hex).
      exists ((k, v) :: fs), (e1 ++ e2)%list, rv, es.
      rewrite (bind_ok _ _ _ _ _ E1), (bind_ok _ _ _ _ _ E2), app_assoc.
      split; [reflexivity|]. split; [cbn [assoc]; now rewrite Ek|]. now split. }
  destruct (Hgo h) as (fs & ext & rv & es & E & Hfs & Harr & Hex).
  exists (VRef (List.length (h ++ ext)%list)), ((h ++ ext) ++ [Obj fs])%list, rv, es.
  split; [simpl; now rewrite (bind_ok _ _ _ _ _ E)|].
  split; [reflexivity|]. split; [|split; [now apply array_elems_app | exact Hex]].
  rewrite get_new_object. now rewrite Hfs.
Qed.

(** A response whose [rules] hold [null] is not normalised. *)
Lemma normalize_null_throws (h : heap) (resp rules : value) (es : list value) :
  typeof_object resp = true ->
  get h resp "rules" = Ok rules ->
  array_elems h rules = Some es ->
  Exists (fun x => is_nullish x = true) es ->
  fst (normalizeParserResponse resp h) = Throw TypeError.
Proof.
  intros Ht Hr Ha Hex.
  assert (Htr : Store.truthy resp = true).
  { destruct resp; try discriminate Ht; [discriminate Hr | reflexivity]. }
  assert (Hf : find_document resp h = (Ok (Some resp), h)).
  { apply (find_document_shaped h resp rules Ht Hr). unfold isArray. now rewrite Ha. }
  rewrite (normalize_found h h resp resp Htr Hf).
  unfold mbind, M_bind.
  rewrite (synthesize_conditions_eq h resp rules es Hr Ha).
  pose proof (proj1 (synth_loop_nullish es h) Hex) as Hbad.
  destruct (synth_loop es h) as [[[]|e] h1]; simpl in Hbad;
    [discriminate Hbad | simpl; congruence].
Qed.

(** Alignment leaves a response with a [null] rule as it is. *)
Lemma aligned_null_rule (ds : option string) (cats : result json) (o : props)
    (rules : list json) :
  json_data (JObj o) = true ->
  member (JObj o) "rules" = Some (JArr rules) ->
  In JNull rules ->
  aligned ds cats (JObj o) = JObj o.
Proof.
  intros Hd Hm Hn. unfold aligned.
  destruct (_ && _ && _ && _); [|reflexivity].
  destruct cats as [c|e]; [|reflexivity]. cbn [mbind result_bind].
  destruct (category_texts c) as [l|e]; [|reflexivity]. cbn [mbind result_bind].
  unfold alignParsedCategoriesWithDataset. cbn [Json.truthy]. rewrite Hm.
  rewrite (clone_json_data _ Hd), Hm, (align_rules_null l rules Hn).
  reflexivity.
Qed.

End Receive.

(** X27. What becomes of the parser's response in [parsePolicyText] and
    [onFile].  The rule document is replaced only together with the error
    being cleared, and an error leaves the document that was there.  Every
    object that was in the store before is still there, with at most a
    condition set.  The alignment is not fatal: without a dataset path, or
    when the categories request fails or answers something truthy that is
    not an array, the response is taken as it came.  And a response, of
    finite JSON data, that is an object whose [rules] array holds a [null]
    is refused with the engine's TypeError, whatever the dataset: the
    alignment throws on it and is skipped, then the normaliser throws. *)
Theorem receive_outcomes (ds : option string) (cats : result json)
    (response : result json) (st : Receiver.state) (h : list Store.object) :
  let st' := fst (Receiver.receive ds cats response st h) in
  let h' := snd (Receiver.receive ds cats response st h) in
  ((Receiver.parsedJsonError st' = None /\ exists d, Receiver.rulesDoc st' = Some d) \/
   ((exists n, Receiver.parsedJsonError st' = Some n) /\
    Receiver.rulesDoc st' = Receiver.rulesDoc st)) /\
  Spec.frame h h' /\
  (DataSource.path_set ds = false \/
   (exists e, cats = Throw e) \/
   (exists c e, cats = Ok c /\ Receiver.category_texts c = Throw e) ->
   Receiver.receive ds cats response st h
   = Receiver.receive None (Throw TypeError) response st h) /\
  (forall o rules,
     response = Ok (JObj o) ->
     Spec.json_data (JObj o) = true ->
     member (JObj o) "rules" = Some (JArr rules) ->
     In JNull rules ->
     st' = {| Receiver.parsedJsonError := Some (Editor.Raised TypeError);
              Receiver.rulesDoc := Receiver.rulesDoc st |}).
Proof.
  cbv zeta. split; [|split; [|split]].
  - unfold Receiver.receive. destruct response as [j|e].
    + destruct ((_ ← Store.alloc_json _; _) h) as [[[d|msg]|e] h1]; cbn [fst].
      * left. split; [reflexivity | now exists d].
      * right. split; [now eexists | reflexivity].
      * right. split; [now eexists | reflexivity].
    + right. split; [now eexists | reflexivity].
  - unfold Receiver.receive. destruct response as [j|e]; [|apply frame_refl].
    assert (Hf : Spec.preserves (resp ← Store.alloc_json (Receiver.aligned ds cats j);
                                 Normalizer.normalizeParserResponse resp)).
    { apply preserves_bind; [apply preserves_alloc_json | intros a; apply preserves_normalize]. }
    specialize (Hf h).
    destruct ((_ ← Store.alloc_json _; _) h) as [[[d|msg]|e] h1]; exact Hf.
  - intros Hskip. unfold Receiver.receive. destruct response as [j|e]; [|reflexivity].
    assert (Ha : Receiver.aligned ds cats j = Receiver.aligned None (Throw TypeError) j).
    { unfold Receiver.aligned at 2. cbn [DataSource.path_set andb].
      unfold Receiver.aligned.
      destruct Hskip as [Hp|[[e ->]|(c & e & -> & Hc)]].
      - now rewrite Hp.
      - now destruct (_ && _ && _ && _).
      - cbn [mbind result_bind]. rewrite Hc. now destruct (_ && _ && _ && _). }
    now rewrite Ha.
  - intros o rules -> Hd Hm Hn. unfold Receiver.receive.
    rewrite (aligned_null_rule ds cats o rules Hd Hm Hn).
    assert (Ho : assoc "rules" o = Some (JArr rules)).
    { cbn [member] in Hm. now rewrite <- (get_prop_own o "rules" eq_refl). }
    destruct (alloc_rules_null o rules h Ho Hn) as (p & h1 & rv & es & E & Ht & Hr & Ha & Hex).
    rewrite (bind_ok _ _ _ _ _ E).
    pose proof (normalize_null_throws h1 p rv es Ht Hr Ha Hex) as Hthrow.
    destruct (Normalizer.normalizeParserResponse p h1) as [[x|e] h2];
      simpl in Hthrow; [discriminate Hthrow|].
    injection Hthrow as ->. reflexivity.
Qed.

Lemma receive_outcomes_witness :
  fst (Receiver.receive (Some "data/tx.csv") (Ok (JArr [JStr "Meals"]))
         (Ok (JObj [("rules", JArr [JNull])]))
         {| Receiver.parsedJsonError := None; Receiver.rulesDoc := None |} [])
  = {| Receiver.parsedJsonError := Some (Editor.Raised TypeError);
       Receiver.rulesDoc := None |}.
Proof.
  refine (proj2 (proj2 (proj2 (receive_outcomes (Some "data/tx.csv")
            (Ok (JArr [JStr "Meals"])) (Ok (JObj [("rules", JArr [JNull])]))
            {| Receiver.parsedJsonError := None; Receiver.rulesDoc := None |} [])))
          [("rules", JArr [JNull])] [JNull] eq_refl eq_refl eq_refl _).
  now left.
Defined.

(** * The filters of the transactions browser *)

Section TxFilters.

Import TxFilter Notions.

Lemma assoc_app {A : Type} (k : string) (a b : list (string * A)) :
  assoc k (a ++ b)%list
  = match assoc k a with Some v => Some v | None => assoc k b end.
Proof.
  induction a as [|[k' v] a IH]; [reflexivity|]. cbn [assoc app].
  now destruct (String.eqb k k').
Qed.

(** The entry of a key among those built for a list of keys. *)
Lemma assoc_built {A : Type} (g : string -> result A) (keys : list string)
    (built : list (string * A)) (k : string) :
  Forall2 (fun a b => (v ← g a; Ok (a, v)) = Ok b) keys built ->
  (In k keys -> exists v, g k = Ok v /\ assoc k built = Some v) /\
  (~ In k keys -> assoc k built = None).
Proof.
  induction 1 as [|a b keys built Hab _ IH]; [split; [contradiction | reflexivity]|].
  destruct (g a) as [v|e] eqn:Eg; [|discriminate Hab].
  injection Hab as <-. cbn [assoc].
  destruct (String.eqb_spec k a) as [->|Hne].
  - split; [intros _; now exists v | intros Hn; elim Hn; now left].
  - split.
    + intros [->|Hin]; [contradiction | now apply IH].
    + intros Hn. apply IH. intros Hin. apply Hn. now right.
Qed.

Lemma values_of_app (k : string) (a b : list (string * string)) :
  values_of k (a ++ b)%list = (values_of k a ++ values_of k b)%list.
Proof. unfold values_of. now rewrite List.filter_app, map_app. Qed.

Lemma values_of_same (k : string) (vs : list string) :
  values_of k (map (pair k) vs) = vs.
Proof.
  unfold values_of. induction vs as [|v vs IH]; [reflexivity|].
  cbn [map List.filter fst]. rewrite String.eqb_refl. cbn [map snd]. now rewrite IH.
Qed.

Lemma values_of_other (k k' : string) (vs : list string) :
  k' <> k -> values_of k (map (pair k') vs) = [].
Proof.
  intros Hne. unfold values_of. induction vs as [|v vs IH]; [reflexivity|].
  cbn [map List.filter fst]. destruct (String.eqb_spec k' k); [contradiction | exact IH].
Qed.

(** The values of a key among the parameters built for a list of distinct
    keys. *)
Lemma values_built (g : string -> result (list string)) (keys : list string)
    (built : list (list (string * string))) (k : string) :
  Forall2 (fun a b => (vs ← g a; Ok (map (pair a) vs)) = Ok b) keys built ->
  List.NoDup keys ->
  (In k keys -> exists vs, g k = Ok vs /\ values_of k (concat built) = vs) /\
  (~ In k keys -> values_of k (concat built) = []).
Proof.
  induction 1 as [|a b keys built Hab _ IH]; intros Hnd;
    [split; [contradiction | reflexivity]|].
  destruct (g a) as [vs|e] eqn:Eg; [|discriminate Hab].
  injection Hab as <-. cbn [concat]. rewrite values_of_app.
  inversion Hnd as [|? ? Hna Hnd']; subst.
  specialize (IH Hnd'). split.
  - intros [->|Hin].
    + exists vs. split; [exact Eg|].
      rewrite values_of_same, (proj2 IH Hna). apply app_nil_r.
    + destruct (proj1 IH Hin) as (ws & Hg & Hw). exists ws. split; [exact Hg|].
      rewrite values_of_other by (intros ->; contradiction). exact Hw.
  - intros Hn. rewrite values_of_other by (intros ->; apply Hn; now left).
    apply IH. intros Hin. apply Hn. now right.
Qed.

Lemma filter_all {A : Type} (p : A -> bool) (l : list A) :
  List.filter p l = l <-> Forall (fun x => p x = true) l.
Proof.
  split.
  - induction l as [|x l IH]; [constructor|]. cbn [List.filter].
    destruct (p x) eqn:Ep.
    + intros H. injection H as H. constructor; [exact Ep | now apply IH].
    + intros H. pose proof (List.filter_length_le p l) as Hle.
      rewrite H in Hle. cbn [List.length] in Hle. lia.
  - induction 1 as [|x l Hx _ IH]; [reflexivity|]. cbn [List.filter]. now rewrite Hx, IH.
Qed.

Lemma appended_texts (l : list string) :
  appended (map JStr l) = Ok (List.filter not_blank l).
Proof.
  induction l as [|s l IH]; [reflexivity|]. cbn [map appended List.filter Json.truthy].
  destruct s as [|c s].
  - exact IH.
  - cbn [is_empty negb]. cbn [Coerce.string_of Coerce.convertible Json.to_string].
    cbn [mbind result_bind]. unfold not_blank at 1.
    destruct (negb (is_empty (trim (String c s)))); [|exact IH].
    rewrite IH. reflexivity.
Qed.

Lemma trimmed_text_of_text (s : string) : trimmed_text (Some (JStr s)) = Ok (trim s).
Proof. now destruct s. Qed.

Lemma assoc_map_keys {A : Type} (f : string -> A) (keys : list string) (k : string) :
  In k keys -> assoc k (map (fun k => (k, f k)) keys) = Some (f k).
Proof.
  induction keys as [|a keys IH]; [contradiction|]. cbn [map assoc].
  destruct (String.eqb_spec k a) as [->|Hne]; [reflexivity|].
  intros [->|Hin]; [contradiction | now apply IH].
Qed.

Lemma list_keys_nodup : List.NoDup list_keys.
Proof.
  unfold list_keys.
  repeat (constructor;
    [cbn [In]; intros H; repeat (destruct H as [H|H]; [discriminate H|]); exact H|]).
  constructor.
Qed.

Lemma scalar_keys_nodup : List.NoDup scalar_keys.
Proof.
  unfold scalar_keys.
  repeat (constructor;
    [cbn [In]; intros H; repeat (destruct H as [H|H]; [discriminate H|]); exact H|]).
  constructor.
Qed.

Lemma keys_apart (k : string) : In k list_keys -> In k scalar_keys -> False.
Proof.
  unfold list_keys, scalar_keys. cbn [In].
  intros H H'. repeat destruct H as [H|H]; try contradiction; subst k;
    repeat destruct H' as [H'|H']; try contradiction; discriminate H'.
Qed.

End TxFilters.

(** X28. The transactions browser and the database query of [train] and
    [score] read the same filters, but for blank entries.  For a list
    filter that holds an array of texts, the query string of
    [loadTransactions] carries the entries that are not blank, in their
    order and untrimmed, while the database query carries the array as it
    is, and no property for an empty array: the two carry the same values
    exactly when no entry is blank.  For a list filter that holds one text,
    both carry its trimmed text, or nothing when it is blank.  For the four
    scalar filters the database query carries the value itself when it is
    truthy, and the query string the trimmed text of a text that is not
    blank. *)
Theorem browse_and_query_filters (txFilter : props) (txSortBy txSortDir : string)
    (q : list (string * option json)) (p : list (string * string)) :
  TxFilter.buildDbQueryFromFilters txFilter txSortBy txSortDir = Ok q ->
  TxFilter.filter_params txFilter = Ok p ->
  (forall k, In k TxFilter.list_keys ->
     (forall l, get_prop txFilter k = Some (JArr (map JStr l)) ->
        Notions.values_of k p = List.filter Notions.not_blank l /\
        assoc k q = Some (if Nat.eqb (List.length l) 0 then None
                          else Some (JArr (map JStr l))) /\
        (Notions.values_of k p = l <-> Forall (fun s => Notions.not_blank s = true) l)) /\
     (forall s, get_prop txFilter k = Some (JStr s) ->
        Notions.values_of k p = (if Notions.not_blank s then [trim s] else []) /\
        assoc k q = Some (if Notions.not_blank s then Some (JArr [JStr (trim s)])
                          else None))) /\
  (forall k, In k TxFilter.scalar_keys ->
     assoc k q = Some (TxFilter.or_undefined (get_prop txFilter k)) /\
     (forall s, get_prop txFilter k = Some (JStr s) ->
        Notions.values_of k p = (if Notions.not_blank s then [trim s] else []))).
Proof.
  intros Hq Hp. unfold TxFilter.buildDbQueryFromFilters in Hq.
  destruct (mapM _ TxFilter.list_keys) as [lists|e] eqn:El in Hq; [|discriminate Hq].
  cbn [mbind result_bind] in Hq.
  set (rest := (map _ TxFilter.scalar_keys ++ _)%list) in Hq.
  injection Hq as <-.
  apply mapM_result in El.
  unfold TxFilter.filter_params in Hp.
  destruct (mapM _ TxFilter.list_keys) as [pl|e] eqn:Epl in Hp; [|discriminate Hp].
  cbn [mbind result_bind] in Hp.
  destruct (mapM _ TxFilter.scalar_keys) as [ps|e] eqn:Eps in Hp; [|discriminate Hp].
  cbn [mbind result_bind] in Hp. injection Hp as <-.
  apply mapM_result in Epl, Eps.
  split.
  - intros k Hk.
    destruct (proj1 (assoc_built (fun k => TxFilter.normList (get_prop txFilter k))
                       _ _ k El) Hk) as (v & Hv & Hassoc).
    destruct (proj1 (values_built (fun k => TxFilter.list_values (get_prop txFilter k))
                       _ _ k Epl list_keys_nodup) Hk) as (vs & Hvs & Hvals).
    pose proof (proj2 (values_built (fun k => TxFilter.scalar_values (get_prop txFilter k))
                         _ _ k Eps scalar_keys_nodup) (keys_apart k Hk)) as Hnone.
    assert (Hp : Notions.values_of k (concat pl ++ concat ps) = vs)
      by (rewrite values_of_app, Hvals, Hnone; apply app_nil_r).
    assert (Hq : assoc k (lists ++ rest) = Some v)
      by (rewrite assoc_app, Hassoc; reflexivity).
    rewrite Hp, Hq. split.
    + intros l Hl. rewrite Hl in Hv, Hvs.
      cbn [TxFilter.list_values] in Hvs. rewrite appended_texts in Hvs.
      injection Hvs as <-. cbn [TxFilter.normList] in Hv. rewrite length_map in Hv.
      injection Hv as <-.
      split; [reflexivity | split; [reflexivity | apply filter_all]].
    + intros s Hs. rewrite Hs in Hv, Hvs.
      cbn [TxFilter.list_values] in Hvs. rewrite trimmed_text_of_text in Hvs.
      cbn [mbind result_bind] in Hvs. injection Hvs as <-.
      cbn [TxFilter.normList Coerce.string_of Coerce.convertible Json.to_string
           mbind result_bind] in Hv.
      injection Hv as <-. split; reflexivity.
  - intros k Hk.
    pose proof (proj2 (assoc_built (fun k => TxFilter.normList (get_prop txFilter k))
                         _ _ k El) (fun H => keys_apart k H Hk)) as Hnone.
    destruct (proj1 (values_built (fun k => TxFilter.scalar_values (get_prop txFilter k))
                       _ _ k Eps scalar_keys_nodup) Hk) as (vs & Hvs & Hvals).
    pose proof (proj2 (values_built (fun k => TxFilter.list_values (get_prop txFilter k))
                         _ _ k Epl list_keys_nodup) (fun H => keys_apart k H Hk)) as Hno.
    split.
    + rewrite assoc_app, Hnone. subst rest. rewrite assoc_app.
      now rewrite (assoc_map_keys (fun k => TxFilter.or_undefined (get_prop txFilter k))
                     TxFilter.scalar_keys k Hk).
    + intros s Hs. rewrite values_of_app, Hno, Hvals. cbn [app].
      rewrite Hs in Hvs. unfold TxFilter.scalar_values in Hvs.
      rewrite trimmed_text_of_text in Hvs. cbn [mbind result_bind] in Hvs.
      now injection Hvs as <-.
Qed.

Lemma browse_and_query_filters_witness :
  Notions.values_of "merchant"
    [("merchant", "Acme"); ("merchant", "Bolt "); ("city", "Oslo")]
  = List.filter Notions.not_blank ["Acme"; "Bolt "].
Proof.
  pose (f := [("employee_id", JArr []); ("merchant", JArr [JStr "Acme"; JStr "Bolt "]);
              ("city", JStr " Oslo "); ("category", JArr []); ("channel", JArr []);
              ("card_id", JArr []); ("min_amount", JStr EmptyString);
              ("max_amount", JStr EmptyString); ("start_ts", JStr EmptyString);
              ("end_ts", JStr EmptyString)] : props).
  destruct (browse_and_query_filters f "timestamp" "desc" _
              [("merchant", "Acme"); ("merchant", "Bolt "); ("city", "Oslo")]
              eq_refl eq_refl) as [Hl _].
  destruct (Hl "merchant") as [Harr _]; [cbn; tauto|].
  exact (proj1 (Harr ["Acme"; "Bolt "] eq_refl)).
Defined.

(** * The training algorithms *)

Section AlgosLoaded.

Import Algos.

Lemma from_array_ids (l : list json) (ids : list string) (objs : list (string * json)) :
  from_array l = Ok (ids, objs) -> map fst objs = ids.
Proof.
  revert ids objs. induction l as [|it rest IH]; intros ids objs H.
  - now injection H as <- <-.
  - cbn [from_array] in H.
    assert (Hrest : forall x y (r : result (list string * list (string * json))),
              r = from_array rest ->
              (r' ← r; Ok (x :: fst r', (x, y) :: snd r')) = Ok (ids, objs) ->
              map fst objs = ids).
    { intros x y r -> Hr. destruct (from_array rest) as [[a b]|e]; [|discriminate Hr].
      cbn in Hr. injection Hr as <- <-. cbn [map fst]. now rewrite (IH a b eq_refl). }
    destruct it as [| b | n | s | a | o | k];
      try (destruct (_ && _);
           [destruct (Coerce.string_of _) as [id|e]; [|discriminate H];
            cbn [mbind result_bind] in H; now apply (Hrest _ _ _ eq_refl H)
           | now apply IH]).
    now apply (Hrest _ _ _ eq_refl H).
Qed.

Lemma from_keys_ids (o : props) (keys ids : list string) (objs : list (string * json)) :
  from_keys o keys = Ok (ids, objs) -> map fst objs = ids /\ ids = keys.
Proof.
  revert ids objs. induction keys as [|k rest IH]; intros ids objs H.
  - now injection H as <- <-.
  - cbn [from_keys] in H. destruct (Coerce.string_of _) as [label|e]; [|discriminate H].
    cbn [mbind result_bind] in H.
    destruct (from_keys o rest) as [[a b]|e]; [|discriminate H].
    cbn in H. injection H as <- <-. destruct (IH a b eq_refl) as [E1 E2].
    cbn [map fst]. rewrite E1, E2. now split.
Qed.

Lemma from_array_texts (l : list string) :
  from_array (map JStr l) = Ok (l, map (fun s => (s, JStr s)) l).
Proof.
  induction l as [|s l IH]; [reflexivity|]. cbn [map from_array]. now rewrite IH.
Qed.

Lemma existsb_eqb_in (x : string) (l : list string) :
  existsb (String.eqb x) l = true <-> In x l.
Proof.
  rewrite existsb_exists. split.
  - intros (y & Hy & E). apply String.eqb_eq in E. now subst.
  - intros H. exists x. split; [exact H | apply String.eqb_refl].
Qed.

(** The fields after [loadAlgos]: as before, or the two lists of the answer
    and the algorithm chosen among them. *)
Lemma loadAlgos_cases (response : result json) (st : state) :
  loadAlgos response st = st \/
  exists ids objs,
    loadAlgos response st
    = {| availableAlgos := ids; availableAlgosObjs := objs;
         algo := match ids with
                 | first :: _ =>
                     if negb (existsb (String.eqb (algo st)) ids) then first else algo st
                 | [] => algo st
                 end |} /\
    (map fst objs = ids \/ (objs = [] /\ exists s, s <> EmptyString /\ ids = [s])).
Proof.
  unfold loadAlgos. destruct response as [raw|e]; [|now left].
  set (algosRaw := match raw with JStr s => _ | _ => raw end). clearbody algosRaw.
  destruct algosRaw as [| b | n | s | l | o | k];
    try (right; exists [], []; split; [reflexivity | now left]).
  - right. destruct s as [|c s].
    + exists [], []. split; [reflexivity | now left].
    + exists [String c s], []. split; [reflexivity|].
      right. split; [reflexivity|]. now exists (String c s).
  - destruct (from_array l) as [[ids objs]|e] eqn:E; [|now left].
    right. exists ids, objs. split; [reflexivity|]. left. now apply (from_array_ids l).
  - destruct (from_keys o (map fst o)) as [[ids objs]|e] eqn:E; [|now left].
    right. exists ids, objs. split; [reflexivity|]. left.
    now apply (from_keys_ids o (map fst o)).
Qed.

End AlgosLoaded.

(** X29. The algorithm selected after [loadAlgos].  Either the answer could
    not be used and the three fields are as before, or the lists are those
    of the answer and the selected algorithm is one of the available ones
    as soon as there is any; it is kept when it is still available, and
    replaced by the first otherwise.  The identifiers of the objects shown
    in the list are the available algorithms, in the same order, but when
    the answer is a text that is no JSON: the text is then the one
    available algorithm and there is no object for it.  An array of texts
    is taken as it is, and an object gives its keys. *)
Theorem loadAlgos_selection (response : result json) (st : Algos.state) :
  let st' := Algos.loadAlgos response st in
  (st' = st \/
   (Algos.availableAlgos st' = [] /\ Algos.algo st' = Algos.algo st) \/
   In (Algos.algo st') (Algos.availableAlgos st')) /\
  (In (Algos.algo st) (Algos.availableAlgos st') -> Algos.algo st' = Algos.algo st) /\
  (~ In (Algos.algo st) (Algos.availableAlgos st') -> st' <> st ->
   Algos.availableAlgos st' = [] \/
   exists rest, Algos.availableAlgos st' = Algos.algo st' :: rest) /\
  (st' = st \/
   map fst (Algos.availableAlgosObjs st') = Algos.availableAlgos st' \/
   (Algos.availableAlgosObjs st' = [] /\
    exists s, s <> EmptyString /\ Algos.availableAlgos st' = [s])) /\
  (forall l, response = Ok (JArr (map JStr l)) ->
     Algos.availableAlgos st' = l /\
     Algos.availableAlgosObjs st' = map (fun s => (s, JStr s)) l) /\
  (forall o, response = Ok (JObj o) ->
     st' = st \/ Algos.availableAlgos st' = map fst o).
Proof.
  cbv zeta. split; [|split; [|split; [|split; [|split]]]].
  - destruct (loadAlgos_cases response st) as [->|(ids & objs & -> & _)]; [now left|].
    right. cbn [Algos.availableAlgos Algos.algo]. destruct ids as [|first rest].
    + now left.
    + right. destruct (existsb _ _) eqn:Ex; cbn [negb].
      * now apply existsb_eqb_in.
      * now left.
  - destruct (loadAlgos_cases response st) as [->|(ids & objs & -> & _)]; [reflexivity|].
    cbn [Algos.availableAlgos Algos.algo]. intros Hin.
    apply existsb_eqb_in in Hin. rewrite Hin. now destruct ids.
  - destruct (loadAlgos_cases response st) as [->|(ids & objs & -> & _)];
      [intros _ Hne; now elim Hne|].
    cbn [Algos.availableAlgos Algos.algo]. intros Hn _.
    destruct ids as [|first rest]; [now left|]. right.
    destruct (existsb _ _) eqn:Ex; [apply existsb_eqb_in in Ex; contradiction|].
    now exists rest.
  - destruct (loadAlgos_cases response st) as [->|(ids & objs & -> & H)]; [now left|].
    right. exact H.
  - intros l ->. unfold Algos.loadAlgos. rewrite from_array_texts. now split.
  - intros o ->. unfold Algos.loadAlgos.
    destruct (Algos.from_keys o (map fst o)) as [[ids objs]|e] eqn:E; [|now left].
    right. cbn [Algos.availableAlgos]. now apply (from_keys_ids o (map fst o) ids objs).
Qed.

Lemma loadAlgos_selection_witness :
  Algos.algo
    (Algos.loadAlgos (Ok (JArr [JStr "iforest"; JStr "isolation_forest"]))
       {| Algos.availableAlgos := []; Algos.availableAlgosObjs := [];
          Algos.algo := "isolation_forest" |})
  = "isolation_forest".
Proof.
  apply (loadAlgos_selection (Ok (JArr [JStr "iforest"; JStr "isolation_forest"]))
           {| Algos.availableAlgos := []; Algos.availableAlgosObjs := [];
              Algos.algo := "isolation_forest" |}).
  cbn. tauto.
Defined.
